(* ===== verification/_CoqProject ===== *)
-Q . S2P
Prelude.v
Msgs.v
Actions.v
Stateless.v
EpochChange.v
NewEpochConfig.v
Persisted.v
MsgBuffers.v
ReqHeap.v
Sequence.v
CommittingClient.v
CommitState.v
BatchTracker.v
ClientTracker.v
Proposer.v
Checkpoints.v
Outstanding.v
EpochActive.v
Disseminator.v
EpochTarget.v
Broadcast.v
EpochTracker.v
Commits.v
StateMachine.v
ReqStore.v
Status.v
Processor.v
ClientProcessor.v
EventLog.v
SimpleWAL.v
Serializer.v
MsgFilter.v
Manglers.v
TestEventLog.v
TestRecorder.v
TextMarshal.v
Mircat.v
