(* ===== verification/Prelude.v ===== *)
(** * A verification of MirBFT

    MirBFT is a library for Byzantine fault tolerant total order.  Its core is a
    deterministic state machine that turns events (messages, ticks, hashes,
    results of the application) into actions (messages to send, log entries to
    persist, data to hash, batches to commit).  Around it, a serializer owns the
    state machine, processors perform its actions, and a test engine simulates
    whole networks in virtual time.

    This development translates that code into Rocq functions and proves what
    makes it correct.  A Go function that can panic becomes a function into
    [outcome]; one that returns an error, into [fallible] or an optional text;
    machine integers are [Z] with their wrap-around written out ([u64], [+!],
    [s64]); a nil slice and an empty one stay distinct ([slice]); structs that
    are shared by pointer live in heaps or in one record of shared components.
    A definition is named after the method it models, [<receiver>_<method>].

    ** The files

    - [Prelude]: outcomes, machine integers, slices, record update, automation.
    - [Msgs], [Actions]: the protobuf messages ([pkg/pb]) and the lists of
      actions and events ([actions.go], [events.go]).
    - [Stateless], [EpochChange], [NewEpochConfig]: quorums, buckets, bit masks,
      the parsing of epoch changes and the choice of a new epoch's start
      ([stateless.go], [epoch_change.go]).
    - [Persisted], [MsgBuffers], [ReqHeap], [ClientTracker], [Proposer],
      [Outstanding], [BatchTracker], [Checkpoints], [CommittingClient],
      [CommitState]: the log, the message buffers, the lists of available and
      ready requests, proposals, the requests batches wait for, batches,
      checkpoints, and the commits of clients and batches.
    - [Sequence], [EpochActive]: one sequence number through the three phases
      ([sequence.go]), and an epoch in progress ([epoch_active.go]).
    - [Disseminator]: acknowledgements and certificates of client requests
      ([client_hash_disseminator.go]).
    - [EpochTarget], [EpochTracker]: the change of epochs ([epoch_target.go],
      [epoch_tracker.go]).  [Broadcast] proves the agreement of its echo and
      ready phases over a network of nodes.
    - [Commits], [StateMachine]: what no component but the commit state does to
      the deliveries, and the composition of all components
      ([state_machine.go]).
    - [Serializer], [Processor], [ClientProcessor], [ReqStore], [SimpleWAL],
      [EventLog], [MsgFilter]: the consumer's side ([serializer.go],
      [mirbft.go], [processor.go], [client_processor.go], [pkg/reqstore],
      [pkg/simplewal], [pkg/eventlog], [msgfilter.go]).
    - [Manglers], [TestEventLog], [TestRecorder]: the test engine
      ([pkg/testengine]).
    - [Status]: the reports of all components and their display ([pkg/status]
      and the methods [status]).  [Mircat], [TextMarshal]: the tool that prints
      and replays recorded logs ([cmd/mircat]).

    ** What is proved

    - Order.  A machine delivers batches with consecutive sequence numbers
      whatever events arrive ([StateMachine]); the serializer loses and reorders
      nothing, so the consumer receives them in this order ([Serializer]), and
      the processor hands them to the application so ([Processor]).
    - Votes.  Preparing and committing need votes of distinct nodes, votes are
      backed by the log ([Sequence]), checkpoints become stable on a quorum
      ([Checkpoints]), certificates count what was acknowledged
      ([Disseminator]).
    - Epochs.  A batch that may have committed survives the choice of a new
      epoch ([NewEpochConfig], [EpochTarget]), correct nodes that start an epoch
      start the same one ([Broadcast]), an epoch is left only when it is done,
      and its targets follow the protocol ([EpochTracker]).
    - Durability.  A restart rebuilds the log the state machine had
      ([Persisted], [SimpleWAL]), no message leaves before the log is synced
      ([Processor]), what is reported as stored can be retrieved and has one
      digest ([ClientProcessor], over the interface that [ReqStore] discharges),
      and a stopped recorder has recorded everything ([EventLog]).
    - Termination and totality of the loops of votes and of epoch changes
      ([Sequence], [EpochTarget]); independence of the order in which Go ranges
      over maps ([NewEpochConfig], [Disseminator]).
    - Runs.  The simulations of [TestRecorder] evaluate the whole program: one
      node with and without a crash, four nodes with a silent one.  The run of
      one node takes the 52 events its Go test states.  (The four-node run of
      [recorder_test.go] evaluates to the 46785 events of that test as well, in
      some minutes, and is not part of the build.)
    - Tools.  A status request returns and can be displayed, and its table shows
      the state of every sequence, if the buckets divide the sequences
      ([Status]); the text of a message is the one its reference definition
      gives ([TextMarshal]); and a replay of what nodes have recorded ends in
      the states of the recorded nodes, however their events interleave
      ([Mircat]).
    - Defects.  Some theorems prove that the code does not do what it means to:
      proposals that fail are lost, a restart may report another digest, the
      first actions of a node are not offered, the write-ahead log is never
      truncated, a report leaves out the last request of a client and never
      displays a checkpoint, and others that the text of the theorems names.

    ** Parameters

    Code outside the repository is a parameter: the order of a range over a map
    ([MapRange], [ConfigRange], [CheckpointRange], [CheckpointOrders],
    [EpochRange]), the size and equality of protobuf messages ([ProtoSize],
    [ProtoEqual]), the encodings ([EventCodec], [EntryCodec]), the database
    ([KVStore]), the log library ([WalLog]), hash functions and the answers of
    the application, the log and the network ([Consumer], [Hasher]), the
    reflection of messages and the parsing of flags ([Mircat]).  The laws
    the proofs use are fields of classes or hypotheses, and each has an
    instance that the witnesses use.

    ** Fuel

    Loops that are not structural take a bound that is enough: 8 state changes
    of a sequence; the distance to the end of the window plus one for the
    draining of commits and the skipping of requests; the length of a list plus
    one for the proposer and the available requests; 3 new checkpoint windows;
    the number of sequences for proposals and commits; 10 state changes of an
    epoch target; one checkpoint interval for the
    alignment after a restart.  The loop at the end of [applyEvent] takes its
    bound as an argument, and a run that returns is the run for every larger
    bound ([applyEvent_fuel]); so does the loop that reads an event of a
    simulation, which a mangler can keep from ending.  The columns of a displayed
    report are at most 10001; a log of [n] bytes has at most [n] records.

    ** Not modelled

    Log output; opening and closing of files and databases; the compression
    of event logs; the locks of methods that are single atomic steps; Go's
    scheduling, of which only the interleaving of such steps is kept. *)
From Stdlib Require Export ZArith Lia.
From stdpp Require Export base tactics numbers option strings list_numbers fin_maps fin_sets gmap list.

(** ** Notation scope of the development *)
Declare Scope mir_scope.
Delimit Scope mir_scope with mir.
#[global] Open Scope Z_scope.
#[global] Open Scope mir_scope.

(** ** Panics, errors and fuel *)

(** The result of running Go code: a value, a [panic] with its reason, or
    running out of the fuel that bounds a Go [for] loop in the model. *)
Inductive outcome (A : Type) : Type :=
| Ok (a : A)
| Panic (why : string)
| OutOfFuel.

Arguments Ok {A} _.
Arguments Panic {A} _.
Arguments OutOfFuel {A}.

#[global] Instance outcome_ret : MRet outcome := fun A a => Ok a.

#[global] Instance outcome_bind : MBind outcome := fun A B f m =>
  match m with
  | Ok a => f a
  | Panic why => Panic why
  | OutOfFuel => OutOfFuel
  end.

#[global] Instance outcome_fmap : FMap outcome := fun A B f m =>
  match m with
  | Ok a => Ok (f a)
  | Panic why => Panic why
  | OutOfFuel => OutOfFuel
  end.

(** ** Errors *)

(** The pair [(value, error)] a Go function returns: the value when the error
    is nil, else the text of the error. *)
Inductive fallible (A : Type) : Type :=
| Returned (a : A)
| Failed (error : string).

Arguments Returned {A} _.
Arguments Failed {A} _.

(** [assertTrue], [assertEqual], ... of [state_machine.go] panic when their
    condition fails; all of them reduce to this guard on the condition. *)
Definition assertTrue (value : bool) (text : string) : outcome unit :=
  if value then Ok tt else Panic text.

(** Dereferencing a pointer or indexing a slice that may be absent. *)
Definition deref {A : Type} (o : option A) (why : string) : outcome A :=
  match o with Some a => Ok a | None => Panic why end.

(** A [for _, x := range l] loop whose body updates a state. *)
Fixpoint forRange {A St : Type} (body : A -> St -> outcome St) (l : list A) (st : St) : outcome St :=
  match l with
  | [] => Ok st
  | x :: l' => st' ← body x st; forRange body l' st'
  end.

(** ** Machine integers *)

(** Go's [uint64], [uint32] and [int] (64 bits wide) are kept as [Z] in
    their range; arithmetic that can leave the range is wrapped here. *)
Definition u64 (x : Z) : Z := x mod 2 ^ 64.
Definition u32 (x : Z) : Z := x mod 2 ^ 32.
Definition s64 (x : Z) : Z := if u64 x <? 2 ^ 63 then u64 x else u64 x - 2 ^ 64.
(** The conversion [int32(x)]. *)
Definition s32 (x : Z) : Z := if u32 x <? 2 ^ 31 then u32 x else u32 x - 2 ^ 32.

Definition add64 (a b : Z) : Z := u64 (a + b).
Definition sub64 (a b : Z) : Z := u64 (a - b).
Definition mul64 (a b : Z) : Z := u64 (a * b).
Definition inU64 (x : Z) : Prop := 0 <= x < 2 ^ 64.

Notation "a +! b" := (add64 a b) (at level 50, left associativity) : mir_scope.
Notation "a -! b" := (sub64 a b) (at level 50, left associativity) : mir_scope.

(** Go's [%] and [/] on unsigned operands: dividing by zero panics. *)
Definition umod (a b : Z) : outcome Z :=
  if b =? 0 then Panic "integer divide by zero" else Ok (a mod b).
Definition udiv (a b : Z) : outcome Z :=
  if b =? 0 then Panic "integer divide by zero" else Ok (a / b).

(** ** Byte slices *)

(** A Go [[]byte]: [None] is the nil slice, which differs from the empty
    slice only in the test [x == nil]; a byte is a [Z] in [0, 256). *)
Abbreviation bytes := (list Z).
Abbreviation slice := (option (list Z)).

(** The conversion [string(b)]: nil and the empty slice give the same key. *)
Definition str (b : slice) : bytes := default [] b.
(** [len(b)]. *)
Definition slen (b : slice) : nat := length (str b).
(** [b != nil]. *)
Definition notNil (b : slice) : bool := match b with Some _ => true | None => false end.
(** [bytes.Equal]. *)
Definition bytesEqual (a b : slice) : bool := bool_decide (str a = str b).

(** ** Slices *)

(** [l[i] = x] on a slice: out of range panics. *)
Definition sliceSet {A : Type} (l : list A) (i : Z) (x : A) : outcome (list A) :=
  if (0 <=? i) && (i <? Z.of_nat (length l)) then Ok (<[Z.to_nat i := x]> l)
  else Panic "index out of range".
(** [l[i]]. *)
Definition sliceGet {A : Type} (l : list A) (i : Z) : outcome A :=
  if i <? 0 then Panic "index out of range" else deref (l !! Z.to_nat i) "index out of range".
(** [l[i:]]. *)
Definition sliceFrom {A : Type} (l : list A) (i : Z) : outcome (list A) :=
  if (0 <=? i) && (i <=? Z.of_nat (length l)) then Ok (drop (Z.to_nat i) l)
  else Panic "slice bounds out of range".
(** [make([]T, n)] with the zero value [x]. *)
Definition makeSlice {A : Type} (n : Z) (x : A) : outcome (list A) :=
  if n <? 0 then Panic "makeslice: len out of range" else Ok (replicate (Z.to_nat n) x).

(** ** Record updates *)

(** [Eta R] rebuilds a record from its fields; [Updater f] is derived from it
    by replacing the projection [f], so that [r <| f := v |>] is the Go
    assignment [r.f = v]. *)
Class Eta (R : Type) := mkEta { eta_record : R -> R }.
Arguments mkEta {R} _.
Class Updater {R E : Type} (field : R -> E) := update_field : (E -> E) -> R -> R.

Ltac derive_updater R field :=
  let inst := constr:(_ : Eta R) in
  let body := eval hnf in (@eta_record R inst) in
  lazymatch body with
  | context [field] =>
    lazymatch eval pattern field in body with
    | ?tmpl _ =>
      let g := eval cbv beta in (fun up => tmpl (fun r => up (field r))) in
      exact g
    end
  end.

#[global] Hint Extern 1 (@Updater ?R _ ?field) => derive_updater R field : typeclass_instances.

Notation "r <| f := v |>" := (update_field (field := f) (fun _ => v) r)
  (at level 1, left associativity, f at level 9, format "r  <| f  :=  v |>") : mir_scope.
Notation "r <| f ::= g |>" := (update_field (field := f) g r)
  (at level 1, left associativity, f at level 9, format "r  <| f  ::=  g |>") : mir_scope.

#[global] Arguments str : simpl never.
#[global] Arguments slen : simpl never.
#[global] Arguments bytesEqual : simpl never.
#[global] Arguments u64 : simpl never.
#[global] Arguments u32 : simpl never.
#[global] Arguments s64 : simpl never.
#[global] Arguments add64 : simpl never.
#[global] Arguments sub64 : simpl never.
#[global] Arguments mul64 : simpl never.
#[global] Arguments umod : simpl never.
#[global] Arguments udiv : simpl never.

(** ** Lemmas and automation *)

Lemma u64_small (x : Z) : 0 <= x < 2 ^ 64 -> u64 x = x.
Proof. intros H. unfold u64. by apply Z.mod_small. Qed.

Lemma u64_range (x : Z) : 0 <= u64 x < 2 ^ 64.
Proof. apply Z.mod_pos_bound. lia. Qed.

Lemma add64_small (a b : Z) : 0 <= a + b < 2 ^ 64 -> a +! b = a + b.
Proof. apply u64_small. Qed.

Lemma sub64_small (a b : Z) : 0 <= a - b < 2 ^ 64 -> a -! b = a - b.
Proof. apply u64_small. Qed.

Lemma bind_Ok {A B : Type} (m : outcome A) (k : A -> outcome B) (b : B) :
  m ≫= k = Ok b <-> exists a, m = Ok a /\ k a = Ok b.
Proof.
  destruct m; cbn; split; try (intros (? & ? & ?); congruence); try discriminate; eauto.
Qed.

Lemma bind_ok {A B : Type} (a : A) (k : A -> outcome B) : Ok a ≫= k = k a.
Proof. done. Qed.

Lemma assertTrue_Ok (c : bool) (text : string) (u : unit) :
  assertTrue c text = Ok u <-> c = true.
Proof. destruct c, u; cbn; split; congruence. Qed.

Lemma deref_Ok {A : Type} (o : option A) (why : string) (a : A) :
  deref o why = Ok a <-> o = Some a.
Proof. destruct o; cbn; split; congruence. Qed.

Lemma umod_pos (a b : Z) : 0 < b -> umod a b = Ok (a mod b).
Proof. intros H. unfold umod. destruct (Z.eqb_spec b 0); [lia | done]. Qed.

Lemma bytesEqual_spec (a b : slice) : bytesEqual a b = true <-> str a = str b.
Proof. apply bool_decide_eq_true. Qed.

(** Removes the wrap-around wherever [lia] finds that the value is in range. *)
Ltac nowrap :=
  repeat match goal with
  | |- context [add64 ?a ?b] => rewrite (add64_small a b) by lia
  | |- context [sub64 ?a ?b] => rewrite (sub64_small a b) by lia
  | |- context [u64 ?a] => rewrite (u64_small a) by lia
  | H : context [add64 ?a ?b] |- _ => rewrite (add64_small a b) in H by lia
  | H : context [sub64 ?a ?b] |- _ => rewrite (sub64_small a b) in H by lia
  | H : context [u64 ?a] |- _ => rewrite (u64_small a) in H by lia
  end.

(** Splits the sequence of steps of a run that returned a value. *)
Ltac runs :=
  repeat match goal with
  | H : Ok _ = Ok _ |- _ => injection H as H; subst
  | H : (_, _) = (_, _) |- _ => injection H as; subst
  | H : Panic _ = Ok _ |- _ => discriminate H
  | H : OutOfFuel = Ok _ |- _ => discriminate H
  | H : mret _ = Ok _ |- _ => unfold mret, outcome_ret in H
  | H : _ ≫= _ = Ok _ |- _ => apply bind_Ok in H as (? & ? & ?)
  | H : assertTrue _ _ = Ok _ |- _ => apply assertTrue_Ok in H
  | H : deref _ _ = Ok _ |- _ => apply deref_Ok in H
  | H : exists _, _ |- _ => destruct H
  | H : _ /\ _ |- _ => destruct H
  | x : _ * _ |- _ => destruct x
  end.

Lemma forRange_app {A St : Type} (body : A -> St -> outcome St) (l1 l2 : list A) (st : St) :
  forRange body (l1 ++ l2) st = (forRange body l1 st ≫= forRange body l2).
Proof.
  revert st. induction l1 as [|x l1 IH]; intros st; cbn; [done |].
  destruct (body x st); cbn; [apply IH | done | done].
Qed.

(** A loop that returned a value preserved every invariant of its body. *)
Lemma forRange_inv {A St : Type} (P : St -> Prop) (body : A -> St -> outcome St) (l : list A) (st st' : St) :
  (forall x s s', x ∈ l -> P s -> body x s = Ok s' -> P s') ->
  P st -> forRange body l st = Ok st' -> P st'.
Proof.
  revert st. induction l as [|x l IH]; intros st Hb HP Hr; cbn in Hr; runs; [done |].
  eapply IH; [| | done].
  - intros y s s' Hy. apply Hb. by right.
  - eapply Hb; [by left | done | done].
Qed.

Lemma forRange_total {A St : Type} (body : A -> St -> outcome St) (P : A -> Prop) (l : list A) (st : St) :
  (forall x st, P x -> exists st', body x st = Ok st') -> Forall P l -> exists st', forRange body l st = Ok st'.
Proof.
  intros Hb Hl. revert st. induction Hl as [|x l Hx _ IH]; intros st; cbn; [eauto |].
  destruct (Hb x st Hx) as [st' ->]. apply IH.
Qed.

(** A loop whose body always returns and preserves an invariant. *)
Lemma forRange_ok {A St : Type} (P : St -> Prop) (body : A -> St -> outcome St) (l : list A) (st : St) :
  (forall x s, x ∈ l -> P s -> exists s', body x s = Ok s' /\ P s') -> P st ->
  exists st', forRange body l st = Ok st' /\ P st'.
Proof.
  revert st. induction l as [|x l IH]; intros st Hb HP; cbn; [eauto |].
  destruct (Hb x st) as (st' & -> & HP'); [by left | done |]. apply IH; [| done]. intros y s Hy. apply Hb. by right.
Qed.

(** Loops whose bodies agree on the states of an invariant. *)
Lemma forRange_ext {A St : Type} (P : St -> Prop) (f g : A -> St -> outcome St) (l : list A) (st : St) :
  (forall x s, x ∈ l -> P s -> f x s = g x s) -> (forall x s s', x ∈ l -> P s -> f x s = Ok s' -> P s') -> P st ->
  forRange f l st = forRange g l st.
Proof.
  revert st. induction l as [|x l IH]; intros st Hfg Hp HP; cbn; [done |]. rewrite <- (Hfg x st) by (done || by left).
  destruct (f x st) as [st' | |] eqn:Hf; [| done | done]. cbn. apply IH.
  - intros y s Hy. apply Hfg. by right.
  - intros y s s' Hy. apply Hp. by right.
  - eapply Hp; [by left | exact HP | done].
Qed.

Lemma filter_all {A : Type} (P : A -> Prop) `{Hdec : !forall x, Decision (P x)} (l : list A) :
  (forall x, x ∈ l -> P x) -> filter P l = l.
Proof.
  induction l as [|x l IH]; intros HP; [done |].
  rewrite filter_cons_True by (apply HP; by left). f_equal. apply IH. intros y Hy. apply HP. by right.
Qed.

Lemma filter_none {A : Type} (P : A -> Prop) `{Hdec : !forall x, Decision (P x)} (l : list A) :
  (forall x, x ∈ l -> ~ P x) -> filter P l = [].
Proof.
  induction l as [|x l IH]; intros HP; [done |].
  rewrite filter_cons_False by (apply HP; by left). apply IH. intros y Hy. apply HP. by right.
Qed.

(** *** Code that returns or panics *)

(** A run that does not exhaust its fuel: it returns a value or panics. *)
Definition returns {A : Type} (m : outcome A) : Prop := m <> OutOfFuel.

Lemma returns_Ok {A : Type} (a : A) : returns (Ok a).
Proof. discriminate. Qed.
Lemma returns_Panic {A : Type} (why : string) : returns (@Panic A why).
Proof. discriminate. Qed.
Lemma returns_bind {A B : Type} (m : outcome A) (k : A -> outcome B) :
  returns m -> (forall a, m = Ok a -> returns (k a)) -> returns (m ≫= k).
Proof. destruct m; cbn; intros H1 H2; [by apply H2 | discriminate | done]. Qed.
Lemma returns_deref {A : Type} (o : option A) (why : string) : returns (deref o why).
Proof. by destruct o. Qed.
Lemma returns_assertTrue (b : bool) (text : string) : returns (assertTrue b text).
Proof. by destruct b. Qed.
Lemma returns_umod (a b : Z) : returns (umod a b).
Proof. unfold umod. by case_match. Qed.
Lemma returns_sliceGet {A : Type} (l : list A) (i : Z) : returns (sliceGet l i).
Proof. unfold sliceGet. case_match; [done | apply returns_deref]. Qed.
Lemma returns_sliceSet {A : Type} (l : list A) (i : Z) (x : A) : returns (sliceSet l i x).
Proof. unfold sliceSet. by case_match. Qed.
Lemma returns_sliceFrom {A : Type} (l : list A) (i : Z) : returns (sliceFrom l i).
Proof. unfold sliceFrom. by case_match. Qed.
Lemma returns_makeSlice {A : Type} (n : Z) (x : A) : returns (makeSlice n x).
Proof. unfold makeSlice. by case_match. Qed.
Lemma returns_forRange {A St : Type} (body : A -> St -> outcome St) (l : list A) (st : St) :
  (forall x s, returns (body x s)) -> returns (forRange body l st).
Proof.
  intros Hb. revert st. induction l as [|x l IH]; intros st; cbn; [apply returns_Ok |].
  apply returns_bind; auto.
Qed.

Create HintDb mir.
#[export] Hint Resolve u64_range : mir.
#[export] Hint Resolve returns_Ok returns_Panic returns_deref returns_assertTrue returns_umod
  returns_sliceGet returns_sliceSet returns_sliceFrom returns_makeSlice : mir.
Create Rewrite HintDb mir.
#[export] Hint Rewrite @length_insert @length_app @length_map @length_replicate : mir.

(** Shows that straight-line code returns, up to the calls it makes. *)
Ltac code_returns :=
  repeat match goal with
  | |- returns (_ ≫= _) => apply returns_bind; [| intros ? _]
  | |- returns (forRange _ _ _) => apply returns_forRange; intros ? ?
  | |- returns (let '(_, _) := ?x in _) => destruct x
  | |- returns (match ?x with _ => _ end) => destruct x
  | |- returns (if ?x then _ else _) => destruct x
  | |- returns _ => solve [auto with mir]
  | |- returns ((fun _ => _) _) => cbv beta
  end.
