(* ===== verification/Msgs.v ===== *)
(** * Protocol data

    The records and tagged unions of [pkg/pb/msgs/msgs.pb.go] and
    [pkg/pb/state/state.pb.go] the state machine computes with.  A [oneof]
    is an inductive type with the source's cases and a last case for the
    unset union; a message field is named after its Go field with a short
    prefix of its record.  Pointers to nested messages are modelled as the
    nested value (the presence checks are the subject of [msgfilter.go]);
    [bytes] fields are slices, so that nil and empty stay distinct. *)
From S2P Require Import Prelude.

(** ** Network state (msgs.pb.go) *)

Record NetworkState_Config := mkConfig {
  nc_Nodes : list Z;
  nc_CheckpointInterval : Z;   (* int32 *)
  nc_MaxEpochLength : Z;       (* uint64 *)
  nc_NumberOfBuckets : Z;      (* int32 *)
  nc_F : Z;                    (* int32 *)
}.

Record NetworkState_Client := mkClientState {
  cl_Id : Z;
  cl_Width : Z;                         (* uint32 *)
  cl_WidthConsumedLastCheckpoint : Z;   (* uint32 *)
  cl_LowWatermark : Z;
  cl_CommittedMask : bytes;
}.

Inductive Reconfiguration :=
| Reconfiguration_NewClient (id width : Z)
| Reconfiguration_RemoveClient (id : Z)
| Reconfiguration_NewConfig (config : NetworkState_Config)
| Reconfiguration_unset.

Record NetworkState := mkNetworkState {
  ns_Config : NetworkState_Config;
  ns_Clients : list NetworkState_Client;
  ns_PendingReconfigurations : list Reconfiguration;
  ns_Reconfigured : bool;
}.

(** ** Requests, epochs and certificates (msgs.pb.go) *)

Record RequestAck := mkAck {
  ra_ClientId : Z;
  ra_ReqNo : Z;
  ra_Digest : slice;
}.

Record EpochConfig := mkEpochConfig {
  ec_Number : Z;
  ec_Leaders : list Z;
  ec_PlannedExpiration : Z;
}.

Record Checkpoint := mkCheckpoint {
  ckp_SeqNo : Z;
  ckp_Value : slice;
}.

Record EpochChange_SetEntry := mkSetEntry {
  se_Epoch : Z;
  se_SeqNo : Z;
  se_Digest : slice;
}.

Record EpochChange := mkEpochChange {
  ech_NewEpoch : Z;
  ech_Checkpoints : list Checkpoint;
  ech_PSet : list EpochChange_SetEntry;
  ech_QSet : list EpochChange_SetEntry;
}.

Record NewEpochConfig := mkNewEpochConfig {
  nec_Config : EpochConfig;
  nec_StartingCheckpoint : Checkpoint;
  nec_FinalPreprepares : list slice;
}.

Record NewEpoch_RemoteEpochChange := mkRemoteEpochChange {
  rec_NodeId : Z;
  rec_Digest : slice;
}.

Record NewEpoch := mkNewEpoch {
  ne_NewConfig : NewEpochConfig;
  ne_EpochChanges : list NewEpoch_RemoteEpochChange;
}.

(** ** Log entries (msgs.pb.go) *)

Record QEntry := mkQEntry { q_SeqNo : Z; q_Digest : slice; q_Requests : list RequestAck }.
Record PEntry := mkPEntry { p_SeqNo : Z; p_Digest : slice }.
Record CEntry := mkCEntry { c_SeqNo : Z; c_CheckpointValue : slice; c_NetworkState : NetworkState }.
Record NEntry := mkNEntry { n_SeqNo : Z; n_EpochConfig : EpochConfig }.
Record FEntry := mkFEntry { f_EndsEpochConfig : EpochConfig }.
Record ECEntry := mkECEntry { ece_EpochNumber : Z }.
Record TEntry := mkTEntry { t_SeqNo : Z; t_Value : slice }.
Record Suspect := mkSuspect { sus_Epoch : Z }.

Inductive Persistent :=
| Persistent_QEntry (e : QEntry)
| Persistent_PEntry (e : PEntry)
| Persistent_CEntry (e : CEntry)
| Persistent_NEntry (e : NEntry)
| Persistent_FEntry (e : FEntry)
| Persistent_ECEntry (e : ECEntry)
| Persistent_TEntry (e : TEntry)
| Persistent_Suspect (e : Suspect)
| Persistent_unset.

(** ** Network messages (msgs.pb.go) *)

Record Preprepare := mkPreprepare { pp_SeqNo : Z; pp_Epoch : Z; pp_Batch : list RequestAck }.
Record Prepare := mkPrepare { prep_SeqNo : Z; prep_Epoch : Z; prep_Digest : slice }.
Record Commit := mkCommit { com_SeqNo : Z; com_Epoch : Z; com_Digest : slice }.
Record EpochChangeAck := mkEpochChangeAck { eca_Originator : Z; eca_EpochChange : EpochChange }.
Record FetchBatch := mkFetchBatch { fb_SeqNo : Z; fb_Digest : slice }.
Record ForwardBatch := mkForwardBatch {
  fwb_SeqNo : Z; fwb_RequestAcks : list RequestAck; fwb_Digest : slice }.
Record ForwardRequest := mkForwardRequest { fwr_RequestAck : RequestAck; fwr_RequestData : slice }.

Inductive Msg :=
| Msg_Preprepare (m : Preprepare)
| Msg_Prepare (m : Prepare)
| Msg_Commit (m : Commit)
| Msg_Checkpoint (m : Checkpoint)
| Msg_Suspect (m : Suspect)
| Msg_EpochChange (m : EpochChange)
| Msg_EpochChangeAck (m : EpochChangeAck)
| Msg_NewEpoch (m : NewEpoch)
| Msg_NewEpochEcho (m : NewEpochConfig)
| Msg_NewEpochReady (m : NewEpochConfig)
| Msg_FetchBatch (m : FetchBatch)
| Msg_ForwardBatch (m : ForwardBatch)
| Msg_FetchRequest (m : RequestAck)
| Msg_ForwardRequest (m : ForwardRequest)
| Msg_RequestAck (m : RequestAck)
| Msg_unset.

(** ** Events and actions (state.pb.go) *)

Record EventInitialParameters := mkInitialParameters {
  ip_Id : Z;
  ip_BatchSize : Z;              (* uint32 *)
  ip_HeartbeatTicks : Z;         (* uint32 *)
  ip_SuspectTicks : Z;           (* uint32 *)
  ip_NewEpochTimeoutTicks : Z;   (* uint32 *)
  ip_BufferSize : Z;             (* uint32 *)
}.

Record EventCheckpointResult := mkCheckpointResult {
  ckr_SeqNo : Z;
  ckr_Value : slice;
  ckr_NetworkState : NetworkState;
  ckr_Reconfigured : bool;
}.

Record HashOrigin_Batch := mkHashBatch {
  hb_Source : Z; hb_Epoch : Z; hb_SeqNo : Z; hb_RequestAcks : list RequestAck }.
Record HashOrigin_VerifyBatch := mkHashVerifyBatch {
  hv_Source : Z; hv_SeqNo : Z; hv_RequestAcks : list RequestAck; hv_ExpectedDigest : slice }.
Record HashOrigin_EpochChange := mkHashEpochChange {
  he_Source : Z; he_Origin : Z; he_EpochChange : EpochChange }.

Inductive HashOrigin :=
| HashOrigin_isBatch (o : HashOrigin_Batch)
| HashOrigin_isEpochChange (o : HashOrigin_EpochChange)
| HashOrigin_isVerifyBatch (o : HashOrigin_VerifyBatch)
| HashOrigin_unset.

Record ActionCheckpoint := mkActionCheckpoint {
  ac_SeqNo : Z;
  ac_NetworkConfig : NetworkState_Config;
  ac_ClientStates : list NetworkState_Client;
}.

Record ActionStateTarget := mkActionStateTarget { ast_SeqNo : Z; ast_Value : slice }.

Inductive Action :=
| Action_Send (targets : list Z) (msg : Msg)
| Action_Hash (data : list slice) (origin : HashOrigin)
| Action_AppendWriteAhead (index : Z) (data : Persistent)
| Action_TruncateWriteAhead (index : Z)
| Action_Commit (batch : QEntry)
| Action_Checkpoint (cp : ActionCheckpoint)
| Action_AllocatedRequest (clientId reqNo : Z)
| Action_CorrectRequest (ack : RequestAck)
| Action_ForwardRequest (targets : list Z) (ack : RequestAck)
| Action_StateTransfer (target : ActionStateTarget).

Inductive Event :=
| Event_Initialize (params : EventInitialParameters)
| Event_LoadPersistedEntry (index : Z) (entry : Persistent)
| Event_CompleteInitialization
| Event_HashResult (digest : slice) (origin : HashOrigin)
| Event_CheckpointResult (result : EventCheckpointResult)
| Event_RequestPersisted (ack : RequestAck)
| Event_StateTransferComplete (seqNo : Z) (value : slice) (state : NetworkState)
| Event_StateTransferFailed (seqNo : Z) (value : slice)
| Event_Step (source : Z) (msg : Msg)
| Event_TickElapsed
| Event_ActionsReceived
| Event_unset.

(** ** Decidable equality *)

#[global] Instance Config_eq_dec : EqDecision NetworkState_Config.
Proof. solve_decision. Defined.
#[global] Instance ClientState_eq_dec : EqDecision NetworkState_Client.
Proof. solve_decision. Defined.
#[global] Instance Reconfiguration_eq_dec : EqDecision Reconfiguration.
Proof. solve_decision. Defined.
#[global] Instance NetworkState_eq_dec : EqDecision NetworkState.
Proof. solve_decision. Defined.
#[global] Instance RequestAck_eq_dec : EqDecision RequestAck.
Proof. solve_decision. Defined.
#[global] Instance EpochConfig_eq_dec : EqDecision EpochConfig.
Proof. solve_decision. Defined.
#[global] Instance Checkpoint_eq_dec : EqDecision Checkpoint.
Proof. solve_decision. Defined.
#[global] Instance SetEntry_eq_dec : EqDecision EpochChange_SetEntry.
Proof. solve_decision. Defined.
#[global] Instance EpochChange_eq_dec : EqDecision EpochChange.
Proof. solve_decision. Defined.
#[global] Instance NewEpochConfig_eq_dec : EqDecision NewEpochConfig.
Proof. solve_decision. Defined.
#[global] Instance QEntry_eq_dec : EqDecision QEntry.
Proof. solve_decision. Defined.
#[global] Instance Preprepare_eq_dec : EqDecision Preprepare.
Proof. solve_decision. Defined.
#[global] Instance Prepare_eq_dec : EqDecision Prepare.
Proof. solve_decision. Defined.
#[global] Instance Commit_eq_dec : EqDecision Commit.
Proof. solve_decision. Defined.
#[global] Instance Suspect_eq_dec : EqDecision Suspect.
Proof. solve_decision. Defined.
#[global] Instance EpochChangeAck_eq_dec : EqDecision EpochChangeAck.
Proof. solve_decision. Defined.
#[global] Instance RemoteEpochChange_eq_dec : EqDecision NewEpoch_RemoteEpochChange.
Proof. solve_decision. Defined.
#[global] Instance NewEpoch_eq_dec : EqDecision NewEpoch.
Proof. solve_decision. Defined.
#[global] Instance FetchBatch_eq_dec : EqDecision FetchBatch.
Proof. solve_decision. Defined.
#[global] Instance ForwardBatch_eq_dec : EqDecision ForwardBatch.
Proof. solve_decision. Defined.
#[global] Instance ForwardRequest_eq_dec : EqDecision ForwardRequest.
Proof. solve_decision. Defined.
#[global] Instance Msg_eq_dec : EqDecision Msg.
Proof. solve_decision. Defined.
#[global] Instance PEntry_eq_dec : EqDecision PEntry.
Proof. solve_decision. Defined.
#[global] Instance CEntry_eq_dec : EqDecision CEntry.
Proof. solve_decision. Defined.
#[global] Instance NEntry_eq_dec : EqDecision NEntry.
Proof. solve_decision. Defined.
#[global] Instance FEntry_eq_dec : EqDecision FEntry.
Proof. solve_decision. Defined.
#[global] Instance ECEntry_eq_dec : EqDecision ECEntry.
Proof. solve_decision. Defined.
#[global] Instance TEntry_eq_dec : EqDecision TEntry.
Proof. solve_decision. Defined.
#[global] Instance Persistent_eq_dec : EqDecision Persistent.
Proof. solve_decision. Defined.
#[global] Instance InitialParameters_eq_dec : EqDecision EventInitialParameters.
Proof. solve_decision. Defined.
#[global] Instance CheckpointResult_eq_dec : EqDecision EventCheckpointResult.
Proof. solve_decision. Defined.
#[global] Instance HashBatch_eq_dec : EqDecision HashOrigin_Batch.
Proof. solve_decision. Defined.
#[global] Instance HashVerifyBatch_eq_dec : EqDecision HashOrigin_VerifyBatch.
Proof. solve_decision. Defined.
#[global] Instance HashEpochChange_eq_dec : EqDecision HashOrigin_EpochChange.
Proof. solve_decision. Defined.
#[global] Instance HashOrigin_eq_dec : EqDecision HashOrigin.
Proof. solve_decision. Defined.
#[global] Instance Event_eq_dec : EqDecision Event.
Proof. solve_decision. Defined.
