(* ===== verification/Actions.v ===== *)
(** * Action and event lists

    [pkg/statemachine/actions.go] and [pkg/statemachine/events.go]: the
    builders the components use to accumulate requests to the consumer, and
    the consumer to accumulate results.  A Go list whose inner [*list.List]
    is nil and one whose inner list is empty are indistinguishable through
    every method, so both are the empty Rocq list. *)
From S2P Require Import Prelude Msgs.

Abbreviation ActionList := (list Action).
Abbreviation EventList := (list Event).

(** ** ActionList *)

Definition ActionList_PushBack (al : ActionList) (action : Action) : ActionList := al ++ [action].
Definition ActionList_Len (al : ActionList) : Z := Z.of_nat (length al).
Definition ActionList_isEmpty (al : ActionList) : bool := ActionList_Len al =? 0.
Definition ActionList_concat (al o : ActionList) : ActionList := al ++ o.
Definition ActionList_PushBackList (al o : ActionList) : ActionList := ActionList_concat al o.

Definition ActionList_Send (al : ActionList) (targets : list Z) (msg : Msg) : ActionList :=
  ActionList_PushBack al (Action_Send targets msg).
Definition ActionList_AllocateRequest (al : ActionList) (clientID reqNo : Z) : ActionList :=
  ActionList_PushBack al (Action_AllocatedRequest clientID reqNo).
Definition ActionList_ForwardRequest (al : ActionList) (targets : list Z) (ack : RequestAck) : ActionList :=
  ActionList_PushBack al (Action_ForwardRequest targets ack).
Definition ActionList_Truncate (al : ActionList) (index : Z) : ActionList :=
  ActionList_PushBack al (Action_TruncateWriteAhead index).
Definition ActionList_Persist (al : ActionList) (index : Z) (p : Persistent) : ActionList :=
  ActionList_PushBack al (Action_AppendWriteAhead index p).
Definition ActionList_Commit (al : ActionList) (qEntry : QEntry) : ActionList :=
  ActionList_PushBack al (Action_Commit qEntry).
Definition ActionList_Checkpoint (al : ActionList) (seqNo : Z) (nc : NetworkState_Config)
    (clientStates : list NetworkState_Client) : ActionList :=
  ActionList_PushBack al (Action_Checkpoint (mkActionCheckpoint seqNo nc clientStates)).
Definition ActionList_CorrectRequest (al : ActionList) (ack : RequestAck) : ActionList :=
  ActionList_PushBack al (Action_CorrectRequest ack).
Definition ActionList_Hash (al : ActionList) (data : list slice) (origin : HashOrigin) : ActionList :=
  ActionList_PushBack al (Action_Hash data origin).
Definition ActionList_StateTransfer (al : ActionList) (seqNo : Z) (value : slice) : ActionList :=
  ActionList_PushBack al (Action_StateTransfer (mkActionStateTarget seqNo value)).

(** The iterator holds the not yet visited elements; [Next] returns nil at the end. *)
Definition ActionListIterator_Next (it : list Action) : option Action * list Action :=
  match it with [] => (None, []) | a :: it' => (Some a, it') end.

(** ** EventList *)

Definition EventList_PushBack (el : EventList) (event : Event) : EventList := el ++ [event].
Definition EventList_PushBackList (el o : EventList) : EventList := el ++ o.
Definition EventList_Len (el : EventList) : Z := Z.of_nat (length el).
Definition EventList_Initialize (el : EventList) (params : EventInitialParameters) : EventList :=
  EventList_PushBack el (Event_Initialize params).
Definition EventList_LoadPersistedEntry (el : EventList) (index : Z) (entry : Persistent) : EventList :=
  EventList_PushBack el (Event_LoadPersistedEntry index entry).
Definition EventList_CompleteInitialization (el : EventList) : EventList :=
  EventList_PushBack el Event_CompleteInitialization.
Definition EventList_HashResult (el : EventList) (digest : slice) (origin : HashOrigin) : EventList :=
  EventList_PushBack el (Event_HashResult digest origin).
Definition EventList_CheckpointResult (el : EventList) (value : slice)
    (pendingReconfigurations : list Reconfiguration) (cp : ActionCheckpoint) : EventList :=
  EventList_PushBack el (Event_CheckpointResult
    {| ckr_SeqNo := ac_SeqNo cp; ckr_Value := value;
       ckr_NetworkState := {| ns_Config := ac_NetworkConfig cp; ns_Clients := ac_ClientStates cp;
         ns_PendingReconfigurations := pendingReconfigurations; ns_Reconfigured := false |};
       ckr_Reconfigured := false |}).
Definition EventList_RequestPersisted (el : EventList) (ack : RequestAck) : EventList :=
  EventList_PushBack el (Event_RequestPersisted ack).
Definition EventList_StateTransferComplete (el : EventList) (networkState : NetworkState)
    (target : ActionStateTarget) : EventList :=
  EventList_PushBack el (Event_StateTransferComplete (ast_SeqNo target) (ast_Value target) networkState).
Definition EventList_StateTransferFailed (el : EventList) (target : ActionStateTarget) : EventList :=
  EventList_PushBack el (Event_StateTransferFailed (ast_SeqNo target) (ast_Value target)).
Definition EventList_Step (el : EventList) (source : Z) (msg : Msg) : EventList :=
  EventList_PushBack el (Event_Step source msg).
Definition EventList_TickElapsed (el : EventList) : EventList :=
  EventList_PushBack el Event_TickElapsed.
Definition EventList_ActionsReceived (el : EventList) : EventList :=
  EventList_PushBack el Event_ActionsReceived.

Definition EventListIterator_Next (it : list Event) : option Event * list Event :=
  match it with [] => (None, []) | e :: it' => (Some e, it') end.
