(* ===== verification/Stateless.v ===== *)
(** * Stateless helpers

    [pkg/statemachine/stateless.go] apart from [constructNewEpochConfig]
    (which is in [NewEpochConfig.v]), and [uint64ToBytes] of
    [proposer.go]: committed-request bitmasks, quorum sizes, the bucket maps
    and the bytes an epoch change is hashed over. *)
From S2P Require Import Prelude Msgs.

(** ** Bitmasks *)

(** Go's [/] and [%] on [int] truncate towards zero. *)
Definition bitmask_bits (bm : bytes) : Z := 8 * Z.of_nat (length bm).

(** [bm[i]] on an [int] index: out of range panics. *)
Definition byteAt (bm : bytes) (i : Z) : outcome Z :=
  if i <? 0 then Panic "index out of range"
  else deref (bm !! Z.to_nat i) "index out of range".

Definition bitmask_isBitSet (bm : bytes) (bitIndex : Z) : outcome bool :=
  let byteIndex := Z.quot bitIndex 8 in
  if Z.of_nat (length bm) <=? byteIndex then Ok false
  else
    b ← byteAt bm byteIndex;
    match Z.rem bitIndex 8 with
    | 0 => Ok (negb (Z.land b 0x80 =? 0))
    | 1 => Ok (negb (Z.land b 0x40 =? 0))
    | 2 => Ok (negb (Z.land b 0x20 =? 0))
    | 3 => Ok (negb (Z.land b 0x10 =? 0))
    | 4 => Ok (negb (Z.land b 0x08 =? 0))
    | 5 => Ok (negb (Z.land b 0x04 =? 0))
    | 6 => Ok (negb (Z.land b 0x02 =? 0))
    | 7 => Ok (negb (Z.land b 0x01 =? 0))
    | _ => Panic "unreachable"
    end.

Definition bitmask_setBit (bm : bytes) (bitIndex : Z) : outcome bytes :=
  let byteIndex := Z.quot bitIndex 8 in
  if Z.of_nat (length bm) <? byteIndex then Panic "requested to set bit index beyond byte slice"
  else
    b ← byteAt bm byteIndex;
    let b' :=
      match Z.rem bitIndex 8 with
      | 0 => Z.lor b 0x80
      | 1 => Z.lor b 0x40
      | 2 => Z.lor b 0x20
      | 3 => Z.lor b 0x10
      | 4 => Z.lor b 0x08
      | 5 => Z.lor b 0x04
      | 6 => Z.lor b 0x02
      | 7 => Z.lor b 0x01
      | _ => b
      end in
    Ok (<[Z.to_nat byteIndex := b']> bm).

Definition isCommitted (reqNo : Z) (clientState : NetworkState_Client) : outcome bool :=
  if reqNo <? cl_LowWatermark clientState then Ok true
  else if cl_LowWatermark clientState +! cl_Width clientState <? reqNo then Ok false
  else
    let offset := s64 (reqNo -! cl_LowWatermark clientState) in
    bitmask_isBitSet (cl_CommittedMask clientState) offset.

(** ** Quorums and buckets *)

Definition intersectionQuorum (nc : NetworkState_Config) : Z :=
  Z.quot (Z.of_nat (length (nc_Nodes nc)) + nc_F nc + 2) 2.

Definition someCorrectQuorum (nc : NetworkState_Config) : Z := nc_F nc + 1.

Definition clientReqToBucket (clientID reqNo : Z) (nc : NetworkState_Config) : outcome Z :=
  umod (clientID +! reqNo) (u64 (nc_NumberOfBuckets nc)).

Definition seqToBucket (seqNo : Z) (nc : NetworkState_Config) : outcome Z :=
  umod seqNo (u64 (nc_NumberOfBuckets nc)).

(** ** Hashing of epoch changes *)

(** [binary.BigEndian.PutUint64]: the eight bytes, most significant first. *)
Definition uint64ToBytes (value : Z) : bytes :=
  map (fun k => Z.land (Z.shiftr value (8 * k)) 0xff) [7; 6; 5; 4; 3; 2; 1; 0].

Definition checkpointHashData (cp : Checkpoint) : list slice :=
  [Some (uint64ToBytes (ckp_SeqNo cp)); ckp_Value cp].
Definition setEntryHashData (e : EpochChange_SetEntry) : list slice :=
  [Some (uint64ToBytes (se_Epoch e)); Some (uint64ToBytes (se_SeqNo e)); se_Digest e].

(** The slice of slices the three index loops fill: the new epoch, two
    slices for each checkpoint, three for each p-set and q-set entry. *)
Definition epochChangeHashData (epochChange : EpochChange) : list slice :=
  Some (uint64ToBytes (ech_NewEpoch epochChange))
  :: concat (map checkpointHashData (ech_Checkpoints epochChange))
  ++ concat (map setEntryHashData (ech_PSet epochChange))
  ++ concat (map setEntryHashData (ech_QSet epochChange)).

#[global] Arguments intersectionQuorum : simpl never.
#[global] Arguments someCorrectQuorum : simpl never.
#[global] Arguments uint64ToBytes : simpl never.

(** ** Bitmask lemmas *)

(** Reference reading of a mask: bit [i] counted from the most significant
    bit of the first byte; bits beyond the last byte are clear. *)
Definition bitAt (bm : bytes) (i : Z) : bool :=
  match bm !! Z.to_nat (i / 8) with
  | Some b => Z.testbit b (7 - i mod 8)
  | None => false
  end.

Lemma land_pow2_testbit (b n : Z) : 0 <= n -> negb (Z.land b (2 ^ n) =? 0) = Z.testbit b n.
Proof.
  intros Hn. destruct (Z.testbit b n) eqn:E.
  - apply negb_true_iff, Z.eqb_neq. intros H.
    apply (f_equal (fun z => Z.testbit z n)) in H.
    rewrite Z.land_spec, E, Z.pow2_bits_true, Z.bits_0 in H by lia. discriminate.
  - apply negb_false_iff, Z.eqb_eq. apply Z.bits_inj'. intros m Hm.
    rewrite Z.land_spec, Z.bits_0. destruct (decide (m = n)) as [-> | Hne].
    + by rewrite E.
    + rewrite Z.pow2_bits_false by lia. apply andb_false_r.
Qed.

Lemma rem8_cases (i : Z) : 0 <= i ->
  Z.rem i 8 = 0 \/ Z.rem i 8 = 1 \/ Z.rem i 8 = 2 \/ Z.rem i 8 = 3 \/
  Z.rem i 8 = 4 \/ Z.rem i 8 = 5 \/ Z.rem i 8 = 6 \/ Z.rem i 8 = 7.
Proof. intros H. pose proof (Z.rem_bound_pos i 8). lia. Qed.

Lemma bitmask_isBitSet_spec (bm : bytes) (i : Z) :
  0 <= i -> bitmask_isBitSet bm i = Ok (bitAt bm i).
Proof.
  intros Hi. unfold bitmask_isBitSet, bitAt, byteAt.
  rewrite !Z.quot_div_nonneg by lia.
  assert (Hq : 0 <= i / 8) by (apply Z.div_pos; lia).
  destruct (Z.leb_spec (Z.of_nat (length bm)) (i / 8)).
  { rewrite lookup_ge_None_2 by lia. done. }
  destruct (Z.ltb_spec (i / 8) 0); [lia |].
  destruct (lookup_lt_is_Some_2 bm (Z.to_nat (i / 8))) as [b Hb]; [lia |].
  rewrite Hb. cbn.
  rewrite <- Z.rem_mod_nonneg by lia.
  destruct (rem8_cases i Hi) as [-> | [-> | [-> | [-> | [-> | [-> | [-> | ->]]]]]]];
    cbn -[Z.land]; rewrite <- land_pow2_testbit by lia; done.
Qed.

Lemma bitmask_setBit_spec (bm : bytes) (i : Z) (b : Z) :
  0 <= i -> bm !! Z.to_nat (i / 8) = Some b ->
  bitmask_setBit bm i = Ok (<[Z.to_nat (i / 8) := Z.setbit b (7 - i mod 8)]> bm).
Proof.
  intros Hi Hb. unfold bitmask_setBit, byteAt.
  rewrite !Z.quot_div_nonneg by lia.
  assert (Hq : 0 <= i / 8) by (apply Z.div_pos; lia).
  pose proof (lookup_lt_Some _ _ _ Hb).
  destruct (Z.ltb_spec (Z.of_nat (length bm)) (i / 8)); [lia |].
  destruct (Z.ltb_spec (i / 8) 0); [lia |].
  rewrite Hb. cbn.
  rewrite <- Z.rem_mod_nonneg by lia. unfold Z.setbit.
  destruct (rem8_cases i Hi) as [-> | [-> | [-> | [-> | [-> | [-> | [-> | ->]]]]]]]; done.
Qed.

Lemma bitAt_setBit (bm bm' : bytes) (i j : Z) :
  0 <= i < bitmask_bits bm -> 0 <= j -> bitmask_setBit bm i = Ok bm' ->
  length bm' = length bm /\ bitAt bm' j = (i =? j) || bitAt bm j.
Proof.
  unfold bitmask_bits. intros Hi Hj.
  assert (Hq : 0 <= i / 8 < Z.of_nat (length bm)).
  { split; [apply Z.div_pos; lia | apply Z.div_lt_upper_bound; lia]. }
  destruct (lookup_lt_is_Some_2 bm (Z.to_nat (i / 8))) as [b Hb]; [lia |].
  rewrite (bitmask_setBit_spec bm i b) by (done || lia). intros [= <-].
  split; [apply length_insert |]. unfold bitAt.
  assert (0 <= j / 8) by (apply Z.div_pos; lia).
  pose proof (Z.div_mod i 8). pose proof (Z.div_mod j 8).
  pose proof (Z.mod_pos_bound i 8). pose proof (Z.mod_pos_bound j 8).
  destruct (decide (i / 8 = j / 8)) as [He | Hne].
  - rewrite <- He, list_lookup_insert_eq, Hb by lia.
    rewrite Z.setbit_eqb by lia.
    f_equal. apply eq_true_iff_eq. rewrite !Z.eqb_eq. lia.
  - rewrite list_lookup_insert_ne by lia.
    destruct (Z.eqb_spec i j); [subst; done | done].
Qed.

(** Beyond the mask, a fresh mask of zero bytes has no bit set. *)
Lemma bitAt_zeros (n : nat) (j : Z) : bitAt (replicate n 0) j = false.
Proof.
  unfold bitAt. destruct (replicate n 0 !! _) eqn:E; [| done].
  apply lookup_replicate in E as [-> _]. apply Z.bits_0.
Qed.

Lemma bitAt_beyond (bm : bytes) (j : Z) : bitmask_bits bm <= j -> bitAt bm j = false.
Proof.
  unfold bitmask_bits, bitAt. intros H.
  rewrite lookup_ge_None_2; [done |]. apply Nat2Z.inj_le.
  assert (Z.of_nat (length bm) <= j / 8) by (apply Z.div_le_lower_bound; lia). lia.
Qed.

(** ** Quorum lemmas *)

Lemma size_list_to_set_le (l : list Z) : (size (list_to_set l : gset Z) <= length l)%nat.
Proof.
  induction l as [|x l IH]; cbn; [rewrite size_empty; lia |].
  pose proof (size_union_alt ({[x]} : gset Z) (list_to_set l)) as Hs.
  rewrite Hs, size_singleton.
  assert (size (list_to_set l ∖ {[x]} : gset Z) <= size (list_to_set l : gset Z))%nat
    by (apply subseteq_size; set_solver). lia.
Qed.

(** Inclusion-exclusion for two sets inside a set of known size. *)
Lemma size_intersection_ge (U A B : gset Z) :
  A ⊆ U -> B ⊆ U -> (size A + size B <= size (A ∩ B) + size U)%nat.
Proof.
  intros HA HB.
  pose proof (size_union_alt A B) as Hu.
  assert (HBd : size B = (size (A ∩ B) + size (B ∖ A))%nat).
  { replace B with ((A ∩ B) ∪ (B ∖ A)) at 1.
    - apply size_union. set_solver.
    - apply set_eq. intros x. destruct (decide (x ∈ A)); set_solver. }
  assert (size (A ∪ B) <= size U)%nat by (apply subseteq_size; set_solver). lia.
Qed.

Lemma intersectionQuorum_twice (nc : NetworkState_Config) :
  0 <= nc_F nc ->
  Z.of_nat (length (nc_Nodes nc)) + nc_F nc + 1 <= 2 * intersectionQuorum nc.
Proof.
  intros HF. unfold intersectionQuorum. rewrite Z.quot_div_nonneg by lia.
  pose proof (Z.div_mod (Z.of_nat (length (nc_Nodes nc)) + nc_F nc + 2) 2).
  pose proof (Z.mod_pos_bound (Z.of_nat (length (nc_Nodes nc)) + nc_F nc + 2) 2). lia.
Qed.

Lemma intersectionQuorums_meet (nc : NetworkState_Config) (A B : gset Z) :
  0 <= nc_F nc ->
  A ⊆ list_to_set (nc_Nodes nc) -> B ⊆ list_to_set (nc_Nodes nc) ->
  intersectionQuorum nc <= Z.of_nat (size A) ->
  intersectionQuorum nc <= Z.of_nat (size B) ->
  someCorrectQuorum nc <= Z.of_nat (size (A ∩ B)).
Proof.
  intros HF HA HB HsA HsB. unfold someCorrectQuorum.
  pose proof (size_intersection_ge _ _ _ HA HB).
  pose proof (size_list_to_set_le (nc_Nodes nc)).
  pose proof (intersectionQuorum_twice nc HF). lia.
Qed.

(** More than [F] nodes are never all faulty. *)
Lemma someCorrect_member (nc : NetworkState_Config) (A faulty : gset Z) :
  Z.of_nat (size faulty) <= nc_F nc ->
  someCorrectQuorum nc <= Z.of_nat (size A) ->
  exists i, i ∈ A /\ i ∉ faulty.
Proof.
  unfold someCorrectQuorum. intros Hf HA.
  destruct (decide (A ⊆ faulty)) as [Hs | Hs].
  - apply subseteq_size in Hs. lia.
  - destruct (set_choose_or_empty (A ∖ faulty)) as [[x Hx] | He]; [set_solver |].
    exfalso. apply Hs. intros x Hx. destruct (decide (x ∈ faulty)); set_solver.
Qed.

(** ** Committed requests *)

Lemma isCommitted_spec (reqNo : Z) (cs : NetworkState_Client) :
  0 <= cl_LowWatermark cs -> 0 <= cl_Width cs < 2 ^ 32 ->
  cl_LowWatermark cs + cl_Width cs < 2 ^ 64 -> 0 <= reqNo ->
  isCommitted reqNo cs =
    Ok ((reqNo <? cl_LowWatermark cs)
        || (reqNo <=? cl_LowWatermark cs + cl_Width cs)
           && bitAt (cl_CommittedMask cs) (reqNo - cl_LowWatermark cs)).
Proof.
  intros Hl Hw Ho Hr. unfold isCommitted, add64, sub64, s64.
  rewrite !(u64_small (_ + _)) by lia.
  destruct (Z.ltb_spec reqNo (cl_LowWatermark cs)); [done |]. cbn [orb].
  destruct (Z.ltb_spec (cl_LowWatermark cs + cl_Width cs) reqNo);
    destruct (Z.leb_spec reqNo (cl_LowWatermark cs + cl_Width cs)); try lia; [done |].
  rewrite (u64_small (u64 _)), !u64_small by (rewrite ?u64_small; lia).
  destruct (Z.ltb_spec (reqNo - cl_LowWatermark cs) (2 ^ 63)); [| lia].
  rewrite bitmask_isBitSet_spec by lia. done.
Qed.

(** ** Hash-data lemmas *)

Definition bytesToUint64 (bs : bytes) : Z := foldl (fun acc b => acc * 256 + b) 0 bs.

Lemma bytesToUint64_uint64ToBytes (v : Z) :
  0 <= v < 2 ^ 64 -> bytesToUint64 (uint64ToBytes v) = v.
Proof.
  intros Hv. unfold uint64ToBytes, bytesToUint64. cbn [map foldl].
  change 0xff with (Z.ones 8). rewrite !Z.land_ones, !Z.shiftr_div_pow2 by lia.
  Z.to_euclidean_division_equations. lia.
Qed.

Lemma uint64ToBytes_inj (a b : Z) :
  0 <= a < 2 ^ 64 -> 0 <= b < 2 ^ 64 -> uint64ToBytes a = uint64ToBytes b -> a = b.
Proof.
  intros Ha Hb H.
  by rewrite <- (bytesToUint64_uint64ToBytes a Ha), H, bytesToUint64_uint64ToBytes.
Qed.

Lemma concat_inj {A B : Type} (f : A -> list B) (P : A -> Prop) (n : nat) (l1 l2 : list A) (t1 t2 : list B) :
  (forall x y, P x -> P y -> f x = f y -> x = y) -> (forall x, length (f x) = n) ->
  Forall P l1 -> Forall P l2 -> length l1 = length l2 ->
  concat (map f l1) ++ t1 = concat (map f l2) ++ t2 -> l1 = l2 /\ t1 = t2.
Proof.
  intros Hf Hn. revert l2. induction l1 as [|x l1 IH]; intros [|y l2] H1 H2 Hlen H; try done.
  cbn in H. rewrite <- !app_assoc in H. apply app_inj_1 in H as [Hxy H]; [| by rewrite !Hn].
  apply Forall_cons in H1 as [Px H1], H2 as [Py H2]. injection Hlen as Hlen.
  destruct (IH l2) as [-> ->]; try done. by rewrite (Hf x y).
Qed.

Lemma hashData2_inj (a b : bytes) (v w : slice) : [Some a; v] = [Some b; w] -> a = b /\ v = w.
Proof. by intros [= -> ->]. Qed.

Lemma hashData3_inj (a b c d : bytes) (v w : slice) :
  [Some a; Some c; v] = [Some b; Some d; w] -> a = b /\ c = d /\ v = w.
Proof. by intros [= -> -> ->]. Qed.

Lemma hashDataCons_inj (a b : bytes) (t u : list slice) : Some a :: t = Some b :: u -> a = b /\ t = u.
Proof. by intros [= -> ->]. Qed.

Definition checkpointInRange (cp : Checkpoint) : Prop := inU64 (ckp_SeqNo cp).
Definition setEntryInRange (e : EpochChange_SetEntry) : Prop := inU64 (se_Epoch e) /\ inU64 (se_SeqNo e).

Lemma checkpointHashData_inj (x y : Checkpoint) :
  checkpointInRange x -> checkpointInRange y -> checkpointHashData x = checkpointHashData y -> x = y.
Proof.
  destruct x, y. unfold checkpointInRange, checkpointHashData; cbn. intros Hx Hy [H ->]%hashData2_inj.
  by apply uint64ToBytes_inj in H as ->.
Qed.

Lemma setEntryHashData_inj (x y : EpochChange_SetEntry) :
  setEntryInRange x -> setEntryInRange y -> setEntryHashData x = setEntryHashData y -> x = y.
Proof.
  destruct x, y. unfold setEntryInRange, setEntryHashData; cbn. intros [Hx1 Hx2] [Hy1 Hy2] (H1 & H2 & ->)%hashData3_inj.
  apply uint64ToBytes_inj in H1 as ->; [| done | done].
  by apply uint64ToBytes_inj in H2 as ->.
Qed.

(** ** Properties *)

(** Any two intersection quorums of a network with at most [F] faulty
    nodes have a correct node in common, for every number of nodes and every
    [F]; the quorums are sets of nodes of the configuration. *)
Theorem intersectionQuorums_share_correct (nc : NetworkState_Config) (A B faulty : gset Z) :
  0 <= nc_F nc -> Z.of_nat (size faulty) <= nc_F nc ->
  A ⊆ list_to_set (nc_Nodes nc) -> B ⊆ list_to_set (nc_Nodes nc) ->
  intersectionQuorum nc <= Z.of_nat (size A) -> intersectionQuorum nc <= Z.of_nat (size B) ->
  exists i, i ∈ A /\ i ∈ B /\ i ∉ faulty.
Proof.
  intros HF Hf HA HB HsA HsB.
  destruct (someCorrect_member nc (A ∩ B) faulty Hf) as (i & Hi & Hif).
  - by apply intersectionQuorums_meet.
  - exists i. set_solver.
Qed.

Lemma intersectionQuorums_share_correct_witness :
  exists i, i ∈ ({[0; 1; 2]} : gset Z) /\ i ∈ ({[1; 2; 3]} : gset Z) /\ i ∉ ({[1]} : gset Z).
Proof.
  apply (intersectionQuorums_share_correct (mkConfig [0; 1; 2; 3] 5 50 4 1));
    [done | by vm_compute | cbn; set_solver | cbn; set_solver | by vm_compute | by vm_compute].
Defined.

(** setting a bit of a committed mask inside its bytes succeeds, keeps
    the mask's length, sets that bit and changes no other one, as read back by
    [isBitSet] at every index. *)
Theorem setBit_then_isBitSet (bm : bytes) (i : Z) :
  0 <= i < bitmask_bits bm ->
  exists bm', bitmask_setBit bm i = Ok bm' /\ length bm' = length bm
    /\ forall j, 0 <= j ->
         bitmask_isBitSet bm' j = if j =? i then Ok true else bitmask_isBitSet bm j.
Proof.
  intros Hi. pose proof Hi as Hi'. unfold bitmask_bits in Hi'.
  destruct (lookup_lt_is_Some_2 bm (Z.to_nat (i / 8))) as [b Hb].
  { apply Nat2Z.inj_lt. rewrite Z2Nat.id by (apply Z.div_pos; lia).
    apply Z.div_lt_upper_bound; lia. }
  pose proof (bitmask_setBit_spec bm i b ltac:(lia) Hb) as Hset.
  eexists. split; [exact Hset |]. split; [by rewrite length_insert |].
  intros j Hj. destruct (bitAt_setBit bm _ i j Hi Hj Hset) as [_ Hbit].
  rewrite !bitmask_isBitSet_spec, Hbit, (Z.eqb_sym i j) by done.
  by destruct (j =? i).
Qed.

Lemma setBit_then_isBitSet_witness :
  exists bm', bitmask_setBit [0; 0x40] 12 = Ok bm' /\ length bm' = 2%nat
    /\ forall j, 0 <= j -> bitmask_isBitSet bm' j = if j =? 12 then Ok true else bitmask_isBitSet [0; 0x40] j.
Proof. apply (setBit_then_isBitSet [0; 0x40] 12). unfold bitmask_bits. cbn. lia. Defined.

(** The data hashed for an epoch change determines it once the numbers
    of checkpoints, p-set and q-set entries are fixed. *)
Theorem epochChangeHashData_injective (e1 e2 : EpochChange) :
  inU64 (ech_NewEpoch e1) -> inU64 (ech_NewEpoch e2) ->
  Forall checkpointInRange (ech_Checkpoints e1) -> Forall checkpointInRange (ech_Checkpoints e2) ->
  Forall setEntryInRange (ech_PSet e1 ++ ech_QSet e1) -> Forall setEntryInRange (ech_PSet e2 ++ ech_QSet e2) ->
  length (ech_Checkpoints e1) = length (ech_Checkpoints e2) ->
  length (ech_PSet e1) = length (ech_PSet e2) -> length (ech_QSet e1) = length (ech_QSet e2) ->
  epochChangeHashData e1 = epochChangeHashData e2 -> e1 = e2.
Proof.
  destruct e1 as [n1 c1 p1 q1], e2 as [n2 c2 p2 q2]. unfold epochChangeHashData; cbn.
  intros Hn1 Hn2 Hc1 Hc2 [Hp1 Hq1]%Forall_app [Hp2 Hq2]%Forall_app Hlc Hlp Hlq [Hn H]%hashDataCons_inj.
  apply uint64ToBytes_inj in Hn as ->; [| done | done].
  apply (concat_inj _ checkpointInRange 2) in H as [-> H]; try done; [| apply checkpointHashData_inj].
  apply (concat_inj _ setEntryInRange 3) in H as [-> H]; try done; [| apply setEntryHashData_inj].
  rewrite <- (app_nil_r (concat (map _ q1))), <- (app_nil_r (concat (map _ q2))) in H.
  apply (concat_inj _ setEntryInRange 3) in H as [-> _]; try done. apply setEntryHashData_inj.
Qed.

Lemma epochChangeHashData_injective_witness :
  let e := mkEpochChange 3 [mkCheckpoint 0 (Some [1])] [mkSetEntry 1 2 (Some [9])] [] in
  e = mkEpochChange 3 [mkCheckpoint 0 (Some [1])] [mkSetEntry 1 2 (Some [9])] [].
Proof.
  apply epochChangeHashData_injective; try done;
    cbn; repeat constructor; unfold checkpointInRange, setEntryInRange, inU64; cbn; lia.
Defined.

(** Without those numbers the hashed data is ambiguous: moving a
    prepared entry to the preprepared set gives a different epoch change with
    the same hash data, so both have the same digest under every hash. *)
Theorem epochChangeHashData_p_q_ambiguous (newEpoch : Z) (cps : list Checkpoint)
    (entry : EpochChange_SetEntry) (ps qs : list EpochChange_SetEntry) :
  let e1 := mkEpochChange newEpoch cps (ps ++ [entry]) qs in
  let e2 := mkEpochChange newEpoch cps ps (entry :: qs) in
  e1 <> e2 /\ epochChangeHashData e1 = epochChangeHashData e2.
Proof.
  cbn. split.
  - intros [= H _]. apply (f_equal length) in H. rewrite length_app in H. cbn in H. lia.
  - unfold epochChangeHashData; cbn. by rewrite map_app, concat_app, <- app_assoc; cbn.
Qed.
