(* ===== verification/EpochChange.v ===== *)
(** * Parsed epoch changes and their certificates

    [pkg/statemachine/epoch_change.go]: validation of an [EpochChange]
    message into maps ([newParsedEpochChange]) and the accumulation of the
    acknowledgements that make one of the messages of an originator a strong
    certificate ([epochChange.addMsg]). *)
From S2P Require Import Prelude Msgs Stateless.

(** ** Data *)

Record parsedEpochChange := mkParsed {
  pec_underlying : EpochChange;
  pec_pSet : gmap Z EpochChange_SetEntry;
  pec_qSet : gmap Z (gmap Z slice);
  pec_lowWatermark : Z;
  pec_acks : gset Z;
}.

#[global] Instance eta_parsedEpochChange : Eta parsedEpochChange := mkEta (fun r =>
  mkParsed (pec_underlying r) (pec_pSet r) (pec_qSet r) (pec_lowWatermark r) (pec_acks r)).

Record epochChange := mkEpochChangeState {
  ec_networkConfig : NetworkState_Config;
  ec_parsedByDigest : gmap bytes parsedEpochChange;
  ec_strongCert : slice;
}.

#[global] Instance eta_epochChange : Eta epochChange := mkEta (fun r =>
  mkEpochChangeState (ec_networkConfig r) (ec_parsedByDigest r) (ec_strongCert r)).

(** ** Operations *)

(** The loop over the checkpoints.  [checkpoints] is the map the source
    consults for duplicates; nothing is ever stored in it. *)
Fixpoint scanCheckpoints (checkpoints : gmap Z Checkpoint) (l : list Checkpoint) (lowWatermark : Z)
    : string + Z :=
  match l with
  | [] => inr lowWatermark
  | cp :: l' =>
    let lowWatermark' := if ckp_SeqNo cp <? lowWatermark then ckp_SeqNo cp else lowWatermark in
    match checkpoints !! ckp_SeqNo cp with
    | Some _ => inl "epoch change checkpoints contained duplicated seqnos"%string
    | None => scanCheckpoints checkpoints l' lowWatermark'
    end
  end.

Fixpoint parsePSet (l : list EpochChange_SetEntry) (pSet : gmap Z EpochChange_SetEntry)
    : string + gmap Z EpochChange_SetEntry :=
  match l with
  | [] => inr pSet
  | entry :: l' =>
    match pSet !! se_SeqNo entry with
    | Some _ => inl "epoch change pSet contained duplicate entries"%string
    | None => parsePSet l' (<[se_SeqNo entry := entry]> pSet)
    end
  end.

Fixpoint parseQSet (l : list EpochChange_SetEntry) (qSet : gmap Z (gmap Z slice))
    : string + gmap Z (gmap Z slice) :=
  match l with
  | [] => inr qSet
  | entry :: l' =>
    let views := default ∅ (qSet !! se_SeqNo entry) in
    match views !! se_Epoch entry with
    | Some _ => inl "epoch change qSet contained duplicate entries"%string
    | None => parseQSet l' (<[se_SeqNo entry := <[se_Epoch entry := se_Digest entry]> views]> qSet)
    end
  end.

Definition newParsedEpochChange (underlying : EpochChange) : string + parsedEpochChange :=
  match ech_Checkpoints underlying with
  | [] => inl "epoch change did not contain any checkpoints"%string
  | cp0 :: _ =>
    match scanCheckpoints ∅ (ech_Checkpoints underlying) (ckp_SeqNo cp0) with
    | inl err => inl err
    | inr lowWatermark =>
      match parsePSet (ech_PSet underlying) ∅ with
      | inl err => inl err
      | inr pSet =>
        match parseQSet (ech_QSet underlying) ∅ with
        | inl err => inl err
        | inr qSet => inr (mkParsed underlying pSet qSet lowWatermark ∅)
        end
      end
    end
  end.

Definition epochChange_addMsg (ec : epochChange) (source : Z) (msg : EpochChange) (digest : slice)
    : epochChange :=
  let parsed :=
    match ec_parsedByDigest ec !! str digest with
    | Some pc => Some pc
    | None => match newParsedEpochChange msg with inl _ => None | inr pc => Some pc end
    end in
  match parsed with
  | None => ec
  | Some parsedChange =>
    let parsedChange := parsedChange <| pec_acks ::= fun acks => {[source]} ∪ acks |> in
    let ec := ec <| ec_parsedByDigest ::= <[str digest := parsedChange]> |> in
    if notNil (ec_strongCert ec)
       || (Z.of_nat (size (pec_acks parsedChange)) <? intersectionQuorum (ec_networkConfig ec))
    then ec
    else ec <| ec_strongCert := digest |>
  end.

(** ** Specification *)

(** Well-formed epoch changes, as [newParsedEpochChange] decides it. *)
Definition validEpochChange (e : EpochChange) : Prop :=
  ech_Checkpoints e <> []
  /\ NoDup (se_SeqNo <$> ech_PSet e)
  /\ NoDup ((fun q => (se_SeqNo q, se_Epoch q)) <$> ech_QSet e).

(** The lookup of a q-set map at a sequence number and an epoch. *)
Definition qLookup (qSet : gmap Z (gmap Z slice)) (seqNo epoch : Z) : option slice :=
  qSet !! seqNo ≫= fun views => views !! epoch.

(** What a parsed epoch change says of the message it was made from. *)
Record parsedFaithful (e : EpochChange) (pec : parsedEpochChange) : Prop := {
  pf_underlying : pec_underlying pec = e;
  pf_low_le : forall cp, cp ∈ ech_Checkpoints e -> pec_lowWatermark pec <= ckp_SeqNo cp;
  pf_low_in : exists cp, cp ∈ ech_Checkpoints e /\ ckp_SeqNo cp = pec_lowWatermark pec;
  pf_pSet : forall s en, pec_pSet pec !! s = Some en <-> en ∈ ech_PSet e /\ se_SeqNo en = s;
  pf_qSet : forall s ep d, qLookup (pec_qSet pec) s ep = Some d <->
    exists en, en ∈ ech_QSet e /\ se_SeqNo en = s /\ se_Epoch en = ep /\ se_Digest en = d;
}.

(** A strong certificate names a parsed message acknowledged by a quorum. *)
Definition epochChange_wf (ec : epochChange) : Prop :=
  notNil (ec_strongCert ec) = true ->
  exists pec, ec_parsedByDigest ec !! str (ec_strongCert ec) = Some pec
    /\ intersectionQuorum (ec_networkConfig ec) <= Z.of_nat (size (pec_acks pec)).

(** ** Lemmas *)

Lemma scanCheckpoints_empty (l : list Checkpoint) (low : Z) :
  exists low', scanCheckpoints ∅ l low = inr low'
    /\ low' <= low
    /\ (forall cp, cp ∈ l -> low' <= ckp_SeqNo cp)
    /\ (low' = low \/ exists cp, cp ∈ l /\ ckp_SeqNo cp = low').
Proof.
  revert low. induction l as [|cp l IH]; intros low; cbn.
  { exists low. repeat split; [lia | | by left]. intros ? []%elem_of_nil. }
  rewrite lookup_empty.
  set (low1 := if ckp_SeqNo cp <? low then _ else _).
  assert (Hlow1 : low1 <= low /\ low1 <= ckp_SeqNo cp /\ (low1 = low \/ low1 = ckp_SeqNo cp)).
  { subst low1. destruct (Z.ltb_spec (ckp_SeqNo cp) low); lia. }
  destruct (IH low1) as (low' & -> & Hle & Hall & Hin).
  exists low'. split; [done |]. split; [lia |]. split.
  - intros cp' [-> | Hcp']%elem_of_cons; [lia | by apply Hall].
  - destruct Hin as [-> | (cp' & Hcp' & <-)].
    + destruct Hlow1 as (_ & _ & [-> | ->]); [by left |]. right. exists cp. split; [by left | done].
    + right. exists cp'. split; [by right | done].
Qed.

Lemma parsePSet_spec (l : list EpochChange_SetEntry) (m : gmap Z EpochChange_SetEntry) :
  match parsePSet l m with
  | inr m' => NoDup (se_SeqNo <$> l) /\ (forall en, en ∈ l -> m !! se_SeqNo en = None)
      /\ (forall s en, m' !! s = Some en <-> m !! s = Some en \/ (en ∈ l /\ se_SeqNo en = s))
  | inl _ => ~ (NoDup (se_SeqNo <$> l) /\ forall en, en ∈ l -> m !! se_SeqNo en = None)
  end.
Proof.
  revert m. induction l as [|e l IH]; intros m; cbn.
  { split; [constructor |]. split; [intros ? []%elem_of_nil |].
    intros s en. split; [by left | intros [? | [[]%elem_of_nil ?]]; done]. }
  destruct (m !! se_SeqNo e) eqn:He.
  { intros [_ Hm]. specialize (Hm e). rewrite He in Hm. discriminate Hm. by left. }
  specialize (IH (<[se_SeqNo e := e]> m)). destruct (parsePSet l _).
  - intros [Hnd Hm]. apply IH. apply NoDup_cons in Hnd as [Hni Hnd]. split; [done |].
    intros en Hen. rewrite lookup_insert_ne; [apply Hm; by right |].
    intros Heq. apply Hni. rewrite Heq. by apply list_elem_of_fmap_2.
  - destruct IH as (Hnd & Hm & Hl). split; [| split].
    + apply NoDup_cons. split; [| done]. intros (en & Heq & Hen)%list_elem_of_fmap.
      specialize (Hm en Hen). rewrite <- Heq, lookup_insert_eq in Hm. done.
    + intros en [-> | Hen]%elem_of_cons; [done |]. specialize (Hm en Hen).
      apply lookup_insert_None in Hm. by destruct Hm.
    + intros s en. rewrite Hl, lookup_insert_Some, elem_of_cons.
      split; [intros [[[<- <-] | [_ ?]] | [? ?]]; auto |].
      intros [Hs | [[-> | ?] Hs]]; [| left; left; done | auto].
      left. right. split; [congruence | done].
Qed.

Lemma qLookup_insert (m : gmap Z (gmap Z slice)) (s ep : Z) (d : slice) (s' ep' : Z) :
  qLookup (<[s := <[ep := d]> (default ∅ (m !! s))]> m) s' ep' =
  if decide (s = s' /\ ep = ep') then Some d else qLookup m s' ep'.
Proof.
  unfold qLookup. rewrite lookup_insert. case_decide as Hs; cbn.
  - subst s'. rewrite lookup_insert. destruct (decide (ep = ep')).
    + rewrite decide_True by done. done.
    + rewrite decide_False by tauto. by destruct (m !! s).
  - rewrite decide_False by tauto. done.
Qed.

Lemma parseQSet_spec (l : list EpochChange_SetEntry) (m : gmap Z (gmap Z slice)) :
  match parseQSet l m with
  | inr m' => NoDup ((fun q => (se_SeqNo q, se_Epoch q)) <$> l)
      /\ (forall en, en ∈ l -> qLookup m (se_SeqNo en) (se_Epoch en) = None)
      /\ (forall s ep d, qLookup m' s ep = Some d <-> qLookup m s ep = Some d \/
            exists en, en ∈ l /\ se_SeqNo en = s /\ se_Epoch en = ep /\ se_Digest en = d)
  | inl _ => ~ (NoDup ((fun q => (se_SeqNo q, se_Epoch q)) <$> l)
      /\ forall en, en ∈ l -> qLookup m (se_SeqNo en) (se_Epoch en) = None)
  end.
Proof.
  revert m. induction l as [|e l IH]; intros m; cbn.
  { split; [constructor |]. split; [intros ? []%elem_of_nil |].
    intros s ep d. split; [by left | intros [? | (? & []%elem_of_nil & _)]; done]. }
  assert (Hlk : default ∅ (m !! se_SeqNo e) !! se_Epoch e = qLookup m (se_SeqNo e) (se_Epoch e)).
  { unfold qLookup. by destruct (m !! se_SeqNo e). }
  rewrite Hlk. destruct (qLookup m (se_SeqNo e) (se_Epoch e)) eqn:He.
  { intros [_ Hm]. specialize (Hm e). rewrite He in Hm. discriminate Hm. by left. }
  specialize (IH (<[se_SeqNo e := <[se_Epoch e := se_Digest e]> (default ∅ (m !! se_SeqNo e))]> m)).
  destruct (parseQSet l _).
  - intros [Hnd Hm]. apply IH. apply NoDup_cons in Hnd as [Hni Hnd]. split; [done |].
    intros en Hen. rewrite qLookup_insert, decide_False; [apply Hm; by right |].
    intros [H1 H2]. apply Hni. apply list_elem_of_fmap. exists en. split; [congruence | done].
  - destruct IH as (Hnd & Hm & Hl). split; [| split].
    + apply NoDup_cons. split; [| done]. intros (en & Heq & Hen)%list_elem_of_fmap.
      specialize (Hm en Hen). rewrite qLookup_insert, decide_True in Hm; [done | by simplify_eq].
    + intros en [-> | Hen]%elem_of_cons; [done |]. specialize (Hm en Hen).
      rewrite qLookup_insert in Hm. by case_decide.
    + intros s ep d. rewrite Hl, qLookup_insert. case_decide as Hd.
      * destruct Hd as [<- <-]. rewrite He. split.
        -- intros [[= <-] | (en & ? & ?)]; right; [exists e | exists en]; (split; [set_solver | done]).
        -- intros [? | (en & [-> | Hen]%elem_of_cons & H1 & H2 & <-)]; [done | by left |].
           right. eauto.
      * split; [intros [? | (en & ? & ?)]; [by left | right; exists en; split; [by right | done]] |].
        intros [? | (en & [-> | Hen]%elem_of_cons & <- & <- & <-)]; [by left | tauto |].
        right. eauto.
Qed.

(** [newParsedEpochChange] accepts exactly the valid messages, and what it
    builds is faithful to the message. *)
Lemma newParsedEpochChange_valid (e : EpochChange) :
  validEpochChange e ->
  exists pec, newParsedEpochChange e = inr pec /\ parsedFaithful e pec /\ pec_acks pec = ∅.
Proof.
  intros (Hcp & Hp & Hq). unfold newParsedEpochChange.
  destruct (ech_Checkpoints e) as [|cp0 cps] eqn:Hcps; [done |]. rewrite <- Hcps in *.
  destruct (scanCheckpoints_empty (ech_Checkpoints e) (ckp_SeqNo cp0)) as (low & -> & _ & Hall & Hin).
  pose proof (parsePSet_spec (ech_PSet e) ∅) as HP. destruct (parsePSet _ _) as [|pm].
  { exfalso. apply HP. split; [done | intros; apply lookup_empty]. }
  pose proof (parseQSet_spec (ech_QSet e) ∅) as HQ. destruct (parseQSet _ _) as [|qm].
  { exfalso. apply HQ. split; [done | intros; unfold qLookup; by rewrite lookup_empty]. }
  eexists. split; [done |]. split; [| done]. split; cbn; [done | done | | |].
  - destruct Hin as [-> | ?]; [| done]. exists cp0. rewrite Hcps. split; [by left | done].
  - intros s en. destruct HP as (_ & _ & ->). rewrite lookup_empty. naive_solver.
  - intros s ep d. destruct HQ as (_ & _ & ->). unfold qLookup. rewrite lookup_empty. naive_solver.
Qed.

Lemma newParsedEpochChange_invalid (e : EpochChange) (pec : parsedEpochChange) :
  newParsedEpochChange e = inr pec -> validEpochChange e.
Proof.
  unfold newParsedEpochChange, validEpochChange. intros H.
  destruct (ech_Checkpoints e) as [|cp0 cps] eqn:Hcps; [done |].
  destruct (scanCheckpoints _ _ _); [done |].
  pose proof (parsePSet_spec (ech_PSet e) ∅) as HP. destruct (parsePSet _ _); [done |].
  pose proof (parseQSet_spec (ech_QSet e) ∅) as HQ. destruct (parseQSet _ _); [done |].
  split; [done |]. split; [apply HP | apply HQ].
Qed.

Lemma newParsedEpochChange_faithful (e : EpochChange) (pec : parsedEpochChange) :
  newParsedEpochChange e = inr pec -> validEpochChange e /\ parsedFaithful e pec.
Proof.
  intros H. pose proof (newParsedEpochChange_invalid _ _ H) as Hv. split; [done |].
  destruct (newParsedEpochChange_valid e Hv) as (pec' & H' & Hf & _).
  rewrite H in H'. by simplify_eq.
Qed.

(** ** Properties *)

(** [newParsedEpochChange] accepts a message exactly when it has a
    checkpoint, no two p-set entries for a sequence number and no two q-set
    entries for a sequence number and epoch; what it returns holds the least
    checkpoint as low watermark and looks up exactly the entries of the
    message.  (Two checkpoints for one sequence number are not rejected: the
    map the source consults for that is never filled.) *)
Theorem newParsedEpochChange_decides (e : EpochChange) :
  match newParsedEpochChange e with
  | inr pec => validEpochChange e /\ parsedFaithful e pec
  | inl _ => ~ validEpochChange e
  end.
Proof.
  destruct (newParsedEpochChange e) as [err | pec] eqn:H.
  - intros Hv. destruct (newParsedEpochChange_valid e Hv) as (pec & H' & _). congruence.
  - by apply newParsedEpochChange_faithful.
Qed.

(** The strong certificate of an originator's epoch change always names a
    message acknowledged by an intersection quorum of distinct nodes, and is
    never replaced once set, whatever messages arrive. *)
Theorem addMsg_strongCert (ec : epochChange) (source : Z) (msg : EpochChange) (digest : slice) :
  epochChange_wf ec ->
  let ec' := epochChange_addMsg ec source msg digest in
  epochChange_wf ec'
  /\ ec_networkConfig ec' = ec_networkConfig ec
  /\ (notNil (ec_strongCert ec) = true -> ec_strongCert ec' = ec_strongCert ec).
Proof.
  intros Hwf. unfold epochChange_addMsg.
  set (parsed := match ec_parsedByDigest ec !! str digest with Some _ => _ | None => _ end).
  assert (Hold : forall pec, ec_parsedByDigest ec !! str digest = Some pec -> parsed = Some pec).
  { intros pec Hp. subst parsed. by rewrite Hp. }
  destruct parsed as [pc |]; cbn; [| done].
  set (pc' := pc <| pec_acks ::= _ |>).
  assert (Hsize : (size (pec_acks pc) <= size (pec_acks pc'))%nat)
    by (apply subseteq_size; cbn; set_solver).
  destruct (notNil (ec_strongCert ec)) eqn:Hs; cbn.
  - split; [| done]. intros _. cbn.
    destruct (Hwf Hs) as (pec & Hpec & Hq).
    destruct (decide (str (ec_strongCert ec) = str digest)) as [He | Hne].
    + rewrite He in Hpec |- *. rewrite lookup_insert_eq. exists pc'. split; [done |].
      pose proof (Hold pec Hpec). simplify_eq. lia.
    + rewrite lookup_insert_ne by done. eauto.
  - case_match eqn:Hq; (split; [| split; [done | congruence]]); intros Hn; cbn in Hn |- *;
      [congruence |].
    apply Z.ltb_ge in Hq. exists pc'. rewrite lookup_insert_eq. done.
Qed.

Definition addMsg_ec0 : epochChange :=
  mkEpochChangeState (mkConfig [0; 1; 2; 3] 5 50 4 1) ∅ None.
Definition addMsg_msg0 : EpochChange := mkEpochChange 1 [mkCheckpoint 0 (Some [7])] [] [].

Lemma addMsg_strongCert_witness :
  let ec1 := epochChange_addMsg (epochChange_addMsg addMsg_ec0 0 addMsg_msg0 (Some [1])) 1 addMsg_msg0 (Some [1]) in
  epochChange_wf (epochChange_addMsg ec1 2 addMsg_msg0 (Some [1]))
  /\ ec_strongCert (epochChange_addMsg ec1 2 addMsg_msg0 (Some [1])) = Some [1].
Proof.
  split; [| reflexivity].
  apply addMsg_strongCert. intros H. vm_compute in H. discriminate H.
Defined.
