(* ===== verification/NewEpochConfig.v ===== *)
(** * Construction of a new epoch's configuration

    [constructNewEpochConfig] of [pkg/statemachine/stateless.go]: from the
    epoch changes of a quorum it computes the starting checkpoint and the
    batch digests ("final preprepares") every node must carry into the new
    epoch.  The function ranges over Go maps, whose iteration order is not
    specified: the one loop whose result could depend on the order takes the
    order as a parameter; the counting loops are counts of map entries. *)
From S2P Require Import Prelude Msgs Stateless EpochChange.

(** ** Definitions *)

(** [checkpointKey]: a sequence number and a checkpoint value as a string. *)
Abbreviation checkpointKey := (Z * bytes)%type.

(** The number of iterations of [for _, v := range m { if p(v) { n++ } }]. *)
Definition countRange {K V : Type} `{Countable K} (p : V -> bool) (m : gmap K V) : Z :=
  Z.of_nat (length (filter (fun kv => p kv.2 = true) (map_to_list m))).

(** A choice of iteration order for [range checkpoints]. *)
Abbreviation rangeOrder :=
  (gmap checkpointKey (list Z) -> list (checkpointKey * list Z)).

Section constructNewEpochConfig.
Context (config : NetworkState_Config) (epochChanges : gmap Z parsedEpochChange).

(** One node of the first loop: records the new epoch number and the node's
    support for each of its checkpoints. *)
Definition collectNode (acc : Z * gmap checkpointKey (list Z)) (nodeID : Z)
    : Z * gmap checkpointKey (list Z) :=
  match epochChanges !! nodeID with
  | None => acc
  | Some epochChange =>
    (ech_NewEpoch (pec_underlying epochChange),
     foldl (fun checkpoints checkpoint =>
              let key := (ckp_SeqNo checkpoint, str (ckp_Value checkpoint)) in
              <[key := default [] (checkpoints !! key) ++ [nodeID]]> checkpoints)
       acc.2 (ech_Checkpoints (pec_underlying epochChange)))
  end.

Definition collectCheckpoints : Z * gmap checkpointKey (list Z) :=
  foldl collectNode (0, ∅) (nc_Nodes config).

(** The two thresholds a checkpoint must pass to be a candidate. *)
Definition eligible (key : checkpointKey) (supporters : list Z) : bool :=
  negb (Z.of_nat (length supporters) <? someCorrectQuorum config)
  && negb (countRange (fun ec => pec_lowWatermark ec <=? key.1) epochChanges
           <? intersectionQuorum config).

(** The body of [for key, supporters := range checkpoints]. *)
Definition considerCheckpoint (entry : checkpointKey * list Z) (maxCheckpoint : option checkpointKey)
    : outcome (option checkpointKey) :=
  let '(key, supporters) := entry in
  if negb (eligible key supporters) then Ok maxCheckpoint
  else
    match maxCheckpoint with
    | None => Ok (Some key)
    | Some m =>
      if key.1 <? m.1 then Ok maxCheckpoint
      else if m.1 =? key.1 then Panic "two correct quorums have different checkpoints for same seqno"
      else Ok (Some key)
    end.

(** Condition A1: [iEpochChange] does not contradict [entry]. *)
Definition a1Holds (seqNo : Z) (entry : EpochChange_SetEntry) (iEpochChange : parsedEpochChange) : bool :=
  if seqNo <=? pec_lowWatermark iEpochChange then false
  else
    match pec_pSet iEpochChange !! seqNo with
    | None => true
    | Some iEntry =>
      if se_Epoch iEntry <? se_Epoch entry then true
      else if se_Epoch entry <? se_Epoch iEntry then false
      else bytesEqual (se_Digest entry) (se_Digest iEntry)
    end.

(** Condition A2: [iEpochChange] preprepared the digest in the epoch of
    [entry] or a later one. *)
Definition a2Holds (seqNo : Z) (entry : EpochChange_SetEntry) (iEpochChange : parsedEpochChange) : bool :=
  match pec_qSet iEpochChange !! seqNo with
  | None => false
  | Some epochEntries =>
    existsb (fun '(epoch, digest) =>
               negb (epoch <? se_Epoch entry) && bytesEqual (se_Digest entry) digest)
      (map_to_list epochEntries)
  end.

(** The body of the loop over the nodes that searches the entry selected
    for [seqNo]: the entry of the first node that satisfies A1 and A2. *)
Fixpoint selectEntry (seqNo : Z) (nodes : list Z) : option EpochChange_SetEntry :=
  match nodes with
  | [] => None
  | nodeID :: nodes' =>
    match epochChanges !! nodeID ≫= fun ec => pec_pSet ec !! seqNo with
    | None => selectEntry seqNo nodes'
    | Some entry =>
      if countRange (a1Holds seqNo entry) epochChanges <? intersectionQuorum config
      then selectEntry seqNo nodes'
      else if countRange (a2Holds seqNo entry) epochChanges <? someCorrectQuorum config
      then selectEntry seqNo nodes'
      else Some entry
    end
  end.

(** Condition B: the node reports the sequence unprepared. *)
Definition bHolds (seqNo : Z) (epochChange : parsedEpochChange) : bool :=
  if seqNo <=? pec_lowWatermark epochChange then false
  else match pec_pSet epochChange !! seqNo with Some _ => false | None => true end.

(** The loop over the sequence numbers of the new log window: the digest
    selected for each ([nil] for the null batch), [None] when neither A nor
    B holds for one of them and the construction has to wait. *)
Fixpoint finalPreprepares (seqNos : list Z) : option (list slice * bool) :=
  match seqNos with
  | [] => Some ([], false)
  | seqNo :: seqNos' =>
    match selectEntry seqNo (nc_Nodes config) with
    | Some entry =>
      '(digests, _) ← finalPreprepares seqNos';
      Some (se_Digest entry :: digests, true)
    | None =>
      if countRange (bHolds seqNo) epochChanges <? intersectionQuorum config then None
      else
        '(digests, anySelected) ← finalPreprepares seqNos';
        Some (None :: digests, anySelected)
    end
  end.

(** [2*config.CheckpointInterval] is [int32] arithmetic; a negative length
    makes [make] panic. *)
Definition windowLength : outcome nat :=
  let n := (2 * nc_CheckpointInterval config + 2 ^ 31) mod 2 ^ 32 - 2 ^ 31 in
  if n <? 0 then Panic "makeslice: len out of range" else Ok (Z.to_nat n).

(** The sequence number of each offset of the window above a checkpoint. *)
Definition windowSeqNos (start : Z) (n : nat) : list Z :=
  map (fun off => Z.of_nat off +! start +! 1) (seq 0 n).

Definition constructNewEpochConfig (order : rangeOrder) (newLeaders : list Z)
    : outcome (option NewEpochConfig) :=
  let '(newEpochNumber, checkpoints) := collectCheckpoints in
  maxCheckpoint ← forRange considerCheckpoint (order checkpoints) None;
  match maxCheckpoint with
  | None => Ok None
  | Some key =>
    n ← windowLength;
    match finalPreprepares (windowSeqNos key.1 n) with
    | None => Ok None
    | Some (digests, anySelected) =>
      Ok (Some {|
        nec_Config := {| ec_Number := newEpochNumber; ec_Leaders := newLeaders;
          ec_PlannedExpiration := key.1 +! nc_MaxEpochLength config |};
        nec_StartingCheckpoint := {| ckp_SeqNo := key.1; ckp_Value := Some key.2 |};
        nec_FinalPreprepares := if anySelected then digests else [] |})
    end
  end.

End constructNewEpochConfig.

(** ** Specification *)

(** Go visits every entry of a map exactly once, in any order. *)
Definition validOrder (order : rangeOrder) : Prop :=
  forall m, order m ≡ₚ map_to_list m.

(** The nodes whose epoch change satisfies [p]. *)
Definition supporting (p : parsedEpochChange -> bool) (epochChanges : gmap Z parsedEpochChange) : gset Z :=
  dom (filter (fun kv => p kv.2 = true) epochChanges).

(** The nodes, in order and with repetitions, whose epoch change lists a checkpoint. *)
Definition claimsCheckpoint (key : checkpointKey) (ec : parsedEpochChange) : Prop :=
  exists cp, cp ∈ ech_Checkpoints (pec_underlying ec)
    /\ ckp_SeqNo cp = key.1 /\ str (ckp_Value cp) = key.2.

(** The keys of the eligible entries of a list of map entries. *)
Definition eligibleKeys (config : NetworkState_Config) (epochChanges : gmap Z parsedEpochChange)
    (entries : list (checkpointKey * list Z)) : list checkpointKey :=
  (filter (fun kv => eligible config epochChanges kv.1 kv.2 = true) entries).*1.

(** [r] is the candidate with the greatest sequence number, if there is one. *)
Definition isGreatest (keys : list checkpointKey) (r : option checkpointKey) : Prop :=
  match r with
  | None => keys = []
  | Some k => k ∈ keys /\ forall k', k' ∈ keys -> k'.1 < k.1 \/ k' = k
  end.

(** The nodes recorded for a checkpoint, in the order of [config.Nodes], once
    for every time their epoch change lists it. *)
Definition supportersOf (epochChanges : gmap Z parsedEpochChange) (key : checkpointKey)
    (nodes : list Z) : list Z :=
  nodes ≫= fun i =>
    match epochChanges !! i with
    | None => []
    | Some ec => (fun _ => i) <$> filter (fun cp => (ckp_SeqNo cp, str (ckp_Value cp)) = key)
                                    (ech_Checkpoints (pec_underlying ec))
    end.

(** ** Lemmas: counting *)

Lemma countRange_supporting (p : parsedEpochChange -> bool) (m : gmap Z parsedEpochChange) :
  countRange p m = Z.of_nat (size (supporting p m)).
Proof.
  unfold countRange, supporting. f_equal.
  rewrite size_dom, <- length_map_to_list. apply Permutation_length. symmetry.
  apply NoDup_Permutation; [apply NoDup_map_to_list | apply NoDup_filter, NoDup_map_to_list |].
  intros [k v]. rewrite elem_of_map_to_list, map_lookup_filter_Some, list_elem_of_filter, elem_of_map_to_list.
  cbn. naive_solver.
Qed.

Lemma elem_of_supporting (p : parsedEpochChange -> bool) (m : gmap Z parsedEpochChange) (i : Z) :
  i ∈ supporting p m <-> exists ec, m !! i = Some ec /\ p ec = true.
Proof.
  unfold supporting. rewrite elem_of_dom. unfold is_Some.
  setoid_rewrite map_lookup_filter_Some. done.
Qed.

(** ** Lemmas: the maximum loop *)

Section maximum.
Context (config : NetworkState_Config) (epochChanges : gmap Z parsedEpochChange).
Abbreviation consider := (considerCheckpoint config epochChanges).
Abbreviation keysOf := (eligibleKeys config epochChanges).

Lemma eligibleKeys_cons (e : checkpointKey * list Z) (l : list (checkpointKey * list Z)) :
  keysOf (e :: l) = (if eligible config epochChanges e.1 e.2 then [e.1] else []) ++ keysOf l.
Proof.
  unfold eligibleKeys. rewrite filter_cons.
  destruct (eligible config epochChanges e.1 e.2) eqn:E; case_decide; congruence || done.
Qed.

Lemma consider_sound (l : list (checkpointKey * list Z)) (m r : option checkpointKey) :
  forRange consider l m = Ok r -> isGreatest (option_list m ++ keysOf l) r.
Proof.
  revert m. induction l as [|[k sup] l IH]; intros m Hr; cbn in Hr.
  { injection Hr as <-. rewrite app_nil_r. destruct m; cbn; [| done].
    split; [by left |]. set_solver. }
  rewrite eligibleKeys_cons. cbn [fst snd].
  destruct (eligible config epochChanges k sup) eqn:E; cbn in Hr; [| by apply IH].
  destruct m as [m |]; cbn in Hr; [| by apply IH in Hr].
  destruct (Z.ltb_spec k.1 m.1) as [Hlt | Hge]; cbn in Hr.
  { apply IH in Hr. destruct r as [r |]; [| by cbn in Hr].
    destruct Hr as [Hin Hmax]. split; [set_solver |].
    intros k' Hk'. destruct (decide (k' = k)) as [-> | Hne]; [| apply Hmax; set_solver].
    destruct (Hmax m) as [? | ->]; [set_solver | left; lia | by left]. }
  destruct (Z.eqb_spec m.1 k.1) as [He | Hne]; cbn in Hr; [done |].
  apply IH in Hr. destruct r as [r |]; [| by cbn in Hr].
  destruct Hr as [Hin Hmax]. split; [set_solver |].
  intros k' Hk'. destruct (decide (k' = m)) as [-> | Hne']; [| apply Hmax; set_solver].
  destruct (Hmax k) as [? | ->]; [set_solver | left; lia | left; lia].
Qed.

Lemma consider_total (l : list (checkpointKey * list Z)) (m : option checkpointKey) :
  NoDup ((option_list m ++ keysOf l).*1) ->
  exists r, forRange consider l m = Ok r.
Proof.
  revert m. induction l as [|[k sup] l IH]; intros m Hnd; cbn; [eauto |].
  rewrite eligibleKeys_cons in Hnd. cbn [fst snd] in Hnd.
  destruct (eligible config epochChanges k sup) eqn:E; cbn in Hnd |- *; [| by apply IH].
  destruct m as [m |]; cbn in Hnd |- *; [| by apply (IH (Some k))].
  apply NoDup_cons in Hnd as [Hni Hnd]. pose proof Hnd as [Hni' Hnd']%NoDup_cons.
  destruct (Z.ltb_spec k.1 m.1); cbn.
  { apply (IH (Some m)). cbn. apply NoDup_cons. split; [set_solver | done]. }
  destruct (Z.eqb_spec m.1 k.1) as [He |]; cbn; [set_solver |].
  by apply (IH (Some k)).
Qed.

End maximum.

Lemma isGreatest_unique (keys : list checkpointKey) (r r' : option checkpointKey) :
  isGreatest keys r -> isGreatest keys r' -> r = r'.
Proof.
  destruct r as [k |], r' as [k' |]; cbn.
  - intros [Hk Hm] [Hk' Hm']. destruct (Hm k' Hk') as [? | ->]; [| done].
    destruct (Hm' k Hk) as [? | ->]; [lia | done].
  - intros [Hk _] ->. set_solver.
  - intros -> [Hk _]. set_solver.
  - done.
Qed.

Lemma isGreatest_perm (keys keys' : list checkpointKey) (r : option checkpointKey) :
  keys ≡ₚ keys' -> isGreatest keys r -> isGreatest keys' r.
Proof.
  intros Hp. destruct r as [k |]; cbn.
  - intros [Hk Hm]. split; [by rewrite <- Hp |]. intros k' Hk'. apply Hm. by rewrite Hp.
  - intros ->. by apply Permutation_nil.
Qed.

(** ** Lemmas: collected supporters *)

Lemma collect_checkpoints_lookup (i : Z) (cps : list Checkpoint) (m : gmap checkpointKey (list Z)) (key : checkpointKey) :
  default [] (foldl (fun checkpoints checkpoint =>
      let key := (ckp_SeqNo checkpoint, str (ckp_Value checkpoint)) in
      <[key := default [] (checkpoints !! key) ++ [i]]> checkpoints) m cps !! key)
  = default [] (m !! key)
    ++ ((fun _ => i) <$> filter (fun cp => (ckp_SeqNo cp, str (ckp_Value cp)) = key) cps).
Proof.
  revert m. induction cps as [|cp cps IH]; intros m; cbn [foldl].
  { by rewrite app_nil_r. }
  rewrite IH, filter_cons, lookup_insert. cbn zeta.
  repeat case_decide; simplify_eq; cbn; rewrite <- ?app_assoc; done.
Qed.

Lemma collectNodes_lookup (epochChanges : gmap Z parsedEpochChange) (nodes : list Z)
    (acc : Z * gmap checkpointKey (list Z)) (key : checkpointKey) :
  default [] ((foldl (collectNode epochChanges) acc nodes).2 !! key)
  = default [] (acc.2 !! key) ++ supportersOf epochChanges key nodes.
Proof.
  revert acc. induction nodes as [|i nodes IH]; intros acc; cbn [foldl].
  { by rewrite app_nil_r. }
  rewrite IH. unfold supportersOf, collectNode. cbn.
  destruct (epochChanges !! i) as [ec |]; cbn; [| done].
  rewrite collect_checkpoints_lookup, <- app_assoc. done.
Qed.

Lemma collectCheckpoints_lookup (config : NetworkState_Config) (epochChanges : gmap Z parsedEpochChange)
    (key : checkpointKey) (sup : list Z) :
  (collectCheckpoints config epochChanges).2 !! key = Some sup ->
  sup = supportersOf epochChanges key (nc_Nodes config).
Proof.
  intros H. pose proof (collectNodes_lookup epochChanges (nc_Nodes config) (0, ∅) key) as Hl.
  cbn [snd] in Hl. rewrite lookup_empty in Hl. cbn in Hl.
  unfold collectCheckpoints in H. rewrite H in Hl. done.
Qed.

Lemma elem_of_supportersOf (epochChanges : gmap Z parsedEpochChange) (key : checkpointKey) (nodes : list Z) (i : Z) :
  i ∈ supportersOf epochChanges key nodes ->
  i ∈ nodes /\ exists ec, epochChanges !! i = Some ec /\ claimsCheckpoint key ec.
Proof.
  unfold supportersOf. intros (j & Hi & Hj)%list_elem_of_bind.
  destruct (epochChanges !! j) as [ec |] eqn:Hec; [| set_solver].
  apply list_elem_of_fmap in Hi as (cp & -> & Hcp). apply list_elem_of_filter in Hcp as [Hk Hcp].
  split; [done |]. exists ec. split; [done |]. exists cp. split; [done |]. by rewrite <- Hk.
Qed.

Lemma NoDup_supportersOf (epochChanges : gmap Z parsedEpochChange) (key : checkpointKey) (nodes : list Z) :
  NoDup nodes ->
  (forall i ec, epochChanges !! i = Some ec ->
     NoDup ((fun cp => (ckp_SeqNo cp, str (ckp_Value cp))) <$> ech_Checkpoints (pec_underlying ec))) ->
  NoDup (supportersOf epochChanges key nodes).
Proof.
  intros Hnd Hcps. induction nodes as [|i nodes IH]; cbn; [constructor |].
  apply NoDup_cons in Hnd as [Hni Hnd]. apply NoDup_app. split; [| split; [| by apply IH]].
  - destruct (epochChanges !! i) as [ec |] eqn:Hec; [| constructor].
    pose proof (Hcps i ec Hec) as Hu. revert Hu. generalize (ech_Checkpoints (pec_underlying ec)).
    intros cps. induction cps as [|cp cps IHc]; intros Hu; [constructor |].
    apply NoDup_cons in Hu as [Hnew Hu]. rewrite filter_cons. case_decide as Hk; [| by apply IHc].
    destruct (filter _ cps) as [|cp' cps'] eqn:F; [apply NoDup_singleton |].
    exfalso. assert (Hcp' : cp' ∈ cp' :: cps') by (by left).
    rewrite <- F in Hcp'. apply list_elem_of_filter in Hcp' as [Hk' Hcp']. apply Hnew.
    apply list_elem_of_fmap. exists cp'. split; [congruence | done].
  - intros j Hj Hj'. apply elem_of_supportersOf in Hj' as [Hj' _].
    destruct (epochChanges !! i); [| set_solver].
    apply list_elem_of_fmap in Hj as (_ & -> & _). done.
Qed.

(** ** Lemmas: selection *)

Lemma selectEntry_Some (config : NetworkState_Config) (epochChanges : gmap Z parsedEpochChange)
    (seqNo : Z) (nodes : list Z) (en : EpochChange_SetEntry) :
  selectEntry config epochChanges seqNo nodes = Some en ->
  intersectionQuorum config <= countRange (a1Holds seqNo en) epochChanges
  /\ someCorrectQuorum config <= countRange (a2Holds seqNo en) epochChanges.
Proof.
  induction nodes as [|i nodes IH]; cbn; [done |]. intros H.
  destruct (epochChanges !! i ≫= _) as [en' |]; [| by apply IH].
  destruct (Z.ltb_spec (countRange (a1Holds seqNo en') epochChanges) (intersectionQuorum config)); [by apply IH |].
  destruct (Z.ltb_spec (countRange (a2Holds seqNo en') epochChanges) (someCorrectQuorum config)); [by apply IH |].
  injection H as <-. lia.
Qed.

Lemma finalPreprepares_lookup (config : NetworkState_Config) (epochChanges : gmap Z parsedEpochChange)
    (seqNos : list Z) (digests : list slice) (anySelected : bool) (k : nat) (s : Z) :
  finalPreprepares config epochChanges seqNos = Some (digests, anySelected) ->
  seqNos !! k = Some s ->
  match selectEntry config epochChanges s (nc_Nodes config) with
  | Some en => digests !! k = Some (se_Digest en) /\ anySelected = true
  | None => digests !! k = Some None
      /\ intersectionQuorum config <= countRange (bHolds s) epochChanges
  end.
Proof.
  revert digests anySelected k. induction seqNos as [|s0 seqNos IH]; intros digests any k Hf Hk; [done |].
  cbn in Hf. destruct (selectEntry config epochChanges s0 _) as [en |] eqn:Hs0.
  - destruct (finalPreprepares _ _ seqNos) as [[ds any'] |] eqn:Hrest; cbn in Hf; [| done].
    injection Hf as <- <-. destruct k as [|k]; cbn in Hk |- *.
    + injection Hk as <-. by rewrite Hs0.
    + specialize (IH _ _ k eq_refl Hk). destruct (selectEntry _ _ s _); [by destruct IH | done].
  - destruct (Z.ltb_spec (countRange (bHolds s0) epochChanges) (intersectionQuorum config)); [done |].
    destruct (finalPreprepares _ _ seqNos) as [[ds any'] |] eqn:Hrest; cbn in Hf; [| done].
    injection Hf as <- <-. destruct k as [|k]; cbn in Hk |- *.
    + injection Hk as <-. by rewrite Hs0.
    + by apply (IH _ _ k eq_refl Hk).
Qed.

Lemma finalPreprepares_length (config : NetworkState_Config) (epochChanges : gmap Z parsedEpochChange)
    (seqNos : list Z) (digests : list slice) (anySelected : bool) :
  finalPreprepares config epochChanges seqNos = Some (digests, anySelected) ->
  length digests = length seqNos.
Proof.
  revert digests anySelected. induction seqNos as [|s0 seqNos IH]; intros digests any Hf; cbn in Hf.
  { by simplify_eq. }
  repeat case_match; try done; destruct (finalPreprepares _ _ seqNos) as [[ds any'] |] eqn:Hrest;
    cbn in Hf; simplify_eq; cbn; f_equal; eauto.
Qed.

Lemma windowSeqNos_lookup (start : Z) (n k : nat) :
  0 <= start -> start + Z.of_nat n < 2 ^ 64 -> (k < n)%nat ->
  windowSeqNos start n !! k = Some (start + Z.of_nat k + 1).
Proof.
  intros Hs Hn Hk. unfold windowSeqNos.
  rewrite list_lookup_fmap, lookup_seq_lt by done. cbn. f_equal. nowrap. lia.
Qed.

Lemma windowLength_small (config : NetworkState_Config) :
  0 <= nc_CheckpointInterval config < 2 ^ 30 ->
  windowLength config = Ok (Z.to_nat (2 * nc_CheckpointInterval config)).
Proof.
  intros H. unfold windowLength. rewrite Z.mod_small by lia.
  destruct (Z.ltb_spec (2 * nc_CheckpointInterval config + 2 ^ 31 - 2 ^ 31) 0); [lia |].
  do 2 f_equal. lia.
Qed.

(** ** Lemmas: epoch-change safety *)

(** A batch with digest [digest] was committed for [seqNo] in [epoch]: an
    intersection quorum prepared it, and no correct node preprepared another
    batch for [seqNo] in that or a later epoch; the correct nodes report this
    in their epoch changes.  At most [F] nodes are faulty. *)
Record committedIn (config : NetworkState_Config) (epochChanges : gmap Z parsedEpochChange)
    (faulty : gset Z) (seqNo epoch : Z) (digest : slice) : Prop := {
  ci_F : 0 <= nc_F config;
  ci_faulty : Z.of_nat (size faulty) <= nc_F config;
  ci_members : dom epochChanges ⊆ (list_to_set (nc_Nodes config) : gset Z);
  ci_prepared : exists Q : gset Z, Q ⊆ list_to_set (nc_Nodes config)
    /\ intersectionQuorum config <= Z.of_nat (size Q)
    /\ forall i ec, i ∈ Q -> i ∉ faulty -> epochChanges !! i = Some ec ->
         pec_lowWatermark ec < seqNo ->
         exists en, pec_pSet ec !! seqNo = Some en /\ epoch <= se_Epoch en;
  ci_preprepared : forall i ec ep d, i ∉ faulty -> epochChanges !! i = Some ec ->
    qLookup (pec_qSet ec) seqNo ep = Some d -> epoch <= ep -> str d = str digest;
}.

Section safety.
Context (config : NetworkState_Config) (epochChanges : gmap Z parsedEpochChange).
Context (faulty : gset Z) (seqNo epoch : Z) (digest : slice).
Context (Hci : committedIn config epochChanges faulty seqNo epoch digest).

(** A quorum of epoch changes that reach below [seqNo] contains one of a
    correct node that prepared [seqNo]. *)
Lemma quorum_has_prepared (p : parsedEpochChange -> bool) :
  (forall ec, p ec = true -> pec_lowWatermark ec < seqNo) ->
  intersectionQuorum config <= countRange p epochChanges ->
  exists ec en, p ec = true /\ pec_pSet ec !! seqNo = Some en /\ epoch <= se_Epoch en.
Proof.
  destruct Hci as [HF Hf Hm (Q & HQ & HQs & Hprep) _]. intros Hlow Hcount.
  rewrite countRange_supporting in Hcount.
  assert (Hsub : supporting p epochChanges ⊆ list_to_set (nc_Nodes config)).
  { intros i (ec & Hec & _)%elem_of_supporting. apply Hm, elem_of_dom. eauto. }
  pose proof (intersectionQuorums_meet config _ _ HF Hsub HQ Hcount HQs) as Hmeet.
  destruct (someCorrect_member config _ faulty Hf Hmeet) as (i & [Hi HiQ]%elem_of_intersection & Hic).
  apply elem_of_supporting in Hi as (ec & Hec & Hp).
  destruct (Hprep i ec HiQ Hic Hec (Hlow ec Hp)) as (en & Hen & Hep). eauto.
Qed.

Lemma selected_is_committed (en : EpochChange_SetEntry) :
  intersectionQuorum config <= countRange (a1Holds seqNo en) epochChanges ->
  someCorrectQuorum config <= countRange (a2Holds seqNo en) epochChanges ->
  str (se_Digest en) = str digest.
Proof.
  intros HA1 HA2.
  destruct (quorum_has_prepared (a1Holds seqNo en)) as (ec & ien & Ha1 & Hien & Hep); [| done |].
  { intros ec. unfold a1Holds. destruct (Z.leb_spec seqNo (pec_lowWatermark ec)); [done | lia]. }
  assert (Hepoch : epoch <= se_Epoch en).
  { unfold a1Holds in Ha1. rewrite Hien in Ha1.
    destruct (seqNo <=? pec_lowWatermark ec); [done |].
    destruct (Z.ltb_spec (se_Epoch ien) (se_Epoch en)); [lia |].
    destruct (Z.ltb_spec (se_Epoch en) (se_Epoch ien)); [done | lia]. }
  rewrite countRange_supporting in HA2.
  destruct (someCorrect_member config _ faulty (ci_faulty _ _ _ _ _ _ Hci) HA2) as (j & Hj & Hjc).
  apply elem_of_supporting in Hj as (jec & Hjec & Ha2). unfold a2Holds in Ha2.
  destruct (pec_qSet jec !! seqNo) as [views |] eqn:Hv; [| done].
  apply existsb_exists in Ha2 as ([ep d] & Hin & [Hge Hd]%andb_true_iff).
  apply list_elem_of_In, elem_of_map_to_list in Hin.
  apply bytesEqual_spec in Hd. rewrite Hd.
  apply negb_true_iff, Z.ltb_ge in Hge.
  apply (ci_preprepared _ _ _ _ _ _ Hci j jec ep d Hjc Hjec); [| lia].
  unfold qLookup. by rewrite Hv.
Qed.

Lemma committed_not_null : ~ intersectionQuorum config <= countRange (bHolds seqNo) epochChanges.
Proof.
  intros HB. destruct (quorum_has_prepared (bHolds seqNo)) as (ec & en & Hb & Hen & _); [| done |].
  { intros ec. unfold bHolds. destruct (Z.leb_spec seqNo (pec_lowWatermark ec)); [done | lia]. }
  unfold bHolds in Hb. rewrite Hen in Hb. by destruct (seqNo <=? _).
Qed.

End safety.

(** The shape of a returned configuration. *)
Lemma constructNewEpochConfig_inv (config : NetworkState_Config) (epochChanges : gmap Z parsedEpochChange)
    (order : rangeOrder) (leaders : list Z) (nec : NewEpochConfig) :
  constructNewEpochConfig config epochChanges order leaders = Ok (Some nec) ->
  exists key n digests anySelected,
    forRange (considerCheckpoint config epochChanges) (order (collectCheckpoints config epochChanges).2) None = Ok (Some key)
    /\ windowLength config = Ok n
    /\ finalPreprepares config epochChanges (windowSeqNos key.1 n) = Some (digests, anySelected)
    /\ nec = {|
        nec_Config := {| ec_Number := (collectCheckpoints config epochChanges).1; ec_Leaders := leaders;
          ec_PlannedExpiration := key.1 +! nc_MaxEpochLength config |};
        nec_StartingCheckpoint := {| ckp_SeqNo := key.1; ckp_Value := Some key.2 |};
        nec_FinalPreprepares := if anySelected then digests else [] |}.
Proof.
  unfold constructNewEpochConfig.
  destruct (collectCheckpoints config epochChanges) as [num cps]. cbn [fst snd]. intros H.
  apply bind_Ok in H as (mc & Hmax & H). destruct mc as [key |]; [| done].
  apply bind_Ok in H as (n & Hn & H).
  destruct (finalPreprepares config epochChanges (windowSeqNos key.1 n)) as [[ds any] |] eqn:Hfp; [| done].
  injection H as <-. eauto 10.
Qed.

(** A committed batch is part of every configuration computed. *)
Lemma construct_keeps_committed
    (config : NetworkState_Config) (epochChanges : gmap Z parsedEpochChange) (order : rangeOrder)
    (leaders : list Z) (nec : NewEpochConfig) (faulty : gset Z) (seqNo epoch : Z) (digest : slice) :
  committedIn config epochChanges faulty seqNo epoch digest ->
  constructNewEpochConfig config epochChanges order leaders = Ok (Some nec) ->
  0 <= nc_CheckpointInterval config < 2 ^ 30 ->
  0 <= ckp_SeqNo (nec_StartingCheckpoint nec) < seqNo ->
  seqNo <= ckp_SeqNo (nec_StartingCheckpoint nec) + 2 * nc_CheckpointInterval config ->
  ckp_SeqNo (nec_StartingCheckpoint nec) + 2 * nc_CheckpointInterval config < 2 ^ 64 ->
  exists d,
    nec_FinalPreprepares nec !! Z.to_nat (seqNo - ckp_SeqNo (nec_StartingCheckpoint nec) - 1) = Some d
    /\ str d = str digest.
Proof.
  intros Hci Hnec Hci30 Hlow Hhigh Hmax.
  apply constructNewEpochConfig_inv in Hnec as (key & n & digests & any & _ & Hn & Hfp & ->).
  rewrite windowLength_small in Hn by lia. injection Hn as <-. cbn in *.
  set (k := Z.to_nat (seqNo - key.1 - 1)).
  assert (Hk : windowSeqNos key.1 (Z.to_nat (2 * nc_CheckpointInterval config)) !! k = Some seqNo).
  { rewrite windowSeqNos_lookup by lia. f_equal. lia. }
  pose proof (finalPreprepares_lookup _ _ _ _ _ _ _ Hfp Hk) as Hsel.
  destruct (selectEntry config epochChanges seqNo (nc_Nodes config)) as [en |] eqn:Hen.
  - destruct Hsel as [Hd ->]. exists (se_Digest en). split; [done |].
    apply selectEntry_Some in Hen as [HA1 HA2]. by eapply selected_is_committed.
  - destruct Hsel as [_ HB]. by apply committed_not_null in Hci.
Qed.

(** ** Properties *)

(** C2: epoch-change safety.  If a batch was committed for a sequence number
    in some epoch (a quorum prepared it and no correct node preprepared another
    batch for it since), then every configuration computed from the epoch
    changes of the nodes assigns that batch's digest to the sequence number,
    whichever nodes report, in whatever order the maps are visited, as long as
    at most [F] of them lie and the number is in the new log window. *)
Theorem committed_batch_survives_epoch_change
    (config : NetworkState_Config) (epochChanges : gmap Z parsedEpochChange) (order : rangeOrder)
    (leaders : list Z) (nec : NewEpochConfig) (faulty : gset Z) (seqNo epoch : Z) (digest : slice) :
  committedIn config epochChanges faulty seqNo epoch digest ->
  constructNewEpochConfig config epochChanges order leaders = Ok (Some nec) ->
  0 <= nc_CheckpointInterval config < 2 ^ 30 ->
  0 <= ckp_SeqNo (nec_StartingCheckpoint nec) < seqNo ->
  seqNo <= ckp_SeqNo (nec_StartingCheckpoint nec) + 2 * nc_CheckpointInterval config ->
  ckp_SeqNo (nec_StartingCheckpoint nec) + 2 * nc_CheckpointInterval config < 2 ^ 64 ->
  exists d,
    nec_FinalPreprepares nec !! Z.to_nat (seqNo - ckp_SeqNo (nec_StartingCheckpoint nec) - 1) = Some d
    /\ str d = str digest.
Proof. apply construct_keeps_committed. Qed.

(** A network of four nodes, one of which may be faulty; three epoch changes
    all report batch [9;9] prepared for sequence 1 in epoch 0. *)
Definition survive_config : NetworkState_Config := mkConfig [0; 1; 2; 3] 1 10 4 1.
Definition survive_pec : parsedEpochChange :=
  let e := mkEpochChange 1 [mkCheckpoint 0 (Some [5])]
             [mkSetEntry 0 1 (Some [9; 9])] [mkSetEntry 0 1 (Some [9; 9])] in
  mkParsed e {[1 := mkSetEntry 0 1 (Some [9; 9])]} {[1 := {[0 := Some [9; 9]]}]} 0 ∅.
Definition survive_changes : gmap Z parsedEpochChange :=
  <[0 := survive_pec]> (<[1 := survive_pec]> (<[2 := survive_pec]> ∅)).
Definition survive_nec : NewEpochConfig :=
  mkNewEpochConfig (mkEpochConfig 1 [0] 10) (mkCheckpoint 0 (Some [5])) [Some [9; 9]; None].

Lemma survive_changes_lookup (i : Z) (ec : parsedEpochChange) :
  survive_changes !! i = Some ec -> ec = survive_pec.
Proof.
  unfold survive_changes. rewrite !lookup_insert_Some, lookup_empty. naive_solver.
Qed.

Lemma survive_committed : committedIn survive_config survive_changes {[3]} 1 0 (Some [9; 9]).
Proof.
  split.
  - done.
  - rewrite size_singleton. done.
  - unfold survive_changes. rewrite !dom_insert_L. cbn. set_solver.
  - exists {[0; 1; 2]}. split; [cbn; set_solver |]. split; [by vm_compute |].
    intros i ec _ _ ->%survive_changes_lookup _. eexists. split; [reflexivity | done].
  - intros i ec ep d _ ->%survive_changes_lookup. unfold qLookup, survive_pec; cbn.
    rewrite lookup_singleton_eq. cbn. intros [_ <-]%lookup_singleton_Some. done.
Qed.

Lemma committed_batch_survives_epoch_change_witness :
  constructNewEpochConfig survive_config survive_changes map_to_list [0] = Ok (Some survive_nec)
  /\ exists d, nec_FinalPreprepares survive_nec !! 0%nat = Some d /\ str d = [9; 9].
Proof.
  split; [by vm_compute |].
  apply (committed_batch_survives_epoch_change survive_config survive_changes map_to_list [0]
           survive_nec {[3]} 1 0 (Some [9; 9]));
    [apply survive_committed | by vm_compute | cbn; lia | cbn; lia | cbn; lia | cbn; lia].
Defined.

(** C28: the configuration does not depend on Go's map iteration order: any
    two orders give the same result, provided no two eligible checkpoints (f+1
    supporters, a quorum at or below them) share a sequence number. *)
Theorem constructNewEpochConfig_deterministic
    (config : NetworkState_Config) (epochChanges : gmap Z parsedEpochChange)
    (order1 order2 : rangeOrder) (leaders : list Z) :
  validOrder order1 -> validOrder order2 ->
  NoDup ((eligibleKeys config epochChanges (map_to_list (collectCheckpoints config epochChanges).2)).*1) ->
  constructNewEpochConfig config epochChanges order1 leaders
  = constructNewEpochConfig config epochChanges order2 leaders.
Proof.
  intros Ho1 Ho2 Hnd. unfold constructNewEpochConfig.
  destruct (collectCheckpoints config epochChanges) as [num cps]. cbn [snd] in Hnd.
  assert (Hkeys : forall o, validOrder o ->
    eligibleKeys config epochChanges (o cps) ≡ₚ eligibleKeys config epochChanges (map_to_list cps)).
  { intros o Ho. unfold eligibleKeys. by rewrite (Ho cps). }
  assert (Hres : forall o, validOrder o -> exists r,
    forRange (considerCheckpoint config epochChanges) (o cps) None = Ok r
    /\ isGreatest (eligibleKeys config epochChanges (map_to_list cps)) r).
  { intros o Ho. destruct (consider_total config epochChanges (o cps) None) as [r Hr].
    { cbn. by rewrite Hkeys. }
    exists r. split; [done |]. apply consider_sound in Hr. cbn in Hr.
    eapply isGreatest_perm; [by apply Hkeys | done]. }
  destruct (Hres _ Ho1) as (r1 & -> & H1), (Hres _ Ho2) as (r2 & -> & H2).
  by rewrite (isGreatest_unique _ _ _ H1 H2).
Qed.

Lemma constructNewEpochConfig_deterministic_witness :
  constructNewEpochConfig survive_config survive_changes (fun m => reverse (map_to_list m)) [0]
  = constructNewEpochConfig survive_config survive_changes map_to_list [0].
Proof.
  apply constructNewEpochConfig_deterministic.
  - intros m. apply reverse_Permutation.
  - intros m. done.
  - vm_compute. apply NoDup_singleton.
Defined.

(** The starting checkpoint of a returned configuration is claimed by at
    least [F]+1 distinct nodes, a quorum of nodes has a low watermark at or
    below it, and no eligible checkpoint is higher; the window has one digest
    for each of its sequence numbers, or none at all when nothing was selected. *)
Theorem constructNewEpochConfig_startingCheckpoint
    (config : NetworkState_Config) (epochChanges : gmap Z parsedEpochChange) (order : rangeOrder)
    (leaders : list Z) (nec : NewEpochConfig) :
  validOrder order -> NoDup (nc_Nodes config) ->
  (forall i ec, epochChanges !! i = Some ec ->
     NoDup ((fun cp => (ckp_SeqNo cp, str (ckp_Value cp))) <$> ech_Checkpoints (pec_underlying ec))) ->
  0 <= nc_CheckpointInterval config < 2 ^ 30 ->
  constructNewEpochConfig config epochChanges order leaders = Ok (Some nec) ->
  let key := (ckp_SeqNo (nec_StartingCheckpoint nec), str (ckp_Value (nec_StartingCheckpoint nec))) in
  (exists S : gset Z, someCorrectQuorum config <= Z.of_nat (size S)
     /\ forall i, i ∈ S -> i ∈ nc_Nodes config
          /\ exists ec, epochChanges !! i = Some ec /\ claimsCheckpoint key ec)
  /\ intersectionQuorum config
     <= Z.of_nat (size (supporting (fun ec => pec_lowWatermark ec <=? key.1) epochChanges))
  /\ (forall k, k ∈ eligibleKeys config epochChanges (map_to_list (collectCheckpoints config epochChanges).2) ->
        k.1 < key.1 \/ k = key)
  /\ (nec_FinalPreprepares nec = []
      \/ length (nec_FinalPreprepares nec) = Z.to_nat (2 * nc_CheckpointInterval config)).
Proof.
  intros Ho Hnodes Hcps Hint Hnec.
  apply constructNewEpochConfig_inv in Hnec as (key & n & ds & any & Hmax & Hn & Hfp & ->).
  cbn [nec_StartingCheckpoint ckp_SeqNo ckp_Value nec_FinalPreprepares]. cbn zeta.
  replace (key.1, str (Some key.2)) with key by (by destruct key).
  apply consider_sound in Hmax. cbn [option_list app] in Hmax.
  eapply isGreatest_perm in Hmax; [| unfold eligibleKeys; rewrite (Ho _); reflexivity].
  destruct Hmax as [Hin Hgreat]. pose proof Hin as Hin'.
  apply list_elem_of_fmap in Hin' as ([key' sup] & Heq & [Hel Hsup]%list_elem_of_filter).
  cbn in Heq, Hel. subst key'. apply elem_of_map_to_list, collectCheckpoints_lookup in Hsup.
  apply andb_true_iff in Hel as [Hlen%negb_true_iff%Z.ltb_ge Hlow%negb_true_iff%Z.ltb_ge].
  split; [| split; [| split]].
  - exists (list_to_set sup). split.
    + rewrite size_list_to_set; [done |]. subst sup. by apply NoDup_supportersOf.
    + intros i Hi. rewrite elem_of_list_to_set in Hi. subst sup. by apply elem_of_supportersOf in Hi.
  - by rewrite <- countRange_supporting.
  - done.
  - rewrite windowLength_small in Hn by done. injection Hn as <-.
    apply finalPreprepares_length in Hfp. destruct any; [right | by left].
    rewrite Hfp. unfold windowSeqNos. by rewrite length_map, length_seq.
Qed.

Lemma constructNewEpochConfig_startingCheckpoint_witness :
  intersectionQuorum survive_config
    <= Z.of_nat (size (supporting (fun ec => pec_lowWatermark ec <=? 0) survive_changes)).
Proof.
  apply (constructNewEpochConfig_startingCheckpoint survive_config survive_changes map_to_list [0] survive_nec).
  - intros m. done.
  - apply (bool_decide_unpack _). by vm_compute.
  - intros i ec ->%survive_changes_lookup. apply NoDup_singleton.
  - cbn. lia.
  - by vm_compute.
Defined.

(** Node 3 alone lists a checkpoint for sequence 1000 twice. *)
Definition forged_pec : parsedEpochChange :=
  let e := mkEpochChange 1 [mkCheckpoint 1000 (Some [66]); mkCheckpoint 1000 (Some [66])] [] [] in
  mkParsed e ∅ ∅ 1000 ∅.
Definition forged_changes : gmap Z parsedEpochChange :=
  let honest := mkParsed (mkEpochChange 1 [mkCheckpoint 0 (Some [5])] [] []) ∅ ∅ 0 ∅ in
  <[0 := honest]> (<[1 := honest]> (<[3 := forged_pec]> ∅)).

(** One faulty node can forge the starting checkpoint.  Its epoch change
    lists an invented checkpoint [F]+1 times; [newParsedEpochChange] accepts it,
    and the repetitions count as distinct supporters, so the other nodes' true
    checkpoint is not chosen and the new epoch starts from the invented one. *)
Theorem forged_checkpoint_selected (order : rangeOrder) :
  validOrder order ->
  newParsedEpochChange (pec_underlying forged_pec) = inr forged_pec
  /\ exists nec, constructNewEpochConfig survive_config forged_changes order [0] = Ok (Some nec)
     /\ nec_StartingCheckpoint nec = mkCheckpoint 1000 (Some [66]).
Proof.
  intros Ho. split; [by vm_compute |].
  assert (Hkeys : eligibleKeys survive_config forged_changes
     (map_to_list (collectCheckpoints survive_config forged_changes).2) = [(1000, [66])])
    by (by vm_compute).
  assert (Hk : eligibleKeys survive_config forged_changes
     (order (collectCheckpoints survive_config forged_changes).2) ≡ₚ [(1000, [66])]).
  { rewrite <- Hkeys. unfold eligibleKeys. by rewrite (Ho _). }
  destruct (consider_total survive_config forged_changes
    (order (collectCheckpoints survive_config forged_changes).2) None) as [r Hr].
  { cbn [option_list app]. rewrite Hk. apply NoDup_singleton. }
  pose proof (consider_sound _ _ _ _ _ Hr) as Hg. cbn [option_list app] in Hg.
  eapply isGreatest_perm in Hg; [| exact Hk].
  assert (r = Some (1000, [66])) as ->.
  2: { unfold constructNewEpochConfig. rewrite (surjective_pairing (collectCheckpoints _ _)), Hr.
       eexists. split; [by vm_compute | done]. }
  eapply isGreatest_unique; [exact Hg |]. split; [by left |].
  intros k ->%list_elem_of_singleton. by right.
Qed.

Lemma forged_checkpoint_selected_witness :
  newParsedEpochChange (pec_underlying forged_pec) = inr forged_pec.
Proof. apply (forged_checkpoint_selected map_to_list). intros m. done. Defined.
