(* ===== verification/Persisted.v ===== *)
(** * The persisted log

    [pkg/statemachine/persisted.go]: the in-memory image of the write-ahead
    log, its appends and truncation (each with the action that makes the
    consumer's WAL follow), the iteration every component rebuilds its state
    with, and the epoch change a node derives from its log.  The linked list
    from [logHead] to [logTail] is a list; appending to an empty log
    dereferences the nil [logTail]. *)
From S2P Require Import Prelude Msgs Actions EpochChange.

(** ** Data *)

Record persisted := mkPersisted {
  pst_nextIndex : Z;
  pst_log : list (Z * Persistent);   (* logHead .. logTail: index and entry *)
}.

#[global] Instance eta_persisted : Eta persisted := mkEta (fun r =>
  mkPersisted (pst_nextIndex r) (pst_log r)).

(** The handlers of an iteration with state [St]; an absent handler leaves
    the state as it is and an absent [shouldExit] never exits. *)
Record logIterator (St : Type) := mkIterator {
  onQEntry : QEntry -> St -> outcome St;
  onPEntry : PEntry -> St -> outcome St;
  onCEntry : CEntry -> St -> outcome St;
  onNEntry : NEntry -> St -> outcome St;
  onFEntry : FEntry -> St -> outcome St;
  onECEntry : ECEntry -> St -> outcome St;
  onTEntry : TEntry -> St -> outcome St;
  onSuspect : Suspect -> St -> outcome St;
  shouldExit : St -> bool;
}.

Arguments mkIterator {St}.
Arguments onQEntry {St}.
Arguments onPEntry {St}.
Arguments onCEntry {St}.
Arguments onNEntry {St}.
Arguments onFEntry {St}.
Arguments onECEntry {St}.
Arguments onTEntry {St}.
Arguments onSuspect {St}.
Arguments shouldExit {St}.

#[global] Instance eta_logIterator (St : Type) : Eta (logIterator St) := mkEta (fun r =>
  mkIterator (onQEntry r) (onPEntry r) (onCEntry r) (onNEntry r) (onFEntry r)
    (onECEntry r) (onTEntry r) (onSuspect r) (shouldExit r)).

(** [logIterator{}]. *)
Definition emptyIterator (St : Type) : logIterator St :=
  let skip := fun {A : Type} (_ : A) (st : St) => Ok st in
  mkIterator skip skip skip skip skip skip skip skip (fun _ => false).

(** ** Operations *)

Definition newPersisted : persisted := mkPersisted 0 [].

Definition persisted_appendInitialLoad (p : persisted) (index : Z) (data : Persistent) : outcome persisted :=
  let p :=
    match pst_log p with
    | [] => mkPersisted index [(index, data)]
    | _ :: _ => p <| pst_log ::= fun log => log ++ [(index, data)] |>
    end in
  if negb (pst_nextIndex p =? index) then Panic "WAL indexes out of order! was your WAL corrupted?"
  else Ok (p <| pst_nextIndex := index +! 1 |>).

Definition persisted_appendLogEntry (p : persisted) (entry : Persistent) : outcome (persisted * ActionList) :=
  match pst_log p with
  | [] => Panic "nil pointer dereference: logTail"
  | _ :: _ =>
    let p' := p <| pst_log ::= fun log => log ++ [(pst_nextIndex p, entry)] |>
                <| pst_nextIndex := pst_nextIndex p +! 1 |> in
    Ok (p', ActionList_Persist [] (pst_nextIndex p) entry)
  end.

Definition persisted_addPEntry (p : persisted) (e : PEntry) := persisted_appendLogEntry p (Persistent_PEntry e).
Definition persisted_addQEntry (p : persisted) (e : QEntry) := persisted_appendLogEntry p (Persistent_QEntry e).
Definition persisted_addNEntry (p : persisted) (e : NEntry) := persisted_appendLogEntry p (Persistent_NEntry e).
Definition persisted_addCEntry (p : persisted) (e : CEntry) := persisted_appendLogEntry p (Persistent_CEntry e).
Definition persisted_addSuspect (p : persisted) (e : Suspect) := persisted_appendLogEntry p (Persistent_Suspect e).
Definition persisted_addECEntry (p : persisted) (e : ECEntry) := persisted_appendLogEntry p (Persistent_ECEntry e).
Definition persisted_addTEntry (p : persisted) (e : TEntry) := persisted_appendLogEntry p (Persistent_TEntry e).

(** The entries the truncation loop stops at: a checkpoint not below the new
    low watermark, or the start of an epoch section above it. *)
Definition keepsFrom (lowWatermark : Z) (entry : Persistent) : bool :=
  match entry with
  | Persistent_CEntry e => negb (c_SeqNo e <? lowWatermark)
  | Persistent_NEntry e => negb (n_SeqNo e <=? lowWatermark)
  | _ => false
  end.

(** The loop from [logHead]: the list from the first entry to keep, if any. *)
Fixpoint truncateSearch (lowWatermark : Z) (log : list (Z * Persistent)) : option (list (Z * Persistent)) :=
  match log with
  | [] => None
  | (index, entry) :: log' =>
    if keepsFrom lowWatermark entry then Some log else truncateSearch lowWatermark log'
  end.

Definition persisted_truncate (p : persisted) (lowWatermark : Z) : persisted * ActionList :=
  match pst_log p with
  | [] => (p, [])
  | (_, headEntry) :: _ =>
    if keepsFrom lowWatermark headEntry then (p, [])   (* p.logHead == logEntry: break *)
    else
      match truncateSearch lowWatermark (pst_log p) with
      | Some (((index, _) :: _) as log) => (p <| pst_log := log |>, ActionList_Truncate [] index)
      | _ => (p, [])
      end
  end.

Definition dispatch {St : Type} (li : logIterator St) (entry : Persistent) (st : St) : outcome St :=
  match entry with
  | Persistent_PEntry e => onPEntry li e st
  | Persistent_QEntry e => onQEntry li e st
  | Persistent_CEntry e => onCEntry li e st
  | Persistent_NEntry e => onNEntry li e st
  | Persistent_FEntry e => onFEntry li e st
  | Persistent_ECEntry e => onECEntry li e st
  | Persistent_TEntry e => onTEntry li e st
  | Persistent_Suspect e => onSuspect li e st
  | Persistent_unset => Panic "unsupported log entry type"
  end.

Fixpoint iterateEntries {St : Type} (li : logIterator St) (log : list (Z * Persistent)) (st : St) : outcome St :=
  match log with
  | [] => Ok st
  | (_, entry) :: log' =>
    st' ← dispatch li entry st;
    if shouldExit li st' then Ok st' else iterateEntries li log' st'
  end.

Definition persisted_iterate {St : Type} (p : persisted) (li : logIterator St) (st : St) : outcome St :=
  iterateEntries li (pst_log p) st.

(** The variables the closures of [constructEpochChange] share. *)
Record epochChangeScan := mkScan {
  scan_pSkips : gmap Z Z;
  scan_logEpoch : option Z;
  scan_change : EpochChange;
}.

#[global] Instance eta_epochChangeScan : Eta epochChangeScan := mkEta (fun r =>
  mkScan (scan_pSkips r) (scan_logEpoch r) (scan_change r)).
#[global] Instance eta_EpochChange : Eta EpochChange := mkEta (fun r =>
  mkEpochChange (ech_NewEpoch r) (ech_Checkpoints r) (ech_PSet r) (ech_QSet r)).

Definition scanExit (newEpoch : Z) (s : epochChangeScan) : bool :=
  match scan_logEpoch s with Some e => newEpoch <=? e | None => false end.

(** Both passes track the epoch of the log section they are in. *)
Definition scanEpochs (newEpoch : Z) : logIterator epochChangeScan :=
  (emptyIterator epochChangeScan)
    <| onNEntry := fun nEntry s => Ok (s <| scan_logEpoch := Some (ec_Number (n_EpochConfig nEntry)) |>) |>
    <| onFEntry := fun fEntry s => Ok (s <| scan_logEpoch := Some (ec_Number (f_EndsEpochConfig fEntry)) |>) |>
    <| shouldExit := scanExit newEpoch |>.

Definition countPass (newEpoch : Z) : logIterator epochChangeScan :=
  (scanEpochs newEpoch)
    <| onPEntry := fun pEntry s =>
         let count := default 0 (scan_pSkips s !! p_SeqNo pEntry) in
         Ok (s <| scan_pSkips ::= <[p_SeqNo pEntry := count + 1]> |>) |>.

Definition buildPass (newEpoch : Z) : logIterator epochChangeScan :=
  (scanEpochs newEpoch)
    <| onPEntry := fun pEntry s =>
         let count := default 0 (scan_pSkips s !! p_SeqNo pEntry) in
         if negb (count =? 1) then Ok (s <| scan_pSkips ::= <[p_SeqNo pEntry := count - 1]> |>)
         else
           epoch ← deref (scan_logEpoch s) "nil pointer dereference: logEpoch";
           Ok (s <| scan_change ::= fun c =>
                 c <| ech_PSet ::= fun l => l ++ [mkSetEntry epoch (p_SeqNo pEntry) (p_Digest pEntry)] |> |>) |>
    <| onQEntry := fun qEntry s =>
         epoch ← deref (scan_logEpoch s) "nil pointer dereference: logEpoch";
         Ok (s <| scan_change ::= fun c =>
               c <| ech_QSet ::= fun l => l ++ [mkSetEntry epoch (q_SeqNo qEntry) (q_Digest qEntry)] |> |>) |>
    <| onCEntry := fun cEntry s =>
         Ok (s <| scan_change ::= fun c =>
               c <| ech_Checkpoints ::= fun l => l ++ [mkCheckpoint (c_SeqNo cEntry) (c_CheckpointValue cEntry)] |> |>) |>.

Definition persisted_constructEpochChange (p : persisted) (newEpoch : Z) : outcome EpochChange :=
  let newEpochChange := mkEpochChange newEpoch [] [] [] in
  s ← persisted_iterate p (countPass newEpoch) (mkScan ∅ None newEpochChange);
  s' ← persisted_iterate p (buildPass newEpoch) (s <| scan_logEpoch := None |>);
  Ok (scan_change s').

(** ** Specification *)

(** The consumer's write-ahead log, driven by the actions: appends add an
    entry, a truncation drops the entries below its index. *)
Definition walApply (wal : list (Z * Persistent)) (a : Action) : list (Z * Persistent) :=
  match a with
  | Action_AppendWriteAhead index data => wal ++ [(index, data)]
  | Action_TruncateWriteAhead index => filter (fun e => index <= e.1) wal
  | _ => wal
  end.
Definition walAfter (acts : ActionList) (wal : list (Z * Persistent)) : list (Z * Persistent) :=
  foldl walApply wal acts.

(** Loading a WAL at startup, one entry after the other. *)
Definition loadAll (wal : list (Z * Persistent)) : outcome persisted :=
  forRange (fun e p => persisted_appendInitialLoad p e.1 e.2) wal newPersisted.

(** What the components do to the log. *)
Inductive logOp :=
| LogAppend (entry : Persistent)
| LogTruncate (lowWatermark : Z).

Definition runLogOp (p : persisted) (op : logOp) : outcome (persisted * ActionList) :=
  match op with
  | LogAppend entry => persisted_appendLogEntry p entry
  | LogTruncate low => Ok (persisted_truncate p low)
  end.

Fixpoint runLogOps (p : persisted) (ops : list logOp) : outcome (persisted * ActionList) :=
  match ops with
  | [] => Ok (p, [])
  | op :: ops' =>
    '(p1, a1) ← runLogOp p op;
    '(p2, a2) ← runLogOps p1 ops';
    Ok (p2, ActionList_concat a1 a2)
  end.

(** Consecutive indices up to the next one, and never empty. *)
Definition persisted_wf (p : persisted) : Prop :=
  exists start, 0 <= start
    /\ (pst_log p).*1 = seqZ start (Z.of_nat (length (pst_log p)))
    /\ pst_nextIndex p = start + Z.of_nat (length (pst_log p))
    /\ pst_nextIndex p < 2 ^ 64
    /\ pst_log p <> [].

(** The part of the log an epoch change is built from: every entry up to the
    first epoch start or end at or above [newEpoch], each with the epoch of the
    section it lies in. *)
Fixpoint scanned (newEpoch : Z) (logEpoch : option Z) (log : list (Z * Persistent)) : list (option Z * Persistent) :=
  match log with
  | [] => []
  | (_, entry) :: log' =>
    let logEpoch' :=
      match entry with
      | Persistent_NEntry e => Some (ec_Number (n_EpochConfig e))
      | Persistent_FEntry e => Some (ec_Number (f_EndsEpochConfig e))
      | _ => logEpoch
      end in
    (logEpoch, entry)
      :: (if match logEpoch' with Some e => newEpoch <=? e | None => false end then []
          else scanned newEpoch logEpoch' log')
  end.

Definition pSeqNo (e : option Z * Persistent) : option Z :=
  match e.2 with Persistent_PEntry pe => Some (p_SeqNo pe) | _ => None end.

(** The number of P entries for a sequence number. *)
Definition pCount (s : Z) (l : list (option Z * Persistent)) : nat :=
  length (filter (fun e => pSeqNo e = Some s) l).

(** The last P entry of each sequence number, in log order. *)
Fixpoint lastPEntries (l : list (option Z * Persistent)) : list EpochChange_SetEntry :=
  match l with
  | [] => []
  | (ep, Persistent_PEntry pe) :: l' =>
    if decide (pCount (p_SeqNo pe) l' = 0%nat)
    then mkSetEntry (default 0 ep) (p_SeqNo pe) (p_Digest pe) :: lastPEntries l'
    else lastPEntries l'
  | _ :: l' => lastPEntries l'
  end.

Definition allQEntries (l : list (option Z * Persistent)) : list EpochChange_SetEntry :=
  l ≫= fun e => match e.2 with
    | Persistent_QEntry qe => [mkSetEntry (default 0 e.1) (q_SeqNo qe) (q_Digest qe)] | _ => [] end.
Definition allCheckpoints (l : list (option Z * Persistent)) : list Checkpoint :=
  l ≫= fun e => match e.2 with
    | Persistent_CEntry ce => [mkCheckpoint (c_SeqNo ce) (c_CheckpointValue ce)] | _ => [] end.

(** Every P and Q entry lies in a section that names its epoch, and every
    entry has a type. *)
Definition inEpoch (e : option Z * Persistent) : Prop :=
  match e.2 with
  | Persistent_PEntry _ | Persistent_QEntry _ => is_Some e.1
  | Persistent_unset => False
  | _ => True
  end.

(** ** Lemmas: the log and the WAL *)

Lemma appendLogEntry_wf (p : persisted) (entry : Persistent) :
  persisted_wf p -> pst_nextIndex p + 1 < 2 ^ 64 ->
  exists p' acts, persisted_appendLogEntry p entry = Ok (p', acts)
    /\ persisted_wf p' /\ pst_nextIndex p' = pst_nextIndex p + 1
    /\ pst_log p' = pst_log p ++ [(pst_nextIndex p, entry)]
    /\ walAfter acts (pst_log p) = pst_log p'.
Proof.
  intros (start & Hs & Hidx & Hnext & Hlt & Hne) Hov. unfold persisted_appendLogEntry.
  destruct (pst_log p) as [|e0 l0] eqn:Hlog; [done |]. rewrite <- Hlog in *.
  do 2 eexists. split; [reflexivity |].
  assert (Hwrap : pst_nextIndex p +! 1 = pst_nextIndex p + 1) by (apply add64_small; lia).
  cbn. rewrite Hwrap. split; [| done].
  exists start. cbn. rewrite fmap_app, length_app, Hidx. cbn.
  split; [done |]. split; [| split; [lia | split; [lia | by destruct (pst_log p)]]].
  rewrite Nat2Z.inj_add, seqZ_app by lia. f_equal. cbn. rewrite Hnext.
  by rewrite seqZ_cons by lia.
Qed.

Lemma truncateSearch_suffix (low : Z) (log log' : list (Z * Persistent)) :
  truncateSearch low log = Some log' ->
  exists dropped index entry rest,
    log = dropped ++ log' /\ log' = (index, entry) :: rest /\ keepsFrom low entry = true
    /\ Forall (fun e => keepsFrom low e.2 = false) dropped.
Proof.
  induction log as [|[i e] log IH]; cbn; [done |]. intros H.
  destruct (keepsFrom low e) eqn:Hk.
  - injection H as <-. exists [], i, e, log. done.
  - destruct (IH H) as (d & i' & e' & r & -> & -> & Hk' & Hd). exists ((i, e) :: d), i', e', r.
    split; [done |]. split; [done |]. split; [done |]. by constructor.
Qed.

(** Truncation drops a prefix none of whose entries is to be kept. *)
Lemma truncate_spec (p : persisted) (low : Z) :
  exists dropped, pst_log p = dropped ++ pst_log (persisted_truncate p low).1
    /\ Forall (fun e => keepsFrom low e.2 = false) dropped
    /\ pst_nextIndex (persisted_truncate p low).1 = pst_nextIndex p
    /\ match dropped with
       | [] => (persisted_truncate p low).2 = []
       | _ :: _ => exists index entry rest,
           pst_log (persisted_truncate p low).1 = (index, entry) :: rest
           /\ keepsFrom low entry = true
           /\ (persisted_truncate p low).2 = [Action_TruncateWriteAhead index]
       end.
Proof.
  unfold persisted_truncate. destruct (pst_log p) as [|[i e] l] eqn:Hlog; cbn.
  { exists []. rewrite Hlog. done. }
  destruct (keepsFrom low e) eqn:Hk; cbn.
  { exists []. rewrite Hlog. done. }
  destruct (truncateSearch low l) as [log' |] eqn:Hs; cbn.
  2: { exists []. rewrite Hlog. done. }
  destruct (truncateSearch_suffix _ _ _ Hs) as (d & i' & e' & r & -> & -> & Hk' & Hd). cbn.
  exists ((i, e) :: d). split; [done |]. split; [by constructor |]. split; [done |]. eauto 10.
Qed.

Lemma filter_index_prefix (start : Z) (dropped kept : list (Z * Persistent)) (index : Z) (entry : Persistent) (rest : list (Z * Persistent)) :
  (dropped ++ kept).*1 = seqZ start (Z.of_nat (length (dropped ++ kept))) ->
  kept = (index, entry) :: rest ->
  filter (fun e => index <= e.1) (dropped ++ kept) = kept.
Proof.
  intros Hidx Hkept. rewrite length_app, Nat2Z.inj_add, seqZ_app, fmap_app in Hidx by lia.
  apply app_inj_1 in Hidx as [Hd Hk]; [| by rewrite length_fmap, length_seqZ, Nat2Z.id].
  assert (Hindex : index = start + Z.of_nat (length dropped)).
  { subst kept. cbn in Hk. rewrite seqZ_cons in Hk by lia. by injection Hk. }
  rewrite filter_app, filter_none, filter_all; [done | |]; intros e He.
  - assert (He' : e.1 ∈ kept.*1) by (by apply list_elem_of_fmap_2).
    rewrite Hk, elem_of_seqZ in He'. lia.
  - assert (He' : e.1 ∈ dropped.*1) by (by apply list_elem_of_fmap_2).
    rewrite Hd, elem_of_seqZ in He'. lia.
Qed.

Lemma truncate_wf (p : persisted) (low : Z) :
  persisted_wf p ->
  persisted_wf (persisted_truncate p low).1
  /\ pst_nextIndex (persisted_truncate p low).1 = pst_nextIndex p
  /\ walAfter (persisted_truncate p low).2 (pst_log p) = pst_log (persisted_truncate p low).1.
Proof.
  intros (start & Hs & Hidx & Hnext & Hlt & Hne).
  destruct (truncate_spec p low) as (dropped & Hlog & _ & Hni & Hd).
  set (p' := (persisted_truncate p low).1) in *. split; [| split; [done |]].
  - exists (start + Z.of_nat (length dropped)). rewrite Hlog in Hidx, Hnext, Hne.
    rewrite length_app in Hidx, Hnext. rewrite fmap_app, Nat2Z.inj_add, seqZ_app in Hidx by lia.
    apply app_inj_1 in Hidx as [_ Hk]; [| by rewrite length_fmap, length_seqZ, Nat2Z.id].
    split; [lia |]. split; [done |]. split; [lia |]. split; [lia |].
    destruct dropped; [done |]. destruct Hd as (i & e & r & -> & _). done.
  - destruct dropped as [|e0 dropped].
    + rewrite Hd. by rewrite Hlog.
    + destruct Hd as (i & e & r & Hkept & _ & ->). cbn. rewrite Hlog. rewrite Hlog in Hidx.
      exact (filter_index_prefix _ (e0 :: dropped) _ _ _ _ Hidx Hkept).
Qed.

Lemma walAfter_app (a1 a2 : ActionList) (wal : list (Z * Persistent)) :
  walAfter (a1 ++ a2) wal = walAfter a2 (walAfter a1 wal).
Proof. apply foldl_app. Qed.

Lemma runLogOps_wf (ops : list logOp) (p : persisted) :
  persisted_wf p -> pst_nextIndex p + Z.of_nat (length ops) < 2 ^ 64 ->
  exists p' acts, runLogOps p ops = Ok (p', acts) /\ persisted_wf p'
    /\ walAfter acts (pst_log p) = pst_log p'.
Proof.
  revert p. induction ops as [|op ops IH]; intros p Hwf Hov; cbn in *; [eauto 10 |].
  assert (H1 : exists p1 a1, runLogOp p op = Ok (p1, a1) /\ persisted_wf p1
     /\ pst_nextIndex p1 <= pst_nextIndex p + 1 /\ walAfter a1 (pst_log p) = pst_log p1).
  { destruct op as [entry | low]; cbn.
    - destruct (appendLogEntry_wf p entry Hwf) as (p1 & a1 & H & ? & ? & _ & ?); [lia |].
      exists p1, a1. rewrite H. split; [done |]. split; [done |]. split; [lia | done].
    - destruct (truncate_wf p low Hwf) as (? & ? & ?).
      do 2 eexists. split; [by rewrite <- surjective_pairing |]. split; [done |]. split; [lia | done]. }
  destruct H1 as (p1 & a1 & -> & Hwf1 & Hn1 & Hw1). cbn.
  destruct (IH p1 Hwf1) as (p2 & a2 & -> & Hwf2 & Hw2); [lia |]. cbn.
  do 2 eexists. split; [done |]. split; [done |].
  unfold ActionList_concat. by rewrite walAfter_app, Hw1.
Qed.

Lemma appendInitialLoad_next (p : persisted) (e : Persistent) :
  pst_log p <> [] -> 0 <= pst_nextIndex p -> pst_nextIndex p + 1 < 2 ^ 64 ->
  persisted_appendInitialLoad p (pst_nextIndex p) e
  = Ok (mkPersisted (pst_nextIndex p + 1) (pst_log p ++ [(pst_nextIndex p, e)])).
Proof.
  intros Hne Hp Hov. unfold persisted_appendInitialLoad. destruct p as [next [|e0 l]]; [done |].
  cbn in *. rewrite Z.eqb_refl. cbn. by rewrite add64_small by lia.
Qed.

(** Loading further entries continues the consecutive indices. *)
Lemma appendInitialLoad_more (l : list (Z * Persistent)) (p : persisted) :
  pst_log p <> [] -> 0 <= pst_nextIndex p ->
  pst_nextIndex p + Z.of_nat (length l) < 2 ^ 64 ->
  l.*1 = seqZ (pst_nextIndex p) (Z.of_nat (length l)) ->
  forRange (fun e p => persisted_appendInitialLoad p e.1 e.2) l p
  = Ok (mkPersisted (pst_nextIndex p + Z.of_nat (length l)) (pst_log p ++ l)).
Proof.
  revert p. induction l as [|[i e] l IH]; intros p Hne Hp Hov Hidx.
  { destruct p; cbn. by rewrite app_nil_r, Z.add_0_r. }
  cbn in Hidx, Hov. rewrite seqZ_cons in Hidx by lia. injection Hidx as -> Hidx.
  cbn [forRange]. cbn [fst snd]. rewrite appendInitialLoad_next by (done || lia).
  cbn [mbind outcome_bind]. rewrite IH; cbn [pst_log pst_nextIndex length].
  - rewrite <- app_assoc. cbn. do 2 f_equal. lia.
  - by destruct (pst_log p).
  - lia.
  - lia.
  - rewrite Hidx. f_equal; lia.
Qed.

Lemma loadAll_wf (p : persisted) : persisted_wf p -> loadAll (pst_log p) = Ok p.
Proof.
  intros (start & Hs & Hidx & Hnext & Hlt & Hne). unfold loadAll.
  destruct p as [next log]; cbn [pst_log pst_nextIndex] in *. destruct log as [|[i e] l]; [done |].
  cbn in Hidx, Hnext. rewrite seqZ_cons in Hidx by lia. injection Hidx as -> Hidx.
  assert (H1 : persisted_appendInitialLoad newPersisted start e = Ok (mkPersisted (start + 1) [(start, e)])).
  { unfold persisted_appendInitialLoad. cbn. rewrite Z.eqb_refl. cbn. by rewrite add64_small by lia. }
  cbn [forRange fst snd]. rewrite H1. cbn [mbind outcome_bind].
  rewrite appendInitialLoad_more; cbn [pst_log pst_nextIndex]; [| done | lia | lia | rewrite Hidx; f_equal; lia].
  cbn. do 2 f_equal. lia.
Qed.

(** ** Lemmas: the epoch change of a log *)

Lemma pCount_cons (s : Z) (e : option Z * Persistent) (l : list (option Z * Persistent)) :
  pCount s (e :: l) = ((if decide (pSeqNo e = Some s) then 1 else 0) + pCount s l)%nat.
Proof. unfold pCount. rewrite filter_cons. case_decide; done. Qed.

Lemma pCount_stop (s : Z) (stop : bool) (e : option Z * Persistent) (l : list (option Z * Persistent)) :
  pCount s (e :: (if stop then [] else l)) =
  ((if decide (pSeqNo e = Some s) then 1 else 0) + (if stop then 0 else pCount s l))%nat.
Proof. rewrite pCount_cons. by destruct stop. Qed.

(** The first pass counts the P entries of every sequence number. *)
Lemma countPass_run (newEpoch : Z) (log : list (Z * Persistent)) (ep : option Z)
    (skips : gmap Z Z) (c : EpochChange) :
  Forall inEpoch (scanned newEpoch ep log) ->
  exists skips' ep', iterateEntries (countPass newEpoch) log (mkScan skips ep c) = Ok (mkScan skips' ep' c)
    /\ forall s, default 0 (skips' !! s)
         = default 0 (skips !! s) + Z.of_nat (pCount s (scanned newEpoch ep log)).
Proof.
  revert ep skips. induction log as [|[i e] log IH]; intros ep skips Hin.
  { exists skips, ep. split; [done |]. intros s. cbn. lia. }
  cbn [scanned] in *. set (ep1 := match e with Persistent_NEntry _ => _ | _ => _ end) in *.
  set (stop := match ep1 with Some _ => _ | None => false end) in *.
  apply Forall_cons in Hin as [He Hin].
  set (skips1 := match e with Persistent_PEntry pe => <[p_SeqNo pe := default 0 (skips !! p_SeqNo pe) + 1]> skips
                 | _ => skips end).
  assert (Hstep : dispatch (countPass newEpoch) e (mkScan skips ep c) = Ok (mkScan skips1 ep1 c)).
  { by destruct e. }
  assert (Hskips : forall s, default 0 (skips1 !! s) = default 0 (skips !! s)
     + Z.of_nat (if decide (pSeqNo (ep, e) = Some s) then 1 else 0)).
  { intros s. subst skips1. destruct e; unfold pSeqNo; cbn [snd]; try (case_decide; [congruence | lia]).
    rewrite lookup_insert. repeat case_decide; cbn; simplify_eq; lia. }
  cbn [iterateEntries]. rewrite Hstep. cbn [mbind outcome_bind].
  replace (shouldExit _ _) with stop by done. clearbody stop.
  destruct stop.
  - exists skips1, ep1. split; [done |]. intros s. rewrite Hskips, pCount_cons. cbn. lia.
  - destruct (IH ep1 skips1 Hin) as (sk' & ep' & -> & Hsk). exists sk', ep'. split; [done |].
    intros s. rewrite Hsk, Hskips, pCount_cons. lia.
Qed.

(** What one entry contributes to the epoch change: [rest] is what is scanned
    after it. *)
Definition contribution (ep : option Z) (e : Persistent) (rest : list (option Z * Persistent)) (c : EpochChange) : EpochChange :=
  mkEpochChange (ech_NewEpoch c) (ech_Checkpoints c ++ allCheckpoints [(ep, e)])
    (ech_PSet c ++ match e with
      | Persistent_PEntry pe => if decide (pCount (p_SeqNo pe) rest = 0%nat)
          then [mkSetEntry (default 0 ep) (p_SeqNo pe) (p_Digest pe)] else []
      | _ => [] end)
    (ech_QSet c ++ allQEntries [(ep, e)]).

Definition remaining (skips : gmap Z Z) (l : list (option Z * Persistent)) : Prop :=
  forall s, pCount s l <> 0%nat -> default 0 (skips !! s) = Z.of_nat (pCount s l).

Lemma buildPass_step (newEpoch : Z) (ep : option Z) (skips : gmap Z Z) (c : EpochChange)
    (e : Persistent) (rest : list (option Z * Persistent)) :
  inEpoch (ep, e) -> remaining skips ((ep, e) :: rest) ->
  exists skips', remaining skips' rest /\
    dispatch (buildPass newEpoch) e (mkScan skips ep c)
    = Ok (mkScan skips' (match e with
            | Persistent_NEntry e => Some (ec_Number (n_EpochConfig e))
            | Persistent_FEntry e => Some (ec_Number (f_EndsEpochConfig e))
            | _ => ep end) (contribution ep e rest c)).
Proof.
  intros Hin Hrem.
  assert (Hkeep : (forall s, pSeqNo (ep, e) <> Some s) -> remaining skips rest).
  { intros Hno s Hs. specialize (Hrem s). rewrite pCount_cons, decide_False in Hrem by apply Hno. auto. }
  unfold contribution. destruct e as [qe | pe | ce | ne | fe | ee | te | se |];
    try (exists skips; split; [by apply Hkeep | destruct c; cbn; by rewrite ?app_nil_r]).
  - destruct Hin as [ep' Hep]. cbn in Hep. subst ep. exists skips; split; [by apply Hkeep | destruct c; cbn; by rewrite ?app_nil_r].
  - destruct Hin as [ep' Hep]. cbn in Hep. subst ep. cbn.
    pose proof (Hrem (p_SeqNo pe)) as Hcount. rewrite pCount_cons, decide_True in Hcount by done.
    rewrite Hcount by lia. case_decide as H0.
    + rewrite H0. cbn. exists skips. split; [| destruct c; cbn; by rewrite ?app_nil_r].
      intros s Hs. specialize (Hrem s). rewrite pCount_cons in Hrem.
      rewrite decide_False in Hrem by (unfold pSeqNo; cbn; congruence). auto.
    + destruct (Z.eqb_spec (Z.of_nat (1 + pCount (p_SeqNo pe) rest)) 1); [lia |]. cbn [negb].
      eexists. split; [| destruct c; cbn; rewrite ?app_nil_r; reflexivity].
      intros s Hs. rewrite lookup_insert. specialize (Hrem s). rewrite pCount_cons in Hrem.
      unfold pSeqNo in Hrem. cbn [snd] in Hrem. repeat case_decide; cbn; simplify_eq; [lia |].
      apply Hrem. lia.
Qed.

Lemma contribution_scan (ep : option Z) (e : Persistent) (rest : list (option Z * Persistent)) (c : EpochChange) :
  let c' := contribution ep e rest c in
  mkEpochChange (ech_NewEpoch c') (ech_Checkpoints c' ++ allCheckpoints rest)
    (ech_PSet c' ++ lastPEntries rest) (ech_QSet c' ++ allQEntries rest)
  = mkEpochChange (ech_NewEpoch c) (ech_Checkpoints c ++ allCheckpoints ((ep, e) :: rest))
    (ech_PSet c ++ lastPEntries ((ep, e) :: rest)) (ech_QSet c ++ allQEntries ((ep, e) :: rest)).
Proof.
  unfold contribution, allCheckpoints, allQEntries. cbn. rewrite !app_nil_r, <- !app_assoc.
  destruct e; cbn; try done. by case_decide.
Qed.

Lemma buildPass_run (newEpoch : Z) (log : list (Z * Persistent)) (ep : option Z)
    (skips : gmap Z Z) (c : EpochChange) :
  Forall inEpoch (scanned newEpoch ep log) -> remaining skips (scanned newEpoch ep log) ->
  exists skips' ep', iterateEntries (buildPass newEpoch) log (mkScan skips ep c)
    = Ok (mkScan skips' ep' (mkEpochChange (ech_NewEpoch c)
        (ech_Checkpoints c ++ allCheckpoints (scanned newEpoch ep log))
        (ech_PSet c ++ lastPEntries (scanned newEpoch ep log))
        (ech_QSet c ++ allQEntries (scanned newEpoch ep log)))).
Proof.
  revert ep skips c. induction log as [|[i e] log IH]; intros ep skips c Hin Hrem.
  { exists skips, ep. destruct c; cbn. by rewrite !app_nil_r. }
  cbn [scanned] in *. apply Forall_cons in Hin as [He Hin].
  destruct (buildPass_step newEpoch ep skips c _ _ He Hrem) as (sk1 & Hrem1 & Hstep).
  cbn [iterateEntries]. rewrite Hstep. cbn [mbind outcome_bind].
  set (ep1 := match e with Persistent_NEntry _ => _ | _ => _ end) in *.
  set (stop := match ep1 with Some _ => _ | None => false end) in *.
  replace (shouldExit _ _) with stop by done. clearbody stop.
  destruct stop.
  - rewrite <- contribution_scan. cbn [allCheckpoints lastPEntries allQEntries].
    exists sk1, ep1. unfold contribution. cbn. by rewrite !app_nil_r.
  - destruct (IH ep1 sk1 (contribution ep e (scanned newEpoch ep1 log) c) Hin Hrem1) as (sk' & ep' & ->).
    exists sk', ep'. by rewrite contribution_scan.
Qed.

(** An iteration that returned preserved every invariant of its handlers. *)
Lemma iterateEntries_inv {St : Type} (P : St -> Prop) (li : logIterator St) (log : list (Z * Persistent)) (st st' : St) :
  (forall e s s', P s -> dispatch li e s = Ok s' -> P s') -> P st -> iterateEntries li log st = Ok st' -> P st'.
Proof.
  intros Hd. revert st. induction log as [|[i e] log IH]; intros st HP H; cbn [iterateEntries] in H; [by injection H as <- |].
  apply bind_Ok in H as (s1 & H1 & H). apply Hd in H1; [| done]. case_match; [by injection H as <- | by eapply IH].
Qed.

(** The epoch change is for the epoch it was asked for. *)
Lemma constructEpochChange_epoch (p : persisted) (newEpoch : Z) (ec : EpochChange) :
  persisted_constructEpochChange p newEpoch = Ok ec -> ech_NewEpoch ec = newEpoch.
Proof.
  unfold persisted_constructEpochChange. intros H. apply bind_Ok in H as (s & H1 & H). apply bind_Ok in H as (s' & H2 & [= <-]).
  unfold persisted_iterate in *. eapply (iterateEntries_inv (fun s => ech_NewEpoch (scan_change s) = newEpoch)); [| | exact H2].
  - intros e s1 s2 Hs Hd. destruct e; cbn in Hd; try (by injection Hd as <-); try done.
    + by apply bind_Ok in Hd as (ep & _ & [= <-]).
    + case_match; [by injection Hd as <- | by apply bind_Ok in Hd as (ep & _ & [= <-])].
  - cbn. eapply (iterateEntries_inv (fun s => ech_NewEpoch (scan_change s) = newEpoch)); [| | exact H1]; [| done].
    intros e s1 s2 Hs Hd. destruct e; cbn in Hd; try done; by injection Hd as <-.
Qed.

Lemma constructEpochChange_eq (p : persisted) (newEpoch : Z) :
  Forall inEpoch (scanned newEpoch None (pst_log p)) ->
  persisted_constructEpochChange p newEpoch =
  Ok (mkEpochChange newEpoch (allCheckpoints (scanned newEpoch None (pst_log p)))
        (lastPEntries (scanned newEpoch None (pst_log p)))
        (allQEntries (scanned newEpoch None (pst_log p)))).
Proof.
  intros Hin. unfold persisted_constructEpochChange, persisted_iterate.
  destruct (countPass_run newEpoch _ None ∅ (mkEpochChange newEpoch [] [] []) Hin) as (sk & ep & -> & Hsk).
  cbn [mbind outcome_bind]. unfold update_field. cbn.
  destruct (buildPass_run newEpoch _ None sk (mkEpochChange newEpoch [] [] []) Hin) as (sk' & ep' & ->); [| done].
  intros s _. rewrite Hsk, lookup_empty. done.
Qed.

Lemma lastPEntries_pCount (l : list (option Z * Persistent)) (s : Z) :
  pCount s l = 0%nat <-> s ∉ se_SeqNo <$> lastPEntries l.
Proof.
  induction l as [|[ep e] l IH]; [cbn; split; [intros _ []%elem_of_nil | done] |].
  rewrite pCount_cons. unfold pSeqNo. cbn [snd].
  destruct e; cbn [lastPEntries]; try (rewrite decide_False by congruence; exact IH).
  destruct (decide (pCount (p_SeqNo e) l = 0%nat)) as [H0 | H0]; rewrite ?fmap_cons; cbn [se_SeqNo].
  - rewrite not_elem_of_cons, <- IH. case_decide; simplify_eq; [split; [lia | intros []; done] |].
    split; [intros Hs | lia]. split; [congruence | lia].
  - case_decide; simplify_eq; [split; [lia | intros ?%IH; lia] | exact IH].
Qed.

Lemma lastPEntries_NoDup (l : list (option Z * Persistent)) : NoDup (se_SeqNo <$> lastPEntries l).
Proof.
  induction l as [|[ep e] l IH]; [constructor |]. destruct e; cbn; try done.
  case_decide as H0; [| done]. cbn. apply NoDup_cons. split; [| done]. by apply lastPEntries_pCount.
Qed.

(** ** Properties *)

(** Restart recovers the log.  From a well-formed log, any sequence of
    appends and truncations runs without panicking, and loading, after a
    restart, the consumer's write-ahead log (the old one with the returned
    actions applied to it) gives back exactly the in-memory log the run ended
    with, next index included. *)
Theorem restart_recovers_log (p : persisted) (ops : list logOp) :
  persisted_wf p -> pst_nextIndex p + Z.of_nat (length ops) < 2 ^ 64 ->
  exists p' acts, runLogOps p ops = Ok (p', acts)
    /\ loadAll (walAfter acts (pst_log p)) = Ok p'.
Proof.
  intros Hwf Hov. destruct (runLogOps_wf ops p Hwf Hov) as (p' & acts & Hrun & Hwf' & Hw).
  exists p', acts. split; [done |]. rewrite Hw. by apply loadAll_wf.
Qed.


(** C18: the epoch change a node constructs from its log is the one it should
    be, and correct nodes accept it.  When the scanned part of the log is
    well-formed (P and Q entries lie in a section that names their epoch),
    [constructEpochChange] does not panic; its checkpoints and Q set are all
    those of the scanned part, in order, its P set is the last P entry of each
    sequence number, each with the epoch of its section.  If the scanned part
    has a checkpoint and no two Q entries for one sequence number and epoch,
    then [newParsedEpochChange] parses the message without an error. *)
Theorem constructEpochChange_correct (p : persisted) (newEpoch : Z) :
  let part := scanned newEpoch None (pst_log p) in
  Forall inEpoch part ->
  exists ec, persisted_constructEpochChange p newEpoch = Ok ec
    /\ ech_NewEpoch ec = newEpoch
    /\ ech_Checkpoints ec = allCheckpoints part
    /\ ech_PSet ec = lastPEntries part
    /\ ech_QSet ec = allQEntries part
    /\ (allCheckpoints part <> [] ->
        NoDup ((fun q => (se_SeqNo q, se_Epoch q)) <$> allQEntries part) ->
        exists pec, newParsedEpochChange ec = inr pec).
Proof.
  intros part Hin. eexists. split; [by apply constructEpochChange_eq |]. cbn.
  do 4 (split; [done |]). intros Hc Hq.
  assert (Hv : validEpochChange (mkEpochChange newEpoch (allCheckpoints part) (lastPEntries part) (allQEntries part))).
  { split; [done |]. split; [apply lastPEntries_NoDup | done]. }
  destruct (newParsedEpochChange_valid _ Hv) as (pec & H & _). by exists pec.
Qed.

(** A log with a checkpoint, an epoch section with two batches of which the
    first was prepared twice, and the end of the epoch. *)
Definition sampleLog : persisted :=
  let nc := mkConfig [0; 1; 2; 3] 5 100 4 1 in
  mkPersisted 7
    [ (1, Persistent_CEntry (mkCEntry 0 (Some [1]) (mkNetworkState nc [] [] false)));
      (2, Persistent_NEntry (mkNEntry 1 (mkEpochConfig 3 [0] 100)));
      (3, Persistent_QEntry (mkQEntry 1 (Some [7]) []));
      (4, Persistent_PEntry (mkPEntry 1 (Some [7])));
      (5, Persistent_QEntry (mkQEntry 2 (Some [8]) []));
      (6, Persistent_PEntry (mkPEntry 1 (Some [7]))) ].

Lemma sampleLog_wf : persisted_wf sampleLog.
Proof. exists 1. repeat split; cbn; (lia || done). Qed.

Lemma restart_recovers_log_witness :
  exists p' acts, runLogOps sampleLog [LogAppend (Persistent_TEntry (mkTEntry 5 None)); LogTruncate 0] = Ok (p', acts)
    /\ loadAll (walAfter acts (pst_log sampleLog)) = Ok p'.
Proof. apply restart_recovers_log; [exact sampleLog_wf | vm_compute; reflexivity]. Defined.

Lemma constructEpochChange_correct_witness :
  exists ec, persisted_constructEpochChange sampleLog 4 = Ok ec /\ ech_PSet ec = [mkSetEntry 3 1 (Some [7])].
Proof.
  destruct (constructEpochChange_correct sampleLog 4) as (ec & H & _ & _ & HP & _).
  - repeat constructor; cbn; eauto.
  - exists ec. split; [exact H |]. rewrite HP. vm_compute. reflexivity.
Defined.
