(* ===== verification/MsgBuffers.v ===== *)
(** * Message buffers

    [pkg/statemachine/msgbuffers.go]: the per-node buffers in which the
    components keep the messages they cannot apply yet.  [proto.Size] belongs
    to the protobuf library and is a parameter, the class [ProtoSize].

    [nodeBuffers.nodeBuffer] never records the [nodeBuffer] it creates, so
    every call returns a fresh one and each [nodeBuffer] serves exactly the
    [msgBuffer] it is created for; the record [msgBuffer] therefore contains
    its [nodeBuffer] instead of pointing to it, and [msgBufs] (the set of
    buffers registered for status reports) holds that buffer or nothing. *)
From S2P Require Import Prelude Msgs.

(** [proto.Size]. *)
Class ProtoSize := protoSize : Msg -> Z.

(** ** Data *)

Record nodeBuffer := mkNodeBuffer {
  nb_id : Z;
  nb_myConfig : EventInitialParameters;
  nb_totalSize : Z;     (* int *)
  nb_msgBufs : bool;    (* is the msgBuffer registered? *)
}.

#[global] Instance eta_nodeBuffer : Eta nodeBuffer := mkEta (fun r =>
  mkNodeBuffer (nb_id r) (nb_myConfig r) (nb_totalSize r) (nb_msgBufs r)).

Record nodeBuffers := mkNodeBuffers {
  nbs_myConfig : EventInitialParameters;
  nbs_nodeMap : gmap Z nodeBuffer;
}.

Inductive applyable := past | current | future | invalid.

#[global] Instance applyable_eq_dec : EqDecision applyable.
Proof. solve_decision. Defined.

Record msgBuffer := mkMsgBuffer {
  mb_component : string;
  mb_buffer : list Msg;
  mb_nodeBuffer : nodeBuffer;
}.

#[global] Instance eta_msgBuffer : Eta msgBuffer := mkEta (fun r =>
  mkMsgBuffer (mb_component r) (mb_buffer r) (mb_nodeBuffer r)).

(** ** Operations *)

Definition newNodeBuffers (myConfig : EventInitialParameters) : nodeBuffers :=
  mkNodeBuffers myConfig ∅.

Definition nodeBuffers_nodeBuffer (nbs : nodeBuffers) (source : Z) : nodeBuffer :=
  match nbs_nodeMap nbs !! source with
  | Some nb => nb
  | None => mkNodeBuffer source (nbs_myConfig nbs) 0 false
  end.

Definition newMsgBuffer (component : string) (nb : nodeBuffer) : msgBuffer :=
  mkMsgBuffer component [] nb.

Section Buffers.

Context `{Size : ProtoSize}.

Definition nodeBuffer_msgRemoved (nb : nodeBuffer) (msg : Msg) : nodeBuffer :=
  nb <| nb_totalSize ::= fun n => s64 (n - protoSize msg) |>.

Definition nodeBuffer_msgStored (nb : nodeBuffer) (msg : Msg) : nodeBuffer :=
  nb <| nb_totalSize ::= fun n => s64 (n + protoSize msg) |>.

Definition nodeBuffer_overCapacity (nb : nodeBuffer) : bool :=
  ip_BufferSize (nb_myConfig nb) <? nb_totalSize nb.

Definition nodeBuffer_addMsgBuffer (nb : nodeBuffer) : nodeBuffer := nb <| nb_msgBufs := true |>.
Definition nodeBuffer_removeMsgBuffer (nb : nodeBuffer) : nodeBuffer := nb <| nb_msgBufs := false |>.

(** [remove(e)], the element [e] holding [msg] between [before] and [after]. *)
Definition msgBuffer_remove (mb : msgBuffer) (before : list Msg) (msg : Msg) (after : list Msg) : msgBuffer :=
  let mb := mb <| mb_buffer := before ++ after |>
               <| mb_nodeBuffer ::= fun nb => nodeBuffer_msgRemoved nb msg |> in
  if (length (mb_buffer mb) =? 0)%nat then mb <| mb_nodeBuffer ::= nodeBuffer_removeMsgBuffer |> else mb.

(** The loop of [store] that makes room, over the buffered messages. *)
Fixpoint storeFlush (mb : msgBuffer) (buffered : list Msg) : msgBuffer :=
  match buffered with
  | oldMsg :: buffered' =>
    if nodeBuffer_overCapacity (mb_nodeBuffer mb)
    then storeFlush (msgBuffer_remove mb [] oldMsg buffered') buffered'
    else mb
  | [] => mb
  end.

Definition msgBuffer_store (mb : msgBuffer) (msg : Msg) : msgBuffer :=
  let mb := storeFlush mb (mb_buffer mb) in
  let mb := mb <| mb_buffer ::= fun l => l ++ [msg] |>
               <| mb_nodeBuffer ::= fun nb => nodeBuffer_msgStored nb msg |> in
  if (length (mb_buffer mb) =? 1)%nat then mb <| mb_nodeBuffer ::= nodeBuffer_addMsgBuffer |> else mb.

(** The loop of [next]: [before] are the elements already passed over. *)
Fixpoint nextFrom (filter : Z -> Msg -> outcome applyable) (mb : msgBuffer) (before rest : list Msg)
    : outcome (msgBuffer * option Msg) :=
  match rest with
  | [] => Ok (mb, None)
  | msg :: rest' =>
    v ← filter (nb_id (mb_nodeBuffer mb)) msg;
    match v with
    | past => nextFrom filter (msgBuffer_remove mb before msg rest') before rest'
    | current => Ok (msgBuffer_remove mb before msg rest', Some msg)
    | future => nextFrom filter mb (before ++ [msg]) rest'
    | invalid => nextFrom filter (msgBuffer_remove mb before msg rest') before rest'
    end
  end.

Definition msgBuffer_next (filter : Z -> Msg -> outcome applyable) (mb : msgBuffer)
    : outcome (msgBuffer * option Msg) :=
  nextFrom filter mb [] (mb_buffer mb).

(** The loop of [iterate]: the filter reads and the application updates the
    caller's state [st]. *)
Fixpoint iterateFrom {St : Type} (filter : St -> Z -> Msg -> outcome applyable)
    (apply : Z -> Msg -> St -> outcome St) (mb : msgBuffer) (before rest : list Msg) (st : St)
    : outcome (msgBuffer * St) :=
  match rest with
  | [] => Ok (mb, st)
  | msg :: rest' =>
    v ← filter st (nb_id (mb_nodeBuffer mb)) msg;
    match v with
    | past => iterateFrom filter apply (msgBuffer_remove mb before msg rest') before rest' st
    | current =>
      let mb' := msgBuffer_remove mb before msg rest' in
      st' ← apply (nb_id (mb_nodeBuffer mb')) msg st;
      iterateFrom filter apply mb' before rest' st'
    | future => iterateFrom filter apply mb (before ++ [msg]) rest' st
    | invalid => iterateFrom filter apply (msgBuffer_remove mb before msg rest') before rest' st
    end
  end.

Definition msgBuffer_iterate {St : Type} (filter : St -> Z -> Msg -> outcome applyable)
    (apply : Z -> Msg -> St -> outcome St) (mb : msgBuffer) (st : St) : outcome (msgBuffer * St) :=
  iterateFrom filter apply mb [] (mb_buffer mb) st.

(** ** Specification *)

Definition bufferedSize (l : list Msg) : Z := foldr (fun m acc => protoSize m + acc) 0 l.

(** The accounted size is that of the buffered messages (in a 64-bit int),
    and a buffer is registered exactly when it holds a message. *)
Definition msgBuffer_wf (mb : msgBuffer) : Prop :=
  nb_totalSize (mb_nodeBuffer mb) = s64 (bufferedSize (mb_buffer mb))
  /\ nb_msgBufs (mb_nodeBuffer mb) = negb (length (mb_buffer mb) =? 0)%nat.

(** ** Lemmas *)

Lemma s64_mod (a b : Z) : a mod 2 ^ 64 = b mod 2 ^ 64 -> s64 a = s64 b.
Proof. unfold s64, u64. by intros ->. Qed.

Lemma s64_cong (a : Z) : s64 a mod 2 ^ 64 = a mod 2 ^ 64.
Proof.
  unfold s64, u64. case_match; [by rewrite Z.mod_mod by lia |].
  rewrite Zminus_mod, Z_mod_same_full, Z.sub_0_r, !Z.mod_mod by lia. done.
Qed.

Lemma s64_add (a b : Z) : s64 (s64 a + b) = s64 (a + b).
Proof. apply s64_mod. by rewrite Zplus_mod, s64_cong, <- Zplus_mod. Qed.

Lemma s64_sub (a b : Z) : s64 (s64 a - b) = s64 (a - b).
Proof. apply s64_mod. by rewrite Zminus_mod, s64_cong, <- Zminus_mod. Qed.

Lemma bufferedSize_cons (m : Msg) (l : list Msg) : bufferedSize (m :: l) = protoSize m + bufferedSize l.
Proof. done. Qed.

Lemma bufferedSize_app (l1 l2 : list Msg) : bufferedSize (l1 ++ l2) = bufferedSize l1 + bufferedSize l2.
Proof. induction l1 as [|m l1 IH]; [done |]. cbn [app]. rewrite !bufferedSize_cons, IH. lia. Qed.

Lemma remove_buffer (mb : msgBuffer) (before : list Msg) (msg : Msg) (after : list Msg) :
  mb_buffer (msgBuffer_remove mb before msg after) = before ++ after
  /\ nb_id (mb_nodeBuffer (msgBuffer_remove mb before msg after)) = nb_id (mb_nodeBuffer mb)
  /\ nb_myConfig (mb_nodeBuffer (msgBuffer_remove mb before msg after)) = nb_myConfig (mb_nodeBuffer mb).
Proof. unfold msgBuffer_remove. by case_match. Qed.

Lemma remove_wf (mb : msgBuffer) (before : list Msg) (msg : Msg) (after : list Msg) :
  msgBuffer_wf mb -> mb_buffer mb = before ++ msg :: after -> msgBuffer_wf (msgBuffer_remove mb before msg after).
Proof.
  intros [Hsz Hreg] Hb. unfold msgBuffer_wf. rewrite (proj1 (remove_buffer _ _ _ _)).
  rewrite Hb, bufferedSize_app in Hsz. rewrite Hb in Hreg. unfold msgBuffer_remove. cbn.
  destruct (length (before ++ after)) eqn:Hl; cbn; rewrite Hsz, s64_sub; (split; [f_equal; rewrite bufferedSize_app, bufferedSize_cons; lia |]); [done |].
  rewrite Hreg, length_app. cbn. by rewrite Nat.add_succ_r.
Qed.

(** Making room drops the oldest messages, and only while over capacity. *)
Lemma storeFlush_spec (buffered : list Msg) (mb : msgBuffer) :
  msgBuffer_wf mb -> mb_buffer mb = buffered ->
  exists dropped, buffered = dropped ++ mb_buffer (storeFlush mb buffered)
    /\ msgBuffer_wf (storeFlush mb buffered)
    /\ nb_id (mb_nodeBuffer (storeFlush mb buffered)) = nb_id (mb_nodeBuffer mb)
    /\ nb_myConfig (mb_nodeBuffer (storeFlush mb buffered)) = nb_myConfig (mb_nodeBuffer mb)
    /\ (mb_buffer (storeFlush mb buffered) = []
        \/ nodeBuffer_overCapacity (mb_nodeBuffer (storeFlush mb buffered)) = false)
    /\ (nodeBuffer_overCapacity (mb_nodeBuffer mb) = false -> dropped = []).
Proof.
  revert mb. induction buffered as [|m l IH]; intros mb Hwf Hb; cbn [storeFlush].
  { exists []. cbn. auto 10. }
  destruct (nodeBuffer_overCapacity (mb_nodeBuffer mb)) eqn:Hov.
  - destruct (remove_buffer mb [] m l) as (Hb' & Hid & Hcfg).
    destruct (IH (msgBuffer_remove mb [] m l)) as (d & Hl & Hwf' & Hid' & Hcfg' & Hend & _).
    { by apply remove_wf. }
    { done. }
    exists (m :: d). split; [cbn; by rewrite <- Hl |]. rewrite Hid', Hcfg'. do 4 (split; [done |]). done.
  - exists []. rewrite Hb. auto 10.
Qed.

Lemma store_spec (mb : msgBuffer) (msg : Msg) :
  msgBuffer_wf mb ->
  exists dropped kept, mb_buffer mb = dropped ++ kept
    /\ mb_buffer (msgBuffer_store mb msg) = kept ++ [msg]
    /\ msgBuffer_wf (msgBuffer_store mb msg)
    /\ nb_id (mb_nodeBuffer (msgBuffer_store mb msg)) = nb_id (mb_nodeBuffer mb)
    /\ (kept = [] \/ s64 (bufferedSize kept) <= ip_BufferSize (nb_myConfig (mb_nodeBuffer mb)))
    /\ (s64 (bufferedSize (mb_buffer mb)) <= ip_BufferSize (nb_myConfig (mb_nodeBuffer mb)) -> dropped = []).
Proof.
  intros Hwf. destruct (storeFlush_spec (mb_buffer mb) mb Hwf eq_refl) as (d & Hb & [Hsz Hreg] & Hid & Hcfg & Hend & Hno).
  set (mb1 := storeFlush mb (mb_buffer mb)) in *.
  exists d, (mb_buffer mb1). split; [done |].
  assert (Hst : mb_buffer (msgBuffer_store mb msg) = mb_buffer mb1 ++ [msg]
    /\ nb_id (mb_nodeBuffer (msgBuffer_store mb msg)) = nb_id (mb_nodeBuffer mb1)
    /\ nb_totalSize (mb_nodeBuffer (msgBuffer_store mb msg)) = s64 (nb_totalSize (mb_nodeBuffer mb1) + protoSize msg)
    /\ nb_msgBufs (mb_nodeBuffer (msgBuffer_store mb msg))
       = if (length (mb_buffer mb1 ++ [msg]) =? 1)%nat then true else nb_msgBufs (mb_nodeBuffer mb1)).
  { unfold msgBuffer_store. fold mb1. cbn. by case_match. }
  destruct Hst as (Hb1 & Hid1 & Hsz1 & Hreg1). split; [done |]. split; [| split; [by rewrite Hid1 | split]].
  - unfold msgBuffer_wf. rewrite Hb1, Hsz1, Hreg1, Hsz, Hreg, s64_add, bufferedSize_app, bufferedSize_cons, Z.add_0_r.
    split; [done |]. rewrite length_app. cbn. destruct (mb_buffer mb1); cbn; [done |].
    by rewrite Nat.add_succ_r.
  - destruct Hend as [| Hend]; [by left | right]. unfold nodeBuffer_overCapacity in Hend.
    rewrite Hcfg, Hsz in Hend. lia.
  - intros Hle. apply Hno. unfold nodeBuffer_overCapacity. destruct Hwf as [-> _]. lia.
Qed.

Definition isFuture (v : Z -> Msg -> applyable) (id : Z) (m : Msg) : Prop := v id m = future.
#[global] Instance isFuture_dec (v : Z -> Msg -> applyable) (id : Z) (m : Msg) : Decision (isFuture v id m).
Proof. unfold isFuture. apply _. Defined.
Definition isCurrent (v : Z -> Msg -> applyable) (id : Z) (m : Msg) : Prop := v id m = current.
#[global] Instance isCurrent_dec (v : Z -> Msg -> applyable) (id : Z) (m : Msg) : Decision (isCurrent v id m).
Proof. unfold isCurrent. apply _. Defined.

(** [next] with a filter that answers [v]. *)
Lemma nextFrom_spec (v : Z -> Msg -> applyable) (rest : list Msg) (mb : msgBuffer) (before : list Msg) :
  let id := nb_id (mb_nodeBuffer mb) in
  msgBuffer_wf mb -> mb_buffer mb = before ++ rest ->
  exists mb' r, nextFrom (fun id m => Ok (v id m)) mb before rest = Ok (mb', r) /\ msgBuffer_wf mb'
    /\ nb_id (mb_nodeBuffer mb') = id
    /\ match r with
       | None => Forall (fun m => ~ isCurrent v id m) rest /\ mb_buffer mb' = before ++ filter (isFuture v id) rest
       | Some m => exists pre post, rest = pre ++ m :: post /\ isCurrent v id m
           /\ Forall (fun m => ~ isCurrent v id m) pre
           /\ mb_buffer mb' = before ++ filter (isFuture v id) pre ++ post
       end.
Proof.
  revert mb before. induction rest as [|m rest IH]; intros mb before id Hwf Hb; cbn [nextFrom].
  { exists mb, None. rewrite Hb. auto 10. }
  assert (Hrm : v id m <> future -> v id m <> current ->
    exists mb' r, nextFrom (fun id m => Ok (v id m)) (msgBuffer_remove mb before m rest) before rest = Ok (mb', r)
    /\ msgBuffer_wf mb' /\ nb_id (mb_nodeBuffer mb') = id
    /\ match r with
       | None => Forall (fun m => ~ isCurrent v id m) (m :: rest) /\ mb_buffer mb' = before ++ filter (isFuture v id) (m :: rest)
       | Some m' => exists pre post, m :: rest = pre ++ m' :: post /\ isCurrent v id m'
           /\ Forall (fun m => ~ isCurrent v id m) pre
           /\ mb_buffer mb' = before ++ filter (isFuture v id) pre ++ post
       end).
  { intros Hf Hc. destruct (remove_buffer mb before m rest) as (Hb' & Hid & _).
    destruct (IH (msgBuffer_remove mb before m rest) before) as (mb' & r & Hr & Hwf' & Hid' & Hspec);
      [by apply remove_wf | done |]. rewrite Hid in Hid', Hspec. exists mb', r. split; [done |]. split; [done |]. split; [done |].
    destruct r as [m' |].
    - destruct Hspec as (pre & post & -> & Hcur & Hpre & ->). exists (m :: pre), post.
      rewrite filter_cons_False by done. auto using Forall_cons_2.
    - destruct Hspec as (Hn & ->). rewrite filter_cons_False by done. auto using Forall_cons_2. }
  cbn [mbind outcome_bind]. fold id. destruct (v id m) eqn:Hv; try (apply Hrm; done).
  - destruct (remove_buffer mb before m rest) as (Hb' & Hid & _).
    eexists _, (Some m). split; [done |]. split; [by apply remove_wf |]. split; [done |].
    exists [], rest. auto 10.
  - destruct (IH mb (before ++ [m]) Hwf) as (mb' & r & Hr & Hwf' & Hid' & Hspec); [by rewrite <- app_assoc |].
    fold id in Hid', Hspec. exists mb', r. split; [done |]. split; [done |]. split; [done |].
    assert (Hnc : ~ isCurrent v id m) by (unfold isCurrent; congruence).
    destruct r as [m' |].
    + destruct Hspec as (pre & post & -> & Hcur & Hpre & ->). exists (m :: pre), post.
      rewrite filter_cons_True by done. rewrite <- app_assoc. auto using Forall_cons_2.
    + destruct Hspec as (Hn & ->). rewrite filter_cons_True, <- app_assoc by done. auto using Forall_cons_2.
Qed.

(** [iterate] with a filter that does not depend on the caller's state. *)
Lemma iterateFrom_spec {St : Type} (v : Z -> Msg -> applyable) (apply : Z -> Msg -> St -> outcome St)
    (rest : list Msg) (mb : msgBuffer) (before : list Msg) (st : St) :
  let id := nb_id (mb_nodeBuffer mb) in
  msgBuffer_wf mb -> mb_buffer mb = before ++ rest ->
  exists mb', iterateFrom (fun _ id m => Ok (v id m)) apply mb before rest st
      = (st' ← forRange (apply id) (filter (isCurrent v id) rest) st; Ok (mb', st'))
    /\ msgBuffer_wf mb' /\ mb_buffer mb' = before ++ filter (isFuture v id) rest.
Proof.
  revert mb before st. induction rest as [|m rest IH]; intros mb before st id Hwf Hb; cbn [iterateFrom].
  { exists mb. auto. }
  destruct (remove_buffer mb before m rest) as (Hb' & Hid & _).
  pose proof (remove_wf mb before m rest Hwf Hb) as Hwf'.
  cbn [mbind outcome_bind]. fold id.
  assert (Hc : isCurrent v id m <-> v id m = current) by done.
  assert (Hf : isFuture v id m <-> v id m = future) by done.
  destruct (v id m).
  - destruct (IH (msgBuffer_remove mb before m rest) before st Hwf' Hb') as (mb' & H1 & H2).
    rewrite Hid in H1, H2. rewrite !filter_cons_False by naive_solver. by exists mb'.
  - rewrite (filter_cons_True (isCurrent v id)), (filter_cons_False (isFuture v id)) by naive_solver.
    cbn [forRange]. cbn. rewrite Hid. fold id. destruct (apply id m st) as [st1 | why |]; cbn.
    + destruct (IH (msgBuffer_remove mb before m rest) before st1 Hwf' Hb') as (mb' & H1 & H2).
      rewrite Hid in H1, H2. by exists mb'.
    + destruct (IH (msgBuffer_remove mb before m rest) before st Hwf' Hb') as (mb' & _ & H2).
      rewrite Hid in H2. by exists mb'.
    + destruct (IH (msgBuffer_remove mb before m rest) before st Hwf' Hb') as (mb' & _ & H2).
      rewrite Hid in H2. by exists mb'.
  - destruct (IH mb (before ++ [m]) st Hwf) as (mb' & H1 & H2); [by rewrite <- app_assoc |].
    rewrite filter_cons_False, filter_cons_True by naive_solver. rewrite <- app_assoc in H2. by exists mb'.
  - destruct (IH (msgBuffer_remove mb before m rest) before st Hwf' Hb') as (mb' & H1 & H2).
    rewrite Hid in H1, H2. rewrite !filter_cons_False by naive_solver. by exists mb'.
Qed.

(** Iterating preserves what every application preserves. *)
Lemma iterateFrom_inv {St : Type} (P : St -> Prop) (filter : St -> Z -> Msg -> outcome applyable)
    (apply : Z -> Msg -> St -> outcome St) (rest : list Msg) (mb mb' : msgBuffer) (before : list Msg) (st st' : St) :
  (forall id m s s', P s -> apply id m s = Ok s' -> P s') ->
  P st -> iterateFrom filter apply mb before rest st = Ok (mb', st') -> P st'.
Proof.
  intros Ha. revert mb before st. induction rest as [|m rest IH]; intros mb before st HP H; cbn in H; runs; [done |].
  case_match; runs; eauto.
Qed.

Lemma iterate_inv {St : Type} (P : St -> Prop) (filter : St -> Z -> Msg -> outcome applyable)
    (apply : Z -> Msg -> St -> outcome St) (mb mb' : msgBuffer) (st st' : St) :
  (forall id m s s', P s -> apply id m s = Ok s' -> P s') ->
  P st -> msgBuffer_iterate filter apply mb st = Ok (mb', st') -> P st'.
Proof. intros Ha HP H. by eapply iterateFrom_inv. Qed.

(** ** Properties *)

(** storing a message keeps the buffer's accounting (the recorded size is
    that of the buffered messages, registered iff non-empty), appends the
    message at the back, and drops only the oldest messages: none if the
    buffer was within its configured capacity, and otherwise as many as needed
    for the remaining ones to be within it. *)
Theorem store_fifo (mb : msgBuffer) (msg : Msg) :
  msgBuffer_wf mb ->
  exists dropped kept, mb_buffer mb = dropped ++ kept
    /\ mb_buffer (msgBuffer_store mb msg) = kept ++ [msg]
    /\ msgBuffer_wf (msgBuffer_store mb msg)
    /\ (kept = [] \/ s64 (bufferedSize kept) <= ip_BufferSize (nb_myConfig (mb_nodeBuffer mb)))
    /\ (s64 (bufferedSize (mb_buffer mb)) <= ip_BufferSize (nb_myConfig (mb_nodeBuffer mb)) -> dropped = []).
Proof. intros Hwf. destruct (store_spec mb msg Hwf) as (d & k & ? & ? & ? & _ & ?). exists d, k. done. Qed.

(** [iterate] applies exactly the messages the filter calls current, in
    the order they were stored, keeps exactly the future ones in order, and
    discards the past and invalid ones; the result is that of applying those
    messages in a loop, panics of an application included, and the accounting
    is kept. *)
Theorem iterate_applies_current_keeps_future {St : Type} (v : Z -> Msg -> applyable)
    (apply : Z -> Msg -> St -> outcome St) (mb : msgBuffer) (st : St) :
  let id := nb_id (mb_nodeBuffer mb) in
  msgBuffer_wf mb ->
  exists mb', msgBuffer_iterate (fun _ id m => Ok (v id m)) apply mb st
      = (st' ← forRange (apply id) (filter (isCurrent v id) (mb_buffer mb)) st; Ok (mb', st'))
    /\ msgBuffer_wf mb' /\ mb_buffer mb' = filter (isFuture v id) (mb_buffer mb).
Proof. intros id Hwf. by apply (iterateFrom_spec v apply (mb_buffer mb) mb [] st). Qed.

End Buffers.

(** A capacity of 1 and messages of size 1: a third message evicts the first. *)
Definition unitSize : ProtoSize := fun _ => 1.
Definition sampleBuffer : msgBuffer :=
  let cfg := mkInitialParameters 0 1 1 1 1 1 in
  mkMsgBuffer "sample" [Msg_Suspect (mkSuspect 1); Msg_Suspect (mkSuspect 2)] (mkNodeBuffer 3 cfg 2 true).

Lemma store_fifo_witness :
  mb_buffer (@msgBuffer_store unitSize sampleBuffer (Msg_Suspect (mkSuspect 3)))
    = [Msg_Suspect (mkSuspect 2); Msg_Suspect (mkSuspect 3)]
  /\ exists dropped kept, mb_buffer sampleBuffer = dropped ++ kept
    /\ mb_buffer (@msgBuffer_store unitSize sampleBuffer (Msg_Suspect (mkSuspect 3))) = kept ++ [Msg_Suspect (mkSuspect 3)].
Proof.
  split; [reflexivity |].
  destruct (@store_fifo unitSize sampleBuffer (Msg_Suspect (mkSuspect 3))) as (d & k & H1 & H2 & _).
  - split; reflexivity.
  - exists d, k. exact (conj H1 H2).
Defined.

Lemma iterate_applies_current_keeps_future_witness :
  exists mb', @msgBuffer_iterate unitSize (list Msg)
      (fun _ id m => Ok (if decide (m = Msg_Suspect (mkSuspect 1)) then current else future))
      (fun _ m st => Ok (st ++ [m])) sampleBuffer []
    = Ok (mb', [Msg_Suspect (mkSuspect 1)]) /\ mb_buffer mb' = [Msg_Suspect (mkSuspect 2)].
Proof.
  destruct (@iterate_applies_current_keeps_future unitSize (list Msg)
    (fun _ m => if decide (m = Msg_Suspect (mkSuspect 1)) then current else future)
    (fun _ m st => Ok (st ++ [m])) sampleBuffer []) as (mb' & H & _ & Hb).
  - split; reflexivity.
  - exists mb'. rewrite H, Hb. split; vm_compute; reflexivity.
Defined.
