(* ===== verification/ReqHeap.v ===== *)
(** * Client request objects

    The objects [clientRequest] and [clientReqNo] of
    [pkg/statemachine/client_hash_disseminator.go].  They are shared by
    pointer: a [clientRequest] is reached from the four maps of its
    [clientReqNo], from the proposer's queues and from the sequences the
    proposer allocated; a [clientReqNo] from its client's window and from the
    ready list.  They live in a heap and pointers are its addresses. *)
From S2P Require Import Prelude Msgs.

Abbreviation loc := Z.

Record clientRequest := mkClientRequest {
  cr_ack : RequestAck;
  cr_agreements : gset Z;
  cr_stored : bool;
  cr_fetching : bool;
  cr_ticksFetching : Z;   (* uint *)
  cr_ticksCorrect : Z;    (* uint *)
}.

#[global] Instance eta_clientRequest : Eta clientRequest := mkEta (fun r =>
  mkClientRequest (cr_ack r) (cr_agreements r) (cr_stored r) (cr_fetching r)
    (cr_ticksFetching r) (cr_ticksCorrect r)).

Record clientReqNo := mkClientReqNo {
  crn_myConfig : EventInitialParameters;
  crn_networkConfig : NetworkState_Config;
  crn_clientID : Z;
  crn_reqNo : Z;
  crn_validAfterSeqNo : Z;
  crn_nonNullVoters : gset Z;
  crn_requests : gmap bytes loc;
  crn_weakRequests : gmap bytes loc;
  crn_strongRequests : gmap bytes loc;
  crn_myRequests : gmap bytes loc;
  crn_committed : bool;
  crn_acksSent : Z;        (* uint *)
  crn_ticksSinceAck : Z;   (* uint *)
}.

#[global] Instance eta_clientReqNo : Eta clientReqNo := mkEta (fun r =>
  mkClientReqNo (crn_myConfig r) (crn_networkConfig r) (crn_clientID r) (crn_reqNo r)
    (crn_validAfterSeqNo r) (crn_nonNullVoters r) (crn_requests r) (crn_weakRequests r)
    (crn_strongRequests r) (crn_myRequests r) (crn_committed r) (crn_acksSent r) (crn_ticksSinceAck r)).

Record reqHeap := mkReqHeap {
  hp_next : loc;
  hp_requests : gmap loc clientRequest;
  hp_reqNos : gmap loc clientReqNo;
}.

#[global] Instance eta_reqHeap : Eta reqHeap := mkEta (fun r =>
  mkReqHeap (hp_next r) (hp_requests r) (hp_reqNos r)).

Definition emptyHeap : reqHeap := mkReqHeap 0 ∅ ∅.

(** [&clientRequest{...}] and [&clientReqNo{...}]. *)
Definition allocRequest (h : reqHeap) (cr : clientRequest) : reqHeap * loc :=
  (h <| hp_requests ::= <[hp_next h := cr]> |> <| hp_next := hp_next h + 1 |>, hp_next h).
Definition allocReqNo (h : reqHeap) (crn : clientReqNo) : reqHeap * loc :=
  (h <| hp_reqNos ::= <[hp_next h := crn]> |> <| hp_next := hp_next h + 1 |>, hp_next h).

(** Dereferencing and assigning through a pointer. *)
Definition loadRequest (h : reqHeap) (l : loc) : outcome clientRequest :=
  deref (hp_requests h !! l) "nil pointer dereference: clientRequest".
Definition loadReqNo (h : reqHeap) (l : loc) : outcome clientReqNo :=
  deref (hp_reqNos h !! l) "nil pointer dereference: clientReqNo".
Definition storeRequest (h : reqHeap) (l : loc) (cr : clientRequest) : reqHeap :=
  h <| hp_requests ::= <[l := cr]> |>.
Definition storeReqNo (h : reqHeap) (l : loc) (crn : clientReqNo) : reqHeap :=
  h <| hp_reqNos ::= <[l := crn]> |>.
