(* ===== verification/Sequence.v ===== *)
(** * Sequences: the three-phase commit of one slot

    [pkg/statemachine/sequence.go]: the state machine of one sequence number,
    from allocation of its batch through preprepared and prepared to
    committed.  The shared log is threaded through the operations; the client
    requests of an own batch are read from the heap [h]. *)
From S2P Require Import Prelude Msgs Actions Stateless Persisted ReqHeap.

(** ** Data *)

Inductive sequenceState :=
| sequenceUninitialized
| sequenceAllocated
| sequencePendingRequests
| sequenceReady
| sequencePreprepared
| sequencePrepared
| sequenceCommitted.

#[global] Instance sequenceState_eq_dec : EqDecision sequenceState.
Proof. solve_decision. Defined.

(** The value of the [iota] constant. *)
Definition sequenceState_iota (s : sequenceState) : nat :=
  match s with
  | sequenceUninitialized => 0
  | sequenceAllocated => 1
  | sequencePendingRequests => 2
  | sequenceReady => 3
  | sequencePreprepared => 4
  | sequencePrepared => 5
  | sequenceCommitted => 6
  end%nat.

Inductive nodeSeqState :=
| nodeSeqUninitialized
| nodeSeqPreprepared
| nodeSeqPrepared.

Definition nodeSeqState_iota (s : nodeSeqState) : nat :=
  match s with
  | nodeSeqUninitialized => 0
  | nodeSeqPreprepared => 1
  | nodeSeqPrepared => 2
  end%nat.

Record nodeSeqChoice := mkChoice { nsc_state : nodeSeqState; nsc_digest : slice }.

#[global] Instance eta_nodeSeqChoice : Eta nodeSeqChoice := mkEta (fun r =>
  mkChoice (nsc_state r) (nsc_digest r)).

Record sequence := mkSequence {
  sq_owner : Z;
  sq_seqNo : Z;
  sq_epoch : Z;
  sq_myConfig : EventInitialParameters;
  sq_networkConfig : NetworkState_Config;
  sq_state : sequenceState;
  sq_qEntry : option QEntry;
  sq_clientRequests : list loc;
  sq_batch : list RequestAck;
  sq_outstandingReqs : gset bytes;
  sq_digest : slice;
  sq_nodeChoices : gmap Z nodeSeqChoice;
  sq_prepares : gmap bytes Z;
  sq_commits : gmap bytes Z;
}.

#[global] Instance eta_sequence : Eta sequence := mkEta (fun r =>
  mkSequence (sq_owner r) (sq_seqNo r) (sq_epoch r) (sq_myConfig r) (sq_networkConfig r) (sq_state r)
    (sq_qEntry r) (sq_clientRequests r) (sq_batch r) (sq_outstandingReqs r) (sq_digest r)
    (sq_nodeChoices r) (sq_prepares r) (sq_commits r)).

Definition newSequence (owner epoch seqNo : Z) (networkConfig : NetworkState_Config)
    (myConfig : EventInitialParameters) : sequence :=
  mkSequence owner seqNo epoch myConfig networkConfig sequenceUninitialized None [] [] ∅ None ∅ ∅ ∅.

(** ** Operations *)

(** The choice of a node, recorded as the zero value on first use. *)
Definition sequence_nodeChoice (s : sequence) (source : Z) : sequence * nodeSeqChoice :=
  match sq_nodeChoices s !! source with
  | Some choice => (s, choice)
  | None =>
    let choice := mkChoice nodeSeqUninitialized None in
    (s <| sq_nodeChoices ::= <[source := choice]> |>, choice)
  end.

Definition sequence_checkRequests (s : sequence) : sequence :=
  if (0 <? size (sq_outstandingReqs s))%nat then s else s <| sq_state := sequenceReady |>.

(** The nodes that have not acknowledged a request: who it is forwarded to. *)
Definition forwardTargets (nodes : list Z) (cr : clientRequest) : list Z :=
  filter (fun id => id ∉ cr_agreements cr) nodes.

Definition sequence_prepare (h : reqHeap) (p : persisted) (s : sequence)
    : outcome (persisted * sequence * ActionList) :=
  let qEntry := mkQEntry (sq_seqNo s) (sq_digest s) (sq_batch s) in
  let s := s <| sq_qEntry := Some qEntry |> <| sq_state := sequencePreprepared |> in
  '(p, actions) ← persisted_addQEntry p qEntry;
  if sq_owner s =? ip_Id (sq_myConfig s) then
    actions ← forRange (fun l actions =>
        cr ← loadRequest h l;
        Ok (ActionList_ForwardRequest actions (forwardTargets (nc_Nodes (sq_networkConfig s)) cr) (cr_ack cr)))
      (sq_clientRequests s) actions;
    Ok (p, s, ActionList_Send actions (nc_Nodes (sq_networkConfig s))
      (Msg_Preprepare (mkPreprepare (sq_seqNo s) (sq_epoch s) (sq_batch s))))
  else
    Ok (p, s, ActionList_Send actions (nc_Nodes (sq_networkConfig s))
      (Msg_Prepare (mkPrepare (sq_seqNo s) (sq_epoch s) (sq_digest s)))).

Definition sequence_checkPrepareQuorum (p : persisted) (s : sequence)
    : outcome (persisted * sequence * ActionList) :=
  let agreements := default 0 (sq_prepares s !! str (sq_digest s)) in
  let '(s, myChoice) := sequence_nodeChoice s (ip_Id (sq_myConfig s)) in
  if (nodeSeqState_iota (nsc_state myChoice) <? nodeSeqState_iota nodeSeqPreprepared)%nat then Ok (p, s, [])
  else if negb (bytesEqual (nsc_digest myChoice) (sq_digest s)) then Ok (p, s, [])
  else
    let requiredPrepares := intersectionQuorum (sq_networkConfig s) in
    if agreements <? requiredPrepares then Ok (p, s, [])
    else
      let s := s <| sq_state := sequencePrepared |> in
      '(p, actions) ← persisted_addPEntry p (mkPEntry (sq_seqNo s) (sq_digest s));
      Ok (p, s, ActionList_Send actions (nc_Nodes (sq_networkConfig s))
        (Msg_Commit (mkCommit (sq_seqNo s) (sq_epoch s) (sq_digest s)))).

Definition sequence_checkCommitQuorum (s : sequence) : sequence :=
  let agreements := default 0 (sq_commits s !! str (sq_digest s)) in
  let '(s, myChoice) := sequence_nodeChoice s (ip_Id (sq_myConfig s)) in
  if (nodeSeqState_iota (nsc_state myChoice) <? nodeSeqState_iota nodeSeqPrepared)%nat then s
  else
    let requiredCommits := intersectionQuorum (sq_networkConfig s) in
    if agreements <? requiredCommits then s else s <| sq_state := sequenceCommitted |>.

(** One iteration of the loop of [advanceState]. *)
Definition advanceOnce (h : reqHeap) (p : persisted) (s : sequence)
    : outcome (persisted * sequence * ActionList) :=
  match sq_state s with
  | sequenceUninitialized => Ok (p, s, [])
  | sequenceAllocated => Ok (p, s, [])
  | sequencePendingRequests => Ok (p, sequence_checkRequests s, [])
  | sequenceReady =>
    if notNil (sq_digest s) || (length (sq_batch s) =? 0)%nat then sequence_prepare h p s
    else Ok (p, s, [])
  | sequencePreprepared => sequence_checkPrepareQuorum p s
  | sequencePrepared => Ok (p, sequence_checkCommitQuorum s, [])
  | sequenceCommitted => Ok (p, s, [])
  end.

Fixpoint advanceLoop (fuel : nat) (h : reqHeap) (p : persisted) (s : sequence) (actions : ActionList)
    : outcome (persisted * sequence * ActionList) :=
  match fuel with
  | O => OutOfFuel
  | S fuel' =>
    let oldState := sq_state s in
    '(p, s, more) ← advanceOnce h p s;
    let actions := ActionList_concat actions more in
    if decide (sq_state s = oldState) then Ok (p, s, actions)
    else advanceLoop fuel' h p s actions
  end.

(** Every iteration but the last moves to a later one of the seven states, so
    eight iterations are enough ([advanceState_total]). *)
Definition sequence_advanceState (h : reqHeap) (p : persisted) (s : sequence)
    : outcome (persisted * sequence * ActionList) :=
  advanceLoop 8 h p s [].

Definition sequence_applyPrepareMsg (h : reqHeap) (p : persisted) (s : sequence) (source : Z) (digest : slice)
    : outcome (persisted * sequence * ActionList) :=
  let '(s, choice) := sequence_nodeChoice s source in
  if negb (source =? sq_owner s)
     && (nodeSeqState_iota nodeSeqUninitialized <? nodeSeqState_iota (nsc_state choice))%nat
  then Ok (p, s, [])
  else
    let choice := choice <| nsc_state := nodeSeqPreprepared |> <| nsc_digest := digest |> in
    let s := s <| sq_nodeChoices ::= <[source := choice]> |>
               <| sq_prepares ::= fun m => <[str digest := default 0 (m !! str digest) + 1]> m |> in
    sequence_advanceState h p s.

Definition sequence_applyBatchHashResult (h : reqHeap) (p : persisted) (s : sequence) (digest : slice)
    : outcome (persisted * sequence * ActionList) :=
  let s := s <| sq_digest := digest |> in
  sequence_applyPrepareMsg h p s (sq_owner s) digest.

Definition sequence_allocate (h : reqHeap) (p : persisted) (s : sequence)
    (requestAcks : list RequestAck) (outstandingReqs : gset bytes)
    : outcome (persisted * sequence * ActionList) :=
  _ ← assertTrue (bool_decide (sq_state s = sequenceUninitialized)) "must be uninitialized to allocate";
  let s := s <| sq_state := sequenceAllocated |> <| sq_batch := requestAcks |>
             <| sq_outstandingReqs := outstandingReqs |> in
  if (length requestAcks =? 0)%nat then
    let s := s <| sq_state := sequenceReady |> in
    sequence_applyBatchHashResult h p s None
  else
    let data := ra_Digest <$> requestAcks in
    let actions := ActionList_Hash [] data
      (HashOrigin_isBatch (mkHashBatch (sq_owner s) (sq_epoch s) (sq_seqNo s) requestAcks)) in
    let s := s <| sq_state := sequencePendingRequests |> in
    '(p, s, more) ← sequence_advanceState h p s;
    Ok (p, s, ActionList_concat actions more).

Definition sequence_allocateAsOwner (h : reqHeap) (p : persisted) (s : sequence) (clientRequests : list loc)
    : outcome (persisted * sequence * ActionList) :=
  let s := s <| sq_clientRequests := clientRequests |> in
  requestAcks ← forRange (fun l acks => cr ← loadRequest h l; Ok (acks ++ [cr_ack cr])) clientRequests [];
  sequence_allocate h p s requestAcks ∅.

Definition sequence_satisfyOutstanding (h : reqHeap) (p : persisted) (s : sequence) (fr : RequestAck)
    : outcome (persisted * sequence * ActionList) :=
  _ ← assertTrue (bool_decide (str (ra_Digest fr) ∈ sq_outstandingReqs s))
        "told request was ready but we weren't waiting for it";
  let s := s <| sq_outstandingReqs ::= fun o => o ∖ {[str (ra_Digest fr)]} |> in
  sequence_advanceState h p s.

Definition sequence_applyCommitMsg (h : reqHeap) (p : persisted) (s : sequence) (source : Z) (digest : slice)
    : outcome (persisted * sequence * ActionList) :=
  let '(s, choice) := sequence_nodeChoice s source in
  if (nodeSeqState_iota nodeSeqPreprepared <? nodeSeqState_iota (nsc_state choice))%nat then Ok (p, s, [])
  else
    let choice := choice <| nsc_state := nodeSeqPrepared |> in
    let s := s <| sq_nodeChoices ::= <[source := choice]> |> in
    let s :=
      match nsc_state choice with
      | nodeSeqUninitialized =>
        s <| sq_prepares ::= fun m => <[str digest := default 0 (m !! str digest)]> m |>
      | _ => s
      end in
    let s := s <| sq_commits ::= fun m => <[str digest := default 0 (m !! str digest) + 1]> m |> in
    sequence_advanceState h p s.

(** ** Specification *)

Definition rank (s : sequence) : nat := sequenceState_iota (sq_state s).

(** The choice of a node, the zero value if none is recorded. *)
Definition choiceOf (s : sequence) (n : Z) : nodeSeqChoice :=
  default (mkChoice nodeSeqUninitialized None) (sq_nodeChoices s !! n).

(** What advancing the state leaves alone: everything but the state, the Q
    entry, and the recording of zero-valued choices. *)
Record sameVotes (s s' : sequence) : Prop := {
  sv_owner : sq_owner s' = sq_owner s;
  sv_seqNo : sq_seqNo s' = sq_seqNo s;
  sv_epoch : sq_epoch s' = sq_epoch s;
  sv_myConfig : sq_myConfig s' = sq_myConfig s;
  sv_networkConfig : sq_networkConfig s' = sq_networkConfig s;
  sv_clientRequests : sq_clientRequests s' = sq_clientRequests s;
  sv_batch : sq_batch s' = sq_batch s;
  sv_outstanding : sq_outstandingReqs s' = sq_outstandingReqs s;
  sv_digest : sq_digest s' = sq_digest s;
  sv_prepares : sq_prepares s' = sq_prepares s;
  sv_commits : sq_commits s' = sq_commits s;
  sv_choices : forall n, choiceOf s' n = choiceOf s n;
}.

Definition quorumOf (votes : gmap bytes Z) (s : sequence) : Prop :=
  intersectionQuorum (sq_networkConfig s) <= default 0 (votes !! str (sq_digest s)).

Definition qEntryOf (s : sequence) : QEntry := mkQEntry (sq_seqNo s) (sq_digest s) (sq_batch s).
Definition pEntryOf (s : sequence) : PEntry := mkPEntry (sq_seqNo s) (sq_digest s).

Definition appends (e : Persistent) (acts : ActionList) : Prop :=
  exists index, Action_AppendWriteAhead index e ∈ acts.

(** A message of the three-phase commit is sent only along with the log entry
    that backs it. *)
Definition backed (s : sequence) (acts : ActionList) (m : Msg) : Prop :=
  match m with
  | Msg_Preprepare pp => pp = mkPreprepare (sq_seqNo s) (sq_epoch s) (sq_batch s)
      /\ appends (Persistent_QEntry (qEntryOf s)) acts
  | Msg_Prepare pr => pr = mkPrepare (sq_seqNo s) (sq_epoch s) (sq_digest s)
      /\ appends (Persistent_QEntry (qEntryOf s)) acts
  | Msg_Commit c => c = mkCommit (sq_seqNo s) (sq_epoch s) (sq_digest s)
      /\ appends (Persistent_PEntry (pEntryOf s)) acts
  | _ => False
  end.

(** What advancing from [s] to [s'] with [acts] guarantees. *)
Record advanced (s s' : sequence) (acts : ActionList) : Prop := {
  ad_same : sameVotes s s';
  ad_mono : (rank s <= rank s')%nat;
  ad_preprepared : (rank s < 4 <= rank s')%nat -> notNil (sq_digest s) = true \/ sq_batch s = [];
  ad_prepared : (rank s < 5 <= rank s')%nat -> quorumOf (sq_prepares s) s
      /\ str (nsc_digest (choiceOf s (ip_Id (sq_myConfig s)))) = str (sq_digest s);
  ad_committed : (rank s < 6 <= rank s')%nat -> quorumOf (sq_commits s) s
      /\ nsc_state (choiceOf s (ip_Id (sq_myConfig s))) = nodeSeqPrepared;
  ad_sends : forall targets m, Action_Send targets m ∈ acts -> backed s acts m;
}.

(** ** Lemmas: advancing *)

Lemma sameVotes_refl (s : sequence) : sameVotes s s.
Proof. by split. Qed.

Lemma sameVotes_trans (s1 s2 s3 : sequence) : sameVotes s1 s2 -> sameVotes s2 s3 -> sameVotes s1 s3.
Proof.
  intros [] []. split; congruence.
Qed.

Lemma nodeChoice_spec (s s' : sequence) (n : Z) (c : nodeSeqChoice) :
  sequence_nodeChoice s n = (s', c) -> c = choiceOf s n /\ sameVotes s s' /\ sq_state s' = sq_state s /\ sq_qEntry s' = sq_qEntry s.
Proof.
  unfold sequence_nodeChoice. destruct (sq_nodeChoices s !! n) as [c0 |] eqn:Hn; intros [= <- <-].
  - unfold choiceOf. rewrite Hn. auto using sameVotes_refl.
  - split; [unfold choiceOf; by rewrite Hn |]. split; [| done]. split; try done.
    intros n'. unfold choiceOf. cbn. rewrite lookup_insert. case_decide; [| done]. subst n'. by rewrite Hn.
Qed.

Lemma appends_app (e : Persistent) (a1 a2 : ActionList) :
  appends e a1 \/ appends e a2 -> appends e (a1 ++ a2).
Proof. intros [[i H] | [i H]]; exists i; apply elem_of_app; auto. Qed.

Lemma backed_same (s s' : sequence) (a a' : ActionList) (m : Msg) :
  sameVotes s s' -> (forall e, appends e a -> appends e a') -> backed s' a m -> backed s a' m.
Proof.
  intros [] Ha. unfold backed, qEntryOf, pEntryOf.
  rewrite sv_seqNo0, sv_epoch0, sv_digest0, sv_batch0. destruct m; naive_solver.
Qed.

Lemma quorumOf_same (s s' : sequence) (votes : gmap bytes Z) :
  sameVotes s s' -> quorumOf votes s' <-> quorumOf votes s.
Proof. intros []. unfold quorumOf. by rewrite sv_networkConfig0, sv_digest0. Qed.

Lemma advanced_refl (s s' : sequence) :
  sameVotes s s' -> sq_state s' = sq_state s -> advanced s s' [].
Proof.
  intros Hs Hst. unfold rank. split; unfold rank; rewrite ?Hst; try (done || lia).
  intros t m []%elem_of_nil.
Qed.

Lemma advanced_trans (s1 s2 s3 : sequence) (a1 a2 : ActionList) :
  advanced s1 s2 a1 -> advanced s2 s3 a2 -> advanced s1 s3 (a1 ++ a2).
Proof.
  intros [] []. pose proof ad_same0 as Hsame. pose proof (quorumOf_same s1 s2 (sq_prepares s2) Hsame) as HqP.
  pose proof (quorumOf_same s1 s2 (sq_commits s2) Hsame) as HqC. destruct Hsame.
  rewrite sv_prepares0 in HqP. rewrite sv_commits0 in HqC.
  rewrite sv_digest0, sv_batch0 in ad_preprepared1.
  rewrite sv_prepares0, sv_digest0, sv_myConfig0, sv_choices0, HqP in ad_prepared1.
  rewrite sv_commits0, sv_myConfig0, sv_choices0, HqC in ad_committed1.
  split; [by eapply sameVotes_trans | lia | | | |].
  - intros [? ?]. destruct (decide (4 <= rank s2)%nat); [apply ad_preprepared0 | apply ad_preprepared1]; lia.
  - intros [? ?]. destruct (decide (5 <= rank s2)%nat); [apply ad_prepared0 | apply ad_prepared1]; lia.
  - intros [? ?]. destruct (decide (6 <= rank s2)%nat); [apply ad_committed0 | apply ad_committed1]; lia.
  - intros t m [Hm | Hm]%elem_of_app.
    + eapply backed_same; [apply sameVotes_refl | | by eapply ad_sends0]. intros e He. apply appends_app. auto.
    + eapply backed_same; [exact ad_same0 | | by eapply ad_sends1]. intros e He. apply appends_app. auto.
Qed.

Lemma addEntry_acts (p p' : persisted) (e : Persistent) (acts : ActionList) :
  persisted_appendLogEntry p e = Ok (p', acts) -> acts = [Action_AppendWriteAhead (pst_nextIndex p) e] /\ pst_log p' <> [].
Proof.
  unfold persisted_appendLogEntry. destruct (pst_log p) eqn:Hl; [done |].
  intros [= <- <-]. split; [done |]. cbn. by rewrite Hl.
Qed.

Lemma addEntry_total (p : persisted) (e : Persistent) :
  pst_log p <> [] -> exists p' acts, persisted_appendLogEntry p e = Ok (p', acts) /\ pst_log p' <> [].
Proof.
  intros Hne. unfold persisted_appendLogEntry. destruct (pst_log p) eqn:Hl; [done |].
  do 2 eexists. split; [done |]. cbn. by rewrite Hl.
Qed.

(** The forwards added for an own batch are no sends, and keep what is there. *)
Lemma forwards_spec (h : reqHeap) (nodes : list Z) (crs : list loc) (acts acts' : ActionList) :
  forRange (fun l actions => cr ← loadRequest h l;
    Ok (ActionList_ForwardRequest actions (forwardTargets nodes cr) (cr_ack cr))) crs acts = Ok acts' ->
  (forall a, a ∈ acts -> a ∈ acts') /\ (forall t m, Action_Send t m ∈ acts' -> Action_Send t m ∈ acts).
Proof.
  intros H. refine (forRange_inv (fun a' => (forall a, a ∈ acts -> a ∈ a') /\
    (forall t m, Action_Send t m ∈ a' -> Action_Send t m ∈ acts)) _ crs acts acts' _ _ H); [| done].
  intros l a1 a2 _ [H1 H2] Hstep. runs. unfold ActionList_ForwardRequest, ActionList_PushBack. split.
  - intros a Ha. apply elem_of_app. auto.
  - intros t m [Hm | Hm]%elem_of_app; [auto |]. by apply list_elem_of_singleton in Hm.
Qed.

(** Reduces the comparisons of concrete states. *)
Ltac ranks := unfold rank in *; cbn in *;
  repeat match goal with H : sq_state _ = _ |- _ => rewrite H in * end; cbn in *.

Lemma prepare_spec (h : reqHeap) (p p' : persisted) (s s' : sequence) (acts : ActionList) :
  sq_state s = sequenceReady -> notNil (sq_digest s) || (length (sq_batch s) =? 0)%nat = true ->
  sequence_prepare h p s = Ok (p', s', acts) ->
  advanced s s' acts /\ sq_state s' = sequencePreprepared /\ pst_log p' <> []
  /\ appends (Persistent_QEntry (qEntryOf s)) acts.
Proof.
  intros Hst Hd. unfold sequence_prepare. intros H. apply bind_Ok in H as ([p1 a1] & Hq & H).
  apply addEntry_acts in Hq as [-> Hne]. cbn in H.
  set (s1 := s <| sq_qEntry := _ |> <| sq_state := _ |>) in *.
  assert (Hs1 : sameVotes s s1) by (by split).
  assert (Hout : p' = p1 /\ s' = s1 /\ (forall e, appends e [Action_AppendWriteAhead (pst_nextIndex p) (Persistent_QEntry (qEntryOf s))] -> appends e acts)
    /\ forall t m, Action_Send t m ∈ acts -> m = Msg_Preprepare (mkPreprepare (sq_seqNo s) (sq_epoch s) (sq_batch s))
         \/ m = Msg_Prepare (mkPrepare (sq_seqNo s) (sq_epoch s) (sq_digest s))).
  { destruct (sq_owner s =? ip_Id (sq_myConfig s)).
    - apply bind_Ok in H as (a2 & Hf & H). apply forwards_spec in Hf as [Hf1 Hf2].
      injection H as <- <- <-. split; [done |]. split; [done |]. split.
      + intros e [i Hi]. exists i. apply elem_of_app. left. by apply Hf1.
      + intros t m [Hm | Hm]%elem_of_app; [apply Hf2, list_elem_of_singleton in Hm; done |].
        apply list_elem_of_singleton in Hm. injection Hm as -> ->. by left.
    - injection H as <- <- <-. split; [done |]. split; [done |]. split.
      + intros e [i Hi]. exists i. apply list_elem_of_singleton in Hi. rewrite Hi. left.
      + intros t m [Hm | Hm]%elem_of_cons; [done |]. apply list_elem_of_singleton in Hm.
        injection Hm as -> ->. by right. }
  destruct Hout as (-> & -> & Hap & Hsend).
  assert (Hq : appends (Persistent_QEntry (qEntryOf s)) acts).
  { apply Hap. exists (pst_nextIndex p). by apply list_elem_of_singleton. }
  split; [| done]. split; [done | ranks; lia | | ranks; lia | ranks; lia |].
  - intros _. apply orb_true_iff in Hd as [Hd | Hd]; [by left | right]. by destruct (sq_batch s).
  - intros t m Hm. destruct (Hsend t m Hm) as [-> | ->]; by split.
Qed.

Lemma checkPrepareQuorum_spec (p p' : persisted) (s s' : sequence) (acts : ActionList) :
  sq_state s = sequencePreprepared -> sequence_checkPrepareQuorum p s = Ok (p', s', acts) ->
  advanced s s' acts /\ (pst_log p <> [] -> pst_log p' <> [])
  /\ (sq_state s' = sequencePreprepared
      \/ sq_state s' = sequencePrepared /\ appends (Persistent_PEntry (pEntryOf s)) acts).
Proof.
  intros Hst. unfold sequence_checkPrepareQuorum.
  destruct (sequence_nodeChoice s _) as [s1 c] eqn:Hc. apply nodeChoice_spec in Hc as (-> & Hs1 & Hst1 & _).
  assert (Hid : forall r, Ok (p, s1, []) = Ok r -> r = (p', s', acts) ->
    advanced s s' acts /\ (pst_log p <> [] -> pst_log p' <> []) /\ (sq_state s' = sequencePreprepared
      \/ sq_state s' = sequencePrepared /\ appends (Persistent_PEntry (pEntryOf s)) acts)).
  { intros r [= <-] [= <- <- <-]. split; [by apply advanced_refl |]. split; [done | left; congruence]. }
  intros H. case_match; [by eapply Hid |]. case_match eqn:Heq; [by eapply Hid |].
  case_match eqn:Hq; [by eapply Hid |]. clear Hid. apply bind_Ok in H as ([p1 a1] & Ha & H).
  apply addEntry_acts in Ha as [-> Hne]. injection H as <- <- <-.
  assert (Hs' : sameVotes s (s1 <| sq_state := sequencePrepared |>)).
  { eapply sameVotes_trans; [exact Hs1 |]. by split. }
  pose proof Hs1 as []. cbn. rewrite sv_seqNo0, sv_digest0, sv_epoch0, sv_networkConfig0.
  assert (Hap : appends (Persistent_PEntry (pEntryOf s)) [Action_AppendWriteAhead (pst_nextIndex p) (Persistent_PEntry (pEntryOf s));
    Action_Send (nc_Nodes (sq_networkConfig s)) (Msg_Commit (mkCommit (sq_seqNo s) (sq_epoch s) (sq_digest s)))]).
  { eexists. by left. }
  split; [| split; [done | right; done]]. split; [done | ranks; lia | ranks; lia | | ranks; lia |].
  - intros _. split.
    + unfold quorumOf. rewrite sv_networkConfig0 in Hq. lia.
    + rewrite negb_false_iff, sv_digest0 in Heq. by apply bytesEqual_spec.
  - intros t m Hm. unfold ActionList_Send, ActionList_PushBack, ActionList_Persist in Hm. cbn in Hm.
    apply elem_of_cons in Hm as [Hm | Hm]; [done |]. apply list_elem_of_singleton in Hm.
    injection Hm as -> ->. by split.
Qed.

Lemma checkCommitQuorum_spec (s : sequence) :
  sq_state s = sequencePrepared ->
  advanced s (sequence_checkCommitQuorum s) []
  /\ (sq_state (sequence_checkCommitQuorum s) = sequencePrepared \/ sq_state (sequence_checkCommitQuorum s) = sequenceCommitted).
Proof.
  intros Hst. unfold sequence_checkCommitQuorum.
  destruct (sequence_nodeChoice s _) as [s1 c] eqn:Hc. apply nodeChoice_spec in Hc as (-> & Hs1 & Hst1 & _).
  case_match eqn:Hmine; [split; [by apply advanced_refl | left; congruence] |].
  case_match eqn:Hq; [split; [by apply advanced_refl | left; congruence] |].
  split; [| by right]. pose proof Hs1 as [].
  split; [| ranks; lia | ranks; lia | ranks; lia | | intros t m []%elem_of_nil].
  - eapply sameVotes_trans; [exact Hs1 |]. by split.
  - intros _. unfold quorumOf. rewrite sv_networkConfig0 in Hq. split; [lia |].
    by destruct (nsc_state (choiceOf s _)).
Qed.

Lemma advanceOnce_spec (h : reqHeap) (p p' : persisted) (s s' : sequence) (acts : ActionList) :
  advanceOnce h p s = Ok (p', s', acts) ->
  advanced s s' acts /\ (pst_log p <> [] -> pst_log p' <> []).
Proof.
  unfold advanceOnce. destruct (sq_state s) eqn:Hst; intros H.
  - injection H as <- <- <-. auto using advanced_refl, sameVotes_refl.
  - injection H as <- <- <-. auto using advanced_refl, sameVotes_refl.
  - injection H as <- <- <-. split; [| done]. unfold sequence_checkRequests.
    case_match; [auto using advanced_refl, sameVotes_refl |].
    split; [by split | ranks; lia | ranks; lia | ranks; lia | ranks; lia | intros t m []%elem_of_nil].
  - case_match eqn:Hd.
    + apply prepare_spec in H as (? & ? & ? & ?); done.
    + injection H as <- <- <-. auto using advanced_refl, sameVotes_refl.
  - by apply checkPrepareQuorum_spec in H as (? & ? & _).
  - injection H as <- <- <-. split; [| done]. by apply checkCommitQuorum_spec.
  - injection H as <- <- <-. auto using advanced_refl, sameVotes_refl.
Qed.

Lemma advanceLoop_spec (fuel : nat) (h : reqHeap) (p p' : persisted) (s0 s s' : sequence) (a0 acts : ActionList) :
  advanced s0 s a0 -> advanceLoop fuel h p s a0 = Ok (p', s', acts) ->
  advanced s0 s' acts /\ (pst_log p <> [] -> pst_log p' <> []).
Proof.
  revert p s a0. induction fuel as [|fuel IH]; intros p s a0 Had H; cbn in H; [done |].
  apply bind_Ok in H as ([[p1 s1] a1] & Ho & H). apply advanceOnce_spec in Ho as [Had1 Hp1].
  pose proof (advanced_trans _ _ _ _ _ Had Had1) as Had'. case_decide.
  - injection H as <- <- <-. done.
  - destruct (IH p1 s1 _ Had' H) as [? ?]. auto.
Qed.

Lemma advanceState_spec (h : reqHeap) (p p' : persisted) (s s' : sequence) (acts : ActionList) :
  sequence_advanceState h p s = Ok (p', s', acts) ->
  advanced s s' acts /\ (pst_log p <> [] -> pst_log p' <> []).
Proof. apply advanceLoop_spec. apply advanced_refl; [apply sameVotes_refl | done]. Qed.

(** *** Termination *)

Definition reqsLive (h : reqHeap) (s : sequence) : Prop :=
  Forall (fun l => is_Some (hp_requests h !! l)) (sq_clientRequests s).

Lemma advanceOnce_total (h : reqHeap) (p : persisted) (s : sequence) :
  pst_log p <> [] -> reqsLive h s -> exists r, advanceOnce h p s = Ok r.
Proof.
  intros Hne Hl. unfold advanceOnce. destruct (sq_state s); try (eexists; reflexivity).
  - case_match; [| by eexists]. unfold sequence_prepare. unfold persisted_addQEntry.
    match goal with |- context [persisted_appendLogEntry p ?e] =>
      destruct (addEntry_total p e Hne) as (p1 & a1 & -> & Hne1) end. cbn.
    case_match; [| by eexists].
    match goal with |- context [forRange ?b ?l ?st] =>
      destruct (forRange_total b (fun x => is_Some (hp_requests h !! x)) l st) as [a2 ->] end; [| done | by eexists].
    intros l st [cr Hcr]. unfold loadRequest. rewrite Hcr. by eexists.
  - unfold sequence_checkPrepareQuorum. destruct (sequence_nodeChoice s _) as [s1 c].
    repeat case_match; try (by eexists). unfold persisted_addPEntry.
    match goal with |- context [persisted_appendLogEntry p ?e] =>
      destruct (addEntry_total p e Hne) as (p1 & a1 & -> & Hne1) end. by eexists.
Qed.

Lemma advanceLoop_total (fuel : nat) (h : reqHeap) (p : persisted) (s : sequence) (acts : ActionList) :
  (7 <= fuel + rank s)%nat -> (rank s <= 6)%nat -> pst_log p <> [] -> reqsLive h s ->
  exists r, advanceLoop fuel h p s acts = Ok r.
Proof.
  revert p s acts. induction fuel as [|fuel IH]; intros p s acts Hf Hr Hne Hl; [lia |]. cbn.
  destruct (advanceOnce_total h p s Hne Hl) as [[[p1 s1] a1] Ho]. rewrite Ho. cbn.
  apply advanceOnce_spec in Ho as [Had Hp]. case_decide as Heq; [by eexists |].
  assert (Hlt : (rank s < rank s1)%nat).
  { pose proof (ad_mono _ _ _ Had) as Hm. unfold rank in *.
    destruct (decide (sequenceState_iota (sq_state s) = sequenceState_iota (sq_state s1))) as [He |]; [| lia].
    exfalso. apply Heq. by destruct (sq_state s), (sq_state s1). }
  apply IH; [lia | unfold rank; by destruct (sq_state s1); cbn; lia | auto |].
  unfold reqsLive. by rewrite (sv_clientRequests _ _ (ad_same _ _ _ Had)).
Qed.

Lemma advanceState_total (h : reqHeap) (p : persisted) (s : sequence) :
  pst_log p <> [] -> reqsLive h s -> exists r, sequence_advanceState h p s = Ok r.
Proof. intros. apply advanceLoop_total; [lia | unfold rank; destruct (sq_state s); cbn; lia | done | done]. Qed.

(** ** Runs of a sequence *)

(** The operations of a sequence as the active epoch invokes them. *)
Inductive seqOp :=
| OpAllocate (requestAcks : list RequestAck) (outstanding : gset bytes)
| OpAllocateAsOwner (clientRequests : list loc)
| OpHash (digest : slice)
| OpSatisfy (fr : RequestAck)
| OpPrepare (source : Z) (digest : slice)
| OpOwnPreprepare
| OpCommit (source : Z) (digest : slice).

Definition runSeqOp (h : reqHeap) (p : persisted) (s : sequence) (op : seqOp)
    : outcome (persisted * sequence * ActionList) :=
  match op with
  | OpAllocate acks outstanding => sequence_allocate h p s acks outstanding
  | OpAllocateAsOwner crs => sequence_allocateAsOwner h p s crs
  | OpHash digest => sequence_applyBatchHashResult h p s digest
  | OpSatisfy fr => sequence_satisfyOutstanding h p s fr
  | OpPrepare source digest => sequence_applyPrepareMsg h p s source digest
  | OpOwnPreprepare => sequence_applyPrepareMsg h p s (sq_owner s) (sq_digest s)
  | OpCommit source digest => sequence_applyCommitMsg h p s source digest
  end.

(** When the active epoch invokes them: a hash result answers the one hash
    request of a non-empty batch, a prepare is accepted from a non-owner only,
    and a preprepare of this node's own sequence is its loopback. *)
Definition admissible (s : sequence) (op : seqOp) : Prop :=
  match op with
  | OpHash digest => sq_batch s <> [] /\ notNil (sq_digest s) = false /\ notNil digest = true
  | OpPrepare source _ => source <> sq_owner s
  | OpOwnPreprepare => sq_owner s = ip_Id (sq_myConfig s)
  | _ => True
  end.

(** The runs from [s0]: the operations, the state and all actions so far.  The
    heap and the log may change in any way between two operations. *)
Inductive seqRun (s0 : sequence) : list seqOp -> sequence -> ActionList -> Prop :=
| run_start : seqRun s0 [] s0 []
| run_step ops s acts h p op p' s' more :
    seqRun s0 ops s acts -> admissible s op -> runSeqOp h p s op = Ok (p', s', more) ->
    seqRun s0 (ops ++ [op]) s' (acts ++ more).

(** The non-owners that sent a prepare, a commit for a digest. *)
Definition preparers (owner : Z) (d : bytes) (ops : list seqOp) : gset Z :=
  list_to_set (omap (fun op => match op with
    | OpPrepare source digest => if decide (source <> owner /\ str digest = d) then Some source else None
    | _ => None end) ops).
Definition committers (owner : Z) (d : bytes) (ops : list seqOp) : gset Z :=
  list_to_set (omap (fun op => match op with
    | OpCommit source digest => if decide (source <> owner /\ str digest = d) then Some source else None
    | _ => None end) ops).

(** The operations that count as a vote of the owner. *)
Definition isOwnerVote (op : seqOp) : bool :=
  match op with
  | OpHash _ | OpOwnPreprepare | OpAllocate [] _ | OpAllocateAsOwner [] => true
  | _ => false
  end.
Definition ownerVotes (ops : list seqOp) : Z := Z.of_nat (length (filter (fun op => isOwnerVote op = true) ops)).

Definition votes (m : gmap bytes Z) (d : bytes) : Z := default 0 (m !! d).
Definition hasPrepared (c : nodeSeqChoice) : Z :=
  match nsc_state c with nodeSeqPrepared => 1 | _ => 0 end.

(** The votes recorded in [s] are those of the run [ops]. *)
Record voteInv (owner me : Z) (nc : NetworkState_Config) (ops : list seqOp) (s : sequence) : Prop := {
  vi_owner : sq_owner s = owner;
  vi_me : ip_Id (sq_myConfig s) = me;
  vi_nc : sq_networkConfig s = nc;
  vi_prepares : forall d, votes (sq_prepares s) d <= Z.of_nat (size (preparers owner d ops)) + ownerVotes ops;
  vi_preparers : forall d n, n ∈ preparers owner d ops -> nsc_state (choiceOf s n) <> nodeSeqUninitialized;
  vi_commits : forall d, votes (sq_commits s) d
      <= Z.of_nat (size (committers owner d ops)) + ownerVotes ops + hasPrepared (choiceOf s owner);
  vi_committers : forall d n, n ∈ committers owner d ops -> nsc_state (choiceOf s n) = nodeSeqPrepared;
  vi_ownerVotes : owner <> me -> ownerVotes ops <= 1
      /\ (rank s = 0%nat \/ (sq_batch s <> [] /\ notNil (sq_digest s) = false) -> ownerVotes ops = 0);
  vi_fresh : rank s = 0%nat -> sq_batch s = [];
}.

(** What being in a state means. *)
Record stateInv (s : sequence) : Prop := {
  si_digest : (4 <= rank s)%nat -> notNil (sq_digest s) = true \/ sq_batch s = [];
  si_prepared : (5 <= rank s)%nat -> quorumOf (sq_prepares s) s;
  si_committed : (6 <= rank s)%nat -> quorumOf (sq_commits s) s;
}.

(** ** Lemmas: runs *)

Lemma stateInv_advanced (s s' : sequence) (acts : ActionList) :
  stateInv s -> advanced s s' acts -> stateInv s'.
Proof.
  intros [] []. pose proof ad_same0 as [].
  split; intros Hr; rewrite ?sv_digest0, ?sv_batch0, ?sv_prepares0, ?sv_commits0, ?(quorumOf_same _ _ _ ad_same0).
  - destruct (decide (4 <= rank s)%nat); [by apply si_digest0 | apply ad_preprepared0; lia].
  - destruct (decide (5 <= rank s)%nat); [by apply si_prepared0 | apply ad_prepared0; lia].
  - destruct (decide (6 <= rank s)%nat); [by apply si_committed0 | apply ad_committed0; lia].
Qed.

Lemma voteInv_same (owner me : Z) (nc : NetworkState_Config) (ops : list seqOp) (s s' : sequence) :
  voteInv owner me nc ops s -> sameVotes s s' -> (rank s <= rank s')%nat -> voteInv owner me nc ops s'.
Proof.
  intros [] [] Hr. split; rewrite ?sv_owner0, ?sv_myConfig0, ?sv_networkConfig0, ?sv_prepares0, ?sv_commits0,
    ?sv_batch0, ?sv_digest0; try done.
  - intros d n Hn. rewrite sv_choices0. eauto.
  - intros d. by rewrite sv_choices0.
  - intros d n Hn. rewrite sv_choices0. eauto.
  - intros Hne. destruct (vi_ownerVotes0 Hne) as [H1 H2]. split; [done |]. intros [H0 | H0]; apply H2; [left; lia | by right].
  - intros H0. apply vi_fresh0. lia.
Qed.

Lemma ownerVotes_snoc (ops : list seqOp) (op : seqOp) :
  ownerVotes (ops ++ [op]) = ownerVotes ops + (if isOwnerVote op then 1 else 0).
Proof.
  unfold ownerVotes. rewrite filter_app, length_app, filter_cons, filter_nil.
  destruct (isOwnerVote op); case_decide; cbn; simplify_eq; lia.
Qed.

Lemma preparers_snoc (owner : Z) (d : bytes) (ops : list seqOp) (op : seqOp) :
  preparers owner d (ops ++ [op]) = preparers owner d ops ∪
    match op with OpPrepare source digest => if decide (source <> owner /\ str digest = d) then {[source]} else ∅
    | _ => ∅ end.
Proof.
  unfold preparers. rewrite omap_app, list_to_set_app_L. f_equal.
  destruct op; cbn; try done. case_decide; cbn; [by rewrite union_empty_r_L | done].
Qed.

Lemma committers_snoc (owner : Z) (d : bytes) (ops : list seqOp) (op : seqOp) :
  committers owner d (ops ++ [op]) = committers owner d ops ∪
    match op with OpCommit source digest => if decide (source <> owner /\ str digest = d) then {[source]} else ∅
    | _ => ∅ end.
Proof.
  unfold committers. rewrite omap_app, list_to_set_app_L. f_equal.
  destruct op; cbn; try done. case_decide; cbn; [by rewrite union_empty_r_L | done].
Qed.

Lemma votes_insert (m : gmap bytes Z) (k d : bytes) :
  votes (<[k := default 0 (m !! k) + 1]> m) d = votes m d + (if decide (k = d) then 1 else 0).
Proof. unfold votes. rewrite lookup_insert. case_decide; subst; cbn; lia. Qed.

(** One counted prepare. *)
Record votedPrepare (s s1 : sequence) (source : Z) (digest : slice) : Prop := {
  vp_state : sq_state s1 = sq_state s;
  vp_static : sq_owner s1 = sq_owner s /\ sq_seqNo s1 = sq_seqNo s /\ sq_epoch s1 = sq_epoch s
    /\ sq_myConfig s1 = sq_myConfig s /\ sq_networkConfig s1 = sq_networkConfig s
    /\ sq_batch s1 = sq_batch s /\ sq_digest s1 = sq_digest s /\ sq_commits s1 = sq_commits s;
  vp_prepares : sq_prepares s1 = <[str digest := default 0 (sq_prepares s !! str digest) + 1]> (sq_prepares s);
  vp_choices : forall n, choiceOf s1 n = if decide (n = source) then mkChoice nodeSeqPreprepared digest else choiceOf s n;
}.

Lemma applyPrepareMsg_spec (h : reqHeap) (p p' : persisted) (s s' : sequence) (source : Z) (digest : slice) (acts : ActionList) :
  sequence_applyPrepareMsg h p s source digest = Ok (p', s', acts) ->
  (source <> sq_owner s /\ nsc_state (choiceOf s source) <> nodeSeqUninitialized
     /\ sameVotes s s' /\ rank s' = rank s /\ acts = [])
  \/ (exists s1, votedPrepare s s1 source digest /\ advanced s1 s' acts
      /\ (source = sq_owner s \/ nsc_state (choiceOf s source) = nodeSeqUninitialized)).
Proof.
  unfold sequence_applyPrepareMsg. destruct (sequence_nodeChoice s source) as [s1 c] eqn:Hc.
  apply nodeChoice_spec in Hc as (-> & Hs1 & Hst1 & _). pose proof Hs1 as [].
  case_match eqn:Hdup; intros H.
  - injection H as <- <- <-. left. apply andb_true_iff in Hdup as [Ho Hc]. rewrite sv_owner0 in Ho.
    split; [lia |]. split; [by intros Hu; rewrite Hu in Hc |]. split; [done |]. unfold rank. by rewrite Hst1.
  - right. apply advanceState_spec in H as [Had _]. eexists. split; [| split; [exact Had |]].
    + split; cbn; [done | auto 10 | by rewrite sv_prepares0 |].
      intros n. unfold choiceOf. cbn. rewrite lookup_insert. repeat case_decide; subst; try done. by apply sv_choices0.
    + apply andb_false_iff in Hdup as [Ho | Hc]; rewrite ?sv_owner0 in *; [left; lia | right].
      by destruct (nsc_state (choiceOf s source)).
Qed.

(** One counted commit. *)
Record votedCommit (s s1 : sequence) (source : Z) (digest : slice) : Prop := {
  vc_state : sq_state s1 = sq_state s;
  vc_static : sq_owner s1 = sq_owner s /\ sq_seqNo s1 = sq_seqNo s /\ sq_epoch s1 = sq_epoch s
    /\ sq_myConfig s1 = sq_myConfig s /\ sq_networkConfig s1 = sq_networkConfig s
    /\ sq_batch s1 = sq_batch s /\ sq_digest s1 = sq_digest s /\ sq_prepares s1 = sq_prepares s;
  vc_commits : sq_commits s1 = <[str digest := default 0 (sq_commits s !! str digest) + 1]> (sq_commits s);
  vc_choices : forall n, choiceOf s1 n =
    if decide (n = source) then mkChoice nodeSeqPrepared (nsc_digest (choiceOf s source)) else choiceOf s n;
}.

Lemma applyCommitMsg_spec (h : reqHeap) (p p' : persisted) (s s' : sequence) (source : Z) (digest : slice) (acts : ActionList) :
  sequence_applyCommitMsg h p s source digest = Ok (p', s', acts) ->
  (nsc_state (choiceOf s source) = nodeSeqPrepared /\ sameVotes s s' /\ rank s' = rank s /\ acts = [])
  \/ (exists s1, votedCommit s s1 source digest /\ advanced s1 s' acts
      /\ nsc_state (choiceOf s source) <> nodeSeqPrepared).
Proof.
  unfold sequence_applyCommitMsg. destruct (sequence_nodeChoice s source) as [s1 c] eqn:Hc.
  apply nodeChoice_spec in Hc as (-> & Hs1 & Hst1 & _). pose proof Hs1 as [].
  case_match eqn:Hdup; intros H.
  - injection H as <- <- <-. left. split; [by destruct (nsc_state (choiceOf s source)) |].
    split; [done |]. unfold rank. by rewrite Hst1.
  - right. apply advanceState_spec in H as [Had _]. eexists. split; [| split; [exact Had |]].
    + split; cbn; [done | auto 10 | by rewrite sv_commits0 |].
      intros n. unfold choiceOf at 1. cbn. rewrite lookup_insert. repeat case_decide; subst; try done. by apply sv_choices0.
    + by destruct (nsc_state (choiceOf s source)).
Qed.

Lemma preparers_nonowner (owner : Z) (d : bytes) (ops : list seqOp) (n : Z) : n ∈ preparers owner d ops -> n <> owner.
Proof.
  unfold preparers. rewrite elem_of_list_to_set, list_elem_of_omap. intros (op & _ & Hop).
  destruct op; try done. case_decide; [| done]. naive_solver.
Qed.

Lemma committers_nonowner (owner : Z) (d : bytes) (ops : list seqOp) (n : Z) : n ∈ committers owner d ops -> n <> owner.
Proof.
  unfold committers. rewrite elem_of_list_to_set, list_elem_of_omap. intros (op & _ & Hop).
  destruct op; try done. case_decide; [| done]. naive_solver.
Qed.

Lemma size_add_le (A : gset Z) (x : Z) : (size A <= size (A ∪ {[x]}))%nat.
Proof. apply subseteq_size. set_solver. Qed.

Lemma size_add_new (A : gset Z) (x : Z) : x ∉ A -> size (A ∪ {[x]}) = (size A + 1)%nat.
Proof. intros H. rewrite size_union by set_solver. by rewrite size_singleton. Qed.

Lemma hasPrepared_range (c : nodeSeqChoice) : 0 <= hasPrepared c <= 1.
Proof. unfold hasPrepared. case_match; lia. Qed.

Lemma stateInv_votedPrepare (s s1 : sequence) (source : Z) (digest : slice) :
  stateInv s -> votedPrepare s s1 source digest -> stateInv s1.
Proof.
  intros [] [Hst (_ & _ & _ & _ & Hnc & Hb & Hd & Hc) Hp _]. assert (Hrk : rank s1 = rank s) by (unfold rank; by rewrite Hst).
  unfold quorumOf in *. split; unfold quorumOf; rewrite ?Hrk, ?Hb, ?Hd, ?Hnc, ?Hc, ?Hp; try done.
  intros Hr. specialize (si_prepared0 Hr). fold (votes (sq_prepares s) (str (sq_digest s))) in si_prepared0.
  fold (votes (<[str digest := default 0 (sq_prepares s !! str digest) + 1]> (sq_prepares s)) (str (sq_digest s))).
  rewrite votes_insert. case_decide; lia.
Qed.

Lemma stateInv_votedCommit (s s1 : sequence) (source : Z) (digest : slice) :
  stateInv s -> votedCommit s s1 source digest -> stateInv s1.
Proof.
  intros [] [Hst (_ & _ & _ & _ & Hnc & Hb & Hd & Hp) Hc _]. assert (Hrk : rank s1 = rank s) by (unfold rank; by rewrite Hst).
  unfold quorumOf in *. split; unfold quorumOf; rewrite ?Hrk, ?Hb, ?Hd, ?Hnc, ?Hp, ?Hc; try done.
  intros Hr. specialize (si_committed0 Hr). fold (votes (sq_commits s) (str (sq_digest s))) in si_committed0.
  fold (votes (<[str digest := default 0 (sq_commits s !! str digest) + 1]> (sq_commits s)) (str (sq_digest s))).
  rewrite votes_insert. case_decide; lia.
Qed.

Section Votes.

Context (owner me : Z) (nc : NetworkState_Config).

(** An operation that adds no vote. *)
Lemma voteInv_skip (ops : list seqOp) (s : sequence) (op : seqOp) :
  voteInv owner me nc ops s -> isOwnerVote op = false ->
  (forall d, preparers owner d (ops ++ [op]) ⊆ preparers owner d ops) ->
  (forall d, committers owner d (ops ++ [op]) ⊆ committers owner d ops) ->
  voteInv owner me nc (ops ++ [op]) s.
Proof.
  intros [] Ho Hp Hc.
  assert (Hp' : forall d, preparers owner d (ops ++ [op]) = preparers owner d ops).
  { intros d. apply set_eq. intros n. split; [apply Hp |]. rewrite preparers_snoc. set_solver. }
  assert (Hc' : forall d, committers owner d (ops ++ [op]) = committers owner d ops).
  { intros d. apply set_eq. intros n. split; [apply Hc |]. rewrite committers_snoc. set_solver. }
  assert (Hv : ownerVotes (ops ++ [op]) = ownerVotes ops) by (rewrite ownerVotes_snoc, Ho; lia).
  split; rewrite ?Hv; try done; intros d; rewrite ?Hp', ?Hc'; eauto.
Qed.

(** A duplicate prepare or commit, which is not counted. *)
Lemma voteInv_dupPrepare (ops : list seqOp) (s : sequence) (source : Z) (digest : slice) :
  voteInv owner me nc ops s -> nsc_state (choiceOf s source) <> nodeSeqUninitialized ->
  voteInv owner me nc (ops ++ [OpPrepare source digest]) s.
Proof.
  intros [] Hdup. assert (Hv : ownerVotes (ops ++ [OpPrepare source digest]) = ownerVotes ops) by (rewrite ownerVotes_snoc; cbn; lia).
  split; rewrite ?Hv; try done; intros d; rewrite ?preparers_snoc, ?committers_snoc, ?union_empty_r_L; eauto.
  - specialize (vi_prepares0 d). case_decide; rewrite ?union_empty_r_L; [| done].
    pose proof (size_add_le (preparers owner d ops) source). lia.
  - intros n. case_decide; rewrite ?union_empty_r_L; [| by eauto]. intros [Hn | ->%elem_of_singleton]%elem_of_union; eauto.
Qed.

Lemma voteInv_dupCommit (ops : list seqOp) (s : sequence) (source : Z) (digest : slice) :
  voteInv owner me nc ops s -> nsc_state (choiceOf s source) = nodeSeqPrepared ->
  voteInv owner me nc (ops ++ [OpCommit source digest]) s.
Proof.
  intros [] Hdup. assert (Hv : ownerVotes (ops ++ [OpCommit source digest]) = ownerVotes ops) by (rewrite ownerVotes_snoc; cbn; lia).
  split; rewrite ?Hv; try done; intros d; rewrite ?preparers_snoc, ?committers_snoc, ?union_empty_r_L; eauto.
  - specialize (vi_commits0 d). case_decide; rewrite ?union_empty_r_L; [| done].
    pose proof (size_add_le (committers owner d ops) source). lia.
  - intros n. case_decide; rewrite ?union_empty_r_L; [| by eauto]. intros [Hn | ->%elem_of_singleton]%elem_of_union; eauto.
Qed.

(** A counted prepare of a non-owner. *)
Lemma voteInv_prepare (ops : list seqOp) (s s1 : sequence) (source : Z) (digest : slice) :
  voteInv owner me nc ops s -> votedPrepare s s1 source digest -> source <> owner ->
  nsc_state (choiceOf s source) = nodeSeqUninitialized ->
  voteInv owner me nc (ops ++ [OpPrepare source digest]) s1.
Proof.
  intros [] [Hst (Ho & _ & _ & Hm & Hn & Hb & Hd & Hc) Hp Hch] Hne Hu.
  assert (Hv : ownerVotes (ops ++ [OpPrepare source digest]) = ownerVotes ops) by (rewrite ownerVotes_snoc; cbn; lia).
  assert (Hrk : rank s1 = rank s) by (unfold rank; by rewrite Hst).
  split; rewrite ?Hv, ?Hrk, ?Ho, ?Hm, ?Hn, ?Hc, ?Hst, ?Hb, ?Hd; try done; intros d;
    rewrite ?preparers_snoc, ?committers_snoc, ?union_empty_r_L.
  - specialize (vi_prepares0 d). rewrite Hp, votes_insert. repeat case_decide; rewrite ?union_empty_r_L; try tauto; try lia.
    rewrite size_add_new; [lia |]. intros Hin. by apply vi_preparers0 in Hin.
  - intros n Hin. rewrite Hch. destruct (decide (n = source)) as [Hns | Hns]; [done |]. apply (vi_preparers0 d).
    case_decide; [apply elem_of_union in Hin as [? | ->%elem_of_singleton]; done | by rewrite union_empty_r_L in Hin].
  - rewrite Hch, decide_False by congruence. apply vi_commits0.
  - intros n Hin. rewrite Hch. destruct (decide (n = source)) as [Hns | Hns]; [| by eapply vi_committers0].
    subst n. apply vi_committers0 in Hin. congruence.
Qed.

(** A counted commit. *)
Lemma voteInv_commit (ops : list seqOp) (s s1 : sequence) (source : Z) (digest : slice) :
  voteInv owner me nc ops s -> votedCommit s s1 source digest ->
  nsc_state (choiceOf s source) <> nodeSeqPrepared ->
  voteInv owner me nc (ops ++ [OpCommit source digest]) s1.
Proof.
  intros [] [Hst (Ho & _ & _ & Hm & Hn & Hb & Hd & Hp) Hc Hch] Hu.
  assert (Hv : ownerVotes (ops ++ [OpCommit source digest]) = ownerVotes ops) by (rewrite ownerVotes_snoc; cbn; lia).
  assert (Hrk : rank s1 = rank s) by (unfold rank; by rewrite Hst).
  split; rewrite ?Hv, ?Hrk, ?Ho, ?Hm, ?Hn, ?Hp, ?Hst, ?Hb, ?Hd; try done; intros d;
    rewrite ?preparers_snoc, ?committers_snoc, ?union_empty_r_L; eauto.
  - intros n Hin. rewrite Hch. case_decide; [done | by eapply vi_preparers0].
  - specialize (vi_commits0 d). rewrite Hc, votes_insert, Hch.
    destruct (decide (owner = source)) as [<- | Hne].
    + rewrite (decide_False (P := owner <> owner /\ _)) by tauto. rewrite union_empty_r_L.
      assert (hasPrepared (choiceOf s owner) = 0) by (unfold hasPrepared; by destruct (nsc_state _)).
      cbn. case_decide; lia.
    + destruct (decide (str digest = d)) as [Hd' | Hd'].
      * rewrite (decide_True (P := source <> owner /\ _)) by (split; congruence).
        rewrite size_add_new; [lia |]. intros Hin. by apply vi_committers0 in Hin.
      * rewrite (decide_False (P := source <> owner /\ _)) by tauto. rewrite union_empty_r_L. lia.
  - intros n Hin. rewrite Hch. destruct (decide (n = source)) as [Hns | Hns]; [done |]. apply (vi_committers0 d).
    case_decide; [apply elem_of_union in Hin as [? | ->%elem_of_singleton]; done | by rewrite union_empty_r_L in Hin].
Qed.

(** A vote of the owner. *)
Lemma voteInv_ownerVote (ops : list seqOp) (s s1 : sequence) (op : seqOp) (digest : slice) :
  voteInv owner me nc ops s -> votedPrepare s s1 owner digest -> isOwnerVote op = true ->
  (owner <> me -> rank s <> 0%nat /\ ownerVotes ops = 0 /\ (sq_batch s = [] \/ notNil (sq_digest s) = true)) ->
  voteInv owner me nc (ops ++ [op]) s1.
Proof.
  intros [] [Hst (Ho & _ & _ & Hm & Hn & Hb & Hd & Hc) Hp Hch] Hov Hside.
  assert (Hpr : forall d, preparers owner d (ops ++ [op]) = preparers owner d ops).
  { intros d. rewrite preparers_snoc. destruct op; cbn in Hov; rewrite ?union_empty_r_L; done. }
  assert (Hcm : forall d, committers owner d (ops ++ [op]) = committers owner d ops).
  { intros d. rewrite committers_snoc. destruct op; cbn in Hov; rewrite ?union_empty_r_L; done. }
  assert (Hv : ownerVotes (ops ++ [op]) = ownerVotes ops + 1) by (by rewrite ownerVotes_snoc, Hov).
  assert (Hrk : rank s1 = rank s) by (unfold rank; by rewrite Hst).
  split; rewrite ?Hv, ?Hrk, ?Ho, ?Hm, ?Hn, ?Hc, ?Hst, ?Hb, ?Hd; try done; intros d; rewrite ?Hpr, ?Hcm.
  - specialize (vi_prepares0 d). rewrite Hp, votes_insert. case_decide; lia.
  - intros n Hin. rewrite Hch. case_decide; [done | by eapply vi_preparers0].
  - rewrite Hch, decide_True by done. specialize (vi_commits0 d). pose proof (hasPrepared_range (choiceOf s owner)). cbn. lia.
  - intros n Hin. rewrite Hch, decide_False by (by eapply committers_nonowner). by eapply vi_committers0.
  - destruct (Hside d) as (Hr & Hz & Hbd). split; [lia |]. intros [? | [? ?]]; [done |]. destruct Hbd; congruence.
Qed.

End Votes.

Lemma sameVotes_sym (s s' : sequence) : sameVotes s s' -> sameVotes s' s.
Proof. intros []. split; congruence. Qed.

(** Re-allocating: the votes are kept and the batch, digest and state set. *)
Lemma voteInv_update (owner me : Z) (nc : NetworkState_Config) (ops : list seqOp) (s s1 : sequence) :
  voteInv owner me nc ops s ->
  sq_owner s1 = sq_owner s -> sq_myConfig s1 = sq_myConfig s -> sq_networkConfig s1 = sq_networkConfig s ->
  sq_prepares s1 = sq_prepares s -> sq_commits s1 = sq_commits s -> sq_nodeChoices s1 = sq_nodeChoices s ->
  rank s1 <> 0%nat ->
  (owner <> me -> sq_batch s1 <> [] -> notNil (sq_digest s1) = false -> ownerVotes ops = 0) ->
  voteInv owner me nc ops s1.
Proof.
  intros [] Ho Hm Hn Hp Hc Hch Hr Hov.
  assert (Hchoice : forall n, choiceOf s1 n = choiceOf s n) by (intros n; unfold choiceOf; by rewrite Hch).
  split; rewrite ?Ho, ?Hm, ?Hn, ?Hp, ?Hc; try done.
  - intros d n Hin. rewrite Hchoice. eauto.
  - intros d. by rewrite Hchoice.
  - intros d n Hin. rewrite Hchoice. eauto.
  - intros Hne. destruct (vi_ownerVotes0 Hne) as [H1 _]. split; [done |]. intros [? | [? ?]]; [done | auto].
Qed.

Lemma allocAcks_length (h : reqHeap) (crs : list loc) (acks0 acks : list RequestAck) :
  forRange (fun l acks => cr ← loadRequest h l; Ok (acks ++ [cr_ack cr])) crs acks0 = Ok acks ->
  length acks = (length acks0 + length crs)%nat.
Proof.
  revert acks0. induction crs as [|l crs IH]; intros acks0 H; cbn in H; runs; cbn; [lia |].
  apply IH in H0. rewrite H0, length_app. cbn. lia.
Qed.

(** [allocate] of an empty batch is a vote of the owner for it, [allocate] of
    another one asks for its hash. *)
Lemma allocate_spec (h : reqHeap) (p p' : persisted) (s s' : sequence) (acks : list RequestAck)
    (outstanding : gset bytes) (acts : ActionList) :
  sequence_allocate h p s acks outstanding = Ok (p', s', acts) ->
  sq_state s = sequenceUninitialized /\
  exists sa, sq_owner sa = sq_owner s /\ sq_myConfig sa = sq_myConfig s /\ sq_networkConfig sa = sq_networkConfig s
    /\ sq_prepares sa = sq_prepares s /\ sq_commits sa = sq_commits s /\ sq_nodeChoices sa = sq_nodeChoices s
    /\ sq_batch sa = acks
    /\ match acks with
       | [] => sq_state sa = sequenceReady /\ sq_digest sa = None /\
           exists s1, votedPrepare sa s1 (sq_owner s) None /\ advanced s1 s' acts
       | _ :: _ => sq_state sa = sequencePendingRequests /\ sq_digest sa = sq_digest s /\
           exists data origin more, acts = Action_Hash data origin :: more /\ advanced sa s' more
       end.
Proof.
  unfold sequence_allocate. intros H. apply bind_Ok in H as ([] & Hu & H).
  apply assertTrue_Ok, bool_decide_eq_true in Hu. split; [done |].
  destruct acks as [|a0 acks]; cbn [length Nat.eqb] in H.
  - set (sr := update_field (field := sq_state) _ _) in H.
    unfold sequence_applyBatchHashResult in H. set (sa := update_field (field := sq_digest) _ _) in H.
    apply applyPrepareMsg_spec in H as [[Hne _] | (s1 & Hv & Had & _)]; [done |].
    exists sa. do 7 (split; [done |]). split; [done |]. split; [done |]. by exists s1.
  - apply bind_Ok in H as ([[p1 s1] more] & Had & H). injection H as <- <- <-.
    apply advanceState_spec in Had as [Had _]. eexists. split; [| split; [| split; [| split; [| split;
      [| split; [| split; [| split; [| split; [| do 3 eexists; split; [reflexivity | exact Had]]]]]]]]]]; reflexivity.
Qed.

Section Run.

Context (owner epoch seqNo : Z) (nc : NetworkState_Config) (my : EventInitialParameters).
Notation Inv := (voteInv owner (ip_Id my) nc).

Lemma inv_new : Inv [] (newSequence owner epoch seqNo nc my) /\ stateInv (newSequence owner epoch seqNo nc my).
Proof.
  split; split; cbn; try done; try lia; intros d;
    unfold preparers, committers, votes; cbn; rewrite ?lookup_empty, ?size_empty; cbn; try lia; set_solver.
Qed.

Lemma inv_advanced (ops : list seqOp) (s1 s' : sequence) (acts : ActionList) :
  Inv ops s1 -> stateInv s1 -> advanced s1 s' acts -> Inv ops s' /\ stateInv s'.
Proof.
  intros Hv Hs Had. split; [| by eapply stateInv_advanced].
  eapply voteInv_same; [exact Hv | apply Had | apply Had].
Qed.

Lemma inv_allocate (h : reqHeap) (p p' : persisted) (ops : list seqOp) (s s' : sequence) (op : seqOp)
    (acks : list RequestAck) (outstanding : gset bytes) (acts : ActionList) :
  Inv ops s -> stateInv s ->
  (isOwnerVote op = match acks with [] => true | _ => false end) ->
  (forall d, preparers owner d (ops ++ [op]) ⊆ preparers owner d ops) ->
  (forall d, committers owner d (ops ++ [op]) ⊆ committers owner d ops) ->
  sequence_allocate h p s acks outstanding = Ok (p', s', acts) ->
  Inv (ops ++ [op]) s' /\ stateInv s'.
Proof.
  intros Hv Hs Hop Hp Hc H.
  apply allocate_spec in H as (Hu & sa & Ho & Hm & Hn & Hpr & Hcm & Hch & Hb & Hrest).
  assert (Hr0 : rank s = 0%nat) by (unfold rank; by rewrite Hu).
  destruct acks as [|a0 acks].
  - destruct Hrest as (Hst & Hd & s1 & Hvp & Had). rewrite (vi_owner _ _ _ _ _ Hv) in Hvp.
    assert (Hra : rank sa = 3%nat) by (unfold rank; by rewrite Hst).
    assert (Hva : Inv ops sa).
    { apply (voteInv_update _ _ _ _ s); try done. by rewrite Hra. }
    eapply inv_advanced; [| | exact Had].
    + eapply voteInv_ownerVote; [exact Hva | exact Hvp | done |].
      intros Hne. split; [rewrite Hra; done |]. split; [apply (vi_ownerVotes _ _ _ _ _ Hv Hne); auto | by left].
    + eapply stateInv_votedPrepare; [| exact Hvp]. split; rewrite Hra; lia.
  - destruct Hrest as (Hst & Hd & data & origin & more & -> & Had).
    assert (Hra : rank sa = 2%nat) by (unfold rank; by rewrite Hst).
    eapply inv_advanced; [| split; rewrite Hra; lia | exact Had].
    apply voteInv_skip; [| done | done | done].
    apply (voteInv_update _ _ _ _ s); try done; [by rewrite Hra |].
    intros Hne _ _. apply (vi_ownerVotes _ _ _ _ _ Hv Hne). auto.
Qed.

Lemma inv_step (h : reqHeap) (p p' : persisted) (ops : list seqOp) (s s' : sequence) (op : seqOp) (acts : ActionList) :
  Inv ops s -> stateInv s -> admissible s op -> runSeqOp h p s op = Ok (p', s', acts) ->
  Inv (ops ++ [op]) s' /\ stateInv s'.
Proof.
  intros Hv Hs Hadm H. pose proof (vi_owner _ _ _ _ _ Hv) as Hown.
  destruct op as [acks outst | crs | digest | fr | source digest | | source digest]; cbn in H, Hadm.
  - refine (inv_allocate _ _ _ _ _ _ _ _ _ _ Hv Hs _ _ _ H); [by destruct acks | |];
      intros d; rewrite ?preparers_snoc, ?committers_snoc; set_solver.
  - unfold sequence_allocateAsOwner in H. apply bind_Ok in H as (acks & Ha & H). apply allocAcks_length in Ha.
    refine (inv_allocate _ _ _ _ _ _ _ _ _ _ _ _ _ _ _ H).
    + by destruct Hv; split.
    + by destruct Hs; split.
    + by destruct acks, crs.
    + intros d. rewrite preparers_snoc. set_solver.
    + intros d. rewrite committers_snoc. set_solver.
  - destruct Hadm as (Hb & Hd & Hdg). unfold sequence_applyBatchHashResult in H.
    set (sa := s <| sq_digest := digest |>) in *.
    assert (Hr : (0 < rank s < 4)%nat).
    { destruct (decide (rank s = 0%nat)) as [H0 | H0]; [by apply (vi_fresh _ _ _ _ _ Hv) in H0 |].
      destruct (decide (4 <= rank s)%nat) as [H4 |]; [| lia].
      apply (si_digest _ Hs) in H4. destruct H4; congruence. }
    assert (Hra : rank sa = rank s) by done.
    apply applyPrepareMsg_spec in H as [[Hne _] | (s1 & Hvp & Had & _)]; [done |].
    assert (Hva : Inv ops sa).
    { eapply voteInv_update; [exact Hv | done .. | lia |]. intros _ _ Hnil. unfold sa in Hnil. cbn in Hnil. congruence. }
    rewrite (vi_owner _ _ _ _ _ Hva) in Hvp.
    eapply inv_advanced; [| | exact Had].
    + eapply voteInv_ownerVote; [exact Hva | exact Hvp | done |].
      intros Hne. split; [lia |]. split; [| by right]. apply (vi_ownerVotes _ _ _ _ _ Hv Hne). auto.
    + eapply stateInv_votedPrepare; [| exact Hvp]. split; lia.
  - unfold sequence_satisfyOutstanding in H. apply bind_Ok in H as ([] & _ & H).
    apply advanceState_spec in H as [Had _]. eapply inv_advanced; [| | exact Had].
    + apply voteInv_skip; [| done | |]; [by destruct Hv; split | |];
        intros d; rewrite ?preparers_snoc, ?committers_snoc; set_solver.
    + by destruct Hs; split.
  - apply applyPrepareMsg_spec in H as [(_ & Hdup & Hsame & Hr & ->) | (s1 & Hvp & Had & Hc)].
    + split; [| eapply stateInv_advanced; [exact Hs |]].
      * apply voteInv_same with s; [by apply voteInv_dupPrepare | done | lia].
      * apply advanced_refl; [done |]. unfold rank in Hr. by destruct (sq_state s), (sq_state s').
    + eapply inv_advanced; [| by eapply stateInv_votedPrepare | exact Had].
      eapply voteInv_prepare; [done | done | congruence |]. by destruct Hc.
  - apply applyPrepareMsg_spec in H as [[Hne _] | (s1 & Hvp & Had & _)]; [done |]. rewrite Hown in Hvp.
    assert (Hme : owner = ip_Id my).
    { rewrite <- Hown, Hadm. apply (vi_me _ _ _ _ _ Hv). }
    eapply inv_advanced; [| by eapply stateInv_votedPrepare | exact Had].
    eapply voteInv_ownerVote; [exact Hv | exact Hvp | done | done].
  - apply applyCommitMsg_spec in H as [(Hdup & Hsame & Hr & ->) | (s1 & Hvc & Had & Hc)].
    + split; [| eapply stateInv_advanced; [exact Hs |]].
      * apply voteInv_same with s; [by apply voteInv_dupCommit | done | lia].
      * apply advanced_refl; [done |]. unfold rank in Hr. by destruct (sq_state s), (sq_state s').
    + eapply inv_advanced; [| by eapply stateInv_votedCommit | exact Had].
      by eapply voteInv_commit.
Qed.

Lemma seqRun_inv (ops : list seqOp) (s : sequence) (acts : ActionList) :
  seqRun (newSequence owner epoch seqNo nc my) ops s acts -> Inv ops s /\ stateInv s.
Proof.
  intros H. induction H as [|ops s acts h p op p' s' more _ [Hv Hs] Hadm Hrun]; [apply inv_new |].
  by eapply inv_step.
Qed.

End Run.

(** Every action an operation returns comes from advancing the state, but for
    the hash request of an allocation. *)
Lemma runSeqOp_sends (h : reqHeap) (p p' : persisted) (s s' : sequence) (op : seqOp) (acts : ActionList) :
  runSeqOp h p s op = Ok (p', s', acts) ->
  forall targets m, Action_Send targets m ∈ acts -> backed s' acts m.
Proof.
  assert (Hadv : forall s1 a, advanced s1 s' a -> (forall e, appends e a -> appends e acts) ->
    forall targets m, Action_Send targets m ∈ a -> backed s' acts m).
  { intros s1 a Had Ha t m Hm. eapply backed_same; [apply sameVotes_sym, Had | exact Ha |]. by eapply Had. }
  assert (Hnil : acts = [] -> forall targets m, Action_Send targets m ∈ acts -> backed s' acts m).
  { intros -> t m []%elem_of_nil. }
  assert (Hal : forall s0 acks o, sequence_allocate h p s0 acks o = Ok (p', s', acts) ->
    forall targets m, Action_Send targets m ∈ acts -> backed s' acts m).
  { intros s0 acks o H t m Hm. apply allocate_spec in H as (_ & sa & _ & _ & _ & _ & _ & _ & _ & Hrest).
    destruct acks as [|a0 acks].
    - destruct Hrest as (_ & _ & s1 & _ & Had). by eapply (Hadv s1).
    - destruct Hrest as (_ & _ & data & origin & more & -> & Had).
      apply elem_of_cons in Hm as [Hm | Hm]; [done |]. eapply (Hadv sa); [exact Had | | exact Hm].
      intros e [i Hi]. exists i. by right. }
  destruct op; cbn; intros H.
  - by eapply Hal.
  - apply bind_Ok in H as (acks & _ & H). by eapply Hal.
  - apply applyPrepareMsg_spec in H as [(_ & _ & _ & _ & ->) | (s1 & _ & Had & _)]; [by apply Hnil | by eapply Hadv].
  - apply bind_Ok in H as ([] & _ & H). apply advanceState_spec in H as [Had _]. by eapply Hadv.
  - apply applyPrepareMsg_spec in H as [(_ & _ & _ & _ & ->) | (s1 & _ & Had & _)]; [by apply Hnil | by eapply Hadv].
  - apply applyPrepareMsg_spec in H as [(_ & _ & _ & _ & ->) | (s1 & _ & Had & _)]; [by apply Hnil | by eapply Hadv].
  - apply applyCommitMsg_spec in H as [(_ & _ & _ & ->) | (s1 & _ & Had & _)]; [by apply Hnil | by eapply Hadv].
Qed.

(** ** Properties *)

(** C8: a sequence another node owns becomes prepared only with a quorum of
    distinct nodes.  In every run of the sequence's operations, once the state
    is prepared (or committed), the owner together with the distinct nodes
    whose prepares for the batch's digest were received is an intersection
    quorum. *)
Theorem prepared_by_distinct_quorum (owner epoch seqNo : Z) (nc : NetworkState_Config)
    (my : EventInitialParameters) (ops : list seqOp) (s : sequence) (acts : ActionList) :
  seqRun (newSequence owner epoch seqNo nc my) ops s acts ->
  owner <> ip_Id my ->
  (sequenceState_iota sequencePrepared <= sequenceState_iota (sq_state s))%nat ->
  intersectionQuorum nc <= Z.of_nat (size ({[owner]} ∪ preparers owner (str (sq_digest s)) ops)).
Proof.
  intros Hrun Hne Hr. apply seqRun_inv in Hrun as [Hv Hs]. pose proof (si_prepared _ Hs Hr) as Hq.
  unfold quorumOf in Hq. rewrite (vi_nc _ _ _ _ _ Hv) in Hq.
  pose proof (vi_prepares _ _ _ _ _ Hv (str (sq_digest s))) as Hp. unfold votes in Hp.
  destruct (vi_ownerVotes _ _ _ _ _ Hv Hne) as [Hov _].
  rewrite (union_comm_L {[owner]}), size_add_new; [lia |]. by intros ?%preparers_nonowner.
Qed.

(** C9: a sequence another node owns becomes committed only with commits of
    distinct nodes other than the owner that fall short of an intersection
    quorum by at most two: every other node is counted once, whatever it
    sends, and the owner at most twice. *)
Theorem committed_by_distinct_nodes (owner epoch seqNo : Z) (nc : NetworkState_Config)
    (my : EventInitialParameters) (ops : list seqOp) (s : sequence) (acts : ActionList) :
  seqRun (newSequence owner epoch seqNo nc my) ops s acts ->
  owner <> ip_Id my -> sq_state s = sequenceCommitted ->
  intersectionQuorum nc <= Z.of_nat (size (committers owner (str (sq_digest s)) ops)) + 2.
Proof.
  intros Hrun Hne Hst. apply seqRun_inv in Hrun as [Hv Hs].
  assert (Hr : (6 <= rank s)%nat) by (unfold rank; rewrite Hst; cbn; lia).
  pose proof (si_committed _ Hs Hr) as Hq. unfold quorumOf in Hq. rewrite (vi_nc _ _ _ _ _ Hv) in Hq.
  pose proof (vi_commits _ _ _ _ _ Hv (str (sq_digest s))) as Hc. unfold votes in Hc.
  destruct (vi_ownerVotes _ _ _ _ _ Hv Hne) as [Hov _].
  pose proof (hasPrepared_range (choiceOf s owner)). lia.
Qed.

(** C12: the messages of the three-phase commit are backed by the log.
    Whatever operation runs, in whatever state, each preprepare or prepare it
    sends comes with an append of the Q entry of the batch to the write-ahead
    log in the same actions, and each commit with an append of the P entry;
    nothing else is sent. *)
Theorem votes_backed_by_log (h : reqHeap) (p p' : persisted) (s s' : sequence) (op : seqOp) (acts : ActionList) :
  runSeqOp h p s op = Ok (p', s', acts) ->
  forall targets m, Action_Send targets m ∈ acts -> backed s' acts m.
Proof. apply runSeqOp_sends. Qed.

(** C25: handling a prepare or a commit message always returns: with a
    non-empty log and the sequence's client requests allocated, neither
    panics nor loops, whatever the source and the digest, and the state of
    the sequence never goes back. *)
Theorem vote_messages_total (h : reqHeap) (p : persisted) (s : sequence) (source : Z) (digest : slice) :
  pst_log p <> [] -> reqsLive h s ->
  (exists p' s' acts, sequence_applyPrepareMsg h p s source digest = Ok (p', s', acts) /\ (rank s <= rank s')%nat)
  /\ (exists p' s' acts, sequence_applyCommitMsg h p s source digest = Ok (p', s', acts) /\ (rank s <= rank s')%nat).
Proof.
  intros Hne Hl.
  assert (Hadv : forall s1, sq_clientRequests s1 = sq_clientRequests s -> rank s1 = rank s ->
    exists p' s' acts, sequence_advanceState h p s1 = Ok (p', s', acts) /\ (rank s <= rank s')%nat).
  { intros s1 Hc Hr. destruct (advanceState_total h p s1 Hne) as [[[p' s'] acts] H]; [by unfold reqsLive; rewrite Hc |].
    exists p', s', acts. split; [done |]. apply advanceState_spec in H as [Had _]. pose proof (ad_mono _ _ _ Had). lia. }
  unfold sequence_applyPrepareMsg, sequence_applyCommitMsg.
  destruct (sequence_nodeChoice s source) as [s1 c] eqn:Hc. apply nodeChoice_spec in Hc as (-> & Hs1 & Hst & _).
  pose proof (sv_clientRequests _ _ Hs1) as Hcr.
  assert (Hr1 : rank s1 = rank s) by (unfold rank; by rewrite Hst).
  split; case_match; try (do 3 eexists; split; [done | lia]); by apply Hadv.
Qed.

(** Executes a list of operations, each with the same heap. *)
Fixpoint execSeq (h : reqHeap) (p : persisted) (s : sequence) (ops : list seqOp) : outcome (persisted * sequence * ActionList) :=
  match ops with
  | [] => Ok (p, s, [])
  | op :: ops' =>
    '(p1, s1, a1) ← runSeqOp h p s op;
    '(p2, s2, a2) ← execSeq h p1 s1 ops';
    Ok (p2, s2, a1 ++ a2)
  end.

(** All operations of an execution are admissible where they run. *)
Fixpoint admissibleAll (h : reqHeap) (p : persisted) (s : sequence) (ops : list seqOp) : Prop :=
  match ops with
  | [] => True
  | op :: ops' => admissible s op /\
    match runSeqOp h p s op with
    | Ok (p1, s1, _) => admissibleAll h p1 s1 ops'
    | _ => False
    end
  end.

Lemma execSeq_run (h : reqHeap) (s0 : sequence) (ops2 : list seqOp) :
  forall (p p' : persisted) (s s' : sequence) (ops1 : list seqOp) (a1 a2 : ActionList),
  seqRun s0 ops1 s a1 -> admissibleAll h p s ops2 -> execSeq h p s ops2 = Ok (p', s', a2) ->
  seqRun s0 (ops1 ++ ops2) s' (a1 ++ a2).
Proof.
  induction ops2 as [|op ops2 IH]; intros p p' s s' ops1 a1 a2 Hrun Hadm H; cbn in H.
  { injection H as <- <- <-. by rewrite !app_nil_r. }
  destruct Hadm as [Hop Hadm].
  apply bind_Ok in H as ([[p1 s1] b1] & H1 & H). rewrite H1 in Hadm.
  apply bind_Ok in H as ([[p2 s2] b2] & H2 & H). injection H as <- <- <-.
  rewrite (cons_middle op), (app_assoc _ [op]), (app_assoc a1). eapply IH; [| exact Hadm | exact H2].
  by eapply run_step.
Qed.

(** Node 1's view of a sequence of node 0 in a network of four. *)
Definition sampleConfig : NetworkState_Config := mkConfig [0; 1; 2; 3] 5 100 4 1.
Definition sampleSequence : sequence := newSequence 0 2 1 sampleConfig (mkInitialParameters 1 1 1 1 1 1).
Definition sampleAck : RequestAck := mkAck 7 0 (Some [3]).
Definition sampleOps : list seqOp :=
  [ OpAllocate [sampleAck] ∅; OpHash (Some [9]); OpPrepare 1 (Some [9]); OpPrepare 2 (Some [9]);
    OpCommit 0 (Some [9]); OpCommit 1 (Some [9]); OpCommit 2 (Some [9]) ].

Definition endOf (r : outcome (persisted * sequence * ActionList)) : sequence :=
  match r with Ok (_, s, _) => s | _ => sampleSequence end.
Definition actsOf (r : outcome (persisted * sequence * ActionList)) : ActionList :=
  match r with Ok (_, _, a) => a | _ => [] end.
Definition sampleEnd (ops : list seqOp) : outcome (persisted * sequence * ActionList) :=
  execSeq emptyHeap sampleLog sampleSequence ops.

Lemma sampleEnd_run (ops : list seqOp) :
  admissibleAll emptyHeap sampleLog sampleSequence ops ->
  (exists r, sampleEnd ops = Ok r) ->
  seqRun sampleSequence ops (endOf (sampleEnd ops)) (actsOf (sampleEnd ops)).
Proof.
  intros Hadm [[[p s] a] H]. rewrite H. cbn.
  apply (execSeq_run _ _ _ _ _ _ _ [] [] _ (run_start _) Hadm H).
Qed.

Lemma prepared_by_distinct_quorum_witness :
  sq_state (endOf (sampleEnd (take 4 sampleOps))) = sequencePrepared
  /\ 3 <= Z.of_nat (size ({[0]} ∪ preparers 0 [9] (take 4 sampleOps))).
Proof.
  split; [vm_compute; reflexivity |].
  apply (prepared_by_distinct_quorum 0 2 1 sampleConfig (mkInitialParameters 1 1 1 1 1 1) (take 4 sampleOps)
    (endOf (sampleEnd (take 4 sampleOps))) (actsOf (sampleEnd (take 4 sampleOps)))).
  - apply sampleEnd_run; [vm_compute; repeat split; discriminate | vm_compute; eexists; reflexivity].
  - discriminate.
  - vm_compute. repeat constructor.
Defined.

Lemma committed_by_distinct_nodes_witness :
  sq_state (endOf (sampleEnd sampleOps)) = sequenceCommitted
  /\ 3 <= Z.of_nat (size (committers 0 [9] sampleOps)) + 2.
Proof.
  split; [vm_compute; reflexivity |].
  apply (committed_by_distinct_nodes 0 2 1 sampleConfig (mkInitialParameters 1 1 1 1 1 1) sampleOps
    (endOf (sampleEnd sampleOps)) (actsOf (sampleEnd sampleOps))).
  - apply sampleEnd_run; [vm_compute; repeat split; discriminate | vm_compute; eexists; reflexivity].
  - discriminate.
  - vm_compute. reflexivity.
Defined.

Lemma votes_backed_by_log_witness :
  exists p' s' acts, runSeqOp emptyHeap sampleLog (endOf (sampleEnd (take 3 sampleOps))) (OpPrepare 2 (Some [9])) = Ok (p', s', acts)
    /\ backed s' acts (Msg_Commit (mkCommit 1 2 (Some [9]))).
Proof.
  destruct (runSeqOp emptyHeap sampleLog (endOf (sampleEnd (take 3 sampleOps))) (OpPrepare 2 (Some [9])))
    as [[[p' s'] acts] | |] eqn:H; [| vm_compute in H; discriminate ..].
  exists p', s', acts. split; [reflexivity |].
  apply (votes_backed_by_log _ _ _ _ _ _ _ H [0; 1; 2; 3]).
  vm_compute in H. injection H as <- <- <-. right. left.
Defined.

Lemma vote_messages_total_witness :
  exists p' s' acts, sequence_applyPrepareMsg emptyHeap sampleLog sampleSequence 2 (Some [9]) = Ok (p', s', acts)
    /\ (rank sampleSequence <= rank s')%nat.
Proof. apply vote_messages_total; [discriminate | constructor]. Defined.

(** The nodes that sent any commit at all. *)
Definition commitSenders (ops : list seqOp) : gset Z :=
  list_to_set (omap (fun op => match op with OpCommit source _ => Some source | _ => None end) ops).

(** The owner's commit can be counted twice.  A commit that the owner sends
    before this node has the hash of the batch is forgotten by
    [applyPrepareMsg] when the hash arrives, while its vote stays counted; a
    second commit of the owner counts again.  Here a sequence of a network of
    four becomes committed although only two nodes ever sent a commit, fewer
    than an intersection quorum. *)
Theorem owner_commit_counted_twice :
  exists ops s acts, seqRun sampleSequence ops s acts
    /\ sq_state s = sequenceCommitted
    /\ Z.of_nat (size (commitSenders ops)) = 2
    /\ intersectionQuorum sampleConfig = 3.
Proof.
  pose (ops := [ OpAllocate [sampleAck] ∅; OpCommit 0 (Some [9]); OpHash (Some [9]); OpPrepare 1 (Some [9]);
    OpPrepare 2 (Some [9]); OpCommit 0 (Some [9]); OpCommit 1 (Some [9]) ]).
  exists ops, (endOf (sampleEnd ops)), (actsOf (sampleEnd ops)). split.
  - apply sampleEnd_run; [vm_compute; repeat split; discriminate | vm_compute; eexists; reflexivity].
  - vm_compute. done.
Qed.

(** The leader counts its own vote twice: once with the hash of its batch
    and once with the loopback of its preprepare.  Here the leader of a network
    of four has prepared its sequence with the prepare of a single other node,
    so with two distinct nodes, fewer than an intersection quorum. *)
Theorem leader_vote_counted_twice :
  let my := mkInitialParameters 0 1 1 1 1 1 in
  exists ops s acts, seqRun (newSequence 0 2 1 sampleConfig my) ops s acts
    /\ sq_state s = sequencePrepared
    /\ preparers 0 (str (sq_digest s)) ops = {[2]}
    /\ intersectionQuorum sampleConfig = 3.
Proof.
  intros my. pose (h := (allocRequest emptyHeap (mkClientRequest sampleAck {[0; 1; 2; 3]} true false 0 0)).1).
  pose (ops := [ OpAllocateAsOwner [0]; OpHash (Some [9]); OpOwnPreprepare; OpPrepare 2 (Some [9]) ]).
  destruct (execSeq h sampleLog (newSequence 0 2 1 sampleConfig my) ops) as [[[p s] a] | |] eqn:H;
    [| vm_compute in H; discriminate ..].
  exists ops, s, a. split.
  - apply (execSeq_run h _ ops _ _ _ _ [] [] a (run_start _)) in H; [exact H |]. vm_compute. repeat split; discriminate.
  - vm_compute in H. injection H as <- <- <-. vm_compute. done.
Qed.
