(* ===== verification/CommittingClient.v ===== *)
(** * Committing clients

    The [committingClient] of [pkg/statemachine/commitstate.go]: which request
    numbers of a client have committed since its last checkpoint, and the
    client state the next checkpoint records for it.  The slice of [*uint64]
    holds the sequence number a request committed at, [None] for nil. *)
From S2P Require Import Prelude Msgs Stateless.

(** ** Data *)

Record committingClient := mkCommittingClient {
  cc_lastState : NetworkState_Client;
  cc_committedSinceLastCheckpoint : list (option Z);
}.

#[global] Instance eta_committingClient : Eta committingClient := mkEta (fun r =>
  mkCommittingClient (cc_lastState r) (cc_committedSinceLastCheckpoint r)).

(** ** Operations *)

Definition newCommittingClient (seqNo : Z) (clientState : NetworkState_Client) : outcome committingClient :=
  let mask := cl_CommittedMask clientState in
  committed ← forRange (fun i committed =>
      set ← bitmask_isBitSet mask i;
      if negb set then Ok committed else sliceSet committed i (Some seqNo))
    (seqZ 0 (bitmask_bits mask)) (replicate (Z.to_nat (cl_Width clientState)) None);
  Ok (mkCommittingClient clientState committed).

Definition committingClient_markCommitted (cc : committingClient) (seqNo reqNo : Z) : outcome committingClient :=
  let offset := reqNo -! cl_LowWatermark (cc_lastState cc) in
  committed ← sliceSet (cc_committedSinceLastCheckpoint cc) offset (Some seqNo);
  Ok (cc <| cc_committedSinceLastCheckpoint := committed |>).

(** The loop that finds the first uncommitted and the last committed request,
    from index [i] of the slice. *)
Fixpoint scanSlots (low i : Z) (slots : list (option Z)) (acc : option Z * option Z) : option Z * option Z :=
  match slots with
  | [] => acc
  | seqNoPtr :: slots' =>
    let '(firstUncommitted, lastCommitted) := acc in
    let reqNo := low +! i in
    let acc' :=
      match seqNoPtr with
      | Some _ => (firstUncommitted, Some reqNo)
      | None => (match firstUncommitted with None => Some reqNo | Some f => Some f end, lastCommitted)
      end in
    scanSlots low (i + 1) slots' acc'
  end.

(** The mask of the committed requests from [firstUncommitted] to
    [lastCommitted], read off the already shifted slice. *)
Definition committedMask (slots : list (option Z)) (firstUncommitted lastCommitted : Z) : outcome bytes :=
  if negb (lastCommitted =? firstUncommitted) then
    let span := s64 (lastCommitted -! firstUncommitted) in
    mask ← makeSlice (Z.quot span 8 + 1) 0;
    forRange (fun i mask =>
        slot ← sliceGet slots i;
        match slot with
        | None => Ok mask
        | Some _ =>
          _ ← assertTrue (negb (i =? 0)) "the first uncommitted cannot be marked committed";
          bitmask_setBit mask i
        end)
      (seqZ 0 (span + 1)) mask
  else Ok [].

Definition committingClient_createCheckpointState (cc : committingClient)
    : outcome (committingClient * NetworkState_Client) :=
  let last := cc_lastState cc in
  let slots := cc_committedSinceLastCheckpoint cc in
  match scanSlots (cl_LowWatermark last) 0 slots (None, None) with
  | (_, None) =>
    let newState := mkClientState (cl_Id last) (cl_Width last) 0 (cl_LowWatermark last) [] in
    Ok (cc <| cc_lastState := newState |>, newState)
  | (None, Some lastCommitted) =>
    let highWatermark := cl_LowWatermark last +! cl_Width last -! cl_WidthConsumedLastCheckpoint last -! 1 in
    _ ← assertTrue (lastCommitted =? highWatermark)
          "if no client reqs are uncommitted, then all though the high watermark should be committed";
    let newState := mkClientState (cl_Id last) (cl_Width last) (cl_Width last) (lastCommitted +! 1) [] in
    Ok (mkCommittingClient newState [], newState)
  | (Some firstUncommitted, Some lastCommitted) =>
    let widthConsumed := s64 (firstUncommitted -! cl_LowWatermark last) in
    kept ← sliceFrom slots widthConsumed;
    fresh ← makeSlice (cl_Width last - widthConsumed) None;
    let slots := kept ++ fresh in
    mask ← committedMask slots firstUncommitted lastCommitted;
    let newState := mkClientState (cl_Id last) (cl_Width last) (u32 widthConsumed) firstUncommitted mask in
    Ok (mkCommittingClient newState slots, newState)
  end.

(** ** Specification *)

(** The requests that have committed: those below the low watermark and those
    whose slot is set. *)
Definition committed (cc : committingClient) (reqNo : Z) : Prop :=
  reqNo < cl_LowWatermark (cc_lastState cc)
  \/ exists i seqNo, reqNo = cl_LowWatermark (cc_lastState cc) + Z.of_nat i
       /\ cc_committedSinceLastCheckpoint cc !! i = Some (Some seqNo).

(** Machine-width ranges, and no commit beyond the client's window. *)
Record committingClient_wf (cc : committingClient) : Prop := {
  ccw_low : 0 <= cl_LowWatermark (cc_lastState cc);
  ccw_width : 0 <= cl_Width (cc_lastState cc) < 2 ^ 32;
  ccw_consumed : 0 <= cl_WidthConsumedLastCheckpoint (cc_lastState cc) <= cl_Width (cc_lastState cc);
  ccw_range : cl_LowWatermark (cc_lastState cc) + 2 ^ 34 < 2 ^ 64;
  ccw_length : Z.of_nat (length (cc_committedSinceLastCheckpoint cc)) < 2 ^ 33;
  ccw_window : forall i seqNo, cc_committedSinceLastCheckpoint cc !! i = Some (Some seqNo) ->
    Z.of_nat i < cl_Width (cc_lastState cc);
}.

(** ** Lemmas *)

Lemma scanSlots_app (low i : Z) (l1 l2 : list (option Z)) (acc : option Z * option Z) :
  scanSlots low i (l1 ++ l2) acc = scanSlots low (i + Z.of_nat (length l1)) l2 (scanSlots low i l1 acc).
Proof.
  revert i acc. induction l1 as [|x l1 IH]; intros i [fu lc]; cbn [app scanSlots length].
  - f_equal. lia.
  - rewrite IH. f_equal. lia.
Qed.

(** The first empty and the last set slot. *)
Definition firstEmpty (slots : list (option Z)) (r : option Z) : Prop :=
  match r with
  | Some k => 0 <= k /\ slots !! Z.to_nat k = Some None /\ forall j, Z.of_nat j < k -> exists s, slots !! j = Some (Some s)
  | None => forall j, slots !! j <> Some None
  end.
Definition lastSet (slots : list (option Z)) (r : option Z) : Prop :=
  match r with
  | Some k => 0 <= k /\ (exists s, slots !! Z.to_nat k = Some (Some s))
      /\ forall j s, slots !! j = Some (Some s) -> Z.of_nat j <= k
  | None => forall j s, slots !! j <> Some (Some s)
  end.

Lemma scanSlots_spec (low : Z) (slots : list (option Z)) :
  0 <= low -> low + Z.of_nat (length slots) < 2 ^ 64 ->
  exists fu lc, scanSlots low 0 slots (None, None) = (Z.add low <$> fu, Z.add low <$> lc)
    /\ firstEmpty slots fu /\ lastSet slots lc.
Proof.
  intros Hlow. induction slots as [|x slots IH] using rev_ind; intros Hov.
  { exists None, None. cbn. split; [done |]. split; intros j; rewrite lookup_nil; done. }
  rewrite length_app in Hov. cbn in Hov. destruct IH as (fu & lc & Hscan & Hfu & Hlc); [lia |].
  rewrite scanSlots_app, Hscan. cbn [scanSlots]. rewrite add64_small by lia.
  assert (Hlast : (slots ++ [x]) !! length slots = Some x) by apply list_lookup_middle, eq_refl.
  assert (Hold : forall j y, slots !! j = Some y -> (slots ++ [x]) !! j = Some y).
  { intros j y Hj. apply lookup_app_l_Some. done. }
  assert (Hcases : forall j y, (slots ++ [x]) !! j = Some y -> slots !! j = Some y \/ (j = length slots /\ y = x)).
  { intros j y. rewrite lookup_app_Some. intros [? | [? Hj]]; [by left |]. right.
    apply list_lookup_singleton_Some in Hj as [? ->]. split; [lia | done]. }
  set (k := Z.of_nat (length slots)). replace (low + (0 + k)) with (low + k) by lia.
  assert (Hk : Z.to_nat k = length slots) by lia.
  destruct x as [s |].
  - exists fu, (Some k). split; [done |]. split.
    + destruct fu as [f |]; cbn in *.
      * destruct Hfu as (H0 & H1 & H2). split; [done |]. split; [auto |]. intros j Hj.
        destruct (H2 j Hj) as [s' Hs]. eauto.
      * intros j Hj. apply Hcases in Hj as [Hj | [_ Hj]]; [by apply Hfu in Hj | done].
    + split; [lia |]. split; [rewrite Hk; eauto |]. intros j s' Hj.
      apply Hcases in Hj as [Hj | [-> _]]; [| lia]. apply lookup_lt_Some in Hj. lia.
  - exists (match fu with None => Some k | Some f => Some f end), lc.
    split; [by destruct fu |]. split.
    + destruct fu as [f |]; cbn in *.
      * destruct Hfu as (H0 & H1 & H2). split; [done |]. split; [auto |]. intros j Hj.
        destruct (H2 j Hj) as [s' Hs]. eauto.
      * split; [lia |]. split; [by rewrite Hk |]. intros j Hj.
        destruct (lookup_lt_is_Some_2 slots j) as [[s |] Hs]; [lia | eauto | by apply Hfu in Hs].
    + destruct lc as [c |]; cbn in *.
      * destruct Hlc as (H0 & [s Hs] & H2). split; [done |]. split; [eauto |]. intros j s' Hj.
        apply Hcases in Hj as [Hj | [_ Hj]]; [by eapply H2 | done].
      * intros j s Hj. apply Hcases in Hj as [Hj | [_ Hj]]; [by apply Hlc in Hj | done].
Qed.

Definition isSet (slots : list (option Z)) (j : Z) : bool :=
  match slots !! Z.to_nat j with Some (Some _) => true | _ => false end.

Lemma isSet_Some (slots : list (option Z)) (j : Z) :
  isSet slots j = true <-> exists s, slots !! Z.to_nat j = Some (Some s).
Proof. unfold isSet. destruct (slots !! Z.to_nat j) as [[s |] |]; naive_solver. Qed.

(** The loop over the first [n] indices sets exactly the bits of the set slots. *)
Lemma maskLoop_spec (slots : list (option Z)) (mask0 : bytes) (n : nat) :
  slots !! 0%nat = Some None -> (n <= length slots)%nat -> Z.of_nat n <= bitmask_bits mask0 ->
  (forall j, bitAt mask0 j = false) ->
  exists mask, forRange (fun i mask =>
        slot ← sliceGet slots i;
        match slot with
        | None => Ok mask
        | Some _ =>
          _ ← assertTrue (negb (i =? 0)) "the first uncommitted cannot be marked committed";
          bitmask_setBit mask i
        end) (seqZ 0 (Z.of_nat n)) mask0 = Ok mask
    /\ length mask = length mask0
    /\ forall j, 0 <= j -> bitAt mask j = (j <? Z.of_nat n) && isSet slots j.
Proof.
  intros H0. induction n as [|n IH]; intros Hn Hb Hz.
  { exists mask0. split; [done |]. split; [done |]. intros j Hj. rewrite Hz. destruct (Z.ltb_spec j (Z.of_nat 0)); [lia | done]. }
  destruct IH as (m & Hm & Hlen & Hbits); [lia | lia | done |].
  rewrite Nat2Z.inj_succ, <- Z.add_1_r, seqZ_app, forRange_app, Hm by lia. cbn [mbind outcome_bind seqZ].
  replace (seqZ (0 + Z.of_nat n) 1) with [Z.of_nat n] by done. cbn [forRange].
  destruct (lookup_lt_is_Some_2 slots n) as [x Hx]; [lia |].
  unfold sliceGet. destruct (Z.ltb_spec (Z.of_nat n) 0); [lia |]. rewrite Nat2Z.id, Hx. cbn [deref mbind outcome_bind].
  assert (Hset : isSet slots (Z.of_nat n) = match x with Some _ => true | None => false end).
  { unfold isSet. rewrite Nat2Z.id, Hx. by destruct x. }
  assert (Hstep : forall j b, 0 <= j -> (b = (Z.of_nat n =? j) && isSet slots (Z.of_nat n) || (j <? Z.of_nat n) && isSet slots j) ->
     b = (j <? Z.of_nat n + 1) && isSet slots j).
  { intros j b Hj ->. destruct (Z.eqb_spec (Z.of_nat n) j) as [<- | Hne].
    - destruct (Z.ltb_spec (Z.of_nat n) (Z.of_nat n)); [lia |].
      destruct (Z.ltb_spec (Z.of_nat n) (Z.of_nat n + 1)); [| lia]. cbn. by rewrite orb_false_r.
    - cbn. f_equal. apply eq_true_iff_eq. rewrite !Z.ltb_lt. lia. }
  destruct x as [s |].
  - destruct (Z.eqb_spec (Z.of_nat n) 0) as [Hz0 | Hnz].
    { assert (n = 0%nat) as -> by lia. congruence. }
    cbn [negb assertTrue mbind outcome_bind].
    assert (Hr : 0 <= Z.of_nat n < bitmask_bits m).
    { unfold bitmask_bits in *. rewrite Hlen. lia. }
    destruct (lookup_lt_is_Some_2 m (Z.to_nat (Z.of_nat n / 8))) as [b Hbyte].
    { unfold bitmask_bits in Hr. apply Nat2Z.inj_lt. rewrite Z2Nat.id by (apply Z.div_pos; lia).
      apply Z.div_lt_upper_bound; lia. }
    pose proof (bitmask_setBit_spec m (Z.of_nat n) b ltac:(lia) Hbyte) as Hsb. rewrite Hsb. cbn [mbind outcome_bind].
    eexists. split; [done |]. split; [rewrite length_insert; done |]. intros j Hj.
    destruct (bitAt_setBit m _ (Z.of_nat n) j Hr Hj Hsb) as [_ ->]. rewrite Hbits by done.
    apply Hstep; [done |]. by rewrite Hset, andb_true_r.
  - exists m. split; [done |]. split; [done |]. intros j Hj. rewrite Hbits by done.
    apply Hstep; [done |]. by rewrite Hset, andb_false_r.
Qed.

Lemma makeSlice_Ok {A : Type} (n : Z) (x : A) : 0 <= n -> makeSlice n x = Ok (replicate (Z.to_nat n) x).
Proof. intros H. unfold makeSlice. destruct (Z.ltb_spec n 0); [lia | done]. Qed.

(** [span] is the distance from the first uncommitted to the last committed
    request; it is -1 when they are adjacent the other way round. *)
Lemma committedMask_spec (slots : list (option Z)) (fu span : Z) :
  slots !! 0%nat = Some None -> 0 <= fu -> 0 <= fu + span < 2 ^ 64 -> fu < 2 ^ 64 -> -1 <= span < 2 ^ 34 -> span < Z.of_nat (length slots) ->
  exists mask, committedMask slots fu (fu + span) = Ok mask
    /\ forall j, 0 <= j -> bitAt mask j = (j <=? span) && isSet slots j.
Proof.
  intros H0 Hfu Hr Hfu' Hspan Hlen. unfold committedMask.
  destruct (Z.eqb_spec (fu + span) fu) as [Heq | Hne]; cbn [negb].
  { exists []. split; [done |]. intros j Hj. rewrite bitAt_beyond by done.
    destruct (Z.leb_spec j span); [| done]. cbn. unfold isSet. replace (Z.to_nat j) with 0%nat by lia. by rewrite H0. }
  assert (Hs : s64 ((fu + span) -! fu) = span).
  { unfold s64, sub64. replace (fu + span - fu) with span by lia. unfold u64. rewrite Z.mod_mod by lia.
    destruct (decide (span = -1)) as [-> |]; [done |]. rewrite Z.mod_small by lia.
    destruct (Z.ltb_spec span (2 ^ 63)); lia. }
  rewrite Hs.
  destruct (decide (span = -1)) as [-> | Hn1].
  { eexists. split; [done |]. intros j Hj. destruct (Z.leb_spec j (-1)); [lia |].
    change (bitAt (replicate 1 0) j = false). apply bitAt_zeros. }
  rewrite Z.quot_div_nonneg by lia.
  assert (Hq : 0 <= span / 8) by (apply Z.div_pos; lia).
  rewrite makeSlice_Ok by lia. cbn [mbind outcome_bind].
  destruct (maskLoop_spec slots (replicate (Z.to_nat (span / 8 + 1)) 0) (Z.to_nat (span + 1))) as (mask & Hm & _ & Hbits).
  - done.
  - lia.
  - unfold bitmask_bits. rewrite length_replicate. pose proof (Z.mul_succ_div_gt span 8). lia.
  - apply bitAt_zeros.
  - rewrite Z2Nat.id in Hm, Hbits by lia. exists mask. split; [done |]. intros j Hj. rewrite Hbits by done.
    f_equal. apply eq_true_iff_eq. rewrite Z.ltb_lt, Z.leb_le. lia.
Qed.

Lemma isSet_shift (slots : list (option Z)) (f : Z) (n : nat) (j : Z) :
  0 <= f <= Z.of_nat (length slots) -> 0 <= j ->
  isSet (drop (Z.to_nat f) slots ++ replicate n None) j = isSet slots (f + j).
Proof.
  intros Hf Hj. unfold isSet. replace (Z.to_nat (f + j)) with (Z.to_nat f + Z.to_nat j)%nat by lia.
  destruct (decide (Z.to_nat j < length (drop (Z.to_nat f) slots))%nat) as [Hlt | Hge].
  - by rewrite lookup_app_l, lookup_drop by done.
  - rewrite lookup_app_r by lia. rewrite length_drop in Hge.
    rewrite (lookup_ge_None_2 slots) by lia.
    destruct (replicate n None !! _) as [x |] eqn:E; [| done]. by apply lookup_replicate in E as [-> _].
Qed.

Lemma committed_isSet (cc : committingClient) (r : Z) :
  committed cc r <-> r < cl_LowWatermark (cc_lastState cc)
    \/ (cl_LowWatermark (cc_lastState cc) <= r
        /\ isSet (cc_committedSinceLastCheckpoint cc) (r - cl_LowWatermark (cc_lastState cc)) = true).
Proof.
  unfold committed. split; intros [H | H]; auto; right.
  - destruct H as (i & s & -> & Hi). split; [lia |]. apply isSet_Some. exists s. rewrite <- Hi. f_equal. lia.
  - destruct H as (Hle & [s Hs]%isSet_Some). eexists _, s. split; [| exact Hs]. lia.
Qed.

(** What a checkpoint of [cc] must be. *)
Definition recordsCommitted (cc cc' : committingClient) (st : NetworkState_Client) : Prop :=
  cc_lastState cc' = st
  /\ cl_Id st = cl_Id (cc_lastState cc) /\ cl_Width st = cl_Width (cc_lastState cc)
  /\ cl_LowWatermark (cc_lastState cc) <= cl_LowWatermark st
  /\ (forall r, 0 <= r < 2 ^ 64 -> exists b, isCommitted r st = Ok b /\ (b = true <-> committed cc r))
  /\ (forall r, committed cc' r <-> committed cc r).

Section Checkpoint.

Context (last : NetworkState_Client) (slots : list (option Z)).
Notation cc := (mkCommittingClient last slots).
Notation low := (cl_LowWatermark last).
Context (Hwf : committingClient_wf cc).

Lemma create_none :
  scanSlots low 0 slots (None, None) = (None, None) \/ (exists f, scanSlots low 0 slots (None, None) = (Some f, None)) ->
  (forall j s, slots !! j <> Some (Some s)) ->
  exists cc' st, committingClient_createCheckpointState cc = Ok (cc', st) /\ recordsCommitted cc cc' st.
Proof.
  intros Hscan Hno. destruct Hwf. cbn in *.
  set (st := mkClientState (cl_Id last) (cl_Width last) 0 low []).
  exists (cc <| cc_lastState := st |>), st. split.
  { unfold committingClient_createCheckpointState. cbn. by destruct Hscan as [-> | [f ->]]. }
  assert (Hc : forall r, committed cc r <-> r < low).
  { intros r. unfold committed. cbn. split; [| by left]. intros [? | (i & s & _ & Hi)]; [done | by apply Hno in Hi]. }
  split; [done |]. split; [done |]. split; [done |]. split; [cbn; lia |]. split; [| done].
  intros r Hr. eexists. split; [apply isCommitted_spec; cbn; lia |].
  rewrite Hc. cbn. rewrite orb_true_iff, andb_true_iff, Z.ltb_lt. unfold bitAt. rewrite lookup_nil. naive_solver.
Qed.

Lemma create_all (c : Z) :
  scanSlots low 0 slots (None, None) = (None, Some (low + c)) ->
  firstEmpty slots None -> lastSet slots (Some c) ->
  Z.of_nat (length slots) = cl_Width last - cl_WidthConsumedLastCheckpoint last ->
  exists cc' st, committingClient_createCheckpointState cc = Ok (cc', st) /\ recordsCommitted cc cc' st.
Proof.
  intros Hscan Hall (Hc0 & [s Hcs] & Hlast) Hlen. destruct Hwf. cbn in *.
  assert (Hc : c + 1 = Z.of_nat (length slots)).
  { pose proof (lookup_lt_Some _ _ _ Hcs). destruct (lookup_lt_is_Some_2 slots (length slots - 1)) as [[s' |] Hx]; [lia | | by apply Hall in Hx].
    apply Hlast in Hx. lia. }
  set (st := mkClientState (cl_Id last) (cl_Width last) (cl_Width last) (low + c +! 1) []).
  assert (Hst : low + c +! 1 = low + c + 1) by (apply add64_small; lia).
  exists (mkCommittingClient st []), st. split.
  { unfold committingClient_createCheckpointState. cbn. rewrite Hscan.
    replace (low + c =? _) with true; [done |]. symmetry. apply Z.eqb_eq. nowrap. lia. }
  assert (Hcom : forall r, committed cc r <-> r < low + c + 1).
  { intros r. rewrite committed_isSet. cbn. rewrite isSet_Some. split.
    - intros [? | [? [s' Hs]]]; [lia |]. apply Hlast in Hs. lia.
    - intros Hr. destruct (decide (r < low)); [by left | right]. split; [lia |].
      destruct (lookup_lt_is_Some_2 slots (Z.to_nat (r - low))) as [[s' |] Hx]; [lia | eauto | by apply Hall in Hx]. }
  split; [done |]. split; [done |]. split; [done |]. split; [cbn; lia |]. split.
  - intros r Hr. eexists. split; [apply isCommitted_spec; cbn; lia |].
    rewrite Hcom. cbn. rewrite Hst, orb_true_iff, andb_true_iff, Z.ltb_lt. unfold bitAt. rewrite lookup_nil. naive_solver.
  - intros r. rewrite Hcom. unfold committed. cbn. rewrite Hst. split; [| auto].
    intros [? | (i & s' & _ & Hi)]; [done | by rewrite lookup_nil in Hi].
Qed.

Lemma create_some (f c : Z) :
  scanSlots low 0 slots (None, None) = (Some (low + f), Some (low + c)) ->
  firstEmpty slots (Some f) -> lastSet slots (Some c) ->
  exists cc' st, committingClient_createCheckpointState cc = Ok (cc', st) /\ recordsCommitted cc cc' st.
Proof.
  intros Hscan (Hf0 & Hfe & Hfull) (Hc0 & [s Hcs] & Hlast). destruct Hwf. cbn in *.
  pose proof (lookup_lt_Some _ _ _ Hfe) as Hflen. pose proof (lookup_lt_Some _ _ _ Hcs) as Hclen.
  assert (HfW : f <= cl_Width last).
  { destruct (decide (f = 0)); [lia |]. destruct (Hfull (Z.to_nat (f - 1))) as [s' Hs]; [lia |].
    apply ccw_window0 in Hs. lia. }
  assert (Hfc : f - 1 <= c).
  { destruct (decide (f = 0)); [lia |]. destruct (Hfull (Z.to_nat (f - 1))) as [s' Hs]; [lia |].
    apply Hlast in Hs. lia. }
  assert (HcW : c < cl_Width last) by (apply ccw_window0 in Hcs; lia).
  set (slots' := drop (Z.to_nat f) slots ++ replicate (Z.to_nat (cl_Width last - f)) None).
  assert (Hset : forall j, 0 <= j -> isSet slots' j = isSet slots (f + j)) by (intros j Hj; apply isSet_shift; lia).
  destruct (committedMask_spec slots' (low + f) (c - f)) as (mask & Hmask & Hbits).
  { unfold slots'. rewrite lookup_app_l, lookup_drop, Nat.add_0_r; [done |]. rewrite length_drop. lia. }
  1-4: lia.
  { unfold slots'. rewrite length_app, length_drop. lia. }
  replace (low + f + (c - f)) with (low + c) in Hmask by lia.
  set (st := mkClientState (cl_Id last) (cl_Width last) (u32 f) (low + f) mask).
  exists (mkCommittingClient st slots'), st. split.
  { unfold committingClient_createCheckpointState. cbn. rewrite Hscan.
    replace (s64 (low + f -! low)) with f.
    2: { unfold sub64, s64. replace (low + f - low) with f by lia. rewrite (u64_small (u64 f)), !u64_small by (rewrite ?u64_small; lia).
         destruct (Z.ltb_spec f (2 ^ 63)); lia. }
    unfold sliceFrom. destruct (Z.leb_spec 0 f); [| lia]. destruct (Z.leb_spec f (Z.of_nat (length slots))); [| lia].
    cbn [andb mbind outcome_bind]. rewrite makeSlice_Ok by lia. cbn [mbind outcome_bind]. fold slots'. by rewrite Hmask. }
  assert (Hcom : forall r, committed cc r <-> r < low + f \/ (low + f <= r /\ isSet slots (r - low) = true)).
  { intros r. rewrite committed_isSet. cbn. split.
    - intros [? | [? ?]]; [left; lia |]. destruct (decide (r < low + f)); [by left | right; split; [lia | done]].
    - intros [Hr | [? ?]]; [| right; split; [lia | done]]. destruct (decide (r < low)); [by left | right]. split; [lia |].
      apply isSet_Some. apply Hfull. lia. }
  split; [done |]. split; [done |]. split; [done |]. split; [cbn; lia |]. split.
  - intros r Hr. eexists. split; [apply isCommitted_spec; cbn; lia |]. rewrite Hcom. cbn.
    rewrite orb_true_iff, andb_true_iff, Z.ltb_lt, Z.leb_le.
    destruct (decide (r < low + f)) as [Hlt | Hge]; [split; auto |].
    split; intros [Hx | Hx]; [done | right | done | right].
    + destruct Hx as [Hw Hb]. rewrite Hbits, Hset in Hb by lia. apply andb_true_iff in Hb as [_ Hb].
      split; [lia |]. rewrite <- Hb. f_equal. lia.
    + destruct Hx as [_ Hs]. pose proof Hs as Hs'. apply isSet_Some in Hs' as [s' Hs'].
      pose proof (ccw_window0 _ _ Hs'). pose proof (Hlast _ _ Hs'). split; [lia |]. rewrite Hbits, Hset by lia.
      replace (f + (r - (low + f))) with (r - low) by lia. rewrite Hs, andb_true_r. lia.
  - intros r. rewrite Hcom, committed_isSet. cbn. split; intros [Hx | [Hx Hs]]; auto; right; (split; [done |]).
    + rewrite Hset in Hs by lia. rewrite <- Hs. f_equal. lia.
    + rewrite Hset by lia. rewrite <- Hs. f_equal. lia.
Qed.

End Checkpoint.

(** The loop of [newCommittingClient] over the first [n] bits. *)
Lemma restoreLoop_spec (seqNo : Z) (mask : bytes) (slots0 : list (option Z)) (n : nat) :
  (forall j, 0 <= j -> bitAt mask j = true -> j < Z.of_nat (length slots0)) ->
  (forall j, isSet slots0 j = false) ->
  exists slots, forRange (fun i slots => set ← bitmask_isBitSet mask i;
        if negb set then Ok slots else sliceSet slots i (Some seqNo)) (seqZ 0 (Z.of_nat n)) slots0 = Ok slots
    /\ length slots = length slots0
    /\ forall j, 0 <= j -> isSet slots j = (j <? Z.of_nat n) && bitAt mask j.
Proof.
  intros Hin Hz. induction n as [|n IH].
  { exists slots0. split; [done |]. split; [done |]. intros j Hj. rewrite Hz. by destruct (Z.ltb_spec j (Z.of_nat 0)); [lia |]. }
  destruct IH as (sl & Hsl & Hlen & Hbits).
  rewrite Nat2Z.inj_succ, <- Z.add_1_r, seqZ_app, forRange_app, Hsl by lia. cbn [mbind outcome_bind].
  replace (seqZ (0 + Z.of_nat n) 1) with [Z.of_nat n] by done. cbn [forRange].
  rewrite bitmask_isBitSet_spec by lia. cbn [mbind outcome_bind].
  destruct (bitAt mask (Z.of_nat n)) eqn:Hb; cbn [negb].
  - pose proof (Hin (Z.of_nat n) ltac:(lia) Hb) as Hlt. unfold sliceSet. rewrite Hlen.
    destruct (Z.leb_spec 0 (Z.of_nat n)); [| lia]. destruct (Z.ltb_spec (Z.of_nat n) (Z.of_nat (length slots0))); [| lia].
    cbn [andb mbind outcome_bind]. eexists. split; [done |]. split; [by rewrite length_insert |]. intros j Hj.
    destruct (decide (j = Z.of_nat n)) as [-> | Hne].
    + unfold isSet. rewrite list_lookup_insert_eq by lia. rewrite Hb. destruct (Z.ltb_spec (Z.of_nat n) (Z.of_nat n + 1)); [done | lia].
    + unfold isSet. rewrite list_lookup_insert_ne by lia. fold (isSet sl j). rewrite Hbits by done. f_equal.
      apply eq_true_iff_eq. rewrite !Z.ltb_lt. lia.
  - exists sl. split; [done |]. split; [done |]. intros j Hj. rewrite Hbits by done.
    destruct (decide (j = Z.of_nat n)) as [-> | Hne]; [by rewrite Hb, !andb_false_r |]. f_equal.
    apply eq_true_iff_eq. rewrite !Z.ltb_lt. lia.
Qed.

(** ** Properties *)

(** The client state a checkpoint records is the set of requests that have
    committed: a request number is committed according to the new state (as
    [isCommitted] reads it) exactly when it was below the old low watermark or
    marked committed since, and the slots kept for the next interval say the
    same.  [createCheckpointState] does not panic unless every slot is set and
    their number is not the window that was left. *)
Theorem createCheckpointState_records_committed (cc : committingClient) :
  committingClient_wf cc ->
  (exists i, cc_committedSinceLastCheckpoint cc !! i = Some None)
  \/ cc_committedSinceLastCheckpoint cc = []
  \/ Z.of_nat (length (cc_committedSinceLastCheckpoint cc))
     = cl_Width (cc_lastState cc) - cl_WidthConsumedLastCheckpoint (cc_lastState cc) ->
  exists cc' st, committingClient_createCheckpointState cc = Ok (cc', st) /\ recordsCommitted cc cc' st.
Proof.
  destruct cc as [last slots]. intros Hwf Hcase. pose proof Hwf as []. cbn in *.
  destruct (scanSlots_spec (cl_LowWatermark last) slots) as ([f |] & [c |] & Hscan & Hf & Hc); [lia | lia | ..]; cbn in Hscan.
  - by eapply create_some.
  - apply create_none; eauto.
  - eapply create_all; [done | done | done | done |]. destruct Hcase as [[i Hi] | [-> | ?]]; [by apply Hf in Hi | | done].
    destruct Hc as (_ & [s Hs] & _). by rewrite lookup_nil in Hs.
  - apply create_none; eauto.
Qed.

Definition sampleClient : committingClient :=
  mkCommittingClient (mkClientState 7 8 0 100 []) [Some 1; Some 1; None; Some 2; None; Some 2; None; None].

Lemma sampleClient_wf : committingClient_wf sampleClient.
Proof.
  split; cbn; try lia. intros i s Hi. apply lookup_lt_Some in Hi. cbn in Hi. lia.
Qed.

Lemma createCheckpointState_records_committed_witness :
  exists cc' st, committingClient_createCheckpointState sampleClient = Ok (cc', st)
    /\ recordsCommitted sampleClient cc' st.
Proof.
  apply createCheckpointState_records_committed; [exact sampleClient_wf |]. left. exists 2%nat. reflexivity.
Defined.

(** Restoring a client from a checkpoint inverts recording it: the
    committing client built from a client state does not panic when the mask
    has no bit beyond the width, and has committed exactly the requests that
    [isCommitted] says are committed. *)
Theorem newCommittingClient_restores (seqNo : Z) (st : NetworkState_Client) :
  0 <= cl_LowWatermark st -> 0 <= cl_Width st < 2 ^ 32 -> cl_LowWatermark st + cl_Width st < 2 ^ 64 ->
  (forall i, 0 <= i -> bitAt (cl_CommittedMask st) i = true -> i < cl_Width st) ->
  exists cc, newCommittingClient seqNo st = Ok cc /\ cc_lastState cc = st
    /\ forall r, 0 <= r -> committed cc r <-> isCommitted r st = Ok true.
Proof.
  intros Hlow Hw Hov Hmask. unfold newCommittingClient.
  destruct (restoreLoop_spec seqNo (cl_CommittedMask st) (replicate (Z.to_nat (cl_Width st)) None)
    (8 * length (cl_CommittedMask st))) as (slots & Hsl & _ & Hbits).
  - intros j Hj Hb. rewrite length_replicate. apply Hmask in Hb; lia.
  - intros j. unfold isSet. destruct (_ !! _) as [x |] eqn:E; [| done]. by apply lookup_replicate in E as [-> _].
  - replace (Z.of_nat (8 * length (cl_CommittedMask st))) with (bitmask_bits (cl_CommittedMask st)) in Hsl, Hbits by (unfold bitmask_bits; lia).
    rewrite Hsl. eexists. split; [done |]. split; [done |]. intros r Hr.
    rewrite committed_isSet, isCommitted_spec by done. cbn.
    assert (Hor : forall b : bool, Ok b = Ok true <-> b = true) by (intros b; split; congruence).
    rewrite Hor, orb_true_iff, andb_true_iff, Z.ltb_lt, Z.leb_le.
    destruct (decide (r < cl_LowWatermark st)); [split; auto |]. rewrite Hbits, andb_true_iff, Z.ltb_lt by lia.
    split; intros [Hx | Hx]; try done; right.
    + destruct Hx as (Hge & _ & Hb). split; [apply Hmask in Hb; lia | done].
    + destruct Hx as [_ Hb]. split; [lia |]. split; [| done].
      destruct (decide (bitmask_bits (cl_CommittedMask st) <= r - cl_LowWatermark st)); [| lia].
      rewrite bitAt_beyond in Hb by lia. done.
Qed.

Lemma newCommittingClient_restores_witness :
  exists cc, newCommittingClient 5 (mkClientState 7 8 0 100 [0x20]) = Ok cc
    /\ (committed cc 102 <-> isCommitted 102 (mkClientState 7 8 0 100 [0x20]) = Ok true).
Proof.
  destruct (newCommittingClient_restores 5 (mkClientState 7 8 0 100 [0x20])) as (cc & H & _ & Hr); cbn; try lia.
  - intros i Hi Hb. destruct (decide (i < 8)) as [Hlt | Hge]; [exact Hlt |].
    rewrite bitAt_beyond in Hb; [discriminate Hb |]. unfold bitmask_bits. cbn. lia.
  - exists cc. split; [exact H |]. apply Hr. lia.
Defined.
