(* ===== verification/CommitState.v ===== *)
(** * Commit state

    [pkg/statemachine/commitstate.go]: the sequences that have committed but
    are not yet applied, between the last checkpoint (the low watermark) and
    two checkpoint intervals above it, their in-order delivery to the
    application, and the checkpoint requests.  Before [reinitialize] the
    source's [activeState] is nil; no operation is reached before it, and the
    model starts from an empty network state. *)
From S2P Require Import Prelude Msgs Actions Stateless EpochChange Persisted CommittingClient.

(** ** Data *)

Record commitState := mkCommitState {
  cs_committingClients : gmap Z committingClient;
  cs_lowWatermark : Z;
  cs_lastAppliedCommit : Z;
  cs_highestCommit : Z;
  cs_stopAtSeqNo : Z;
  cs_activeState : NetworkState;
  cs_lowerHalfCommits : list (option QEntry);
  cs_upperHalfCommits : list (option QEntry);
  cs_checkpointPending : bool;
  cs_transferring : bool;
}.

#[global] Instance eta_commitState : Eta commitState := mkEta (fun r =>
  mkCommitState (cs_committingClients r) (cs_lowWatermark r) (cs_lastAppliedCommit r) (cs_highestCommit r)
    (cs_stopAtSeqNo r) (cs_activeState r) (cs_lowerHalfCommits r) (cs_upperHalfCommits r)
    (cs_checkpointPending r) (cs_transferring r)).

Definition newCommitState : commitState :=
  mkCommitState ∅ 0 0 0 0 (mkNetworkState (mkConfig [] 0 0 0 0) [] [] false) [] [] false false.

(** [uint64(cs.activeState.Config.CheckpointInterval)]. *)
Definition ciOf (ns : NetworkState) : Z := u64 (nc_CheckpointInterval (ns_Config ns)).

(** ** Operations *)

(** The three variables the closures of [reinitialize] assign. *)
Record lastEntries := mkLastEntries {
  le_lastC : option CEntry;
  le_secondToLastC : option CEntry;
  le_lastT : option TEntry;
}.

Definition lastEntriesIterator : logIterator lastEntries :=
  (emptyIterator lastEntries)
    <| onCEntry := fun cEntry le => Ok (mkLastEntries (Some cEntry) (le_lastC le) (le_lastT le)) |>
    <| onTEntry := fun tEntry le => Ok (mkLastEntries (le_lastC le) (le_secondToLastC le) (Some tEntry)) |>.

Definition commitState_reinitialize (cs : commitState) (p : persisted) : outcome (commitState * ActionList) :=
  le ← persisted_iterate p lastEntriesIterator (mkLastEntries None None None);
  lastCEntry ← deref (le_lastC le) "nil pointer dereference: lastCEntry";
  let base :=
    match le_secondToLastC le with
    | None => lastCEntry
    | Some second =>
      match ns_PendingReconfigurations (c_NetworkState second) with [] => lastCEntry | _ :: _ => second end
    end in
  let cs := cs <| cs_activeState := c_NetworkState base |> <| cs_lowWatermark := c_SeqNo base |> in
  let ci := ciOf (cs_activeState cs) in
  let stop :=
    match ns_PendingReconfigurations (cs_activeState cs) with
    | [] => c_SeqNo lastCEntry +! mul64 2 ci
    | _ :: _ => c_SeqNo lastCEntry +! ci
    end in
  let cs := cs <| cs_stopAtSeqNo := stop |> <| cs_lastAppliedCommit := c_SeqNo lastCEntry |>
               <| cs_highestCommit := c_SeqNo lastCEntry |> in
  lower ← makeSlice ci None;
  upper ← makeSlice ci None;
  clients ← forRange (fun clientState m =>
      cc ← newCommittingClient (c_SeqNo lastCEntry) clientState;
      Ok (<[cl_Id clientState := cc]> m))
    (ns_Clients (c_NetworkState lastCEntry)) (∅ : gmap Z committingClient);
  let cs := cs <| cs_lowerHalfCommits := lower |> <| cs_upperHalfCommits := upper |>
               <| cs_committingClients := clients |> in
  match le_lastT le with
  | Some lastTEntry =>
    if c_SeqNo lastCEntry >=? t_SeqNo lastTEntry then Ok (cs <| cs_transferring := false |>, [])
    else Ok (cs <| cs_transferring := true |>,
             ActionList_StateTransfer [] (t_SeqNo lastTEntry) (t_Value lastTEntry))
  | None => Ok (cs <| cs_transferring := false |>, [])
  end.

Definition commitState_transferTo (cs : commitState) (p : persisted) (seqNo : Z) (value : slice)
    : outcome (commitState * persisted * ActionList) :=
  _ ← assertTrue (negb (cs_transferring cs)) "multiple state transfers are not supported concurrently";
  let cs := cs <| cs_transferring := true |> in
  '(p, actions) ← persisted_addTEntry p (mkTEntry seqNo value);
  Ok (cs, p, ActionList_StateTransfer actions seqNo value).

Definition commitState_applyCheckpointResult (cs : commitState) (p : persisted) (result : EventCheckpointResult)
    : outcome (commitState * persisted * ActionList) :=
  let ci := ciOf (cs_activeState cs) in
  if cs_transferring cs then Ok (cs, p, [])
  else if negb (ckr_SeqNo result =? cs_lowWatermark cs +! ci) then Panic "dev sanity test: stale checkpoint result"
  else
    let cs :=
      match ns_PendingReconfigurations (ckr_NetworkState result) with
      | [] => cs <| cs_stopAtSeqNo := ckr_SeqNo result +! mul64 2 ci |>
      | _ :: _ => cs
      end in
    upper ← makeSlice ci None;
    let cs := cs <| cs_activeState := ckr_NetworkState result |>
                 <| cs_lowerHalfCommits := cs_upperHalfCommits cs |>
                 <| cs_upperHalfCommits := upper |>
                 <| cs_lowWatermark := ckr_SeqNo result |>
                 <| cs_checkpointPending := false |> in
    '(p, actions) ← persisted_addCEntry p (mkCEntry (ckr_SeqNo result) (ckr_Value result) (ckr_NetworkState result));
    Ok (cs, p, ActionList_Send actions (nc_Nodes (ns_Config (cs_activeState cs)))
                 (Msg_Checkpoint (mkCheckpoint (ckr_SeqNo result) (ckr_Value result)))).

(** The half a sequence number falls in and its offset there; [ci] = 0 panics
    in the remainder. *)
Definition commitSlot (cs : commitState) (seqNo : Z) : outcome (bool * Z) :=
  let ci := ciOf (cs_activeState cs) in
  let upper := ci <? seqNo -! cs_lowWatermark cs in
  offset ← umod (seqNo -! (cs_lowWatermark cs +! 1)) ci;
  Ok (upper, s64 offset).

Definition commitState_commit (cs : commitState) (qEntry : QEntry) : outcome commitState :=
  _ ← assertTrue (negb (cs_transferring cs)) "we should never commit during state transfer";
  _ ← assertTrue (negb (cs_stopAtSeqNo cs <? q_SeqNo qEntry)) "commit sequence exceeds stop sequence";
  if q_SeqNo qEntry <=? cs_lowWatermark cs then Ok cs
  else
    cs ← (if cs_highestCommit cs <? q_SeqNo qEntry then
            _ ← assertTrue (cs_highestCommit cs +! 1 =? q_SeqNo qEntry)
                  "next commit should always be exactly one greater than the highest";
            Ok (cs <| cs_highestCommit := q_SeqNo qEntry |>)
          else Ok cs);
    '(upper, offset) ← commitSlot cs (q_SeqNo qEntry);
    let commits := if (upper : bool) then cs_upperHalfCommits cs else cs_lowerHalfCommits cs in
    old ← sliceGet commits offset;
    match old with
    | Some q =>
      _ ← assertTrue (bytesEqual (q_Digest q) (q_Digest qEntry)) "previously committed a different digest";
      Ok cs
    | None =>
      commits' ← sliceSet commits offset (Some qEntry);
      if upper then Ok (cs <| cs_upperHalfCommits := commits' |>)
      else Ok (cs <| cs_lowerHalfCommits := commits' |>)
    end.

(** Removes the first client with the given id. *)
Fixpoint removeClient (id : Z) (clients : list NetworkState_Client) : option (list NetworkState_Client) :=
  match clients with
  | [] => None
  | c :: clients' =>
    if negb (cl_Id c =? id) then cons c <$> removeClient id clients' else Some clients'
  end.

Definition applyReconfiguration (rc : Reconfiguration) (st : NetworkState_Config * list NetworkState_Client)
    : outcome (NetworkState_Config * list NetworkState_Client) :=
  let '(nextConfig, nextClients) := st in
  match rc with
  | Reconfiguration_NewClient id width => Ok (nextConfig, nextClients ++ [mkClientState id width 0 0 []])
  | Reconfiguration_RemoveClient id =>
    clients ← deref (removeClient id nextClients) "asked to remove client which doesn't exist";
    Ok (nextConfig, clients)
  | Reconfiguration_NewConfig config => Ok (config, nextClients)
  | Reconfiguration_unset => Ok (nextConfig, nextClients)
  end.

Definition nextNetworkConfig (startingState : NetworkState) (committingClients : gmap Z committingClient)
    : outcome (gmap Z committingClient * (NetworkState_Config * list NetworkState_Client)) :=
  '(committingClients, nextClients) ← forRange (fun oldClientState st =>
      let '(ccs, next) := st in
      cc ← deref (ccs !! cl_Id oldClientState) "must have a committing client instance all client states";
      '(cc', newState) ← committingClient_createCheckpointState cc;
      Ok (<[cl_Id oldClientState := cc']> ccs, next ++ [newState]))
    (ns_Clients startingState) (committingClients, []);
  next ← forRange applyReconfiguration (ns_PendingReconfigurations startingState) (ns_Config startingState, nextClients);
  Ok (committingClients, next).

(** The checkpoint request of [drain], once the first half is applied. *)
Definition drainCheckpoint (cs : commitState) (actions : ActionList) : outcome (commitState * ActionList) :=
  let ci := ciOf (cs_activeState cs) in
  if (cs_lastAppliedCommit cs =? cs_lowWatermark cs +! ci) && negb (cs_checkpointPending cs) then
    '(ccs, (networkConfig, clientConfigs)) ← nextNetworkConfig (cs_activeState cs) (cs_committingClients cs);
    Ok (cs <| cs_committingClients := ccs |> <| cs_checkpointPending := true |>,
        ActionList_Checkpoint actions (cs_lastAppliedCommit cs) networkConfig clientConfigs)
  else Ok (cs, actions).

Definition markRequests (seqNo : Z) (reqs : list RequestAck) (ccs : gmap Z committingClient)
    : outcome (gmap Z committingClient) :=
  forRange (fun req ccs =>
      cc ← deref (ccs !! ra_ClientId req) "nil pointer dereference: committingClient";
      cc' ← committingClient_markCommitted cc seqNo (ra_ReqNo req);
      Ok (<[ra_ClientId req := cc']> ccs)) reqs ccs.

Fixpoint drainLoop (fuel : nat) (cs : commitState) (actions : ActionList) : outcome (commitState * ActionList) :=
  match fuel with
  | O => OutOfFuel
  | S fuel' =>
    let ci := ciOf (cs_activeState cs) in
    if negb (cs_lastAppliedCommit cs <? cs_lowWatermark cs +! mul64 2 ci) then Ok (cs, actions)
    else
      '(cs, actions) ← drainCheckpoint cs actions;
      let nextCommit := cs_lastAppliedCommit cs +! 1 in
      '(upper, offset) ← commitSlot cs nextCommit;
      let commits := if (upper : bool) then cs_upperHalfCommits cs else cs_lowerHalfCommits cs in
      commit ← sliceGet commits offset;
      match commit with
      | None => Ok (cs, actions)
      | Some commit =>
        _ ← assertTrue (q_SeqNo commit =? nextCommit) "attempted out of order commit";
        let actions := ActionList_Commit actions commit in
        ccs ← markRequests (q_SeqNo commit) (q_Requests commit) (cs_committingClients cs);
        drainLoop fuel' (cs <| cs_committingClients := ccs |> <| cs_lastAppliedCommit := nextCommit |>) actions
      end
  end.

(** Every iteration but the last applies one more sequence below the bound. *)
Definition commitState_drain (cs : commitState) : outcome (commitState * ActionList) :=
  let bound := cs_lowWatermark cs +! mul64 2 (ciOf (cs_activeState cs)) in
  drainLoop (S (Z.to_nat (bound - cs_lastAppliedCommit cs))) cs [].

(** ** Specification *)

(** The committed entry held for a sequence number of the window. *)
Definition slotAt (cs : commitState) (seqNo : Z) : option QEntry :=
  let ci := ciOf (cs_activeState cs) in
  let i := seqNo - cs_lowWatermark cs - 1 in
  default None (if ci <=? i then cs_upperHalfCommits cs !! Z.to_nat (i - ci) else cs_lowerHalfCommits cs !! Z.to_nat i).

(** The end of the window. *)
Definition windowEnd (cs : commitState) : Z := cs_lowWatermark cs + 2 * ciOf (cs_activeState cs).

Record commitState_wf (cs : commitState) : Prop := {
  csw_ci : 0 < ciOf (cs_activeState cs);
  csw_low : 0 <= cs_lowWatermark cs;
  csw_range : windowEnd cs + 1 < 2 ^ 64;
  csw_lower : Z.of_nat (length (cs_lowerHalfCommits cs)) = ciOf (cs_activeState cs);
  csw_upper : Z.of_nat (length (cs_upperHalfCommits cs)) = ciOf (cs_activeState cs);
  csw_slots : forall s q, cs_lowWatermark cs < s <= windowEnd cs -> slotAt cs s = Some q -> q_SeqNo q = s;
  csw_applied : cs_lowWatermark cs <= cs_lastAppliedCommit cs <= windowEnd cs;
  csw_pending : cs_lowWatermark cs + ciOf (cs_activeState cs) < cs_lastAppliedCommit cs -> cs_checkpointPending cs = true;
}.

(** The batches and the checkpoint requests among the actions. *)
Definition deliveries (acts : ActionList) : list QEntry :=
  omap (fun a => match a with Action_Commit q => Some q | _ => None end) acts.
Definition checkpointRequests (acts : ActionList) : list ActionCheckpoint :=
  omap (fun a => match a with Action_Checkpoint cp => Some cp | _ => None end) acts.

(** What draining leaves alone. *)
Definition sameWindow (cs cs' : commitState) : Prop :=
  cs_lowWatermark cs' = cs_lowWatermark cs /\ cs_activeState cs' = cs_activeState cs
  /\ cs_lowerHalfCommits cs' = cs_lowerHalfCommits cs /\ cs_upperHalfCommits cs' = cs_upperHalfCommits cs
  /\ cs_highestCommit cs' = cs_highestCommit cs /\ cs_stopAtSeqNo cs' = cs_stopAtSeqNo cs
  /\ cs_transferring cs' = cs_transferring cs.

(** Draining from [cs] to [cs'] with the actions [acts]. *)
Record drained (cs cs' : commitState) (acts : ActionList) : Prop := {
  dr_window : sameWindow cs cs';
  dr_applied : cs_lastAppliedCommit cs <= cs_lastAppliedCommit cs' <= windowEnd cs;
  dr_order : q_SeqNo <$> deliveries acts
    = seqZ (cs_lastAppliedCommit cs + 1) (cs_lastAppliedCommit cs' - cs_lastAppliedCommit cs);
  dr_stored : forall q, q ∈ deliveries acts -> slotAt cs (q_SeqNo q) = Some q;
  dr_maximal : cs_lastAppliedCommit cs' = windowEnd cs \/ slotAt cs (cs_lastAppliedCommit cs' + 1) = None;
  dr_pending : cs_checkpointPending cs = true -> checkpointRequests acts = [] /\ cs_checkpointPending cs' = true;
  dr_checkpoint : cs_checkpointPending cs = false ->
    let half := cs_lowWatermark cs + ciOf (cs_activeState cs) in
    (cs_lastAppliedCommit cs' < half /\ checkpointRequests acts = [] /\ cs_checkpointPending cs' = false)
    \/ (half <= cs_lastAppliedCommit cs' /\ cs_checkpointPending cs' = true
        /\ exists before cp after, acts = before ++ Action_Checkpoint cp :: after /\ ac_SeqNo cp = half
           /\ checkpointRequests before = [] /\ checkpointRequests after = []
           /\ cs_lastAppliedCommit cs + Z.of_nat (length (deliveries before)) = half);
}.

(** ** Lemmas *)

Lemma sameWindow_slotAt (cs cs' : commitState) (s : Z) : sameWindow cs cs' -> slotAt cs' s = slotAt cs s.
Proof. intros (H1 & H2 & H3 & H4 & _). unfold slotAt. by rewrite H1, H2, H3, H4. Qed.

Lemma sameWindow_end (cs cs' : commitState) : sameWindow cs cs' -> windowEnd cs' = windowEnd cs.
Proof. intros (H1 & H2 & _). unfold windowEnd. by rewrite H1, H2. Qed.

Lemma sameWindow_trans (cs1 cs2 cs3 : commitState) : sameWindow cs1 cs2 -> sameWindow cs2 cs3 -> sameWindow cs1 cs3.
Proof. unfold sameWindow. intuition congruence. Qed.

Lemma wf_sameWindow (cs cs' : commitState) :
  commitState_wf cs -> sameWindow cs cs' ->
  cs_lowWatermark cs <= cs_lastAppliedCommit cs' <= windowEnd cs ->
  (cs_lowWatermark cs + ciOf (cs_activeState cs) < cs_lastAppliedCommit cs' -> cs_checkpointPending cs' = true) ->
  commitState_wf cs'.
Proof.
  intros [] Hsame Happ Hpend. pose proof (sameWindow_end _ _ Hsame) as He.
  assert (Hs : forall s, slotAt cs' s = slotAt cs s) by (intros s; by apply sameWindow_slotAt).
  destruct Hsame as (H1 & H2 & H3 & H4 & _).
  split; rewrite ?He, ?H1, ?H2, ?H3, ?H4; auto. intros s q Hr. rewrite Hs. auto.
Qed.

Lemma window_mul (cs : commitState) : commitState_wf cs ->
  cs_lowWatermark cs +! mul64 2 (ciOf (cs_activeState cs)) = windowEnd cs.
Proof.
  intros []. unfold windowEnd, add64, mul64 in *. rewrite (u64_small (2 * _)) by lia. apply u64_small. lia.
Qed.

(** Finding the slot of a sequence number of the window. *)
Lemma commitSlot_get (cs : commitState) (s : Z) :
  commitState_wf cs -> cs_lowWatermark cs < s <= windowEnd cs ->
  exists upper offset, commitSlot cs s = Ok (upper, offset)
    /\ 0 <= offset < ciOf (cs_activeState cs)
    /\ s = cs_lowWatermark cs + 1 + offset + (if upper then ciOf (cs_activeState cs) else 0)
    /\ sliceGet (if (upper : bool) then cs_upperHalfCommits cs else cs_lowerHalfCommits cs) offset = Ok (slotAt cs s).
Proof.
  intros [] Hs. set (ci := ciOf (cs_activeState cs)) in *. set (low := cs_lowWatermark cs) in *.
  assert (Hci : ci < 2 ^ 63) by (unfold windowEnd in *; fold ci low in csw_range0; lia).
  unfold windowEnd in Hs, csw_range0. fold ci low in Hs, csw_range0. unfold commitSlot. fold ci low.
  rewrite (add64_small low 1), (sub64_small s low), (sub64_small s (low + 1)), umod_pos by lia. cbn.
  set (upper := ci <? s - low). set (i := s - (low + 1)).
  assert (Hoff : i mod ci = if upper then i - ci else i).
  { subst upper i. destruct (Z.ltb_spec ci (s - low)).
    - symmetry. apply (Z.mod_unique _ _ 1); lia.
    - apply Z.mod_small. lia. }
  assert (Hr : 0 <= i mod ci < ci) by (apply Z.mod_pos_bound; lia).
  assert (Hs64 : s64 (i mod ci) = i mod ci).
  { unfold s64. rewrite u64_small by lia. destruct (Z.ltb_spec (i mod ci) (2 ^ 63)); lia. }
  exists upper, (i mod ci). rewrite Hs64. split; [done |]. split; [done |].
  split; [rewrite Hoff; subst upper i; destruct (Z.ltb_spec ci (s - low)); lia |].
  unfold sliceGet, slotAt. fold ci low. destruct (Z.ltb_spec (i mod ci) 0); [lia |].
  replace (s - low - 1) with i by (subst i; lia).
  assert (Hup : (ci <=? i) = upper) by (subst upper i; apply eq_true_iff_eq; rewrite Z.leb_le, Z.ltb_lt; lia).
  rewrite Hup, Hoff in *. destruct upper.
  - destruct (lookup_lt_is_Some_2 (cs_upperHalfCommits cs) (Z.to_nat (i - ci))) as [x Hx]; [lia |]. by rewrite Hx.
  - destruct (lookup_lt_is_Some_2 (cs_lowerHalfCommits cs) (Z.to_nat i)) as [x Hx]; [lia |]. by rewrite Hx.
Qed.

Lemma drainCheckpoint_spec (cs cs' : commitState) (acts acts' : ActionList) :
  commitState_wf cs -> drainCheckpoint cs acts = Ok (cs', acts') ->
  let half := cs_lowWatermark cs + ciOf (cs_activeState cs) in
  sameWindow cs cs' /\ cs_lastAppliedCommit cs' = cs_lastAppliedCommit cs
  /\ ((acts' = acts /\ cs_checkpointPending cs' = cs_checkpointPending cs
       /\ (cs_checkpointPending cs = true \/ cs_lastAppliedCommit cs < half))
      \/ (exists cp, acts' = acts ++ [Action_Checkpoint cp] /\ ac_SeqNo cp = half
          /\ cs_lastAppliedCommit cs = half /\ cs_checkpointPending cs = false /\ cs_checkpointPending cs' = true)).
Proof.
  intros [] H half. unfold drainCheckpoint in H. unfold windowEnd in *.
  rewrite add64_small in H by lia. fold half in H, csw_pending0. case_match eqn:Hc.
  - apply andb_true_iff in Hc as [Heq Hp]. apply Z.eqb_eq in Heq. apply negb_true_iff in Hp.
    apply bind_Ok in H as ([ccs [nconf cconf]] & _ & H). injection H as <- <-.
    split; [done |]. split; [done |]. right. eexists. split; [done |]. cbn. done.
  - injection H as <- <-. split; [done |]. split; [done |]. left. split; [done |]. split; [done |].
    apply andb_false_iff in Hc as [Hc | Hc].
    + apply Z.eqb_neq in Hc. destruct (decide (half < cs_lastAppliedCommit cs)); [left; auto | right; lia].
    + apply negb_false_iff in Hc. by left.
Qed.

Lemma markRequests_returns (seqNo : Z) (reqs : list RequestAck) (ccs : gmap Z committingClient) :
  returns (markRequests seqNo reqs ccs).
Proof. unfold markRequests, committingClient_markCommitted. code_returns. Qed.

Lemma isBitSet_returns (bm : bytes) (i : Z) : returns (bitmask_isBitSet bm i).
Proof. unfold bitmask_isBitSet, byteAt. code_returns. Qed.
Lemma setBit_returns (bm : bytes) (i : Z) : returns (bitmask_setBit bm i).
Proof. unfold bitmask_setBit, byteAt. code_returns. Qed.

Lemma createCheckpointState_returns (cc : committingClient) : returns (committingClient_createCheckpointState cc).
Proof.
  unfold committingClient_createCheckpointState, committedMask.
  pose proof setBit_returns. code_returns; auto.
Qed.

Lemma drainCheckpoint_returns (cs : commitState) (acts : ActionList) : returns (drainCheckpoint cs acts).
Proof.
  unfold drainCheckpoint, nextNetworkConfig, applyReconfiguration.
  pose proof createCheckpointState_returns. code_returns; auto.
Qed.

Lemma deliveries_app (a b : ActionList) : deliveries (a ++ b) = deliveries a ++ deliveries b.
Proof. apply omap_app. Qed.
Lemma checkpointRequests_app (a b : ActionList) : checkpointRequests (a ++ b) = checkpointRequests a ++ checkpointRequests b.
Proof. apply omap_app. Qed.

(** Draining stops at the first gap. *)
Lemma drained_stop (cs cs1 : commitState) (acts acts1 : ActionList) :
  commitState_wf cs -> drainCheckpoint cs acts = Ok (cs1, acts1) ->
  slotAt cs (cs_lastAppliedCommit cs + 1) = None ->
  exists more, acts1 = acts ++ more /\ drained cs cs1 more.
Proof.
  intros Hwf Hck Hnone. pose proof Hwf as []. destruct (drainCheckpoint_spec _ _ _ _ Hwf Hck) as (Hsame & Hla & Hcase).
  assert (Hcommon : forall more, deliveries more = [] ->
    (cs_checkpointPending cs = true -> checkpointRequests more = [] /\ cs_checkpointPending cs1 = true) ->
    (cs_checkpointPending cs = false ->
      let half := cs_lowWatermark cs + ciOf (cs_activeState cs) in
      (cs_lastAppliedCommit cs1 < half /\ checkpointRequests more = [] /\ cs_checkpointPending cs1 = false)
      \/ (half <= cs_lastAppliedCommit cs1 /\ cs_checkpointPending cs1 = true
        /\ exists before cp after, more = before ++ Action_Checkpoint cp :: after /\ ac_SeqNo cp = half
           /\ checkpointRequests before = [] /\ checkpointRequests after = []
           /\ cs_lastAppliedCommit cs + Z.of_nat (length (deliveries before)) = half)) ->
    drained cs cs1 more).
  { intros more Hd H1 H2. split; rewrite ?Hla, ?Hd; auto.
    - lia.
    - by rewrite Z.sub_diag.
    - intros q []%elem_of_nil.
    - intros Hp. specialize (H2 Hp). by rewrite Hla in H2. }
  destruct Hcase as [(-> & Hp & Hor) | (cp & -> & Hseq & Hhalf & Hp & Hp')].
  - exists []. split; [by rewrite app_nil_r |]. apply Hcommon; [done | intros; split; [done | congruence] |].
    intros Hf half. left. rewrite Hla. destruct Hor; [congruence |]. split; [done |]. split; [done | congruence].
  - exists [Action_Checkpoint cp]. split; [done |]. apply Hcommon; [done | intros; exfalso; congruence |].
    intros _ half. right. rewrite Hla. split; [lia |]. split; [done |]. exists [], cp, []. cbn. split; [done |]. split; [done |].
    split; [done |]. split; [done |]. lia.
Qed.

(** One delivered batch, then the rest. *)
Lemma drained_step (cs cs1 cs2 cs' : commitState) (acts acts1 more2 : ActionList) (q : QEntry) :
  commitState_wf cs -> cs_lastAppliedCommit cs < windowEnd cs -> drainCheckpoint cs acts = Ok (cs1, acts1) ->
  slotAt cs (cs_lastAppliedCommit cs + 1) = Some q -> q_SeqNo q = cs_lastAppliedCommit cs + 1 ->
  sameWindow cs1 cs2 -> cs_lastAppliedCommit cs2 = cs_lastAppliedCommit cs + 1 ->
  cs_checkpointPending cs2 = cs_checkpointPending cs1 ->
  drained cs2 cs' more2 ->
  exists more, (acts1 ++ [Action_Commit q]) ++ more2 = acts ++ more /\ drained cs cs' more.
Proof.
  intros Hwf Hlt Hck Hq Hqs Hsame2 Hla2 Hp2 [].
  destruct (drainCheckpoint_spec _ _ _ _ Hwf Hck) as (Hsame1 & Hla1 & Hcase).
  pose proof (sameWindow_trans _ _ _ Hsame1 Hsame2) as Hsame.
  pose proof (sameWindow_end _ _ Hsame) as Hend.
  assert (Hslot : forall s, slotAt cs2 s = slotAt cs s) by (intros s; by apply sameWindow_slotAt).
  pose proof Hsame as (Hlow & Hact & _).
  assert (Hcommon : forall ck, deliveries ck = [] ->
    (cs_checkpointPending cs = true -> checkpointRequests (ck ++ Action_Commit q :: more2) = [] /\ cs_checkpointPending cs' = true) ->
    (cs_checkpointPending cs = false ->
      let half := cs_lowWatermark cs + ciOf (cs_activeState cs) in
      (cs_lastAppliedCommit cs' < half /\ checkpointRequests (ck ++ Action_Commit q :: more2) = [] /\ cs_checkpointPending cs' = false)
      \/ (half <= cs_lastAppliedCommit cs' /\ cs_checkpointPending cs' = true
        /\ exists before cp after, ck ++ Action_Commit q :: more2 = before ++ Action_Checkpoint cp :: after /\ ac_SeqNo cp = half
           /\ checkpointRequests before = [] /\ checkpointRequests after = []
           /\ cs_lastAppliedCommit cs + Z.of_nat (length (deliveries before)) = half)) ->
    drained cs cs' (ck ++ Action_Commit q :: more2)).
  { intros ck Hd H1 H2.
    assert (Hdel : deliveries (ck ++ Action_Commit q :: more2) = q :: deliveries more2) by (by rewrite deliveries_app, Hd).
    split; rewrite ?Hdel; auto.
    - by eapply sameWindow_trans.
    - rewrite Hend in dr_applied0. lia.
    - rewrite fmap_cons, dr_order0, Hla2, Hqs.
      rewrite (seqZ_cons (cs_lastAppliedCommit cs + 1)) by lia. f_equal. f_equal; lia.
    - intros q' [-> | Hq']%elem_of_cons; [by rewrite Hqs |]. rewrite <- Hslot. auto.
    - rewrite Hend in dr_maximal0. by rewrite Hslot in dr_maximal0. }
  rewrite Hlow, Hact, Hla2 in dr_checkpoint0.
  destruct Hcase as [(-> & Hp & Hor) | (cp & -> & Hseq & Hhalf & Hp & Hp')].
  - exists (Action_Commit q :: more2). split; [by rewrite <- app_assoc |]. apply (Hcommon []); [done | |]; intros Hpc.
    + rewrite Hp2, Hp in dr_pending0. destruct (dr_pending0 Hpc) as [Hr ?]. done.
    + rewrite Hp2, Hp in dr_checkpoint0. intros half. destruct (dr_checkpoint0 Hpc) as [(? & ? & ?) | (? & ? & before & cp & after & -> & Hcp & Hb & Ha & Hlen)].
      * by left.
      * right. split; [done |]. split; [done |]. exists (Action_Commit q :: before), cp, after. cbn.
        split; [done |]. split; [done |]. split; [done |]. split; [done |]. unfold deliveries in Hlen. lia.
  - exists ([Action_Checkpoint cp] ++ Action_Commit q :: more2). split; [by rewrite <- !app_assoc |].
    rewrite Hp2, Hp' in dr_pending0. destruct (dr_pending0 eq_refl) as [Hr Hp''].
    apply (Hcommon [Action_Checkpoint cp]); [done | intros; exfalso; congruence |]. intros _ half. right. split; [lia |]. split; [done |].
    exists [], cp, (Action_Commit q :: more2). cbn. split; [done |]. split; [done |]. split; [done |]. split; [done |]. lia.
Qed.

Lemma drainLoop_spec (fuel : nat) (cs : commitState) (acts : ActionList) :
  commitState_wf cs -> (Z.to_nat (windowEnd cs - cs_lastAppliedCommit cs) < fuel)%nat ->
  returns (drainLoop fuel cs acts)
  /\ forall cs' acts', drainLoop fuel cs acts = Ok (cs', acts') -> exists more, acts' = acts ++ more /\ drained cs cs' more.
Proof.
  revert cs acts. induction fuel as [|fuel IH]; intros cs acts Hwf Hf; [lia |].
  cbn [drainLoop]. rewrite (window_mul cs Hwf). pose proof Hwf as [].
  destruct (Z.ltb_spec (cs_lastAppliedCommit cs) (windowEnd cs)) as [Hlt | Hge]; cbn [negb].
  2: { split; [apply returns_Ok |]. intros cs' acts' [= <- <-]. exists []. split; [by rewrite app_nil_r |].
       assert (Hla : cs_lastAppliedCommit cs = windowEnd cs) by lia.
       split; cbn; [done | lia | by rewrite Z.sub_diag | intros q []%elem_of_nil | by left | done |].
       intros Hp. exfalso. rewrite csw_pending0 in Hp; [done |]. unfold windowEnd in Hla. lia. }
  pose proof (drainCheckpoint_returns cs acts) as Hret.
  destruct (drainCheckpoint cs acts) as [[cs1 acts1] | why |] eqn:Hck; cbn; [| done | done].
  destruct (drainCheckpoint_spec _ _ _ _ Hwf Hck) as (Hsame1 & Hla1 & Hcase).
  assert (Hwf1 : commitState_wf cs1).
  { eapply wf_sameWindow; [done | done | rewrite Hla1; done |]. rewrite Hla1. intros Hgt.
    destruct Hcase as [(_ & -> & _) | (cp & _ & _ & _ & _ & ->)]; auto. }
  rewrite Hla1, add64_small by lia.
  destruct (commitSlot_get cs1 (cs_lastAppliedCommit cs + 1) Hwf1) as (up & off & -> & _ & _ & Hget).
  { rewrite (sameWindow_end _ _ Hsame1). destruct Hsame1 as (-> & _). lia. }
  rewrite (sameWindow_slotAt _ _ _ Hsame1) in Hget. cbn. rewrite Hget. cbn.
  destruct (slotAt cs (cs_lastAppliedCommit cs + 1)) as [q |] eqn:Hq.
  2: { split; [apply returns_Ok |]. intros cs' acts' [= <- <-]. exact (drained_stop _ _ _ _ Hwf Hck Hq). }
  assert (Hqs : q_SeqNo q = cs_lastAppliedCommit cs + 1) by (apply csw_slots0; [lia | done]).
  rewrite Hqs, Z.eqb_refl. cbn.
  pose proof (markRequests_returns (cs_lastAppliedCommit cs + 1) (q_Requests q) (cs_committingClients cs1)) as Hmr.
  destruct (markRequests _ _ _) as [ccs | why |]; cbn; [| done | done].
  set (cs2 := update_field (field := cs_lastAppliedCommit) _ _).
  assert (Hsame2 : sameWindow cs1 cs2) by done.
  pose proof (sameWindow_trans _ _ _ Hsame1 Hsame2) as Hsame.
  assert (Hwf2 : commitState_wf cs2).
  { eapply wf_sameWindow; [exact Hwf | done | cbn; lia |]. cbn. intros Hgt.
    destruct Hcase as [(_ & -> & [? | ?]) | (cp & _ & _ & _ & _ & ->)]; auto. lia. }
  destruct (IH cs2 (ActionList_Commit acts1 q) Hwf2) as [Hr2 Hspec2].
  { rewrite (sameWindow_end _ _ Hsame). cbn. lia. }
  split; [done |]. intros cs' acts' H. destruct (Hspec2 cs' acts' H) as (more2 & -> & Hdr).
  eapply drained_step; [exact Hwf | done | exact Hck | exact Hq | done | exact Hsame2 | done | done | done].
Qed.

Lemma drain_spec (cs : commitState) :
  commitState_wf cs ->
  returns (commitState_drain cs) /\ forall cs' acts, commitState_drain cs = Ok (cs', acts) -> drained cs cs' acts.
Proof.
  intros Hwf. unfold commitState_drain. rewrite (window_mul cs Hwf).
  destruct (drainLoop_spec (S (Z.to_nat (windowEnd cs - cs_lastAppliedCommit cs))) cs [] Hwf) as [Hr Hs]; [lia |].
  split; [done |]. intros cs' acts H. by destruct (Hs _ _ H) as (more & -> & Hd).
Qed.

(** [commit] sets one slot. *)
Lemma slotAt_set (cs cs' : commitState) (upper : bool) (offset s : Z) (q : QEntry) :
  commitState_wf cs -> 0 <= offset < ciOf (cs_activeState cs) ->
  cs_lowWatermark cs' = cs_lowWatermark cs -> cs_activeState cs' = cs_activeState cs ->
  cs_upperHalfCommits cs' = (if upper then <[Z.to_nat offset := Some q]> (cs_upperHalfCommits cs) else cs_upperHalfCommits cs) ->
  cs_lowerHalfCommits cs' = (if upper then cs_lowerHalfCommits cs else <[Z.to_nat offset := Some q]> (cs_lowerHalfCommits cs)) ->
  cs_lowWatermark cs < s <= windowEnd cs ->
  slotAt cs' s = if decide (s = cs_lowWatermark cs + 1 + offset + (if upper then ciOf (cs_activeState cs) else 0))
                 then Some q else slotAt cs s.
Proof.
  intros [] Hoff Hl Ha Hu Hlo Hs. unfold slotAt, windowEnd in *. rewrite Hl, Ha, Hu, Hlo. clear Hl Ha Hu Hlo.
  set (ci := ciOf (cs_activeState cs)) in *. set (low := cs_lowWatermark cs) in *.
  destruct (Z.leb_spec ci (s - low - 1)); destruct upper; case_decide as Hd; try done.
  - rewrite list_lookup_insert, decide_True by lia. done.
  - rewrite list_lookup_insert_ne by lia. done.
  - lia.
  - lia.
  - rewrite list_lookup_insert, decide_True by lia. done.
  - rewrite list_lookup_insert_ne by lia. done.
Qed.

(** [commit] finds the slot of its sequence number. *)
Lemma commit_slot (cs : commitState) (q : QEntry) :
  commitState_wf cs -> cs_transferring cs = false -> q_SeqNo q <= cs_stopAtSeqNo cs ->
  cs_lowWatermark cs < q_SeqNo q <= windowEnd cs -> 0 <= cs_highestCommit cs -> q_SeqNo q <= cs_highestCommit cs + 1 ->
  exists (upper : bool) (offset : Z) cs1, cs1 = cs <| cs_highestCommit := Z.max (cs_highestCommit cs) (q_SeqNo q) |>
    /\ 0 <= offset < ciOf (cs_activeState cs)
    /\ q_SeqNo q = cs_lowWatermark cs + 1 + offset + (if upper then ciOf (cs_activeState cs) else 0)
    /\ commitState_commit cs q =
       match slotAt cs (q_SeqNo q) with
       | Some old => _ ← assertTrue (bytesEqual (q_Digest old) (q_Digest q)) "previously committed a different digest"; Ok cs1
       | None => if (upper : bool) then Ok (cs1 <| cs_upperHalfCommits := <[Z.to_nat offset := Some q]> (cs_upperHalfCommits cs) |>)
                 else Ok (cs1 <| cs_lowerHalfCommits := <[Z.to_nat offset := Some q]> (cs_lowerHalfCommits cs) |>)
       end.
Proof.
  intros Hwf Ht Hstop Hs H0 Hnext. pose proof Hwf as [].
  set (cs1 := cs <| cs_highestCommit := Z.max (cs_highestCommit cs) (q_SeqNo q) |>).
  destruct (commitSlot_get cs (q_SeqNo q) Hwf Hs) as (up & off & Hslot & Hoff & Heq & Hget).
  exists up, off, cs1. split; [done |]. split; [done |]. split; [done |].
  assert (Hlen : Z.of_nat (length (if up then cs_upperHalfCommits cs else cs_lowerHalfCommits cs)) = ciOf (cs_activeState cs)).
  { by destruct up. }
  unfold commitState_commit. rewrite Ht. cbn [negb assertTrue mbind outcome_bind].
  destruct (Z.ltb_spec (cs_stopAtSeqNo cs) (q_SeqNo q)); [lia |]. cbn [negb assertTrue mbind outcome_bind].
  destruct (Z.leb_spec (q_SeqNo q) (cs_lowWatermark cs)); [lia |].
  assert (Hhigh : (if cs_highestCommit cs <? q_SeqNo q then
            _ ← assertTrue (cs_highestCommit cs +! 1 =? q_SeqNo q) "next commit should always be exactly one greater than the highest";
            Ok (cs <| cs_highestCommit := q_SeqNo q |>) else Ok cs) = Ok cs1).
  { subst cs1. destruct (Z.ltb_spec (cs_highestCommit cs) (q_SeqNo q)).
    - rewrite add64_small by lia. rewrite (proj2 (Z.eqb_eq _ _)) by lia. cbn. rewrite Z.max_r by lia. done.
    - rewrite Z.max_l by lia. by destruct cs. }
  rewrite Hhigh. cbn [mbind outcome_bind]. change (commitSlot cs1 (q_SeqNo q)) with (commitSlot cs (q_SeqNo q)).
  rewrite Hslot. cbn [mbind outcome_bind]. change (cs_upperHalfCommits cs1) with (cs_upperHalfCommits cs).
  change (cs_lowerHalfCommits cs1) with (cs_lowerHalfCommits cs). rewrite Hget. cbn [mbind outcome_bind].
  destruct (slotAt cs (q_SeqNo q)) as [old |]; [done |].
  unfold sliceSet. rewrite Hlen. destruct (Z.leb_spec 0 off); [| lia]. destruct (Z.ltb_spec off (ciOf (cs_activeState cs))); [| lia].
  cbn. by destruct up.
Qed.

(** ** Properties *)

(** [drain] delivers committed batches in order.  From a well-formed state
    it always returns or panics (it never loops), and what it returns is: the
    batches of consecutive sequence numbers from the one after the last applied,
    each the one that was committed there, up to the first gap or the end of the
    window and no further; and a checkpoint is requested exactly when the batch
    one checkpoint interval above the low watermark has been applied and none
    is pending, once, after that batch and before the next. *)
Theorem drain_delivers_in_order (cs : commitState) :
  commitState_wf cs ->
  returns (commitState_drain cs)
  /\ forall cs' acts, commitState_drain cs = Ok (cs', acts) -> drained cs cs' acts.
Proof. apply drain_spec. Qed.

(** committing a sequence of the window records it and nothing else.  The
    slot of its sequence number then holds it, or the entry of the same digest
    that was there; every other slot and the applied prefix are unchanged, the
    highest commit is raised to it, and the state stays well-formed.  A
    different digest for an occupied slot panics instead. *)
Theorem commit_records_entry (cs : commitState) (q : QEntry) :
  commitState_wf cs -> cs_transferring cs = false -> q_SeqNo q <= cs_stopAtSeqNo cs ->
  cs_lowWatermark cs < q_SeqNo q <= windowEnd cs -> 0 <= cs_highestCommit cs -> q_SeqNo q <= cs_highestCommit cs + 1 ->
  match slotAt cs (q_SeqNo q) with
  | Some old => if bytesEqual (q_Digest old) (q_Digest q)
      then commitState_commit cs q = Ok (cs <| cs_highestCommit := Z.max (cs_highestCommit cs) (q_SeqNo q) |>)
      else exists why, commitState_commit cs q = Panic why
  | None => exists cs', commitState_commit cs q = Ok cs' /\ commitState_wf cs'
      /\ (forall s, cs_lowWatermark cs < s <= windowEnd cs ->
            slotAt cs' s = if decide (s = q_SeqNo q) then Some q else slotAt cs s)
      /\ cs_highestCommit cs' = Z.max (cs_highestCommit cs) (q_SeqNo q)
      /\ cs_lastAppliedCommit cs' = cs_lastAppliedCommit cs /\ windowEnd cs' = windowEnd cs
  end.
Proof.
  intros Hwf Ht Hstop Hs H0 Hnext.
  destruct (commit_slot cs q Hwf Ht Hstop Hs H0 Hnext) as (up & off & cs1 & -> & Hoff & Heq & ->).
  destruct (slotAt cs (q_SeqNo q)) as [old |]; [destruct (bytesEqual _ _); cbn; eauto |].
  set (cs' := if up then _ else _).
  assert (Hcs' : exists cs2, cs' = Ok cs2 /\ cs_lowWatermark cs2 = cs_lowWatermark cs /\ cs_activeState cs2 = cs_activeState cs
    /\ cs_upperHalfCommits cs2 = (if up then <[Z.to_nat off := Some q]> (cs_upperHalfCommits cs) else cs_upperHalfCommits cs)
    /\ cs_lowerHalfCommits cs2 = (if up then cs_lowerHalfCommits cs else <[Z.to_nat off := Some q]> (cs_lowerHalfCommits cs))
    /\ cs_highestCommit cs2 = Z.max (cs_highestCommit cs) (q_SeqNo q) /\ cs_lastAppliedCommit cs2 = cs_lastAppliedCommit cs
    /\ cs_checkpointPending cs2 = cs_checkpointPending cs).
  { subst cs'. destruct up; eexists; (split; [reflexivity | done]). }
  destruct Hcs' as (cs2 & -> & Hl & Ha & Hu & Hlo & Hh & Hla & Hp).
  assert (Hslots : forall s, cs_lowWatermark cs < s <= windowEnd cs ->
            slotAt cs2 s = if decide (s = q_SeqNo q) then Some q else slotAt cs s).
  { intros s Hr. rewrite Heq. by apply slotAt_set. }
  assert (He : windowEnd cs2 = windowEnd cs) by (unfold windowEnd; by rewrite Hl, Ha).
  exists cs2. split; [done |]. split; [| auto]. destruct Hwf.
  split; rewrite ?He, ?Hl, ?Ha, ?Hla, ?Hp, ?Hu, ?Hlo; auto.
  - by destruct up; rewrite ?length_insert.
  - by destruct up; rewrite ?length_insert.
  - intros s q' Hr. rewrite Hslots by done. case_decide; [by intros [= <-] | auto].
Qed.

Lemma checkpointResult_slides (cs : commitState) (p : persisted) (result : EventCheckpointResult) :
  commitState_wf cs -> cs_transferring cs = false -> pst_log p <> [] ->
  ckr_SeqNo result = cs_lowWatermark cs + ciOf (cs_activeState cs) ->
  ciOf (ckr_NetworkState result) = ciOf (cs_activeState cs) ->
  ckr_SeqNo result <= cs_lastAppliedCommit cs -> windowEnd cs + ciOf (cs_activeState cs) + 1 < 2 ^ 64 ->
  exists cs' p' , commitState_applyCheckpointResult cs p result
      = Ok (cs', p', [Action_AppendWriteAhead (pst_nextIndex p)
                        (Persistent_CEntry (mkCEntry (ckr_SeqNo result) (ckr_Value result) (ckr_NetworkState result)));
                      Action_Send (nc_Nodes (ns_Config (ckr_NetworkState result)))
                        (Msg_Checkpoint (mkCheckpoint (ckr_SeqNo result) (ckr_Value result)))])
    /\ commitState_wf cs' /\ cs_lowWatermark cs' = ckr_SeqNo result /\ cs_checkpointPending cs' = false
    /\ (forall s, ckr_SeqNo result < s <= windowEnd cs -> slotAt cs' s = slotAt cs s)
    /\ cs_stopAtSeqNo cs' = match ns_PendingReconfigurations (ckr_NetworkState result) with
                            | [] => windowEnd cs' | _ :: _ => cs_stopAtSeqNo cs end.
Proof.
  intros Hwf Ht Hlog Hseq Hci Happ Hov. pose proof Hwf as []. unfold windowEnd in *.
  set (ci := ciOf (cs_activeState cs)) in *.
  unfold commitState_applyCheckpointResult. rewrite Ht. fold ci.
  rewrite (add64_small (cs_lowWatermark cs) ci), <- Hseq, Z.eqb_refl by lia. cbn [negb].
  rewrite makeSlice_Ok by lia. cbn [mbind outcome_bind]. unfold persisted_addCEntry, persisted_appendLogEntry.
  destruct (pst_log p) eqn:Hp; [done |]. cbn [mbind outcome_bind].
  do 2 eexists. split; [reflexivity |].
  set (cs1 := match ns_PendingReconfigurations (ckr_NetworkState result) with [] => _ | _ :: _ => _ end).
  assert (H1 : cs_upperHalfCommits cs1 = cs_upperHalfCommits cs /\ cs_lastAppliedCommit cs1 = cs_lastAppliedCommit cs)
    by (subst cs1; by case_match).
  destruct H1 as [Hup Hla].
  set (cs' := cs1 <| cs_activeState := _ |> <| cs_lowerHalfCommits := _ |> <| cs_upperHalfCommits := _ |>
    <| cs_lowWatermark := _ |> <| cs_checkpointPending := _ |>).
  assert (Hslot : forall s, ckr_SeqNo result < s ->
     slotAt cs' s = if decide (s <= cs_lowWatermark cs + 2 * ci) then slotAt cs s else None).
  { intros s Hs. unfold slotAt. cbn. rewrite Hci, Hup. fold ci.
    destruct (Z.leb_spec ci (s - ckr_SeqNo result - 1)); case_decide; try lia.
    - destruct (replicate _ _ !! _) as [x |] eqn:E; [| done]. by apply lookup_replicate in E as [-> _].
    - destruct (Z.leb_spec ci (s - cs_lowWatermark cs - 1)); [| lia]. do 3 f_equal. lia. }
  split; [| split; [done | split; [done |]]].
  - unfold windowEnd. split; unfold windowEnd; cbn; rewrite ?Hci, ?Hup, ?Hla, ?length_replicate; fold ci; try lia.
    intros s q Hs. rewrite Hslot by lia. case_decide; [apply csw_slots0; lia | done].
  - split; [intros s Hs; by rewrite Hslot, decide_True by lia |]. cbn. unfold cs1. case_match; [| done]. cbn.
    rewrite Hci. fold ci. unfold mul64, add64. rewrite (u64_small (2 * ci)), u64_small by lia. done.
Qed.

(** A checkpoint result slides the window by one interval.  The result of
    the checkpoint at the low watermark plus the interval makes it the low
    watermark, keeps every committed entry above it, clears the pending flag
    so that the next checkpoint can be requested, extends the stop sequence to
    the end of the new window unless a reconfiguration is pending, and returns
    the checkpoint's log entry together with its broadcast. *)
Theorem checkpointResult_slides_window (cs : commitState) (p : persisted) (result : EventCheckpointResult) :
  commitState_wf cs -> cs_transferring cs = false -> pst_log p <> [] ->
  ckr_SeqNo result = cs_lowWatermark cs + ciOf (cs_activeState cs) ->
  ciOf (ckr_NetworkState result) = ciOf (cs_activeState cs) ->
  ckr_SeqNo result <= cs_lastAppliedCommit cs -> windowEnd cs + ciOf (cs_activeState cs) + 1 < 2 ^ 64 ->
  exists cs' p' , commitState_applyCheckpointResult cs p result
      = Ok (cs', p', [Action_AppendWriteAhead (pst_nextIndex p)
                        (Persistent_CEntry (mkCEntry (ckr_SeqNo result) (ckr_Value result) (ckr_NetworkState result)));
                      Action_Send (nc_Nodes (ns_Config (ckr_NetworkState result)))
                        (Msg_Checkpoint (mkCheckpoint (ckr_SeqNo result) (ckr_Value result)))])
    /\ commitState_wf cs' /\ cs_lowWatermark cs' = ckr_SeqNo result /\ cs_checkpointPending cs' = false
    /\ (forall s, ckr_SeqNo result < s <= windowEnd cs -> slotAt cs' s = slotAt cs s)
    /\ cs_stopAtSeqNo cs' = match ns_PendingReconfigurations (ckr_NetworkState result) with
                            | [] => windowEnd cs' | _ :: _ => cs_stopAtSeqNo cs end.
Proof. apply checkpointResult_slides. Qed.

(** Three committed batches in a window of four, none applied yet. *)
Definition sampleBatch (seqNo : Z) : QEntry := mkQEntry seqNo (Some [seqNo]) [].
Definition sampleState : NetworkState := mkNetworkState (mkConfig [0; 1; 2; 3] 2 100 4 1) [] [] false.
Definition sampleCommits (lastApplied : Z) : commitState :=
  mkCommitState ∅ 0 lastApplied 3 4 sampleState [Some (sampleBatch 1); Some (sampleBatch 2)]
    [Some (sampleBatch 3); None] false false.

Lemma sampleCommits_wf (lastApplied : Z) : 0 <= lastApplied <= 2 -> commitState_wf (sampleCommits lastApplied).
Proof.
  intros Hla. split; try (vm_compute; done); cbn -[windowEnd slotAt].
  - intros s q Hs. change (windowEnd (sampleCommits lastApplied)) with 4 in Hs.
    assert (s = 1 \/ s = 2 \/ s = 3 \/ s = 4) as [-> | [-> | [-> | ->]]] by lia; vm_compute; intros [= <-]; done.
  - change (windowEnd (sampleCommits lastApplied)) with 4. lia.
  - change (ciOf sampleState) with 2. lia.
Qed.

Lemma drain_delivers_in_order_witness :
  exists cs' acts, commitState_drain (sampleCommits 0) = Ok (cs', acts)
    /\ q_SeqNo <$> deliveries acts = [1; 2; 3] /\ drained (sampleCommits 0) cs' acts.
Proof.
  destruct (drain_delivers_in_order (sampleCommits 0) (sampleCommits_wf 0 ltac:(lia))) as [_ H].
  destruct (commitState_drain (sampleCommits 0)) as [[cs' acts] | why |] eqn:E.
  - exists cs', acts. split; [reflexivity |]. split; [| exact (H _ _ eq_refl)].
    vm_compute in E. injection E as <- <-. reflexivity.
  - vm_compute in E. discriminate E.
  - vm_compute in E. discriminate E.
Defined.

Lemma commit_records_entry_witness :
  exists cs', commitState_commit (sampleCommits 0) (sampleBatch 4) = Ok cs' /\ slotAt cs' 4 = Some (sampleBatch 4).
Proof.
  destruct (commit_records_entry (sampleCommits 0) (sampleBatch 4) (sampleCommits_wf 0 ltac:(lia)) eq_refl
    ltac:(vm_compute; done) ltac:(vm_compute; done) ltac:(vm_compute; done) ltac:(vm_compute; done))
    as (cs' & H & _ & Hs & _).
  exists cs'. split; [exact H |]. rewrite Hs; [reflexivity |]. split; vm_compute; [reflexivity | discriminate].
Defined.

Lemma checkpointResult_slides_window_witness :
  exists cs' p' acts, commitState_applyCheckpointResult (sampleCommits 2) sampleLog (mkCheckpointResult 2 (Some [5]) sampleState false)
      = Ok (cs', p', acts) /\ cs_lowWatermark cs' = 2 /\ slotAt cs' 3 = Some (sampleBatch 3).
Proof.
  destruct (checkpointResult_slides_window (sampleCommits 2) sampleLog (mkCheckpointResult 2 (Some [5]) sampleState false)
    (sampleCommits_wf 2 ltac:(lia)) eq_refl ltac:(discriminate) eq_refl eq_refl ltac:(vm_compute; discriminate) ltac:(vm_compute; reflexivity))
    as (cs' & p' & H & _ & Hl & _ & Hs & _).
  exists cs', p'. eexists. split; [exact H |]. split; [exact Hl |]. rewrite Hs; [reflexivity |].
  split; vm_compute; [reflexivity | discriminate].
Defined.
