(* ===== verification/BatchTracker.v ===== *)
(** * Batch tracker

    [pkg/statemachine/batch_tracker.go]: the batches known by digest, the
    sequence numbers each was observed at, and the fetches in flight during an
    epoch change.  A caller that updates the [observedSequences] of the batch
    [getBatch] returned goes through [batchTracker_observe]. *)
From S2P Require Import Prelude Msgs Actions EpochChange Persisted.

(** ** Data *)

Record batch := mkBatch {
  b_observedSequences : gset Z;
  b_requestAcks : list RequestAck;
}.

#[global] Instance eta_batch : Eta batch := mkEta (fun r => mkBatch (b_observedSequences r) (b_requestAcks r)).

Record batchTracker := mkBatchTracker {
  bt_batchesByDigest : gmap bytes batch;
  bt_fetchInFlight : gmap bytes (list Z);
}.

#[global] Instance eta_batchTracker : Eta batchTracker := mkEta (fun r =>
  mkBatchTracker (bt_batchesByDigest r) (bt_fetchInFlight r)).

(** ** Operations *)

Definition newBatchTracker : batchTracker := mkBatchTracker ∅ ∅.

(** The batch known for a digest, created with the given requests if there is
    none. *)
Definition batchOrNew (bt : batchTracker) (digest : slice) (requestAcks : list RequestAck) : batch :=
  match bt_batchesByDigest bt !! str digest with
  | Some b => b
  | None => mkBatch ∅ requestAcks
  end.

Definition batchTracker_addBatch (bt : batchTracker) (seqNo : Z) (digest : slice) (requestAcks : list RequestAck)
    : batchTracker :=
  let b := batchOrNew bt digest requestAcks in
  let '(b, fetchInFlight) :=
    match bt_fetchInFlight bt !! str digest with
    | Some inFlight =>
      (b <| b_observedSequences ::= fun o => o ∪ list_to_set inFlight |>, delete (str digest) (bt_fetchInFlight bt))
    | None => (b, bt_fetchInFlight bt)
    end in
  let b := b <| b_observedSequences ::= fun o => {[seqNo]} ∪ o |> in
  mkBatchTracker (<[str digest := b]> (bt_batchesByDigest bt)) fetchInFlight.

Definition batchTracker_reinitialize (bt : batchTracker) (p : persisted) : outcome batchTracker :=
  persisted_iterate p ((emptyIterator batchTracker)
    <| onQEntry := fun qEntry bt => Ok (batchTracker_addBatch bt (q_SeqNo qEntry) (q_Digest qEntry) (q_Requests qEntry)) |>) bt.

(** The observed sequences at or above [seqNo]; none left removes the batch. *)
Definition truncateBatch (seqNo : Z) (b : batch) : option batch :=
  let observed := filter (fun seq => seqNo <= seq) (b_observedSequences b) in
  if decide (observed = ∅) then None else Some (b <| b_observedSequences := observed |>).

Definition batchTracker_truncate (bt : batchTracker) (seqNo : Z) : batchTracker :=
  bt <| bt_batchesByDigest ::= omap (truncateBatch seqNo) |>.

Definition batchTracker_getBatch (bt : batchTracker) (digest : slice) : option batch :=
  bt_batchesByDigest bt !! str digest.

Definition batchTracker_observe (bt : batchTracker) (digest : slice) (seqNo : Z) : batchTracker :=
  bt <| bt_batchesByDigest ::= alter (fun b => b <| b_observedSequences ::= fun o => {[seqNo]} ∪ o |>) (str digest) |>.

Definition batchTracker_fetchBatch (bt : batchTracker) (seqNo : Z) (digest : slice) (sources : list Z)
    : batchTracker * ActionList :=
  let inFlight := default [] (bt_fetchInFlight bt !! str digest) in
  if decide (seqNo ∈ inFlight) then (bt, [])
  else
    (bt <| bt_fetchInFlight ::= <[str digest := inFlight ++ [seqNo]]> |>,
     ActionList_Send [] sources (Msg_FetchBatch (mkFetchBatch seqNo digest))).

Definition batchTracker_replyFetchBatch (bt : batchTracker) (source seqNo : Z) (digest : slice) : ActionList :=
  match batchTracker_getBatch bt digest with
  | None => []
  | Some batch =>
    ActionList_Send [] [source] (Msg_ForwardBatch (mkForwardBatch seqNo (b_requestAcks batch) digest))
  end.

Definition batchTracker_applyForwardBatchMsg (bt : batchTracker) (source seqNo : Z) (digest : slice)
    (requestAcks : list RequestAck) : ActionList :=
  match bt_fetchInFlight bt !! str digest with
  | None => []
  | Some _ =>
    ActionList_Hash [] (ra_Digest <$> requestAcks)
      (HashOrigin_isVerifyBatch (mkHashVerifyBatch source seqNo requestAcks digest))
  end.

Definition batchTracker_applyVerifyBatchHashResult (bt : batchTracker) (digest : slice)
    (verifyBatch : HashOrigin_VerifyBatch) : outcome batchTracker :=
  if negb (bytesEqual (hv_ExpectedDigest verifyBatch) digest) then Panic "byzantine"
  else
    match bt_fetchInFlight bt !! str digest with
    | None => Ok bt
    | Some inFlight =>
      let b := batchOrNew bt digest (hv_RequestAcks verifyBatch) in
      let b := b <| b_observedSequences ::= fun o => o ∪ list_to_set inFlight |> in
      Ok (mkBatchTracker (<[str digest := b]> (bt_batchesByDigest bt)) (delete (str digest) (bt_fetchInFlight bt)))
    end.

Definition batchTracker_hasFetchInFlight (bt : batchTracker) : bool :=
  (0 <? size (bt_fetchInFlight bt))%nat.

Definition batchTracker_step (bt : batchTracker) (source : Z) (msg : Msg) : outcome ActionList :=
  match msg with
  | Msg_FetchBatch m => Ok (batchTracker_replyFetchBatch bt source (fb_SeqNo m) (fb_Digest m))
  | Msg_ForwardBatch m =>
    Ok (batchTracker_applyForwardBatchMsg bt source (fwb_SeqNo m) (fwb_Digest m) (fwb_RequestAcks m))
  | _ => Panic "unexpected bad batch message type, this indicates a bug"
  end.

(** ** Specification *)

Section Integrity.

(** The consumer's hash function. *)
Context (hash : list slice -> slice).

(** The requests of a batch are those its digest is the hash of; the digest of
    a no-op batch is nil. *)
Definition authentic (d : bytes) (acks : list RequestAck) : Prop :=
  (d = [] /\ acks = []) \/ str (hash (ra_Digest <$> acks)) = d.

(** The operations the rest of the state machine performs on the tracker: a
    hash result carries the hash of the batch it was requested for, and the
    persisted batches are authentic. *)
Inductive btStep : batchTracker -> batchTracker -> Prop :=
| step_hashed bt seqNo acks :
    btStep bt (batchTracker_addBatch bt seqNo (hash (ra_Digest <$> acks)) acks)
| step_reinitialize bt p bt' :
    Forall (fun e => match e.2 with Persistent_QEntry q => authentic (str (q_Digest q)) (q_Requests q) | _ => True end) (pst_log p) ->
    batchTracker_reinitialize bt p = Ok bt' -> btStep bt bt'
| step_truncate bt seqNo : btStep bt (batchTracker_truncate bt seqNo)
| step_observe bt digest seqNo : btStep bt (batchTracker_observe bt digest seqNo)
| step_fetch bt seqNo digest sources : btStep bt (batchTracker_fetchBatch bt seqNo digest sources).1
| step_verified bt source seqNo acks expected bt' :
    batchTracker_applyVerifyBatchHashResult bt (hash (ra_Digest <$> acks)) (mkHashVerifyBatch source seqNo acks expected) = Ok bt' ->
    btStep bt bt'.

Inductive btReach : batchTracker -> Prop :=
| reach_start : btReach newBatchTracker
| reach_step bt bt' : btReach bt -> btStep bt bt' -> btReach bt'.

Record batchTracker_wf (bt : batchTracker) : Prop := {
  btw_authentic : forall d b, bt_batchesByDigest bt !! d = Some b -> authentic d (b_requestAcks b);
  btw_observed : forall d b, bt_batchesByDigest bt !! d = Some b -> b_observedSequences b <> ∅;
  btw_inFlight : forall d l, bt_fetchInFlight bt !! d = Some l -> NoDup l /\ l <> [];
}.

(** ** Lemmas *)

Lemma batchOrNew_acks (bt : batchTracker) (digest : slice) (acks : list RequestAck) :
  batchTracker_wf bt -> authentic (str digest) acks -> authentic (str digest) (b_requestAcks (batchOrNew bt digest acks)).
Proof. intros Hwf Ha. unfold batchOrNew. case_match; [by eapply btw_authentic | done]. Qed.

Lemma addBatch_wf (bt : batchTracker) (seqNo : Z) (digest : slice) (acks : list RequestAck) :
  batchTracker_wf bt -> authentic (str digest) acks -> batchTracker_wf (batchTracker_addBatch bt seqNo digest acks).
Proof.
  intros Hwf Ha. pose proof (batchOrNew_acks bt digest acks Hwf Ha) as Hb. destruct Hwf. unfold batchTracker_addBatch.
  destruct (bt_fetchInFlight bt !! str digest); split; cbn; intros d x.
  all: rewrite ?lookup_insert, ?lookup_delete_Some; try case_decide; try (intros [= <-]); cbn; subst; eauto; try set_solver.
  all: intros [? ?]; eauto.
Qed.

Lemma reinitialize_wf (log : list (Z * Persistent)) (bt bt' : batchTracker) (next : Z) :
  Forall (fun e => match e.2 with Persistent_QEntry q => authentic (str (q_Digest q)) (q_Requests q) | _ => True end) log ->
  batchTracker_wf bt -> batchTracker_reinitialize bt (mkPersisted next log) = Ok bt' -> batchTracker_wf bt'.
Proof.
  unfold batchTracker_reinitialize, persisted_iterate. cbn [pst_log].
  intros Hl. revert bt. induction Hl as [|[i e] log He _ IH]; intros bt Hwf H; cbn in H; [by injection H as <- |].
  destruct e; cbn in H; try (by apply IH in H); [| done]. apply IH in H; [done |]. by apply addBatch_wf.
Qed.

Lemma truncateBatch_Some (seqNo : Z) (b b' : batch) :
  truncateBatch seqNo b = Some b' <->
  b_requestAcks b' = b_requestAcks b
  /\ b_observedSequences b' = filter (fun seq => seqNo <= seq) (b_observedSequences b)
  /\ exists seq, seq ∈ b_observedSequences b /\ seqNo <= seq.
Proof.
  unfold truncateBatch. case_decide as He.
  - split; [done |]. intros (_ & _ & seq & Hs & Hle). exfalso.
    assert (Hin : seq ∈ filter (fun seq => seqNo <= seq) (b_observedSequences b)) by (by apply elem_of_filter).
    rewrite He in Hin. set_solver.
  - split.
    + intros [= <-]. cbn. split; [done |]. split; [done |]. apply set_choose_L in He as [x Hx].
      apply elem_of_filter in Hx as [? ?]. eauto.
    + intros (H1 & H2 & _). destruct b'; cbn in *. by subst.
Qed.

Lemma btStep_wf (bt bt' : batchTracker) : btStep bt bt' -> batchTracker_wf bt -> batchTracker_wf bt'.
Proof.
  intros Hs Hwf. destruct Hs as [bt seqNo acks | bt [next log] bt' Hl H | bt seqNo | bt digest seqNo | bt seqNo digest sources | bt source seqNo acks expected bt' H].
  - apply addBatch_wf; [done | by right].
  - by eapply reinitialize_wf.
  - destruct Hwf. split; cbn; [| | done]; intros d b; rewrite lookup_omap; intros (b0 & Hb0 & (Ha & Ho & seq & Hin & Hle)%truncateBatch_Some)%bind_Some.
    + rewrite Ha. eauto.
    + rewrite Ho. intros He. assert (seq ∈ (∅ : gset Z)); [| set_solver]. rewrite <- He. by apply elem_of_filter.
  - destruct Hwf. split; cbn; [| | done]; intros d b; rewrite lookup_alter; case_decide; eauto;
      intros (b0 & Hb0 & Heq)%fmap_Some; subst; cbn; [eauto | set_solver].
  - destruct Hwf. unfold batchTracker_fetchBatch. case_decide as Hin; [done |]. split; cbn; [done | done |].
    intros d l. rewrite lookup_insert. case_decide; [| eauto]. intros [= <-]. subst d.
    split; [| by destruct (default [] _)]. destruct (bt_fetchInFlight bt !! str digest) as [l |] eqn:E; cbn in *.
    + apply NoDup_app. destruct (btw_inFlight0 _ _ E) as [? _]. split; [done |].
      split; [by intros x Hx ->%list_elem_of_singleton | apply NoDup_singleton].
    + apply NoDup_singleton.
  - unfold batchTracker_applyVerifyBatchHashResult in H. case_match; [done |].
    destruct (bt_fetchInFlight bt !! _) as [inFlight |] eqn:E; [| by injection H as <-]. injection H as <-.
    pose proof (batchOrNew_acks bt (hash (ra_Digest <$> acks)) acks Hwf ltac:(by right)) as Hb. destruct Hwf.
    split; cbn; intros d x; rewrite ?lookup_insert, ?lookup_delete_Some; try case_decide; eauto.
    + intros [= <-]. cbn. by subst.
    + intros [= <-]. cbn. destruct (btw_inFlight0 _ _ E) as [_ Hne]. destruct inFlight; [done |]. set_solver.
    + intros [? ?]. eauto.
Qed.

Lemma btReach_wf (bt : batchTracker) : btReach bt -> batchTracker_wf bt.
Proof.
  intros H. induction H as [|bt bt' _ IH Hs]; [| by eapply btStep_wf].
  split; cbn; intros d x; rewrite lookup_empty; done.
Qed.

(** ** Properties *)

(** A batch known by a digest is the batch of that digest, and what is
    forwarded to a peer that asks for it is too.  Whatever batches peers
    forward, in every reachable state each stored batch's digest is the hash of
    its requests (or it is the no-op batch), was observed at some sequence, and
    every fetch in flight is for distinct sequences; the reply to a fetch
    carries the authentic requests. *)
Theorem batches_are_authentic (bt : batchTracker) :
  btReach bt ->
  batchTracker_wf bt
  /\ forall source seqNo digest targets m, Action_Send targets (Msg_ForwardBatch m) ∈ batchTracker_replyFetchBatch bt source seqNo digest ->
       targets = [source] /\ fwb_Digest m = digest /\ authentic (str digest) (fwb_RequestAcks m).
Proof.
  intros Hr. apply btReach_wf in Hr as Hwf. split; [done |]. intros source seqNo digest targets m.
  unfold batchTracker_replyFetchBatch, batchTracker_getBatch.
  destruct (bt_batchesByDigest bt !! str digest) as [b |] eqn:E; [| by intros []%elem_of_nil].
  intros Hm. apply list_elem_of_singleton in Hm. injection Hm as -> ->. cbn.
  split; [done |]. split; [done |]. by eapply btw_authentic.
Qed.

(** truncation keeps exactly the batches observed at or above the given
    sequence number, with their requests and exactly those observations. *)
Theorem truncate_keeps_recent_batches (bt : batchTracker) (seqNo : Z) (digest : slice) (b' : batch) :
  batchTracker_getBatch (batchTracker_truncate bt seqNo) digest = Some b' <->
  exists b, batchTracker_getBatch bt digest = Some b
    /\ b_requestAcks b' = b_requestAcks b
    /\ b_observedSequences b' = filter (fun seq => seqNo <= seq) (b_observedSequences b)
    /\ exists seq, seq ∈ b_observedSequences b /\ seqNo <= seq.
Proof.
  unfold batchTracker_getBatch, batchTracker_truncate. cbn. rewrite lookup_omap, bind_Some.
  split; intros (b & Hb & H); exists b; (split; [done |]); by apply truncateBatch_Some.
Qed.

(** A fetch that is answered makes the batch available.  After a fetch for
    a sequence, a verified batch of that digest (from whatever peer, delivered
    with whatever other requests in flight) is known, is observed at the
    sequence, and the fetch is no longer in flight. *)
Theorem fetched_batch_available (bt : batchTracker) (seqNo : Z) (digest : slice) (sources : list Z)
    (verify : HashOrigin_VerifyBatch) :
  str (hv_ExpectedDigest verify) = str digest ->
  exists bt' b, batchTracker_applyVerifyBatchHashResult (batchTracker_fetchBatch bt seqNo digest sources).1 digest verify = Ok bt'
    /\ batchTracker_getBatch bt' digest = Some b /\ seqNo ∈ b_observedSequences b
    /\ (batchTracker_getBatch bt digest = None -> b_requestAcks b = hv_RequestAcks verify)
    /\ bt_fetchInFlight bt' !! str digest = None.
Proof.
  intros Heq. set (bt1 := (batchTracker_fetchBatch bt seqNo digest sources).1).
  assert (H1 : bt_batchesByDigest bt1 = bt_batchesByDigest bt /\ exists l, bt_fetchInFlight bt1 !! str digest = Some l /\ seqNo ∈ l).
  { subst bt1. unfold batchTracker_fetchBatch. case_decide as Hin; cbn.
    - split; [done |]. destruct (bt_fetchInFlight bt !! str digest) as [l |]; [by exists l | by apply elem_of_nil in Hin].
    - split; [done |]. eexists. split; [by rewrite lookup_insert_eq |]. apply elem_of_app. right. by apply list_elem_of_singleton. }
  destruct H1 as [Hb1 (l & Hl & Hin)]. unfold batchTracker_applyVerifyBatchHashResult.
  rewrite (proj2 (bytesEqual_spec _ _) Heq), Hl. cbn.
  do 2 eexists. split; [done |]. unfold batchTracker_getBatch. cbn. rewrite lookup_insert_eq. split; [done |]. cbn.
  split; [set_solver |]. split; [| by rewrite lookup_delete_eq].
  unfold batchOrNew. rewrite Hb1. by intros ->.
Qed.

End Integrity.

Definition sampleTracker : batchTracker := batchTracker_addBatch newBatchTracker 3 (Some [9]) [mkAck 1 0 (Some [4])].

Lemma batches_are_authentic_witness : batchTracker_wf (fun _ => Some [9]) sampleTracker.
Proof.
  apply (batches_are_authentic (fun _ => Some [9])).
  apply (reach_step _ newBatchTracker); [constructor |]. exact (step_hashed (fun _ => Some [9]) newBatchTracker 3 [mkAck 1 0 (Some [4])]).
Defined.

Lemma fetched_batch_available_witness :
  exists bt' b, batchTracker_applyVerifyBatchHashResult (batchTracker_fetchBatch sampleTracker 5 (Some [7]) [1; 2]).1 (Some [7])
      (mkHashVerifyBatch 1 5 [] (Some [7])) = Ok bt' /\ batchTracker_getBatch bt' (Some [7]) = Some b /\ 5 ∈ b_observedSequences b.
Proof.
  destruct (fetched_batch_available sampleTracker 5 (Some [7]) [1; 2] (mkHashVerifyBatch 1 5 [] (Some [7])) eq_refl)
    as (bt' & b & H & Hb & Hs & _).
  exists bt', b. exact (conj H (conj Hb Hs)).
Defined.
