(* ===== verification/ClientTracker.v ===== *)
(** * Client tracker

    [pkg/statemachine/client_tracker.go]: the ready and available lists, both
    an [appendList]: a list with a single iterator that may be reset.  The
    proposer and the outstanding requests of the active epoch iterate over the
    tracker's lists through pointers to them, and are given the tracker. *)
From S2P Require Import Prelude Msgs Stateless ReqHeap.

(** ** The append list *)

Record appendList (A : Type) := mkAppendList {
  al_consumed : list A;
  al_pending : list A;
}.

Arguments mkAppendList {A}.
Arguments al_consumed {A}.
Arguments al_pending {A}.

#[global] Instance eta_appendList (A : Type) : Eta (appendList A) := mkEta (fun r =>
  mkAppendList (al_consumed r) (al_pending r)).

Section AppendList.

Context {A : Type}.

Definition newAppendList : appendList A := mkAppendList [] [].

Definition appendList_resetIterator (al : appendList A) : appendList A :=
  al <| al_pending := al_consumed al ++ al_pending al |> <| al_consumed := [] |>.

Definition appendList_hasNext (al : appendList A) : bool := (0 <? length (al_pending al))%nat.

Definition appendList_next (al : appendList A) : outcome (appendList A * A) :=
  match al_pending al with
  | [] => Panic "nil pointer dereference: pending.Front()"
  | value :: pending => Ok (mkAppendList (al_consumed al ++ [value]) pending, value)
  end.

Definition appendList_pushBack (al : appendList A) (value : A) : appendList A :=
  al <| al_pending := al_pending al ++ [value] |>.

(** The loop that removes the elements [gcFunc] selects from one list. *)
Fixpoint gcList (gcFunc : A -> outcome bool) (l : list A) : outcome (list A) :=
  match l with
  | [] => Ok []
  | x :: l' =>
    remove ← gcFunc x;
    rest ← gcList gcFunc l';
    Ok (if (remove : bool) then rest else x :: rest)
  end.

Definition appendList_garbageCollect (al : appendList A) (gcFunc : A -> outcome bool) : outcome (appendList A) :=
  consumed ← gcList gcFunc (al_consumed al);
  pending ← gcList gcFunc (al_pending al);
  Ok (mkAppendList consumed pending).

End AppendList.

(** ** The tracker *)

Abbreviation readyList := (appendList loc).
Abbreviation availableList := (appendList RequestAck).

Record clientTracker := mkClientTracker {
  ct_networkConfig : NetworkState_Config;
  ct_readyList : readyList;
  ct_availableList : availableList;
  ct_clientStates : list NetworkState_Client;
}.

#[global] Instance eta_clientTracker : Eta clientTracker := mkEta (fun r =>
  mkClientTracker (ct_networkConfig r) (ct_readyList r) (ct_availableList r) (ct_clientStates r)).

(** The lists are nil until [reinitialize]; no operation is reached before it. *)
Definition newClientTracker : clientTracker :=
  mkClientTracker (mkConfig [] 0 0 0 0) newAppendList newAppendList [].

Definition clientTracker_reinitialize (ct : clientTracker) (networkState : NetworkState) : clientTracker :=
  ct <| ct_networkConfig := ns_Config networkState |> <| ct_clientStates := ns_Clients networkState |>
     <| ct_availableList := newAppendList |> <| ct_readyList := newAppendList |>.

Definition clientTracker_addReady (ct : clientTracker) (crn : loc) : clientTracker :=
  ct <| ct_readyList := appendList_pushBack (ct_readyList ct) crn |>.

Definition clientTracker_addAvailable (ct : clientTracker) (req : RequestAck) : clientTracker :=
  ct <| ct_availableList := appendList_pushBack (ct_availableList ct) req |>.

Definition readyList_garbageCollect (h : reqHeap) (rl : readyList) (clientStates : gmap Z NetworkState_Client)
    : outcome readyList :=
  appendList_garbageCollect rl (fun value =>
    crn ← loadReqNo h value;
    state ← deref (clientStates !! crn_clientID crn) "client removal not yet supported";
    isCommitted (crn_reqNo crn) state).

Definition availableList_garbageCollect (al : availableList) (states : gmap Z NetworkState_Client)
    : outcome availableList :=
  appendList_garbageCollect al (fun ack =>
    state ← deref (states !! ra_ClientId ack) "any available client req must have client in config";
    isCommitted (ra_ReqNo ack) state).

Definition clientTracker_allocate (h : reqHeap) (ct : clientTracker) (state : NetworkState) : outcome clientTracker :=
  let stateMap := foldl (fun m client => <[cl_Id client := client]> m) (∅ : gmap Z NetworkState_Client) (ns_Clients state) in
  available ← availableList_garbageCollect (ct_availableList ct) stateMap;
  ready ← readyList_garbageCollect h (ct_readyList ct) stateMap;
  Ok (ct <| ct_availableList := available |> <| ct_readyList := ready |>).

(** ** Specification *)

(** The abstract list: its elements in the order they were pushed and the
    position of the iterator. *)
Record cursorList (A : Type) := mkCursor { cu_items : list A; cu_pos : nat }.
Arguments mkCursor {A}.
Arguments cu_items {A}.
Arguments cu_pos {A}.

Inductive listOp (A : Type) :=
| ListPush (x : A)
| ListNext
| ListReset
| ListGC (remove : A -> bool).
Arguments ListPush {A}.
Arguments ListNext {A}.
Arguments ListReset {A}.
Arguments ListGC {A}.

Section Refinement.

Context {A : Type}.

Definition cursorStep (c : cursorList A) (op : listOp A) : outcome (cursorList A * list A) :=
  match op with
  | ListPush x => Ok (mkCursor (cu_items c ++ [x]) (cu_pos c), [])
  | ListNext =>
    x ← deref (cu_items c !! cu_pos c) "nil pointer dereference: pending.Front()";
    Ok (mkCursor (cu_items c) (S (cu_pos c)), [x])
  | ListReset => Ok (mkCursor (cu_items c) 0, [])
  | ListGC remove =>
    Ok (mkCursor (filter (fun x => remove x = false) (cu_items c))
          (length (filter (fun x => remove x = false) (take (cu_pos c) (cu_items c)))), [])
  end.

Definition listStep (al : appendList A) (op : listOp A) : outcome (appendList A * list A) :=
  match op with
  | ListPush x => Ok (appendList_pushBack al x, [])
  | ListNext => '(al', x) ← appendList_next al; Ok (al', [x])
  | ListReset => Ok (appendList_resetIterator al, [])
  | ListGC remove => al' ← appendList_garbageCollect al (fun x => Ok (remove x)); Ok (al', [])
  end.

Fixpoint runOps {St : Type} (step : St -> listOp A -> outcome (St * list A)) (st : St) (ops : list (listOp A))
    : outcome (St * list A) :=
  match ops with
  | [] => Ok (st, [])
  | op :: ops' =>
    '(st1, out1) ← step st op;
    '(st2, out2) ← runOps step st1 ops';
    Ok (st2, out1 ++ out2)
  end.

Definition abstracts (al : appendList A) (c : cursorList A) : Prop :=
  cu_items c = al_consumed al ++ al_pending al /\ cu_pos c = length (al_consumed al).

Lemma gcList_filter (remove : A -> bool) (l : list A) :
  gcList (fun x => Ok (remove x)) l = Ok (filter (fun x => remove x = false) l).
Proof.
  induction l as [|x l IH]; [done |]. cbn [gcList]. cbn [mbind outcome_bind]. rewrite IH. cbn [mbind outcome_bind]. rewrite filter_cons.
  destruct (remove x); case_decide; done.
Qed.

(** One step of the list is one step of the abstract list. *)
Lemma listStep_sim (al : appendList A) (c : cursorList A) (op : listOp A) :
  abstracts al c ->
  match listStep al op, cursorStep c op with
  | Ok (al', out), Ok (c', out') => abstracts al' c' /\ out = out'
  | Panic w, Panic w' => w = w'
  | _, _ => False
  end.
Proof.
  intros [Hi Hp]. destruct op as [x | | | remove]; cbn.
  - split; [| done]. split; cbn; [by rewrite Hi, app_assoc | done].
  - unfold appendList_next. rewrite Hi, Hp. destruct (al_pending al) as [|y l] eqn:E; cbn.
    + by rewrite app_nil_r, lookup_ge_None_2.
    + rewrite list_lookup_middle by done. cbn. split; [| done]. split; cbn; [by rewrite <- app_assoc |].
      rewrite length_app. cbn. lia.
  - split; [| done]. by split.
  - unfold appendList_garbageCollect. rewrite !gcList_filter. cbn. split; [| done].
    split; cbn; rewrite Hi; [by rewrite filter_app |]. rewrite Hp, take_app_length. done.
Qed.

Lemma runOps_sim (ops : list (listOp A)) (al : appendList A) (c : cursorList A) :
  abstracts al c ->
  match runOps listStep al ops, runOps cursorStep c ops with
  | Ok (al', out), Ok (c', out') => abstracts al' c' /\ out = out'
  | Panic w, Panic w' => w = w'
  | _, _ => False
  end.
Proof.
  revert al c. induction ops as [|op ops IH]; intros al c Habs; cbn; [done |].
  pose proof (listStep_sim al c op Habs) as Hs.
  destruct (listStep al op) as [[al1 o1] | |], (cursorStep c op) as [[c1 o1'] | |]; cbn; try done.
  destruct Hs as [Habs1 ->]. specialize (IH al1 c1 Habs1).
  destruct (runOps listStep al1 ops) as [[al2 o2] | |], (runOps cursorStep c1 ops) as [[c2 o2'] | |]; cbn; try done.
  destruct IH as [? ->]. done.
Qed.

(** ** Properties *)

(** The append list implements a list with a cursor.  For every sequence of
    pushes, reads of the next element, resets of the iterator and garbage
    collections, from the empty list, the append list returns the same elements
    (or panics at the same read) as the abstract list that keeps all elements
    in the order they were pushed and a position: nothing is lost, duplicated
    or reordered by moving elements between its two parts. *)
Theorem appendList_refines_cursorList (ops : list (listOp A)) :
  match runOps listStep newAppendList ops, runOps cursorStep (mkCursor [] 0) ops with
  | Ok (al, out), Ok (c, out') => abstracts al c /\ out = out'
  | Panic w, Panic w' => w = w'
  | _, _ => False
  end.
Proof. by apply runOps_sim. Qed.

End Refinement.
