(* ===== verification/Proposer.v ===== *)
(** * Proposer

    [pkg/statemachine/proposer.go]: the per-bucket queues of requests this
    node proposes as a leader, filled from the client tracker's ready list.
    The lists hold pointers to [clientRequest] objects of the heap. *)
From S2P Require Import Prelude Msgs ReqHeap ClientTracker.

(** ** Data *)

Record proposalBucket := mkProposalBucket {
  prb_requestCount : Z;          (* uint32 *)
  prb_pending : list loc;
  prb_bucketID : Z;
  prb_checkpointInterval : Z;
  prb_currentCheckpoint : Z;
  prb_readyList : list loc;
  prb_nextReadyList : list loc;
}.

#[global] Instance eta_proposalBucket : Eta proposalBucket := mkEta (fun r =>
  mkProposalBucket (prb_requestCount r) (prb_pending r) (prb_bucketID r) (prb_checkpointInterval r)
    (prb_currentCheckpoint r) (prb_readyList r) (prb_nextReadyList r)).

Record proposer := mkProposer {
  pr_proposalBuckets : gmap Z proposalBucket;
  pr_totalBuckets : Z;   (* int *)
}.

#[global] Instance eta_proposer : Eta proposer := mkEta (fun r =>
  mkProposer (pr_proposalBuckets r) (pr_totalBuckets r)).

(** ** Operations *)

Definition newProposer (baseCheckpoint checkpointInterval : Z) (myConfig : EventInitialParameters)
    (ct : clientTracker) (buckets : gmap Z Z) : proposer * clientTracker :=
  let proposalBuckets := map_imap (fun bucketID id =>
      if negb (id =? ip_Id myConfig) then None
      else Some (mkProposalBucket (ip_BatchSize myConfig) [] bucketID checkpointInterval baseCheckpoint [] []))
    buckets in
  (mkProposer proposalBuckets (Z.of_nat (size buckets)),
   ct <| ct_readyList ::= appendList_resetIterator |>).

Definition proposalBucket_queueRequest (prb : proposalBucket) (validAfterSeqNo : Z) (cr : loc) : outcome proposalBucket :=
  if prb_currentCheckpoint prb >=? validAfterSeqNo then Ok (prb <| prb_readyList ::= fun l => l ++ [cr] |>)
  else
    _ ← assertTrue (validAfterSeqNo =? prb_currentCheckpoint prb +! prb_checkpointInterval prb)
          "requests should never ready beyond the next checkpoint interval";
    Ok (prb <| prb_nextReadyList ::= fun l => l ++ [cr] |>).

(** The loop that fills the pending batch from the ready list. *)
Fixpoint fillPending (requestCount : Z) (pending ready : list loc) : list loc * list loc :=
  if u32 (Z.of_nat (length pending)) <? requestCount then
    match ready with
    | [] => (pending, ready)
    | cr :: ready' => fillPending requestCount (pending ++ [cr]) ready'
    end
  else (pending, ready).

Definition proposalBucket_advance (prb : proposalBucket) (toSeqNo : Z) : proposalBucket :=
  let prb :=
    if toSeqNo >=? prb_currentCheckpoint prb +! prb_checkpointInterval prb then
      prb <| prb_currentCheckpoint ::= fun c => c +! prb_checkpointInterval prb |>
          <| prb_readyList ::= fun l => l ++ prb_nextReadyList prb |>
          <| prb_nextReadyList := [] |>
    else prb in
  let '(pending, ready) := fillPending (prb_requestCount prb) (prb_pending prb) (prb_readyList prb) in
  prb <| prb_pending := pending |> <| prb_readyList := ready |>.

Definition proposalBucket_hasOutstanding (prb : proposalBucket) (forSeqNo : Z) : proposalBucket * bool :=
  let prb := proposalBucket_advance prb forSeqNo in
  (prb, 0 <? u32 (Z.of_nat (length (prb_pending prb)))).

Definition proposalBucket_hasPending (prb : proposalBucket) (forSeqNo : Z) : proposalBucket * bool :=
  let prb := proposalBucket_advance prb forSeqNo in
  (prb, (0 <? Z.of_nat (length (prb_pending prb)))
        && (u32 (Z.of_nat (length (prb_pending prb))) =? prb_requestCount prb)).

Definition proposalBucket_next (prb : proposalBucket) : proposalBucket * list loc :=
  (prb <| prb_pending := [] |>, prb_pending prb).

Definition proposer_proposalBucket (p : proposer) (bucketID : Z) : option proposalBucket :=
  pr_proposalBuckets p !! bucketID.

(** One ready request number: queues its strong request, the null request if
    there are several. *)
Definition proposeReqNo (p : proposer) (crn : clientReqNo) (toSeqNo : Z) : outcome proposer :=
  if crn_committed crn then Ok p
  else
    bucketID ← umod (crn_reqNo crn +! crn_clientID crn) (u64 (pr_totalBuckets p));
    match pr_proposalBuckets p !! bucketID with
    | None => Ok p
    | Some prb =>
      let prb := proposalBucket_advance prb toSeqNo in
      prb ← (if (1 <? size (crn_strongRequests crn))%nat then
               nullReq ← deref (crn_strongRequests crn !! []) "if multiple requests have quorum, one must be the null request";
               proposalBucket_queueRequest prb (crn_validAfterSeqNo crn) nullReq
             else
               _ ← assertTrue (size (crn_strongRequests crn) =? 1)%nat "exactly one strong request must exist";
               match map_to_list (crn_strongRequests crn) with
               | (_, clientReq) :: _ => proposalBucket_queueRequest prb (crn_validAfterSeqNo crn) clientReq
               | [] => Ok prb
               end);
      Ok (p <| pr_proposalBuckets ::= <[bucketID := prb]> |>)
    end.

Fixpoint advanceProposer (fuel : nat) (h : reqHeap) (p : proposer) (ct : clientTracker) (toSeqNo : Z)
    : outcome (proposer * clientTracker) :=
  match fuel with
  | O => OutOfFuel
  | S fuel' =>
    if appendList_hasNext (ct_readyList ct) then
      '(rl, l) ← appendList_next (ct_readyList ct);
      crn ← loadReqNo h l;
      p ← proposeReqNo p crn toSeqNo;
      advanceProposer fuel' h p (ct <| ct_readyList := rl |>) toSeqNo
    else Ok (p, ct)
  end.

(** The loop consumes one pending element of the ready list per iteration. *)
Definition proposer_advance (h : reqHeap) (p : proposer) (ct : clientTracker) (toSeqNo : Z)
    : outcome (proposer * clientTracker) :=
  advanceProposer (S (length (al_pending (ct_readyList ct)))) h p ct toSeqNo.

(** ** Specification *)

(** All requests a bucket holds, in the order they will be proposed. *)
Definition bucketQueue (prb : proposalBucket) : list loc :=
  prb_pending prb ++ prb_readyList prb ++ prb_nextReadyList prb.

Definition proposalBucket_wf (prb : proposalBucket) : Prop :=
  0 <= prb_requestCount prb < 2 ^ 32 /\ Z.of_nat (length (prb_pending prb)) <= prb_requestCount prb.

Definition proposer_wf (p : proposer) : Prop :=
  0 < pr_totalBuckets p < 2 ^ 63 /\ forall b prb, pr_proposalBuckets p !! b = Some prb -> proposalBucket_wf prb.

Definition queueOf (p : proposer) (b : Z) : list loc :=
  match pr_proposalBuckets p !! b with Some prb => bucketQueue prb | None => [] end.

(** The request a ready request number contributes to bucket [b]. *)
Definition proposedFor (h : reqHeap) (total b : Z) (l : loc) : option loc :=
  match hp_reqNos h !! l with
  | None => None
  | Some crn =>
    if crn_committed crn then None
    else if negb ((crn_reqNo crn +! crn_clientID crn) mod total =? b) then None
    else if (1 <? size (crn_strongRequests crn))%nat then crn_strongRequests crn !! []
    else snd <$> head (map_to_list (crn_strongRequests crn))
  end.

(** ** Lemmas *)

Lemma fillPending_spec (n : Z) (ready pending : list loc) :
  0 <= n < 2 ^ 32 -> Z.of_nat (length pending) <= n ->
  let '(pending', ready') := fillPending n pending ready in
  pending' ++ ready' = pending ++ ready /\ Z.of_nat (length pending') <= n
  /\ (Z.of_nat (length pending') = n \/ ready' = []).
Proof.
  intros Hn. revert pending. induction ready as [|cr ready IH]; intros pending Hp; cbn [fillPending];
    unfold u32; rewrite Z.mod_small by lia; destruct (Z.ltb_spec (Z.of_nat (length pending)) n).
  - auto.
  - split; [done |]. split; [lia | by right].
  - specialize (IH (pending ++ [cr])). rewrite length_app in IH. cbn in IH. destruct (fillPending _ _ _) as [p' r'].
    destruct IH as (H1 & H2 & H3); [lia |]. split; [by rewrite H1, <- app_assoc | done].
  - split; [done |]. split; [lia | left; lia].
Qed.

(** Moving to a later sequence keeps the queue and fills the batch. *)
Lemma advance_spec (prb : proposalBucket) (toSeqNo : Z) :
  proposalBucket_wf prb ->
  proposalBucket_wf (proposalBucket_advance prb toSeqNo)
  /\ bucketQueue (proposalBucket_advance prb toSeqNo) = bucketQueue prb
  /\ prb_requestCount (proposalBucket_advance prb toSeqNo) = prb_requestCount prb
  /\ (Z.of_nat (length (prb_pending (proposalBucket_advance prb toSeqNo))) = prb_requestCount prb
      \/ prb_readyList (proposalBucket_advance prb toSeqNo) = []).
Proof.
  intros [Hn Hp]. unfold proposalBucket_advance.
  set (prb1 := if toSeqNo >=? _ then _ else prb).
  assert (H1 : prb_requestCount prb1 = prb_requestCount prb /\ prb_pending prb1 = prb_pending prb
     /\ prb_readyList prb1 ++ prb_nextReadyList prb1 = prb_readyList prb ++ prb_nextReadyList prb).
  { subst prb1. case_match; cbn; rewrite ?app_nil_r; done. }
  destruct H1 as (H1 & H2 & H3).
  pose proof (fillPending_spec (prb_requestCount prb1) (prb_readyList prb1) (prb_pending prb1)) as Hf.
  rewrite H1, H2 in *. destruct (fillPending _ _ _) as [p' r']. destruct Hf as (Hf1 & Hf2 & Hf3); [done | done |].
  unfold proposalBucket_wf, bucketQueue. cbn. rewrite H1. split; [done |]. split; [| done].
  rewrite app_assoc, Hf1, <- app_assoc. by rewrite H3.
Qed.

Lemma queueRequest_spec (prb prb' : proposalBucket) (validAfter : Z) (cr : loc) :
  proposalBucket_wf prb -> proposalBucket_queueRequest prb validAfter cr = Ok prb' ->
  proposalBucket_wf prb' /\ bucketQueue prb' ≡ₚ bucketQueue prb ++ [cr].
Proof.
  intros Hwf. unfold proposalBucket_queueRequest. case_match; intros H'; runs; (split; [done |]);
    unfold bucketQueue; cbn; solve_Permutation.
Qed.

Lemma queueOf_insert (p : proposer) (b b' : Z) (prb : proposalBucket) :
  queueOf (p <| pr_proposalBuckets ::= <[b := prb]> |>) b' = if decide (b = b') then bucketQueue prb else queueOf p b'.
Proof. unfold queueOf. cbn. rewrite lookup_insert. by case_decide. Qed.

Lemma proposer_wf_insert (p : proposer) (b : Z) (prb : proposalBucket) :
  proposer_wf p -> proposalBucket_wf prb -> proposer_wf (p <| pr_proposalBuckets ::= <[b := prb]> |>).
Proof.
  intros [Ht Hb] Hprb. split; [done |]. intros b' prb'. cbn. rewrite lookup_insert. case_decide; [by intros [= <-] | eauto].
Qed.

Lemma proposeReqNo_spec (h : reqHeap) (p p' : proposer) (l : loc) (crn : clientReqNo) (toSeqNo : Z) :
  proposer_wf p -> hp_reqNos h !! l = Some crn -> proposeReqNo p crn toSeqNo = Ok p' ->
  proposer_wf p' /\ pr_totalBuckets p' = pr_totalBuckets p
  /\ (forall b, is_Some (pr_proposalBuckets p' !! b) <-> is_Some (pr_proposalBuckets p !! b))
  /\ forall b, is_Some (pr_proposalBuckets p !! b) ->
       queueOf p' b ≡ₚ queueOf p b ++ option_list (proposedFor h (pr_totalBuckets p) b l).
Proof.
  intros Hwf Hl. unfold proposeReqNo, proposedFor. rewrite Hl.
  destruct (crn_committed crn); [intros [= <-]; rewrite ?app_nil_r; cbn; setoid_rewrite app_nil_r; done |].
  pose proof Hwf as [Ht Hbs]. rewrite (u64_small (pr_totalBuckets p)) by lia. rewrite umod_pos by lia. cbn [mbind outcome_bind].
  set (bid := (crn_reqNo crn +! crn_clientID crn) mod pr_totalBuckets p).
  destruct (pr_proposalBuckets p !! bid) as [prb |] eqn:Hb.
  2: { intros [= <-]. split; [done |]. split; [done |]. split; [done |]. intros b [prb Hprb].
       destruct (Z.eqb_spec bid b); [subst b; congruence |]. cbn. by rewrite app_nil_r. }
  destruct (advance_spec prb toSeqNo (Hbs _ _ Hb)) as (Hwf1 & Hq1 & _).
  set (prb1 := proposalBucket_advance prb toSeqNo) in *. intros H. apply bind_Ok in H as (prb2 & H2 & H). injection H as <-.
  assert (Hsel : exists cr, (if (1 <? size (crn_strongRequests crn))%nat then crn_strongRequests crn !! []
      else snd <$> head (map_to_list (crn_strongRequests crn))) = Some cr
      /\ proposalBucket_queueRequest prb1 (crn_validAfterSeqNo crn) cr = Ok prb2).
  { destruct (1 <? size (crn_strongRequests crn))%nat; runs; [eauto |].
    destruct (map_to_list (crn_strongRequests crn)) as [|[d cr] rest] eqn:Em; [| eauto].
    apply map_to_list_empty_iff in Em. rewrite Em, map_size_empty in *. done. }
  destruct Hsel as (cr & Hsel & Hq). destruct (queueRequest_spec _ _ _ _ Hwf1 Hq) as [Hwf2 Hq2].
  split; [by apply proposer_wf_insert |]. split; [done |]. split.
  - intros b. cbn. rewrite lookup_insert. case_decide; [subst b; rewrite Hb; split; eauto | done].
  - intros b Hown. rewrite queueOf_insert. destruct (Z.eqb_spec bid b) as [<- | Hne]; cbn [negb].
    + rewrite decide_True by done. rewrite Hsel. cbn. rewrite Hq2, Hq1. unfold queueOf. by rewrite Hb.
    + rewrite decide_False by done. by rewrite app_nil_r.
Qed.

Lemma advanceProposer_spec (fuel : nat) (h : reqHeap) (p : proposer) (ct : clientTracker) (toSeqNo : Z) :
  proposer_wf p -> (length (al_pending (ct_readyList ct)) < fuel)%nat ->
  returns (advanceProposer fuel h p ct toSeqNo)
  /\ forall p' ct', advanceProposer fuel h p ct toSeqNo = Ok (p', ct') ->
     al_consumed (ct_readyList ct') = al_consumed (ct_readyList ct) ++ al_pending (ct_readyList ct)
     /\ al_pending (ct_readyList ct') = []
     /\ proposer_wf p'
     /\ forall b, is_Some (pr_proposalBuckets p !! b) ->
          queueOf p' b ≡ₚ queueOf p b ++ omap (proposedFor h (pr_totalBuckets p) b) (al_pending (ct_readyList ct)).
Proof.
  revert p ct. induction fuel as [|fuel IH]; intros p ct Hwf Hf; [lia |]. cbn [advanceProposer].
  unfold appendList_hasNext, appendList_next. destruct (al_pending (ct_readyList ct)) as [|l pending] eqn:Hp; cbn.
  { split; [apply returns_Ok |]. intros p' ct' [= <- <-]. rewrite Hp, app_nil_r. setoid_rewrite app_nil_r. done. }
  unfold loadReqNo. destruct (hp_reqNos h !! l) as [crn |] eqn:Hl; cbn; [| done].
  assert (Hret : returns (proposeReqNo p crn toSeqNo)).
  { unfold proposeReqNo, proposalBucket_queueRequest. code_returns. }
  destruct (proposeReqNo p crn toSeqNo) as [p1 | why |] eqn:Hpr; cbn; [| done | done].
  destruct (proposeReqNo_spec h p p1 l crn toSeqNo Hwf Hl Hpr) as (Hwf1 & Ht1 & Hown1 & Hq1).
  destruct (IH p1 (ct <| ct_readyList := mkAppendList (al_consumed (ct_readyList ct) ++ [l]) pending |>) Hwf1) as [Hr2 Hs2].
  { cbn in *. lia. }
  split; [done |]. intros p' ct' H. destruct (Hs2 p' ct' H) as (H1 & H2 & H3 & H4). cbn in *.
  split; [by rewrite H1, <- app_assoc |]. split; [done |]. split; [done |].
  intros b Hb. rewrite (H4 b) by (by apply Hown1). rewrite (Hq1 b Hb), Ht1, <- app_assoc.
  destruct (proposedFor h (pr_totalBuckets p) b l); done.
Qed.

(** ** Properties *)

(** Advancing the proposer queues every ready request for its bucket and
    loses none.  It always returns or panics; when it returns, the ready list
    is consumed, and each bucket this node leads holds exactly the requests it
    held and the proposed request (the null request when several are strong) of
    every ready request number that is not committed and falls in the bucket,
    each once; no batch exceeds the configured size. *)
Theorem proposer_advance_queues_ready (h : reqHeap) (p : proposer) (ct : clientTracker) (toSeqNo : Z) :
  proposer_wf p ->
  returns (proposer_advance h p ct toSeqNo)
  /\ forall p' ct', proposer_advance h p ct toSeqNo = Ok (p', ct') ->
     al_consumed (ct_readyList ct') = al_consumed (ct_readyList ct) ++ al_pending (ct_readyList ct)
     /\ al_pending (ct_readyList ct') = []
     /\ proposer_wf p'
     /\ forall b, is_Some (pr_proposalBuckets p !! b) ->
          queueOf p' b ≡ₚ queueOf p b ++ omap (proposedFor h (pr_totalBuckets p) b) (al_pending (ct_readyList ct)).
Proof. intros Hwf. apply advanceProposer_spec; [done | lia]. Qed.

(** A bucket proposes its requests in order and in batches of the
    configured size.  Moving to a sequence number leaves the queue (pending
    batch, ready and next-ready requests) as it is and fills the pending batch
    up to the configured size or until no request is ready; taking the batch
    removes exactly the head of the queue, and a batch reported as pending is
    full. *)
Theorem proposalBucket_proposes_in_order (prb : proposalBucket) (forSeqNo : Z) :
  proposalBucket_wf prb ->
  let '(prb1, full) := proposalBucket_hasPending prb forSeqNo in
  let '(prb2, batch) := proposalBucket_next prb1 in
  bucketQueue prb = batch ++ bucketQueue prb2
  /\ Z.of_nat (length batch) <= prb_requestCount prb
  /\ (full = true -> Z.of_nat (length batch) = prb_requestCount prb)
  /\ (full = false -> prb_readyList prb1 = [] \/ prb_requestCount prb = 0)
  /\ proposalBucket_wf prb2.
Proof.
  intros Hwf. unfold proposalBucket_hasPending, proposalBucket_next.
  destruct (advance_spec prb forSeqNo Hwf) as ([Hn Hp] & Hq & Hc & Hfull).
  set (prb1 := proposalBucket_advance prb forSeqNo) in *. rewrite Hc in *.
  split; [by rewrite <- Hq |]. split; [done |].
  unfold u32. rewrite Z.mod_small by lia. split; [| split].
  - intros [_ H]%andb_true_iff. lia.
  - intros [H | H]%andb_false_iff; destruct Hfull as [Hf | Hf]; auto; right; lia.
  - unfold proposalBucket_wf. cbn. rewrite Hc. lia.
Qed.

Definition sampleBucket : proposalBucket := mkProposalBucket 2 [] 0 5 0 [10; 11; 12] [].

Lemma proposalBucket_proposes_in_order_witness :
  (proposalBucket_next (proposalBucket_hasPending sampleBucket 1).1).2 = [10; 11]
  /\ (let '(prb1, full) := proposalBucket_hasPending sampleBucket 1 in
      let '(prb2, batch) := proposalBucket_next prb1 in
      bucketQueue sampleBucket = batch ++ bucketQueue prb2).
Proof.
  split; [vm_compute; reflexivity |].
  exact (proj1 (proposalBucket_proposes_in_order sampleBucket 1 ltac:(split; cbn; lia))).
Defined.

Lemma proposer_advance_queues_ready_witness :
  let crn := mkClientReqNo (mkInitialParameters 0 2 1 1 1 1) (mkConfig [0] 5 10 1 0) 7 3 0 ∅ ∅ ∅ {[ [9] := 10 ]} ∅ false 0 0 in
  let h := mkReqHeap 2 ∅ {[ 1 := crn ]} in
  let ct := mkClientTracker (mkConfig [0] 5 10 1 0) (mkAppendList [] [1]) newAppendList [] in
  let p := mkProposer {[ 0 := sampleBucket ]} 1 in
  exists p' ct', proposer_advance h p ct 1 = Ok (p', ct') /\ queueOf p' 0 ≡ₚ [10; 11; 12; 10].
Proof.
  intros crn h ct p.
  destruct (proposer_advance_queues_ready h p ct 1) as [_ H].
  - split; [vm_compute; done |]. intros b prb. unfold p. cbn. intros [_ <-]%lookup_singleton_Some. split; cbn; lia.
  - destruct (proposer_advance h p ct 1) as [[p' ct'] | |] eqn:E; [| vm_compute in E; discriminate ..].
    exists p', ct'. split; [reflexivity |]. destruct (H p' ct' eq_refl) as (_ & _ & _ & Hq).
    etransitivity; [apply Hq; vm_compute; eexists; reflexivity |]. vm_compute. reflexivity.
Defined.
