(* ===== verification/Checkpoints.v ===== *)
(** * Checkpoint tracker

    [pkg/statemachine/checkpoints.go]: the checkpoint messages of all nodes,
    when a checkpoint becomes stable, and the window of active checkpoints.
    [checkpoint] objects are shared by pointer between the map by sequence
    number and the list of active checkpoints, so they live in a heap of their
    own.  The order in which [reinitialize] ranges over the two maps is a
    parameter. *)
From S2P Require Import Prelude Msgs Stateless EpochChange Persisted MsgBuffers.

(** ** Data *)

Inductive checkpointState := cpsIdle | cpsGarbageCollectable | cpsPendingReconfig | cpsStateTransfer.

#[global] Instance checkpointState_eq_dec : EqDecision checkpointState.
Proof. solve_decision. Defined.

Record checkpoint := mkCheckpointObj {
  cp_seqNo : Z;
  cp_networkConfig : NetworkState_Config;
  cp_values : gmap bytes (list Z);
  cp_committedValue : slice;
  cp_myValue : slice;
  cp_stable : bool;
}.

#[global] Instance eta_checkpoint : Eta checkpoint := mkEta (fun r =>
  mkCheckpointObj (cp_seqNo r) (cp_networkConfig r) (cp_values r) (cp_committedValue r) (cp_myValue r) (cp_stable r)).

Record checkpointTracker := mkCheckpointTracker {
  cpt_state : checkpointState;
  cpt_highestCheckpoints : gmap Z Z;
  cpt_checkpointMap : gmap Z Z;          (* seqNo to pointer *)
  cpt_activeCheckpoints : list Z;        (* pointers *)
  cpt_msgBuffers : gmap Z msgBuffer;
  cpt_networkConfig : option NetworkState_Config;
  cpt_myConfig : EventInitialParameters;
  cpt_nodeBuffers : nodeBuffers;
  cpt_heap : gmap Z checkpoint;
  cpt_nextLoc : Z;
}.

#[global] Instance eta_checkpointTracker : Eta checkpointTracker := mkEta (fun r =>
  mkCheckpointTracker (cpt_state r) (cpt_highestCheckpoints r) (cpt_checkpointMap r) (cpt_activeCheckpoints r)
    (cpt_msgBuffers r) (cpt_networkConfig r) (cpt_myConfig r) (cpt_nodeBuffers r) (cpt_heap r) (cpt_nextLoc r)).

Definition newCheckpointTracker (nbs : nodeBuffers) (myConfig : EventInitialParameters) : checkpointTracker :=
  mkCheckpointTracker cpsIdle ∅ ∅ [] ∅ None myConfig nbs ∅ 0.

(** ** One checkpoint *)

(** The new [stable] flag of [applyCheckpointMsg], or its panic. *)
Definition checkStable (cw : checkpoint) (value : slice) (agreements : Z) : outcome checkpoint :=
  if notNil (cp_myValue cw) && notNil (cp_committedValue cw) && negb (cp_stable cw) then
    if negb (bytesEqual value (cp_committedValue cw)) then
      Panic "my checkpoint disagrees with the committed network view of this checkpoint"
    else if agreements >=? intersectionQuorum (cp_networkConfig cw) then Ok (cw <| cp_stable := true |>)
    else Ok cw
  else Ok cw.

Definition checkpoint_applyCheckpointMsg (myId : Z) (cw : checkpoint) (source : Z) (value : slice) : outcome checkpoint :=
  let checkpointValueNodes := default [] (cp_values cw !! str value) ++ [source] in
  let cw := cw <| cp_values ::= <[str value := checkpointValueNodes]> |> in
  let agreements := Z.of_nat (length checkpointValueNodes) in
  let cw := if agreements =? someCorrectQuorum (cp_networkConfig cw)
            then cw <| cp_committedValue := value |> else cw in
  let cw := if source =? myId then cw <| cp_myValue := value |> else cw in
  checkStable cw value agreements.

(** ** The tracker *)

(** The object a pointer refers to. *)
Definition loadCheckpoint (ct : checkpointTracker) (l : Z) : outcome checkpoint :=
  deref (cpt_heap ct !! l) "nil pointer dereference: checkpoint".

Definition checkpointTracker_highWatermark (ct : checkpointTracker) : outcome Z :=
  l ← deref (last (cpt_activeCheckpoints ct)) "nil pointer dereference: activeCheckpoints.Back()";
  cp ← loadCheckpoint ct l;
  Ok (cp_seqNo cp).

Definition checkpointTracker_lowWatermark (ct : checkpointTracker) : outcome Z :=
  l ← deref (head (cpt_activeCheckpoints ct)) "nil pointer dereference: activeCheckpoints.Front()";
  cp ← loadCheckpoint ct l;
  Ok (cp_seqNo cp).

Definition checkpointTracker_checkpoint (ct : checkpointTracker) (seqNo : Z) : outcome (checkpointTracker * Z) :=
  match cpt_checkpointMap ct !! seqNo with
  | Some l => Ok (ct, l)
  | None =>
    nc ← deref (cpt_networkConfig ct) "nil pointer dereference: networkConfig";
    let l := cpt_nextLoc ct in
    let cp := mkCheckpointObj seqNo nc ∅ None None false in
    Ok (ct <| cpt_heap ::= <[l := cp]> |> <| cpt_nextLoc := l + 1 |> <| cpt_checkpointMap ::= <[seqNo := l]> |>, l)
  end.

(** [cp.applyCheckpointMsg] through a pointer. *)
Definition applyToCheckpoint (ct : checkpointTracker) (l source : Z) (value : slice) : outcome (checkpointTracker * checkpoint) :=
  cp ← loadCheckpoint ct l;
  cp ← checkpoint_applyCheckpointMsg (ip_Id (cpt_myConfig ct)) cp source value;
  Ok (ct <| cpt_heap ::= <[l := cp]> |>, cp).

(** The sequence numbers that must be kept above the window. *)
Definition referencedCPs (ct : checkpointTracker) : outcome (gset Z) :=
  active ← forRange (fun l s => cp ← loadCheckpoint ct l; Ok ({[cp_seqNo cp]} ∪ s)) (cpt_activeCheckpoints ct) (∅ : gset Z);
  Ok (active ∪ list_to_set (map_to_list (cpt_highestCheckpoints ct)).*2).

Definition checkpointTracker_applyCheckpointMsg (ct : checkpointTracker) (source seqNo : Z) (value : slice)
    : outcome checkpointTracker :=
  high ← checkpointTracker_highWatermark ct;
  let aboveHighWatermark := high <? seqNo in
  let known :=
    match cpt_highestCheckpoints ct !! source with Some highest => highest <=? seqNo | None => false end in
  if aboveHighWatermark && known then Ok ct
  else
    let ct := if aboveHighWatermark then ct <| cpt_highestCheckpoints ::= <[source := seqNo]> |> else ct in
    '(ct, l) ← checkpointTracker_checkpoint ct seqNo;
    '(ct, cp) ← applyToCheckpoint ct l source value;
    low ← checkpointTracker_lowWatermark ct;
    if cp_stable cp && (low <? seqNo) && negb aboveHighWatermark then Ok (ct <| cpt_state := cpsGarbageCollectable |>)
    else if negb aboveHighWatermark then Ok ct
    else
      referenced ← referencedCPs ct;
      Ok (ct <| cpt_checkpointMap ::= filter (fun kv => kv.1 ∈ referenced) |>).

Definition checkpointTracker_filter (ct : checkpointTracker) (msg : Msg) : outcome applyable :=
  match msg with
  | Msg_Checkpoint cpMsg =>
    low ← checkpointTracker_lowWatermark ct;
    high ← checkpointTracker_highWatermark ct;
    Ok (if ckp_SeqNo cpMsg <? low then past
        else if high <? ckp_SeqNo cpMsg then future
        else current)
  | _ => Panic "interface conversion: not a Checkpoint message"
  end.

Definition checkpointTracker_applyMsg (ct : checkpointTracker) (source : Z) (msg : Msg) : outcome checkpointTracker :=
  match msg with
  | Msg_Checkpoint m => checkpointTracker_applyCheckpointMsg ct source (ckp_SeqNo m) (ckp_Value m)
  | _ => Panic "unexpected bad checkpoint message type, this indicates a bug"
  end.

(** The longest stable prefix of the active checkpoints: how many elements
    precede the highest stable one, and that element. *)
Fixpoint highestStable (ct : checkpointTracker) (active : list Z) (before : nat) (found : option (nat * Z))
    : outcome (option (nat * Z)) :=
  match active with
  | [] => Ok found
  | l :: active' =>
    cp ← loadCheckpoint ct l;
    if negb (cp_stable cp) then Ok found
    else highestStable ct active' (S before) (Some (before, l))
  end.

(** [for ct.activeCheckpoints.Len() < 3]: at most three iterations. *)
Fixpoint extendActive (fuel : nat) (ct : checkpointTracker) : outcome checkpointTracker :=
  if (length (cpt_activeCheckpoints ct) <? 3)%nat then
    match fuel with
    | O => OutOfFuel
    | S fuel' =>
      high ← checkpointTracker_highWatermark ct;
      nc ← deref (cpt_networkConfig ct) "nil pointer dereference: networkConfig";
      '(ct, l) ← checkpointTracker_checkpoint ct (high +! u64 (nc_CheckpointInterval nc));
      extendActive fuel' (ct <| cpt_activeCheckpoints ::= fun a => a ++ [l] |>)
    end
  else Ok ct.

Section Tracker.

Context `{Size : ProtoSize}.

Definition checkpointTracker_step (ct : checkpointTracker) (source : Z) (msg : Msg) : outcome checkpointTracker :=
  v ← checkpointTracker_filter ct msg;
  match v with
  | past => Ok ct
  | future =>
    mb ← deref (cpt_msgBuffers ct !! source) "nil pointer dereference: msgBuffer";
    checkpointTracker_applyMsg (ct <| cpt_msgBuffers ::= <[source := msgBuffer_store mb msg]> |>) source msg
  | current => checkpointTracker_applyMsg ct source msg
  | invalid => Ok ct
  end.

Definition checkpointTracker_garbageCollect (ct : checkpointTracker) : outcome (checkpointTracker * Z) :=
  found ← highestStable ct (cpt_activeCheckpoints ct) 0 None;
  '(before, l) ← deref found "nil pointer dereference: highestStable";
  ct ← forRange (fun l ct => cp ← loadCheckpoint ct l; Ok (ct <| cpt_checkpointMap ::= delete (cp_seqNo cp) |>))
         (rev (take before (cpt_activeCheckpoints ct))) ct;
  ct ← extendActive 3 (ct <| cpt_activeCheckpoints ::= drop before |>);
  nc ← deref (cpt_networkConfig ct) "nil pointer dereference: networkConfig";
  ct ← forRange (fun id ct =>
         mb ← deref (cpt_msgBuffers ct !! id) "nil pointer dereference: msgBuffer";
         '(mb, ct) ← msgBuffer_iterate (fun ct _ msg => checkpointTracker_filter ct msg)
                       (fun source msg ct => checkpointTracker_applyMsg ct source msg) mb ct;
         Ok (ct <| cpt_msgBuffers ::= <[id := mb]> |>))
       (nc_Nodes nc) ct;
  cp ← loadCheckpoint ct l;
  Ok (ct <| cpt_state := cpsIdle |>, cp_seqNo cp).

(** The orders of the two ranges over the old checkpoints. *)
Class CheckpointOrders := {
  checkpointOrder : gmap Z Z -> list (Z * Z);
  valueOrder : gmap bytes (list Z) -> list (bytes * list Z);
}.

Context `{Orders : CheckpointOrders}.

(** [onCEntry] of [reinitialize]. *)
Definition loadCEntry (cEntry : CEntry) (ct : checkpointTracker) : outcome checkpointTracker :=
  let ct := match cpt_networkConfig ct with
            | None => ct <| cpt_networkConfig := Some (ns_Config (c_NetworkState cEntry)) |>
            | Some _ => ct
            end in
  '(ct, l) ← checkpointTracker_checkpoint ct (c_SeqNo cEntry);
  '(ct, _) ← applyToCheckpoint ct l (ip_Id (cpt_myConfig ct)) (c_CheckpointValue cEntry);
  Ok (ct <| cpt_activeCheckpoints ::= fun a => a ++ [l] |>).

(** The messages of an old checkpoint, applied again if still valid. *)
Definition reapply (validNodes : gset Z) (seqNo : Z) (old : checkpoint) (ct : checkpointTracker) : outcome checkpointTracker :=
  low ← checkpointTracker_lowWatermark ct;
  if seqNo <? low then Ok ct
  else
    forRange (fun '(value, agreements) ct =>
        forRange (fun node ct =>
            if bool_decide (node ∈ validNodes)
            then checkpointTracker_applyCheckpointMsg ct node seqNo (Some value) else Ok ct)
          agreements ct)
      (valueOrder (cp_values old)) ct.

Definition checkpointTracker_reinitialize (ct : checkpointTracker) (p : persisted) : outcome checkpointTracker :=
  let oldCheckpointMap := cpt_checkpointMap ct in
  let oldMsgBuffers := cpt_msgBuffers ct in
  let ct := ct <| cpt_highestCheckpoints := ∅ |> <| cpt_checkpointMap := ∅ |> <| cpt_activeCheckpoints := [] |>
               <| cpt_msgBuffers := ∅ |> <| cpt_networkConfig := None |> in
  ct ← persisted_iterate p ((emptyIterator checkpointTracker) <| onCEntry := loadCEntry |>) ct;
  front ← deref (head (cpt_activeCheckpoints ct)) "nil pointer dereference: activeCheckpoints.Front()";
  cp ← loadCheckpoint ct front;
  let ct := ct <| cpt_heap ::= <[front := cp <| cp_stable := true |>]> |> in
  nc ← deref (cpt_networkConfig ct) "nil pointer dereference: networkConfig";
  let buffers := foldl (fun m id =>
      <[id := match oldMsgBuffers !! id with
              | Some buffer => buffer
              | None => newMsgBuffer "checkpoints" (nodeBuffers_nodeBuffer (cpt_nodeBuffers ct) id)
              end]> m) ∅ (nc_Nodes nc) in
  let ct := ct <| cpt_msgBuffers := buffers |> in
  ct ← forRange (fun '(seqNo, l) ct => old ← loadCheckpoint ct l; reapply (list_to_set (nc_Nodes nc)) seqNo old ct)
         (checkpointOrder oldCheckpointMap) ct;
  '(ct, _) ← checkpointTracker_garbageCollect ct;
  Ok ct.

End Tracker.

(** ** Specification *)

(** A new checkpoint and the messages applied to it. *)
Definition freshCheckpoint (seqNo : Z) (nc : NetworkState_Config) : checkpoint := mkCheckpointObj seqNo nc ∅ None None false.

Definition applyAll (myId : Z) (cw : checkpoint) (msgs : list (Z * slice)) : outcome checkpoint :=
  forRange (fun m cw => checkpoint_applyCheckpointMsg myId cw m.1 m.2) msgs cw.

(** The senders of a value, in order and with repetitions. *)
Definition sendersOf (k : bytes) (msgs : list (Z * slice)) : list Z := (filter (fun m => str m.2 = k) msgs).*1.

Record checkpointInv (myId : Z) (nc : NetworkState_Config) (msgs : list (Z * slice)) (cw : checkpoint) : Prop := {
  ci_nc : cp_networkConfig cw = nc;
  ci_values : forall k, default [] (cp_values cw !! k) = sendersOf k msgs;
  ci_mine : notNil (cp_myValue cw) = true -> myId ∈ msgs.*1;
  ci_stable : cp_stable cw = true -> myId ∈ msgs.*1
    /\ exists k, intersectionQuorum nc <= Z.of_nat (length (sendersOf k msgs));
}.

(** What the messages leave alone: the active list, and what the pointers of
    the active list point to, but for the messages recorded there. *)
Record sameActive (ct ct' : checkpointTracker) : Prop := {
  sa_active : cpt_activeCheckpoints ct' = cpt_activeCheckpoints ct;
  sa_nc : cpt_networkConfig ct' = cpt_networkConfig ct;
  sa_heap : forall l cp, cpt_heap ct !! l = Some cp ->
    exists cp', cpt_heap ct' !! l = Some cp' /\ cp_seqNo cp' = cp_seqNo cp
      /\ (cp_stable cp = true -> cp_stable cp' = true);
  sa_fresh : cpt_nextLoc ct <= cpt_nextLoc ct';
}.

Definition checkpointTracker_wf (ct : checkpointTracker) : Prop :=
  forall l, cpt_nextLoc ct <= l -> cpt_heap ct !! l = None.

(** ** Lemmas *)

Lemma sendersOf_snoc (k : bytes) (msgs : list (Z * slice)) (m : Z * slice) :
  sendersOf k (msgs ++ [m]) = sendersOf k msgs ++ (if decide (str m.2 = k) then [m.1] else []).
Proof. unfold sendersOf. rewrite filter_app, fmap_app, filter_cons, filter_nil. f_equal. by case_decide. Qed.

Lemma checkStable_cases (cw cw' : checkpoint) (value : slice) (n : Z) :
  checkStable cw value n = Ok cw' ->
  cw' = cw \/ (cw' = cw <| cp_stable := true |> /\ intersectionQuorum (cp_networkConfig cw) <= n /\ notNil (cp_myValue cw) = true).
Proof.
  unfold checkStable. intros H. case_match eqn:Hc; [| injection H as <-; by left].
  case_match; [done |]. case_match; injection H as <-; [right | by left].
  split; [done |]. split; [lia |]. by apply andb_true_iff in Hc as [[? ?]%andb_true_iff ?].
Qed.

(** The updates of [applyCheckpointMsg] before the stability check. *)
Lemma applyCheckpointMsg_cases (myId : Z) (cw cw' : checkpoint) (source : Z) (value : slice) :
  checkpoint_applyCheckpointMsg myId cw source value = Ok cw' ->
  cp_seqNo cw' = cp_seqNo cw /\ cp_networkConfig cw' = cp_networkConfig cw
  /\ cp_values cw' = <[str value := default [] (cp_values cw !! str value) ++ [source]]> (cp_values cw)
  /\ (notNil (cp_myValue cw') = true -> notNil (cp_myValue cw) = true \/ source = myId)
  /\ (cp_stable cw' = cp_stable cw
      \/ (cp_stable cw' = true /\ notNil (cp_myValue cw') = true /\ intersectionQuorum (cp_networkConfig cw)
            <= Z.of_nat (length (default [] (cp_values cw !! str value) ++ [source])))).
Proof.
  unfold checkpoint_applyCheckpointMsg. intros H. apply checkStable_cases in H as Hc.
  set (cw2 := if source =? myId then _ else _) in *.
  assert (Hcw2 : cp_seqNo cw2 = cp_seqNo cw /\ cp_networkConfig cw2 = cp_networkConfig cw
    /\ cp_values cw2 = <[str value := default [] (cp_values cw !! str value) ++ [source]]> (cp_values cw)
    /\ (notNil (cp_myValue cw2) = true -> notNil (cp_myValue cw) = true \/ source = myId)
    /\ cp_stable cw2 = cp_stable cw).
  { subst cw2. destruct (Z.eqb_spec source myId); destruct (_ =? _); cbn; auto 10. }
  destruct Hcw2 as (H1 & H2 & H3 & H4 & H5).
  destruct Hc as [-> | (-> & Hq & Hm)]; cbn; rewrite ?H1, ?H2, ?H3, ?H5 in *; auto 10.
Qed.

Lemma applyCheckpointMsg_inv (myId : Z) (nc : NetworkState_Config) (msgs : list (Z * slice)) (cw cw' : checkpoint)
    (source : Z) (value : slice) :
  checkpointInv myId nc msgs cw -> checkpoint_applyCheckpointMsg myId cw source value = Ok cw' ->
  checkpointInv myId nc (msgs ++ [(source, value)]) cw'.
Proof.
  intros [] H. apply applyCheckpointMsg_cases in H as (_ & Hnc & Hv & Hm & Hs).
  assert (Hmine : notNil (cp_myValue cw') = true -> myId ∈ (msgs ++ [(source, value)]).*1).
  { intros [Hx | ->]%Hm; rewrite fmap_app, elem_of_app; [auto |]. right. by apply list_elem_of_singleton. }
  assert (Hval : forall k, default [] (cp_values cw' !! k) = sendersOf k (msgs ++ [(source, value)])).
  { intros k. rewrite Hv, sendersOf_snoc, lookup_insert. cbn. case_decide; cbn; subst; rewrite ?ci_values0, ?app_nil_r; done. }
  split; [congruence | done | done |]. intros Hst.
  destruct Hs as [Hs | (_ & Hmy & Hq)].
  - rewrite Hs in Hst. destruct (ci_stable0 Hst) as [Hin (k & Hk)]. split; [rewrite fmap_app, elem_of_app; auto |].
    exists k. rewrite sendersOf_snoc, length_app. lia.
  - split; [auto |]. exists (str value). rewrite ci_nc0, ci_values0 in Hq. rewrite sendersOf_snoc, decide_True by done. done.
Qed.

Lemma applyAll_inv (myId : Z) (nc : NetworkState_Config) (msgs done : list (Z * slice)) (cw cw' : checkpoint) :
  checkpointInv myId nc done cw -> applyAll myId cw msgs = Ok cw' -> checkpointInv myId nc (done ++ msgs) cw'.
Proof.
  revert done cw. induction msgs as [|[source value] msgs IH]; intros done cw Hinv H; cbn in H; runs; [by rewrite app_nil_r |].
  rewrite cons_middle, app_assoc. eapply IH; [| done]. by eapply applyCheckpointMsg_inv.
Qed.

Lemma fresh_inv (myId seqNo : Z) (nc : NetworkState_Config) : checkpointInv myId nc [] (freshCheckpoint seqNo nc).
Proof. by split. Qed.

(** ** Properties *)

(** C32: a checkpoint becomes stable only with a quorum.  Starting from a new
    checkpoint, if messages of distinct nodes make it stable, then this node's
    own message is among them and some one value was sent by an intersection
    quorum of distinct nodes. *)
Theorem stable_checkpoint_has_quorum (myId seqNo : Z) (nc : NetworkState_Config) (msgs : list (Z * slice)) (cw : checkpoint) :
  NoDup msgs.*1 -> applyAll myId (freshCheckpoint seqNo nc) msgs = Ok cw -> cp_stable cw = true ->
  myId ∈ msgs.*1 /\ exists k, intersectionQuorum nc <= Z.of_nat (size (list_to_set (sendersOf k msgs) : gset Z)).
Proof.
  intros Hnd H Hst. apply (applyAll_inv myId nc msgs []) in H; [| apply fresh_inv].
  destruct (ci_stable _ _ _ _ H Hst) as [Hin (k & Hk)]. split; [done |]. exists k.
  rewrite size_list_to_set; [done |]. unfold sendersOf. eapply sublist_NoDup; [exact Hnd |].
  apply fmap_sublist, sublist_filter.
Qed.

Definition checkpointNodes : NetworkState_Config := mkConfig [0; 1; 2; 3] 5 100 4 1.

Lemma stable_checkpoint_has_quorum_witness :
  exists cw, applyAll 0 (freshCheckpoint 5 checkpointNodes) [(1, Some [7]); (0, Some [7]); (2, Some [7])] = Ok cw
    /\ cp_stable cw = true
    /\ exists k, intersectionQuorum checkpointNodes <= Z.of_nat (size (list_to_set (sendersOf k [(1, Some [7]); (0, Some [7]); (2, Some [7])]) : gset Z)).
Proof.
  eexists. split; [vm_compute; reflexivity |]. split; [reflexivity |].
  eapply (stable_checkpoint_has_quorum 0 5); [| vm_compute; reflexivity | reflexivity].
  apply (bool_decide_unpack (NoDup [1; 0; 2])). vm_compute. exact I.
Defined.

(** A checkpoint that disagrees with this node's own can become stable.
    The check compares the value of the message at hand, not this node's own
    value, with the committed one: here this node's message precedes those of
    the other three, and the checkpoint becomes stable with the others' value
    without the panic that reports the disagreement. *)
Theorem divergent_checkpoint_goes_stable :
  exists msgs cw, NoDup msgs.*1 /\ applyAll 0 (freshCheckpoint 5 checkpointNodes) msgs = Ok cw
    /\ cp_stable cw = true /\ bytesEqual (cp_myValue cw) (cp_committedValue cw) = false.
Proof.
  exists [(0, Some [1]); (1, Some [2]); (2, Some [2]); (3, Some [2])]. eexists.
  split; [by apply (bool_decide_unpack (NoDup [0; 1; 2; 3])) |]. split; [vm_compute; reflexivity |]. vm_compute. done.
Qed.

(** Repeated messages of one node count as a quorum.  Here a checkpoint
    of a network of four becomes stable with messages of two nodes only, one of
    them sent twice. *)
Theorem repeated_checkpoint_message_goes_stable :
  exists msgs cw, applyAll 0 (freshCheckpoint 5 checkpointNodes) msgs = Ok cw
    /\ cp_stable cw = true /\ Z.of_nat (size (list_to_set msgs.*1 : gset Z)) = 2
    /\ intersectionQuorum checkpointNodes = 3.
Proof.
  exists [(0, Some [1]); (3, Some [1]); (3, Some [1])]. eexists.
  split; [vm_compute; reflexivity |]. vm_compute. done.
Qed.

(** ** The window of active checkpoints *)

Lemma sameActive_refl (ct : checkpointTracker) : sameActive ct ct.
Proof. split; [done | done | eauto | lia]. Qed.

Lemma sameActive_trans (ct1 ct2 ct3 : checkpointTracker) : sameActive ct1 ct2 -> sameActive ct2 ct3 -> sameActive ct1 ct3.
Proof.
  intros [] []. split; [congruence | congruence | | lia]. intros l cp Hl.
  destruct (sa_heap0 l cp Hl) as (cp' & Hl' & ? & ?). destruct (sa_heap1 l cp' Hl') as (cp'' & ? & ? & ?).
  exists cp''. split; [done |]. split; [congruence | auto].
Qed.

(** Only fields outside the window change. *)
Lemma sameActive_frame (ct ct' : checkpointTracker) :
  cpt_activeCheckpoints ct' = cpt_activeCheckpoints ct -> cpt_networkConfig ct' = cpt_networkConfig ct ->
  cpt_heap ct' = cpt_heap ct -> cpt_nextLoc ct' = cpt_nextLoc ct -> sameActive ct ct'.
Proof. intros H1 H2 H3 H4. split; rewrite ?H3; [done | done | eauto | lia]. Qed.

(** Preserves the window, and allocates only fresh pointers. *)
Definition keeps (ct ct' : checkpointTracker) : Prop :=
  checkpointTracker_wf ct -> sameActive ct ct' /\ checkpointTracker_wf ct'.

Lemma keeps_trans (ct1 ct2 ct3 : checkpointTracker) : keeps ct1 ct2 -> keeps ct2 ct3 -> keeps ct1 ct3.
Proof. intros H1 H2 Hwf. destruct (H1 Hwf) as [? Hwf2]. destruct (H2 Hwf2) as [? ?]. eauto using sameActive_trans. Qed.

Lemma checkpoint_keeps (ct ct' : checkpointTracker) (seqNo l : Z) :
  checkpointTracker_checkpoint ct seqNo = Ok (ct', l) -> keeps ct ct'.
Proof.
  unfold checkpointTracker_checkpoint. case_match; intros H'; runs; intros Hwf; [split; [apply sameActive_refl | done] |].
  split.
  - split; cbn; [done | done | | lia]. intros l' cp Hl. rewrite lookup_insert_ne; [eauto |].
    intros Heq. rewrite Hwf in Hl by lia. done.
  - intros l Hl. cbn in *. rewrite lookup_insert_ne by lia. apply Hwf. lia.
Qed.

Lemma applyToCheckpoint_keeps (ct ct' : checkpointTracker) (l source : Z) (value : slice) (cp' : checkpoint) :
  applyToCheckpoint ct l source value = Ok (ct', cp') -> keeps ct ct'.
Proof.
  unfold applyToCheckpoint, loadCheckpoint. intros H. apply bind_Ok in H as (cp & Hl & H). apply deref_Ok in Hl.
  apply bind_Ok in H as (cp2 & Ha & H). injection H as <- <-. intros Hwf.
  apply applyCheckpointMsg_cases in Ha as (Hseq & _ & _ & _ & Hst).
  split.
  - split; cbn; [done | done | | lia]. intros l' cp3 Hl'. rewrite lookup_insert. case_decide; [| eauto]. subst l'.
    rewrite Hl in Hl'. injection Hl' as <-. exists cp2. split; [done |]. split; [done |]. intros Hs.
    destruct Hst as [-> | (? & _)]; done.
  - intros l' Hl'. cbn in *. rewrite lookup_insert_ne; [by apply Hwf |]. intros ->. rewrite Hwf in Hl by done. done.
Qed.

Lemma applyCheckpointMsg_keeps (ct ct' : checkpointTracker) (source seqNo : Z) (value : slice) :
  checkpointTracker_applyCheckpointMsg ct source seqNo value = Ok ct' -> keeps ct ct'.
Proof.
  unfold checkpointTracker_applyCheckpointMsg. intros H. apply bind_Ok in H as (high & _ & H).
  case_match; [injection H as <-; intros Hwf; split; [apply sameActive_refl | done] |].
  set (ct1 := if high <? seqNo then _ else ct) in *.
  assert (H1 : keeps ct ct1).
  { intros Hwf. subst ct1. destruct (high <? seqNo); split; try done; by apply sameActive_frame. }
  apply bind_Ok in H as ([ct2 l] & H2 & H). apply checkpoint_keeps in H2.
  apply bind_Ok in H as ([ct3 cp] & H3 & H). apply applyToCheckpoint_keeps in H3.
  apply bind_Ok in H as (low & _ & H).
  assert (H4 : keeps ct3 ct').
  { case_match; [| case_match].
    - injection H as <-. intros Hwf. split; [by apply sameActive_frame | done].
    - injection H as <-. intros Hwf. split; [apply sameActive_refl | done].
    - apply bind_Ok in H as (r & _ & H). injection H as <-. intros Hwf. split; [by apply sameActive_frame | done]. }
  eauto using keeps_trans.
Qed.

Lemma applyMsg_keeps (ct ct' : checkpointTracker) (source : Z) (msg : Msg) :
  checkpointTracker_applyMsg ct source msg = Ok ct' -> keeps ct ct'.
Proof. destruct msg; cbn; try done. apply applyCheckpointMsg_keeps. Qed.

(** Whether the checkpoint a pointer refers to is stable. *)
Definition stableAt (ct : checkpointTracker) (l : Z) : Prop :=
  exists cp, cpt_heap ct !! l = Some cp /\ cp_stable cp = true.

Lemma highestStable_spec (ct : checkpointTracker) (active : list Z) (pre : list Z) (found r : option (nat * Z)) :
  highestStable ct active (length pre) found = Ok r ->
  (active = [] \/ (exists l rest cp, active = l :: rest /\ cpt_heap ct !! l = Some cp /\ cp_stable cp = false)) /\ r = found
  \/ exists mid l post, active = mid ++ l :: post /\ Forall (stableAt ct) (mid ++ [l])
       /\ r = Some (length (pre ++ mid), l)
       /\ (post = [] \/ exists l' post' cp, post = l' :: post' /\ cpt_heap ct !! l' = Some cp /\ cp_stable cp = false).
Proof.
  revert pre found. induction active as [|l active IH]; intros pre found H; cbn in H.
  { injection H as <-. left. auto. }
  apply bind_Ok in H as (cp & Hl & H). apply deref_Ok in Hl. destruct (cp_stable cp) eqn:Hst; cbn in H.
  2: { injection H as <-. left. split; [right; eauto 10 | done]. }
  replace (S (length pre)) with (length (pre ++ [l])) in H by (rewrite length_app; cbn; lia).
  right. apply IH in H as [[Hend ->] | (mid & l' & post & -> & Hall & -> & Hpost)].
  - exists [], l, active. rewrite app_nil_r. split; [done |]. split; [repeat constructor; by exists cp |]. split; [done |].
    destruct Hend as [-> | (l' & rest & cp' & -> & ? & ?)]; [by left | right; eauto 10].
  - exists (l :: mid), l', post. split; [done |]. split; [constructor; [by exists cp | done] |].
    split; [| done]. do 2 f_equal. rewrite !length_app. cbn. lia.
Qed.

Lemma extendActive_spec (fuel : nat) (ct ct' : checkpointTracker) :
  extendActive fuel ct = Ok ct' ->
  checkpointTracker_wf ct ->
  checkpointTracker_wf ct' /\ (3 <= length (cpt_activeCheckpoints ct'))%nat
  /\ exists ext, cpt_activeCheckpoints ct' = cpt_activeCheckpoints ct ++ ext
    /\ sameActive ct (ct' <| cpt_activeCheckpoints := cpt_activeCheckpoints ct |>).
Proof.
  revert ct. induction fuel as [|fuel IH]; intros ct H Hwf; cbn [extendActive] in H; destruct (Nat.ltb_spec (length (cpt_activeCheckpoints ct)) 3); try done.
  1, 3: injection H as <-; split; [done |]; split; [lia |]; exists []; rewrite app_nil_r; split; [done | by destruct ct; apply sameActive_refl].
  apply bind_Ok in H as (high & _ & H). apply bind_Ok in H as (nc & _ & H).
  apply bind_Ok in H as ([ct1 l] & H1 & H). apply checkpoint_keeps in H1. destruct (H1 Hwf) as [Hs1 Hwf1].
  apply IH in H as (Hwf' & Hlen & ext & Hext & Hs2); [| done]. cbn in Hext.
  split; [done |]. split; [done |]. exists (l :: ext). rewrite Hext. rewrite (sa_active _ _ Hs1), <- app_assoc. split; [done |].
  destruct Hs1, Hs2. split; cbn in *; [done | congruence | | lia].
  intros l' cp Hl. destruct (sa_heap0 l' cp Hl) as (cp1 & Hl1 & ? & ?).
  destruct (sa_heap1 l' cp1 Hl1) as (cp2 & ? & ? & ?). exists cp2. split; [done |]. split; [congruence | auto].
Qed.

(** Garbage collection moves the window to the highest stable checkpoint.
    When it returns, the active checkpoints before the last of the leading
    stable ones are gone, that one is the new low watermark and is the
    sequence number returned, the next one (if any) is not stable, and the
    window has been extended to at least three checkpoints; the messages
    buffered for the extended window are applied without touching it. *)
Theorem garbageCollect_moves_window `{Size : ProtoSize} (ct ct' : checkpointTracker) (low : Z) :
  checkpointTracker_wf ct -> checkpointTracker_garbageCollect ct = Ok (ct', low) ->
  exists before l after ext,
    cpt_activeCheckpoints ct = before ++ l :: after
    /\ Forall (stableAt ct) (before ++ [l])
    /\ (after = [] \/ exists l' rest cp, after = l' :: rest /\ cpt_heap ct !! l' = Some cp /\ cp_stable cp = false)
    /\ cpt_activeCheckpoints ct' = l :: after ++ ext
    /\ (3 <= length (cpt_activeCheckpoints ct'))%nat
    /\ checkpointTracker_lowWatermark ct' = Ok low
    /\ cpt_state ct' = cpsIdle.
Proof.
  intros Hwf H. unfold checkpointTracker_garbageCollect in H.
  apply bind_Ok in H as (found & Hf & H). apply bind_Ok in H as ([n l] & Hd & H). apply deref_Ok in Hd. subst found.
  apply (highestStable_spec ct _ []) in Hf as [[_ ?] | (before & l' & after & Hact & Hst & Hn & Hafter)]; [done |].
  injection Hn as -> ->. rename l' into l. cbn [app] in H. rewrite Hact in H.
  rewrite take_app_length, drop_app_length in H || rewrite take_app_length in H.
  apply bind_Ok in H as (ct1 & H1 & H).
  assert (Hk1 : sameActive ct ct1 /\ checkpointTracker_wf ct1).
  { refine (forRange_inv (fun c => sameActive ct c /\ checkpointTracker_wf c) _ _ _ _ _ _ H1); [| by split; [apply sameActive_refl |]].
    intros x c c' _ [Hs Hw] Hstep. apply bind_Ok in Hstep as (cp & _ & Hstep). injection Hstep as <-.
    split; [| done]. eapply sameActive_trans; [exact Hs |]. by apply sameActive_frame. }
  destruct Hk1 as [Hs1 Hwf1]. set (ct1' := ct1 <| cpt_activeCheckpoints ::= _ |>) in H.
  assert (Hact1 : cpt_activeCheckpoints ct1' = l :: after).
  { subst ct1'. cbn. by rewrite (sa_active _ _ Hs1), Hact, drop_app_length. }
  apply bind_Ok in H as (ct2 & H2 & H). apply extendActive_spec in H2 as (Hwf2 & Hlen2 & ext & Hext & Hs2); [| done].
  rewrite Hact1 in Hext. apply bind_Ok in H as (nc & _ & H). apply bind_Ok in H as (ct3 & H3 & H).
  assert (Hk3 : sameActive ct2 ct3 /\ checkpointTracker_wf ct3).
  { refine (forRange_inv (fun c => sameActive ct2 c /\ checkpointTracker_wf c) _ _ _ _ _ _ H3); [| by split; [apply sameActive_refl |]].
    intros x c c' _ Hc Hstep. apply bind_Ok in Hstep as (mb & _ & Hstep).
    apply bind_Ok in Hstep as ([mb' c2] & Hit & Hstep). injection Hstep as <-.
    apply (iterate_inv (fun c => sameActive ct2 c /\ checkpointTracker_wf c)) in Hit as [Hs Hw]; [| | exact Hc].
    - split; [| done]. eapply sameActive_trans; [exact Hs |]. by apply sameActive_frame.
    - intros id m s s' [Hs Hw] Ha. apply applyMsg_keeps in Ha. destruct (Ha Hw) as [Hs' Hw'].
      split; [by eapply sameActive_trans | done]. }
  destruct Hk3 as [Hs3 Hwf3]. apply bind_Ok in H as (cp & Hcp & H). injection H as <- <-. apply deref_Ok in Hcp.
  exists before, l, after, ext. split; [done |]. split; [done |]. split; [done |].
  cbn. rewrite (sa_active _ _ Hs3), Hext. split; [done |]. split; [by rewrite <- Hext |].
  split; [| done]. unfold checkpointTracker_lowWatermark, loadCheckpoint. cbn.
  rewrite (sa_active _ _ Hs3), Hext. cbn. by rewrite Hcp.
Qed.

(** A tracker with the checkpoints 0, 5 and 10 active, of which the first two
    are stable, and a message for checkpoint 15 buffered from node 1. *)
Definition sampleTracker : checkpointTracker :=
  let cfg := mkInitialParameters 0 1 1 1 1 1000 in
  let cp n st := mkCheckpointObj n checkpointNodes ∅ None None st in
  let mb id msgs := mkMsgBuffer "checkpoints" msgs (mkNodeBuffer id cfg (Z.of_nat (length msgs)) true) in
  mkCheckpointTracker cpsGarbageCollectable ∅ {[0 := 0; 5 := 1; 10 := 2]} [0; 1; 2]
    {[0 := mb 0 []; 1 := mb 1 [Msg_Checkpoint (mkCheckpoint 15 (Some [7]))]; 2 := mb 2 []; 3 := mb 3 []]}
    (Some checkpointNodes) cfg (newNodeBuffers cfg)
    {[0 := cp 0 true; 1 := cp 5 true; 2 := cp 10 false]} 3.

Lemma sampleTracker_wf : checkpointTracker_wf sampleTracker.
Proof. intros l Hl. cbn in *. rewrite !lookup_insert_ne by lia. by rewrite lookup_singleton_ne by lia. Qed.

Lemma garbageCollect_moves_window_witness :
  exists ct', @checkpointTracker_garbageCollect unitSize sampleTracker = Ok (ct', 5)
    /\ cpt_activeCheckpoints ct' = [1; 2; 3] /\ checkpointTracker_lowWatermark ct' = Ok 5.
Proof.
  eexists. split; [vm_compute; reflexivity |]. split; [reflexivity |].
  edestruct (@garbageCollect_moves_window unitSize sampleTracker) as (b & l & a & e & _ & _ & _ & _ & _ & H & _);
    [exact sampleTracker_wf | vm_compute; reflexivity | exact H].
Defined.
