(* ===== verification/Outstanding.v ===== *)
(** * Outstanding requests

    [pkg/statemachine/outstanding.go]: which requests of the preprepared
    batches this node is still waiting for, and the order in which a leader
    may propose the requests of a client.  Sequences are shared by pointer
    with the active epoch, so they live in a heap of their own; the available
    list is the one of the client tracker.  The number of buckets, an int32,
    is taken not to be negative. *)
From S2P Require Import Prelude Msgs Actions Stateless Persisted ReqHeap Sequence ClientTracker.

(** ** The heap of sequences *)

Record seqHeap := mkSeqHeap {
  sh_next : loc;
  sh_seqs : gmap loc sequence;
}.

#[global] Instance eta_seqHeap : Eta seqHeap := mkEta (fun r => mkSeqHeap (sh_next r) (sh_seqs r)).

Definition emptySeqHeap : seqHeap := mkSeqHeap 0 ∅.

Definition allocSequence (sh : seqHeap) (s : sequence) : seqHeap * loc :=
  (sh <| sh_seqs ::= <[sh_next sh := s]> |> <| sh_next := sh_next sh + 1 |>, sh_next sh).
Definition loadSequence (sh : seqHeap) (l : loc) : outcome sequence :=
  deref (sh_seqs sh !! l) "nil pointer dereference: sequence".
Definition storeSequence (sh : seqHeap) (l : loc) (s : sequence) : seqHeap :=
  sh <| sh_seqs ::= <[l := s]> |>.

(** Calls a method of the sequence a pointer refers to. *)
Definition onSequence (f : persisted -> sequence -> outcome (persisted * sequence * ActionList))
    (p : persisted) (sh : seqHeap) (l : loc) : outcome (persisted * seqHeap * ActionList) :=
  s ← loadSequence sh l;
  '(p, s, actions) ← f p s;
  Ok (p, storeSequence sh l s, actions).

(** ** Data *)

Record clientOutstandingReqs := mkClientOutstanding {
  co_nextReqNo : Z;
  co_numBuckets : Z;
  co_client : NetworkState_Client;
}.

#[global] Instance eta_clientOutstandingReqs : Eta clientOutstandingReqs := mkEta (fun r =>
  mkClientOutstanding (co_nextReqNo r) (co_numBuckets r) (co_client r)).

Record bucketOutstandingReqs := mkBucketOutstanding { bo_clients : gmap Z clientOutstandingReqs }.

#[global] Instance eta_bucketOutstandingReqs : Eta bucketOutstandingReqs := mkEta (fun r => mkBucketOutstanding (bo_clients r)).

Record allOutstandingReqs := mkAllOutstanding {
  ao_buckets : gmap Z bucketOutstandingReqs;
  ao_correctRequests : gmap bytes RequestAck;
  ao_outstandingRequests : gmap bytes loc;
}.

#[global] Instance eta_allOutstandingReqs : Eta allOutstandingReqs := mkEta (fun r =>
  mkAllOutstanding (ao_buckets r) (ao_correctRequests r) (ao_outstandingRequests r)).

(** ** Operations *)

Fixpoint skipCommitted (fuel : nat) (cors : clientOutstandingReqs) : outcome clientOutstandingReqs :=
  match fuel with
  | O => OutOfFuel
  | S fuel' =>
    c ← isCommitted (co_nextReqNo cors) (co_client cors);
    if negb c then Ok cors
    else skipCommitted fuel' (cors <| co_nextReqNo ::= fun n => n +! co_numBuckets cors |>)
  end.

(** Nothing beyond the window is committed, and every iteration advances. *)
Definition clientOutstandingReqs_skipPreviouslyCommitted (cors : clientOutstandingReqs) : outcome clientOutstandingReqs :=
  let client := co_client cors in
  skipCommitted (S (S (Z.to_nat (cl_LowWatermark client + cl_Width client - co_nextReqNo cors)))) cors.

Fixpoint advanceAvailable (fuel : nat) (h : reqHeap) (p : persisted) (sh : seqHeap) (ct : clientTracker)
    (ao : allOutstandingReqs) (actions : ActionList)
    : outcome (persisted * seqHeap * clientTracker * allOutstandingReqs * ActionList) :=
  match fuel with
  | O => OutOfFuel
  | S fuel' =>
    if appendList_hasNext (ct_availableList ct) then
      '(al, ack) ← appendList_next (ct_availableList ct);
      let ct := ct <| ct_availableList := al |> in
      let key := str (ra_Digest ack) in
      match ao_outstandingRequests ao !! key with
      | Some seq =>
        let ao := ao <| ao_outstandingRequests ::= delete key |> in
        '(p, sh, more) ← onSequence (fun p s => sequence_satisfyOutstanding h p s ack) p sh seq;
        advanceAvailable fuel' h p sh ct ao (ActionList_concat actions more)
      | None => advanceAvailable fuel' h p sh ct (ao <| ao_correctRequests ::= <[key := ack]> |>) actions
      end
    else Ok (p, sh, ct, ao, actions)
  end.

(** The loop consumes one pending element of the available list per iteration. *)
Definition allOutstandingReqs_advanceRequests (h : reqHeap) (p : persisted) (sh : seqHeap) (ct : clientTracker)
    (ao : allOutstandingReqs) : outcome (persisted * seqHeap * clientTracker * allOutstandingReqs * ActionList) :=
  advanceAvailable (S (length (al_pending (ct_availableList ct)))) h p sh ct ao [].

(** One request of a batch: the error of the source, or the updated tables and
    the requests the sequence has to wait for. *)
Definition applyAck (bucket : Z) (seq : loc) (req : RequestAck) (ao : allOutstandingReqs) (outstanding : gset bytes)
    : outcome (string + allOutstandingReqs * gset bytes) :=
  bo ← deref (ao_buckets ao !! bucket) "told to apply acks for bucket which does not exist";
  match bo_clients bo !! ra_ClientId req with
  | None => Ok (inl "no such client")
  | Some co =>
    if negb (co_nextReqNo co =? ra_ReqNo req) then Ok (inl "expected another next request")
    else
      let key := str (ra_Digest req) in
      let '(ao, outstanding) :=
        match ao_correctRequests ao !! key with
        | Some _ => (ao <| ao_correctRequests ::= delete key |>, outstanding)
        | None => (ao <| ao_outstandingRequests ::= <[key := seq]> |>, outstanding ∪ {[key]})
        end in
      co ← clientOutstandingReqs_skipPreviouslyCommitted
             (co <| co_nextReqNo ::= fun n => n +! co_numBuckets co |>);
      let bo := bo <| bo_clients ::= <[ra_ClientId req := co]> |> in
      Ok (inr (ao <| ao_buckets ::= <[bucket := bo]> |>, outstanding))
  end.

Fixpoint applyAckLoop (bucket : Z) (seq : loc) (batch : list RequestAck) (ao : allOutstandingReqs)
    (outstanding : gset bytes) : outcome (string + allOutstandingReqs * gset bytes) :=
  match batch with
  | [] => Ok (inr (ao, outstanding))
  | req :: batch' =>
    r ← applyAck bucket seq req ao outstanding;
    match r with
    | inl err => Ok (inl err)
    | inr (ao, outstanding) => applyAckLoop bucket seq batch' ao outstanding
    end
  end.

(** The caller panics on an error, so the state after one is not returned. *)
Definition allOutstandingReqs_applyAcks (h : reqHeap) (p : persisted) (sh : seqHeap) (ao : allOutstandingReqs)
    (bucket : Z) (seq : loc) (batch : list RequestAck)
    : outcome (string + persisted * seqHeap * allOutstandingReqs * ActionList) :=
  _ ← assertTrue (bool_decide (is_Some (ao_buckets ao !! bucket))) "told to apply acks for bucket which does not exist";
  r ← applyAckLoop bucket seq batch ao ∅;
  match r with
  | inl err => Ok (inl err)
  | inr (ao, outstanding) =>
    '(p, sh, actions) ← onSequence (fun p s => sequence_allocate h p s batch outstanding) p sh seq;
    Ok (inr (p, sh, ao, actions))
  end.

(** The first request number at or above the low watermark in the bucket, [0]
    if the search finds none. *)
Fixpoint firstInBucket (client : NetworkState_Client) (nc : NetworkState_Config) (i : Z) (js : list Z) : outcome Z :=
  match js with
  | [] => Ok 0
  | j :: js' =>
    let reqNo := cl_LowWatermark client +! u64 j in
    b ← clientReqToBucket (cl_Id client) reqNo nc;
    if b =? i then Ok reqNo else firstInBucket client nc i js'
  end.

Definition newBucketOutstanding (networkState : NetworkState) (i : Z) : outcome bucketOutstandingReqs :=
  let nc := ns_Config networkState in
  clients ← forRange (fun client clients =>
      firstUncommitted ← firstInBucket client nc i (seqZ 0 (nc_NumberOfBuckets nc));
      cors ← clientOutstandingReqs_skipPreviouslyCommitted
               (mkClientOutstanding firstUncommitted (u64 (nc_NumberOfBuckets nc)) client);
      Ok (<[cl_Id client := cors]> clients))
    (ns_Clients networkState) ∅;
  Ok (mkBucketOutstanding clients).

Definition newOutstandingReqs (h : reqHeap) (p : persisted) (sh : seqHeap) (ct : clientTracker)
    (networkState : NetworkState) : outcome (persisted * seqHeap * clientTracker * allOutstandingReqs) :=
  let ct := ct <| ct_availableList ::= appendList_resetIterator |> in
  buckets ← forRange (fun i buckets =>
      bo ← newBucketOutstanding networkState i;
      Ok (<[i := bo]> buckets))
    (seqZ 0 (nc_NumberOfBuckets (ns_Config networkState))) ∅;
  '(p, sh, ct, ao, _) ← allOutstandingReqs_advanceRequests h p sh ct (mkAllOutstanding buckets ∅ ∅);
  Ok (p, sh, ct, ao).

(** ** Specification *)

(** The bucket of a request number, without wrap-around. *)
Definition bucketOf (n clientID reqNo : Z) : Z := (clientID + reqNo) mod n.

(** The network states considered: client identifiers and windows stay away
    from the wrap-around of 64 bits. *)
Record outstanding_wf (ns : NetworkState) : Prop := {
  ow_buckets : 0 < nc_NumberOfBuckets (ns_Config ns) < 2 ^ 31;
  ow_clients : forall c, c ∈ ns_Clients ns ->
    0 <= cl_Id c < 2 ^ 62 /\ 0 <= cl_LowWatermark c /\ 0 <= cl_Width c < 2 ^ 32
    /\ cl_LowWatermark c + cl_Width c < 2 ^ 62;
}.

(** The tables reached in an epoch, with the requests accepted so far and
    their buckets: creation, batches accepted from leaders, and requests that
    become available, in any order and with any log and sequences. *)
Inductive aoReach (ns : NetworkState) : allOutstandingReqs -> list (Z * RequestAck) -> Prop :=
| ao_new h p sh ct p' sh' ct' ao :
    newOutstandingReqs h p sh ct ns = Ok (p', sh', ct', ao) -> aoReach ns ao []
| ao_apply h p sh p' sh' bucket seq batch ao ao' acc actions :
    aoReach ns ao acc ->
    allOutstandingReqs_applyAcks h p sh ao bucket seq batch = Ok (inr (p', sh', ao', actions)) ->
    aoReach ns ao' (acc ++ ((fun r => (bucket, r)) <$> batch))
| ao_advance h p sh ct p' sh' ct' ao ao' acc actions :
    aoReach ns ao acc ->
    allOutstandingReqs_advanceRequests h p sh ct ao = Ok (p', sh', ct', ao', actions) ->
    aoReach ns ao' acc.

(** The next request of a client in a bucket is not committed, lies in the
    bucket, and exceeds every request of the client accepted there. *)
Record nextOk (ns : NetworkState) (acc : list (Z * RequestAck)) (b c : Z) (co : clientOutstandingReqs) : Prop := {
  no_client : co_client co ∈ ns_Clients ns;
  no_id : cl_Id (co_client co) = c;
  no_buckets : co_numBuckets co = nc_NumberOfBuckets (ns_Config ns);
  no_range : 0 <= co_nextReqNo co < 2 ^ 62 + 2 ^ 32;
  no_bucket : bucketOf (nc_NumberOfBuckets (ns_Config ns)) c (co_nextReqNo co) = b;
  no_uncommitted : isCommitted (co_nextReqNo co) (co_client co) = Ok false;
  no_above : forall r, (b, r) ∈ acc -> ra_ClientId r = c -> ra_ReqNo r < co_nextReqNo co;
}.

Definition reqKey (br : Z * RequestAck) : Z * Z := (ra_ClientId br.2, ra_ReqNo br.2).

Record acceptedInv (ns : NetworkState) (ao : allOutstandingReqs) (acc : list (Z * RequestAck)) : Prop := {
  ai_next : forall b bo c co, ao_buckets ao !! b = Some bo -> bo_clients bo !! c = Some co -> nextOk ns acc b c co;
  ai_bucket : forall b r, (b, r) ∈ acc -> bucketOf (nc_NumberOfBuckets (ns_Config ns)) (ra_ClientId r) (ra_ReqNo r) = b
    /\ exists client, client ∈ ns_Clients ns /\ cl_Id client = ra_ClientId r /\ isCommitted (ra_ReqNo r) client = Ok false;
  ai_once : NoDup (reqKey <$> acc);
}.

(** ** Lemmas: skipping committed requests *)

Lemma isCommitted_total (ns : NetworkState) (client : NetworkState_Client) (reqNo : Z) :
  outstanding_wf ns -> client ∈ ns_Clients ns -> 0 <= reqNo -> exists b, isCommitted reqNo client = Ok b
    /\ (b = true -> reqNo <= cl_LowWatermark client + cl_Width client).
Proof.
  intros Hwf Hc Hr. destruct (ow_clients _ Hwf _ Hc) as (? & ? & ? & ?).
  eexists. split; [apply isCommitted_spec; lia |]. lia.
Qed.

Lemma bucketOf_step (n c r : Z) : 0 < n -> bucketOf n c (r + n) = bucketOf n c r.
Proof. intros Hn. unfold bucketOf. rewrite Z.add_assoc, <- Zplus_mod_idemp_r, Z.mod_same, Z.add_0_r by lia. done. Qed.

(** The search stops at an uncommitted number of the same bucket. *)
Lemma skipCommitted_spec (ns : NetworkState) (fuel : nat) (cors : clientOutstandingReqs) :
  outstanding_wf ns -> co_client cors ∈ ns_Clients ns -> co_numBuckets cors = nc_NumberOfBuckets (ns_Config ns) ->
  0 <= co_nextReqNo cors < 2 ^ 62 + 2 ^ 32 ->
  (Z.to_nat (cl_LowWatermark (co_client cors) + cl_Width (co_client cors) + 1 - co_nextReqNo cors) < fuel)%nat ->
  exists next, skipCommitted fuel cors = Ok (cors <| co_nextReqNo := next |>)
    /\ isCommitted next (co_client cors) = Ok false
    /\ co_nextReqNo cors <= next < 2 ^ 62 + 2 ^ 32
    /\ forall c, bucketOf (co_numBuckets cors) c next = bucketOf (co_numBuckets cors) c (co_nextReqNo cors).
Proof.
  intros Hwf Hc Hn. pose proof (ow_buckets _ Hwf) as Hb. destruct (ow_clients _ Hwf _ Hc) as (_ & Hlow & Hw & Hsum).
  revert cors Hc Hn Hlow Hw Hsum. induction fuel as [|fuel IH]; intros cors Hc Hn Hlow Hw Hsum Hr Hf; [lia |]. cbn.
  destruct (isCommitted_total ns (co_client cors) (co_nextReqNo cors) Hwf Hc) as (b & Hb2 & Hcom); [lia |].
  rewrite Hb2. cbn. destruct b; cbn.
  - specialize (Hcom eq_refl). rewrite Hn.
    edestruct (IH (cors <| co_nextReqNo ::= fun n => n +! nc_NumberOfBuckets (ns_Config ns) |>)) as (next & H1 & H2 & H3 & H4);
      cbn; nowrap; [done | done | done | done | done | lia | lia |].
    cbn in H2, H3, H4. nowrap. exists next. split; [done |]. split; [done |]. split; [lia |].
    intros c. rewrite Hn in H4. rewrite H4. apply bucketOf_step. lia.
  - exists (co_nextReqNo cors). split; [by destruct cors |]. split; [done |]. split; [lia | done].
Qed.

Lemma skipPreviouslyCommitted_spec (ns : NetworkState) (cors : clientOutstandingReqs) :
  outstanding_wf ns -> co_client cors ∈ ns_Clients ns -> co_numBuckets cors = nc_NumberOfBuckets (ns_Config ns) ->
  0 <= co_nextReqNo cors < 2 ^ 62 + 2 ^ 32 ->
  exists next, clientOutstandingReqs_skipPreviouslyCommitted cors = Ok (cors <| co_nextReqNo := next |>)
    /\ isCommitted next (co_client cors) = Ok false
    /\ co_nextReqNo cors <= next < 2 ^ 62 + 2 ^ 32
    /\ forall c, bucketOf (co_numBuckets cors) c next = bucketOf (co_numBuckets cors) c (co_nextReqNo cors).
Proof. intros. apply (skipCommitted_spec ns); try done. lia. Qed.

(** The search for the first request number of a bucket succeeds. *)
Lemma firstInBucket_spec (ns : NetworkState) (client : NetworkState_Client) (i : Z) (js : list Z) :
  outstanding_wf ns -> client ∈ ns_Clients ns -> (forall j, j ∈ js -> 0 <= j < 2 ^ 31) ->
  (exists j, j ∈ js /\ bucketOf (nc_NumberOfBuckets (ns_Config ns)) (cl_Id client) (cl_LowWatermark client + j) = i) ->
  exists r, firstInBucket client (ns_Config ns) i js = Ok r
    /\ cl_LowWatermark client <= r < cl_LowWatermark client + 2 ^ 31
    /\ bucketOf (nc_NumberOfBuckets (ns_Config ns)) (cl_Id client) r = i.
Proof.
  intros Hwf Hc. pose proof (ow_buckets _ Hwf). destruct (ow_clients _ Hwf _ Hc) as (? & ? & ? & ?).
  induction js as [|j js IH]; intros Hjs (j' & Hj' & Hb); [by apply elem_of_nil in Hj' |]. cbn [firstInBucket].
  assert (0 <= j < 2 ^ 31) by (apply Hjs; by left).
  unfold clientReqToBucket. nowrap. rewrite umod_pos by lia. cbn.
  destruct (Z.eqb_spec ((cl_Id client + (cl_LowWatermark client + j)) mod nc_NumberOfBuckets (ns_Config ns)) i) as [He | Hne].
  - exists (cl_LowWatermark client + j). split; [done |]. split; [lia | done].
  - apply IH; [intros; apply Hjs; by right |]. exists j'. split; [| done].
    apply elem_of_cons in Hj' as [-> |]; [| done]. done.
Qed.

(** Every bucket has one of the client's next request numbers. *)
Lemma bucket_has_request (ns : NetworkState) (client : NetworkState_Client) (i : Z) :
  outstanding_wf ns -> 0 <= i < nc_NumberOfBuckets (ns_Config ns) ->
  exists j, j ∈ seqZ 0 (nc_NumberOfBuckets (ns_Config ns))
    /\ bucketOf (nc_NumberOfBuckets (ns_Config ns)) (cl_Id client) (cl_LowWatermark client + j) = i.
Proof.
  intros Hwf Hi. pose proof (ow_buckets _ Hwf) as Hn.
  exists ((i - (cl_Id client + cl_LowWatermark client)) mod nc_NumberOfBuckets (ns_Config ns)).
  pose proof (Z.mod_pos_bound (i - (cl_Id client + cl_LowWatermark client)) _ (proj1 Hn)).
  split; [apply elem_of_seqZ; lia |]. unfold bucketOf. rewrite Z.add_assoc, Zplus_mod_idemp_r.
  replace (cl_Id client + cl_LowWatermark client + (i - (cl_Id client + cl_LowWatermark client))) with i by lia.
  apply Z.mod_small. lia.
Qed.

Lemma newBucketOutstanding_spec (ns : NetworkState) (i : Z) (bo : bucketOutstandingReqs) :
  outstanding_wf ns -> 0 <= i < nc_NumberOfBuckets (ns_Config ns) -> newBucketOutstanding ns i = Ok bo ->
  forall c co, bo_clients bo !! c = Some co -> nextOk ns [] i c co.
Proof.
  intros Hwf Hi H. pose proof (ow_buckets _ Hwf) as Hn. unfold newBucketOutstanding in H.
  apply bind_Ok in H as (clients & H & Hbo). injection Hbo as <-. cbn.
  refine (forRange_inv (fun cls : gmap Z clientOutstandingReqs => forall c co, cls !! c = Some co -> nextOk ns [] i c co) _ _ _ _ _ _ H); [| done].
  intros client cls cls' Hc Hcls Hstep. destruct (ow_clients _ Hwf _ Hc) as (? & ? & ? & ?).
  destruct (firstInBucket_spec ns client i (seqZ 0 (nc_NumberOfBuckets (ns_Config ns))) Hwf Hc) as (r & Hr & Hrange & Hb).
  { intros j Hj%elem_of_seqZ. lia. }
  { by apply bucket_has_request. }
  rewrite Hr in Hstep. cbn [mbind outcome_bind] in Hstep. rewrite u64_small in Hstep by lia.
  destruct (skipPreviouslyCommitted_spec ns (mkClientOutstanding r (nc_NumberOfBuckets (ns_Config ns)) client) Hwf Hc eq_refl)
    as (next & Hs & Hun & Hle & Hbk); [cbn; lia |].
  rewrite Hs in Hstep. cbn in Hstep, Hun, Hle, Hbk. injection Hstep as <-.
  intros c co. rewrite lookup_insert. case_decide; [| by apply Hcls]. intros [= <-]. subst c.
  split; cbn; try done; [lia | by rewrite Hbk |]. intros r' []%elem_of_nil.
Qed.

Lemma advanceAvailable_buckets (fuel : nat) (h : reqHeap) (p p' : persisted) (sh sh' : seqHeap) (ct ct' : clientTracker)
    (ao ao' : allOutstandingReqs) (a0 acts : ActionList) :
  advanceAvailable fuel h p sh ct ao a0 = Ok (p', sh', ct', ao', acts) -> ao_buckets ao' = ao_buckets ao.
Proof.
  revert p sh ct ao a0. induction fuel as [|fuel IH]; intros p sh ct ao a0 H; cbn in H; [done |].
  case_match; [| by injection H as <- <- <- <- <-].
  apply bind_Ok in H as ([al ack] & _ & H). case_match.
  - apply bind_Ok in H as ([[p1 sh1] more] & _ & H). by rewrite (IH _ _ _ _ _ H).
  - by rewrite (IH _ _ _ _ _ H).
Qed.

(** While nothing is outstanding, advancing only fills the tables. *)
Lemma advanceAvailable_idle (fuel : nat) (h : reqHeap) (p : persisted) (sh : seqHeap) (ct : clientTracker)
    (ao : allOutstandingReqs) (a0 : ActionList) :
  ao_outstandingRequests ao = ∅ -> (length (al_pending (ct_availableList ct)) < fuel)%nat ->
  exists ct' ao', advanceAvailable fuel h p sh ct ao a0 = Ok (p, sh, ct', ao', a0) /\ ct_readyList ct' = ct_readyList ct.
Proof.
  revert ct ao. induction fuel as [|fuel IH]; intros ct ao He Hf; [lia |]. cbn [advanceAvailable].
  unfold appendList_hasNext, appendList_next. destruct (al_pending (ct_availableList ct)) as [|ack pending] eqn:Hp; cbn; [by exists ct, ao |].
  rewrite He, lookup_empty.
  destruct (IH (ct <| ct_availableList := mkAppendList (al_consumed (ct_availableList ct) ++ [ack]) pending |>)
    (ao <| ao_correctRequests ::= <[str (ra_Digest ack) := ack]> |>)) as (ct' & ao' & H & Hr); [done | cbn in *; lia |].
  by exists ct', ao'.
Qed.

Lemma newOutstandingReqs_inv (h : reqHeap) (p p' : persisted) (sh sh' : seqHeap) (ct ct' : clientTracker)
    (ns : NetworkState) (ao : allOutstandingReqs) :
  outstanding_wf ns -> newOutstandingReqs h p sh ct ns = Ok (p', sh', ct', ao) -> acceptedInv ns ao [].
Proof.
  intros Hwf H. unfold newOutstandingReqs in H. apply bind_Ok in H as (buckets & Hb & H).
  apply bind_Ok in H as ([[[[p1 sh1] ct1] ao1] acts] & Hadv & H). injection H as <- <- <- <-.
  apply advanceAvailable_buckets in Hadv. cbn in Hadv.
  split; [| intros ? ? []%elem_of_nil | constructor].
  intros b bo c co. rewrite Hadv. revert b bo c co.
  refine (forRange_inv (fun bs : gmap Z bucketOutstandingReqs => forall b bo c co, bs !! b = Some bo -> bo_clients bo !! c = Some co -> nextOk ns [] b c co)
    _ _ _ _ _ _ Hb); [| done].
  intros i bs bs' Hi Hbs Hstep b bo c co. apply bind_Ok in Hstep as (bo' & Hbo & Hstep). injection Hstep as <-.
  apply elem_of_seqZ in Hi. rewrite lookup_insert. case_decide; [| by apply Hbs]. intros [= <-]. subst b.
  apply newBucketOutstanding_spec; [done | lia | done].
Qed.

(** ** Lemmas: accepting a batch *)

(** One request: the tables before and after, and what was checked. *)
Lemma applyAck_cases (bucket : Z) (seq : loc) (req : RequestAck) (ao ao' : allOutstandingReqs) (out out' : gset bytes) :
  applyAck bucket seq req ao out = Ok (inr (ao', out')) ->
  exists bo co co', ao_buckets ao !! bucket = Some bo /\ bo_clients bo !! ra_ClientId req = Some co
    /\ co_nextReqNo co = ra_ReqNo req
    /\ clientOutstandingReqs_skipPreviouslyCommitted (co <| co_nextReqNo ::= fun n => n +! co_numBuckets co |>) = Ok co'
    /\ ao_buckets ao' = <[bucket := bo <| bo_clients ::= <[ra_ClientId req := co']> |>]> (ao_buckets ao)
    /\ (ao_outstandingRequests ao' = ao_outstandingRequests ao /\ out' = out
        \/ ao_outstandingRequests ao' = <[str (ra_Digest req) := seq]> (ao_outstandingRequests ao)
           /\ out' = out ∪ {[str (ra_Digest req)]}).
Proof.
  unfold applyAck. intros H. apply bind_Ok in H as (bo & Hbo & H). apply deref_Ok in Hbo.
  destruct (bo_clients bo !! ra_ClientId req) as [co |] eqn:Hco; [| done].
  destruct (Z.eqb_spec (co_nextReqNo co) (ra_ReqNo req)) as [Heq |]; cbn in H; [| done].
  exists bo, co. destruct (ao_correctRequests ao !! str (ra_Digest req)); apply bind_Ok in H as (co' & Hs & H);
    injection H as <- <-; exists co'; cbn; auto 10.
Qed.

Lemma applyAck_inv (ns : NetworkState) (acc : list (Z * RequestAck)) (bucket : Z) (seq : loc) (req : RequestAck)
    (ao ao' : allOutstandingReqs) (out out' : gset bytes) :
  outstanding_wf ns -> acceptedInv ns ao acc -> ra_ReqNo req < 2 ^ 62 ->
  applyAck bucket seq req ao out = Ok (inr (ao', out')) -> acceptedInv ns ao' (acc ++ [(bucket, req)]).
Proof.
  intros Hwf [Hnext Hbk Honce] Hsmall H. pose proof (ow_buckets _ Hwf) as Hn.
  apply applyAck_cases in H as (bo & co & co' & Hbo & Hco & Heq & Hs & Hao & _).
  destruct (Hnext _ _ _ _ Hbo Hco) as [Hcl Hid Hnb Hr Hb Hun Habove].
  edestruct (skipPreviouslyCommitted_spec ns (co <| co_nextReqNo ::= fun n => n +! co_numBuckets co |>)) as (next & Hs' & Hun' & Hle & Hbk');
    [done | done | done | cbn; rewrite Hnb; nowrap; lia |].
  rewrite Hs in Hs'. injection Hs' as ->. cbn in Hun', Hle, Hbk'. rewrite Hnb in Hle, Hbk'. nowrap.
  split.
  - intros b bo' c co2. rewrite Hao, lookup_insert. case_decide as Hbeq.
    + intros [= <-]. cbn. rewrite lookup_insert. subst b. case_decide as Hceq.
      * intros [= <-]. subst c. split; cbn; try done; [lia | rewrite Hbk', bucketOf_step; [done | lia] |].
        intros r [Hin | Hin%list_elem_of_singleton]%elem_of_app Hc; [specialize (Habove r Hin Hc); lia |].
        injection Hin as ->. lia.
      * intros Hc2. destruct (Hnext _ _ _ _ Hbo Hc2). split; try done.
        intros r [Hin | Hin%list_elem_of_singleton]%elem_of_app Hc; [by apply no_above0 |]. injection Hin as ->. done.
    + intros Hbo' Hc2. destruct (Hnext _ _ _ _ Hbo' Hc2). split; try done.
      intros r [Hin | Hin%list_elem_of_singleton]%elem_of_app Hc; [by apply no_above0 |]. injection Hin as -> ->. done.
  - intros b r [Hin | Hin%list_elem_of_singleton]%elem_of_app; [by apply Hbk |]. injection Hin as -> ->.
    rewrite <- Heq. split; [done |]. exists (co_client co). done.
  - rewrite fmap_app. apply NoDup_app. split; [done |]. split; [| apply NoDup_singleton].
    intros k Hk Hk2%list_elem_of_singleton. subst k. apply list_elem_of_fmap in Hk as ([b r] & Hkey & Hin).
    injection Hkey as Hc Hq. destruct (Hbk b r Hin) as [Hb' _].
    rewrite <- Hc, <- Hq, <- Heq, Hb in Hb'. subst b. specialize (Habove r Hin (eq_sym Hc)). lia.
Qed.

Lemma applyAckLoop_inv (ns : NetworkState) (batch : list RequestAck) (acc : list (Z * RequestAck)) (bucket : Z) (seq : loc)
    (ao ao' : allOutstandingReqs) (out out' : gset bytes) :
  outstanding_wf ns -> acceptedInv ns ao acc -> Forall (fun r => ra_ReqNo r < 2 ^ 62) batch ->
  applyAckLoop bucket seq batch ao out = Ok (inr (ao', out')) ->
  acceptedInv ns ao' (acc ++ ((fun r => (bucket, r)) <$> batch)).
Proof.
  intros Hwf. revert acc ao out. induction batch as [|req batch IH]; intros acc ao out Hinv Hsm H; cbn in *.
  { injection H as <- <-. by rewrite app_nil_r. }
  apply Forall_cons in Hsm as [Hreq Hsm]. apply bind_Ok in H as ([err | [ao1 out1]] & H1 & H); [done |].
  rewrite cons_middle, app_assoc. eapply IH; [| done | exact H]. by eapply applyAck_inv.
Qed.

Lemma aoReach_inv (ns : NetworkState) (ao : allOutstandingReqs) (acc : list (Z * RequestAck)) :
  outstanding_wf ns -> aoReach ns ao acc -> Forall (fun br => ra_ReqNo br.2 < 2 ^ 62) acc -> acceptedInv ns ao acc.
Proof.
  intros Hwf Hreach. induction Hreach as [h p sh ct p' sh' ct' ao H | h p sh p' sh' bucket seq batch ao ao' acc actions _ IH H
    | h p sh ct p' sh' ct' ao ao' acc actions _ IH H]; intros Hsm.
  - by eapply newOutstandingReqs_inv.
  - apply Forall_app in Hsm as [Hsm1 Hsm2]. unfold allOutstandingReqs_applyAcks in H.
    apply bind_Ok in H as (u & _ & H). apply bind_Ok in H as ([err | [ao1 out1]] & H1 & H); [done |].
    apply bind_Ok in H as ([[p1 sh1] a1] & _ & H). injection H as <- <- <- <-.
    eapply applyAckLoop_inv; [done | by apply IH | | exact H1]. by rewrite Forall_fmap in Hsm2.
  - apply advanceAvailable_buckets in H. destruct (IH Hsm) as [Hnext Hbk Honce].
    split; [by rewrite H | done | done].
Qed.

(** ** Properties *)


(** ** The requests a sequence waits for *)

(** What the other operations on the sequences guarantee: none is freed, and
    none waits for other requests or goes back to being unallocated. *)
Definition keepsWaiting (sh sh' : seqHeap) : Prop :=
  forall l s, sh_seqs sh !! l = Some s ->
    exists s', sh_seqs sh' !! l = Some s' /\ sq_outstandingReqs s' = sq_outstandingReqs s /\ (rank s <= rank s')%nat.

(** The tables and sequences reached in an epoch. *)
Inductive waitReach : seqHeap -> allOutstandingReqs -> Prop :=
| wait_new sh ao : ao_outstandingRequests ao = ∅ -> waitReach sh ao
| wait_apply h p sh p' sh' bucket seq batch ao ao' actions :
    waitReach sh ao -> allOutstandingReqs_applyAcks h p sh ao bucket seq batch = Ok (inr (p', sh', ao', actions)) ->
    waitReach sh' ao'
| wait_advance h p sh ct p' sh' ct' ao ao' actions :
    waitReach sh ao -> allOutstandingReqs_advanceRequests h p sh ct ao = Ok (p', sh', ct', ao', actions) ->
    waitReach sh' ao'
| wait_other sh sh' ao : waitReach sh ao -> keepsWaiting sh sh' -> waitReach sh' ao.

(** The sequence recorded for an outstanding request waits for it. *)
Definition waitInv (sh : seqHeap) (ao : allOutstandingReqs) : Prop :=
  forall key l, ao_outstandingRequests ao !! key = Some l ->
    exists s, sh_seqs sh !! l = Some s /\ key ∈ sq_outstandingReqs s /\ (0 < rank s)%nat.

Definition heapLive (h : reqHeap) (sh : seqHeap) : Prop := forall l s, sh_seqs sh !! l = Some s -> reqsLive h s.

Lemma applyPrepareMsg_waits (h : reqHeap) (p p' : persisted) (s s' : sequence) (source : Z) (digest : slice) (acts : ActionList) :
  sequence_applyPrepareMsg h p s source digest = Ok (p', s', acts) ->
  sq_outstandingReqs s' = sq_outstandingReqs s /\ (rank s <= rank s')%nat.
Proof.
  unfold sequence_applyPrepareMsg. destruct (sequence_nodeChoice s source) as [s1 c] eqn:Hc.
  apply nodeChoice_spec in Hc as (_ & Hs1 & Hst & _). unfold rank at 1. rewrite <- Hst. rewrite <- (sv_outstanding _ _ Hs1).
  case_match; [by intros [= <- <- <-] |]. intros [Had _]%advanceState_spec.
  split; [by rewrite (sv_outstanding _ _ (ad_same _ _ _ Had)) | exact (ad_mono _ _ _ Had)].
Qed.

Lemma allocate_waits (h : reqHeap) (p p' : persisted) (s s' : sequence) (acks : list RequestAck) (out : gset bytes) (acts : ActionList) :
  sequence_allocate h p s acks out = Ok (p', s', acts) ->
  rank s = 0%nat /\ sq_outstandingReqs s' = out /\ (0 < rank s')%nat.
Proof.
  unfold sequence_allocate. intros H. apply bind_Ok in H as (u & Hu & H). apply assertTrue_Ok, bool_decide_eq_true in Hu.
  split; [by unfold rank; rewrite Hu |]. case_match.
  - apply applyPrepareMsg_waits in H as [Ho Hr]. unfold rank at 1 in Hr. cbn in Ho, Hr. split; [done | lia].
  - apply bind_Ok in H as ([[p1 s1] more] & H1 & H). injection H as <- <- <-. apply advanceState_spec in H1 as [Had _].
    pose proof (ad_mono _ _ _ Had) as Hr. unfold rank at 1 in Hr. cbn in Hr.
    split; [exact (sv_outstanding _ _ (ad_same _ _ _ Had)) | lia].
Qed.

Lemma satisfyOutstanding_waits (h : reqHeap) (p p' : persisted) (s s' : sequence) (ack : RequestAck) (acts : ActionList) :
  sequence_satisfyOutstanding h p s ack = Ok (p', s', acts) ->
  (pst_log p <> [] -> pst_log p' <> [])
  /\ sq_outstandingReqs s' = sq_outstandingReqs s ∖ {[str (ra_Digest ack)]} /\ (rank s <= rank s')%nat
  /\ sq_clientRequests s' = sq_clientRequests s.
Proof.
  unfold sequence_satisfyOutstanding. intros H. apply bind_Ok in H as (u & _ & H). apply advanceState_spec in H as [Had Hp].
  split; [done |]. split; [exact (sv_outstanding _ _ (ad_same _ _ _ Had)) |]. split; [exact (ad_mono _ _ _ Had) |].
  exact (sv_clientRequests _ _ (ad_same _ _ _ Had)).
Qed.

Lemma satisfyOutstanding_total (h : reqHeap) (p : persisted) (s : sequence) (ack : RequestAck) :
  pst_log p <> [] -> reqsLive h s -> str (ra_Digest ack) ∈ sq_outstandingReqs s ->
  exists p' s' acts, sequence_satisfyOutstanding h p s ack = Ok (p', s', acts).
Proof.
  intros Hne Hl Hin. unfold sequence_satisfyOutstanding. rewrite bool_decide_true by done. cbn.
  set (s1 := update_field (field := sq_outstandingReqs) _ s).
  destruct (advanceState_total h p s1 Hne Hl) as [[[p' s'] acts] H]. eauto.
Qed.

Lemma applyAckLoop_waits (batch : list RequestAck) (bucket : Z) (seq : loc) (ao ao' : allOutstandingReqs) (out out' : gset bytes) :
  applyAckLoop bucket seq batch ao out = Ok (inr (ao', out')) ->
  out ⊆ out' /\ forall key l, ao_outstandingRequests ao' !! key = Some l ->
    ao_outstandingRequests ao !! key = Some l \/ l = seq /\ key ∈ out'.
Proof.
  revert ao out. induction batch as [|req batch IH]; intros ao out H; cbn in H; [injection H as <- <-; auto |].
  apply bind_Ok in H as ([err | [ao1 out1]] & H1 & H); [done |]. apply IH in H as [Hsub Hk].
  apply applyAck_cases in H1 as (_ & _ & _ & _ & _ & _ & _ & _ & [[Ho ->] | [Ho ->]]); rewrite Ho in Hk.
  - auto.
  - split; [set_solver |]. intros key l [Hl | ?]%Hk; [| auto]. rewrite lookup_insert in Hl. case_decide; [| auto].
    injection Hl as ->. subst key. right. split; [done | set_solver].
Qed.

Lemma applyAcks_waits (h : reqHeap) (p p' : persisted) (sh sh' : seqHeap) (ao ao' : allOutstandingReqs) (bucket : Z) (seq : loc)
    (batch : list RequestAck) (acts : ActionList) :
  waitInv sh ao -> allOutstandingReqs_applyAcks h p sh ao bucket seq batch = Ok (inr (p', sh', ao', acts)) -> waitInv sh' ao'.
Proof.
  intros Hinv H. unfold allOutstandingReqs_applyAcks in H. apply bind_Ok in H as (u & _ & H).
  apply bind_Ok in H as ([err | [ao1 out1]] & H1 & H); [done |]. apply applyAckLoop_waits in H1 as [_ Hk].
  apply bind_Ok in H as ([[p1 sh1] a1] & H2 & H). injection H as <- <- <- <-.
  unfold onSequence, loadSequence in H2. apply bind_Ok in H2 as (s & Hs & H2). apply deref_Ok in Hs.
  apply bind_Ok in H2 as ([[p2 s2] a2] & H2 & H3). injection H3 as <- <- <-. apply allocate_waits in H2 as (Hr & Ho & Hr2).
  intros key l Hl. cbn. rewrite lookup_insert. apply Hk in Hl as [Hl | [-> Hin]].
  - destruct (Hinv _ _ Hl) as (s' & Hs' & Hin & Hr'). case_decide; [| eauto]. subst l. rewrite Hs in Hs'. injection Hs' as <-. lia.
  - rewrite decide_True by done. exists s2. rewrite Ho. done.
Qed.

(** Satisfying one outstanding request. *)
Lemma satisfied_waits (sh : seqHeap) (ao : allOutstandingReqs) (key : bytes) (l : loc) (s s1 : sequence) :
  waitInv sh ao -> ao_outstandingRequests ao !! key = Some l -> sh_seqs sh !! l = Some s ->
  sq_outstandingReqs s1 = sq_outstandingReqs s ∖ {[key]} -> (rank s <= rank s1)%nat ->
  waitInv (storeSequence sh l s1) (ao <| ao_outstandingRequests ::= delete key |>).
Proof.
  intros Hinv Hl Hs Ho Hr key' l'. cbn. rewrite lookup_delete, lookup_insert. case_decide as Hk; [done |]. intros Hl'.
  destruct (Hinv _ _ Hl') as (s' & Hs' & Hin' & Hr'). case_decide; [| eauto]. subst l'. rewrite Hs in Hs'. injection Hs' as <-.
  exists s1. split; [done |]. split; [rewrite Ho; set_solver | lia].
Qed.

Lemma advanceAvailable_waits (fuel : nat) (h : reqHeap) (p p' : persisted) (sh sh' : seqHeap) (ct ct' : clientTracker)
    (ao ao' : allOutstandingReqs) (a0 acts : ActionList) :
  waitInv sh ao -> advanceAvailable fuel h p sh ct ao a0 = Ok (p', sh', ct', ao', acts) -> waitInv sh' ao'.
Proof.
  revert p sh ct ao a0. induction fuel as [|fuel IH]; intros p sh ct ao a0 Hinv H; cbn in H; [done |].
  case_match; [| by injection H as <- <- <- <- <-].
  apply bind_Ok in H as ([al ack] & _ & H). case_match; [| by eapply IH; [| exact H]].
  apply bind_Ok in H as ([[p1 sh1] more] & Hsat & H). unfold onSequence, loadSequence in Hsat.
  apply bind_Ok in Hsat as (s & Hs & Hsat). apply deref_Ok in Hs. apply bind_Ok in Hsat as ([[p2 s2] a2] & Hsat & Hst).
  injection Hst as <- <- <-. apply satisfyOutstanding_waits in Hsat as (_ & Ho & Hr & _).
  eapply IH; [| exact H]. by eapply satisfied_waits.
Qed.

(** What the loop of [advanceRequests] does from a state in which the
    recorded sequences wait. *)
Lemma advanceAvailable_spec (fuel : nat) (h : reqHeap) (p : persisted) (sh : seqHeap) (ct : clientTracker)
    (ao : allOutstandingReqs) (a0 : ActionList) :
  (length (al_pending (ct_availableList ct)) < fuel)%nat -> waitInv sh ao -> heapLive h sh -> pst_log p <> [] ->
  exists p' sh' ct' ao' acts, advanceAvailable fuel h p sh ct ao a0 = Ok (p', sh', ct', ao', acts)
    /\ al_pending (ct_availableList ct') = []
    /\ waitInv sh' ao'
    /\ (forall key l, ao_outstandingRequests ao' !! key = Some l -> ao_outstandingRequests ao !! key = Some l)
    /\ (forall l s, sh_seqs sh !! l = Some s -> exists s', sh_seqs sh' !! l = Some s'
          /\ sq_outstandingReqs s' ⊆ sq_outstandingReqs s /\ (rank s <= rank s')%nat)
    /\ forall ack, ack ∈ al_pending (ct_availableList ct) ->
         ao_outstandingRequests ao' !! str (ra_Digest ack) = None
         /\ forall l, ao_outstandingRequests ao !! str (ra_Digest ack) = Some l ->
              exists s', sh_seqs sh' !! l = Some s' /\ str (ra_Digest ack) ∉ sq_outstandingReqs s'.
Proof.
  revert p sh ct ao a0. induction fuel as [|fuel IH]; intros p sh ct ao a0 Hf Hinv Hlive Hne; [lia |]. cbn [advanceAvailable].
  unfold appendList_hasNext, appendList_next. destruct (al_pending (ct_availableList ct)) as [|ack pending] eqn:Hp; cbn.
  { do 5 eexists. split; [done |]. split; [done |]. split; [done |]. split; [done |]. split; [eauto |].
    intros ack []%elem_of_nil. }
  set (key := str (ra_Digest ack)). set (ct1 := ct <| ct_availableList := _ |>).
  assert (Hf1 : (length (al_pending (ct_availableList ct1)) < fuel)%nat) by (cbn in *; lia).
  destruct (ao_outstandingRequests ao !! key) as [l |] eqn:Hl.
  - destruct (Hinv _ _ Hl) as (s & Hs & Hin & Hr).
    destruct (satisfyOutstanding_total h p s ack Hne (Hlive _ _ Hs) Hin) as (p1 & s1 & a1 & Hsat).
    destruct (satisfyOutstanding_waits _ _ _ _ _ _ _ Hsat) as (Hne1 & Ho1 & Hr1 & Hc1).
    specialize (satisfied_waits sh ao key l s s1 Hinv Hl Hs Ho1 Hr1) as Hinv1.
    unfold onSequence, loadSequence. rewrite Hs. cbn. rewrite Hsat. cbn.
    edestruct (IH p1 (storeSequence sh l s1) ct1 (ao <| ao_outstandingRequests ::= delete key |>)) as
      (p' & sh' & ct' & ao' & acts & H & Hpend & Hinv' & Hsub & Hkept & Hdone); [done | done | | auto |].
    + intros l' s'. cbn. rewrite lookup_insert. case_decide; [| by apply Hlive]. intros [= <-].
      unfold reqsLive. rewrite Hc1. exact (Hlive _ _ Hs).
    + assert (Hsub2 : forall k l', ao_outstandingRequests ao' !! k = Some l' -> k <> key /\ ao_outstandingRequests ao !! k = Some l').
      { intros k l' Hk%Hsub. cbn in Hk. rewrite lookup_delete in Hk. by case_decide. }
      destruct (Hkept l s1) as (s2 & Hs2 & Ho2 & Hr2); [cbn; by rewrite lookup_insert, decide_True |].
      exists p', sh', ct', ao', acts. split; [exact H |]. split; [done |]. split; [done |]. split; [intros k l' Hk; by apply Hsub2 |].
      split.
      * intros l' s' Hs'. destruct (decide (l' = l)) as [-> | Hne'].
        -- rewrite Hs in Hs'. injection Hs' as <-. exists s2. split; [done |]. split; [set_solver | lia].
        -- apply Hkept. cbn. by rewrite lookup_insert_ne.
      * assert (Hhead : ao_outstandingRequests ao' !! key = None
          /\ forall l', Some l = Some l' -> exists s', sh_seqs sh' !! l' = Some s' /\ key ∉ sq_outstandingReqs s').
        { split; [destruct (ao_outstandingRequests ao' !! key) eqn:E; [by apply Hsub2 in E as [? _] | done] |].
          intros l' [= <-]. exists s2. split; [done |]. rewrite Ho1 in Ho2. set_solver. }
        intros ack' [-> | Hin']%elem_of_cons; [fold key; by rewrite Hl |].
        destruct (decide (str (ra_Digest ack') = key)) as [-> | Hk]; [by rewrite Hl |].
        destruct (Hdone ack' Hin') as [Hnone Hd]. split; [done |]. intros l' Hl'. apply Hd. cbn. by rewrite lookup_delete_ne by done.
  - edestruct (IH p sh ct1 (ao <| ao_correctRequests ::= <[key := ack]> |>)) as
      (p' & sh' & ct' & ao' & acts & H & Hpend & Hinv' & Hsub & Hkept & Hdone); [done | done | done | done |].
    exists p', sh', ct', ao', acts. split; [exact H |]. split; [done |]. split; [done |]. split; [done |]. split; [done |].
    intros ack' [-> | Hin']%elem_of_cons; [| by apply Hdone]. fold key. rewrite Hl. split; [| done].
    destruct (ao_outstandingRequests ao' !! key) eqn:E; [apply Hsub in E; cbn in E; congruence | done].
Qed.

Lemma waitReach_inv (sh : seqHeap) (ao : allOutstandingReqs) : waitReach sh ao -> waitInv sh ao.
Proof.
  induction 1 as [sh ao He | h p sh p' sh' bucket seq batch ao ao' actions _ IH H
    | h p sh ct p' sh' ct' ao ao' actions _ IH H | sh sh' ao _ IH Hk].
  - intros key l. by rewrite He, lookup_empty.
  - by eapply applyAcks_waits.
  - by eapply advanceAvailable_waits.
  - intros key l Hl. destruct (IH key l Hl) as (s & Hs & Hin & Hr). destruct (Hk l s Hs) as (s' & ? & Ho & ?).
    exists s'. split; [done |]. rewrite Ho. split; [done | lia].
Qed.

(** Requests that become available reach the sequences that wait for
    them.  In every reachable state, advancing over the available requests
    returns (the assertion that the sequence was waiting never fails, and the
    loop ends), consumes all of them, and afterwards no sequence recorded as
    waiting for one of them still waits for it, while every other recorded
    sequence still waits for its request. *)
Theorem available_requests_satisfied (h : reqHeap) (p : persisted) (sh : seqHeap) (ct : clientTracker) (ao : allOutstandingReqs) :
  waitReach sh ao -> heapLive h sh -> pst_log p <> [] ->
  exists p' sh' ct' ao' acts, allOutstandingReqs_advanceRequests h p sh ct ao = Ok (p', sh', ct', ao', acts)
    /\ al_pending (ct_availableList ct') = []
    /\ waitInv sh' ao'
    /\ forall ack, ack ∈ al_pending (ct_availableList ct) ->
         ao_outstandingRequests ao' !! str (ra_Digest ack) = None
         /\ forall l, ao_outstandingRequests ao !! str (ra_Digest ack) = Some l ->
              exists s', sh_seqs sh' !! l = Some s' /\ str (ra_Digest ack) ∉ sq_outstandingReqs s'.
Proof.
  intros Hreach%waitReach_inv Hlive Hne.
  destruct (advanceAvailable_spec (S (length (al_pending (ct_availableList ct)))) h p sh ct ao []) as
    (p' & sh' & ct' & ao' & acts & H & Hp & Hinv & _ & _ & Hdone); [lia | done | done | done |].
  exists p', sh', ct', ao', acts. auto.
Qed.

(** ** Concrete runs *)

(** Two buckets; client 1 has committed its request 1. *)
Definition twoBuckets : NetworkState :=
  mkNetworkState (mkConfig [0; 1; 2; 3] 5 100 2 1) [mkClientState 1 10 0 0 [0x40]] [] false.

Definition sampleParams : EventInitialParameters := mkInitialParameters 0 1 1 1 1 1.
Definition sampleTwoSeqs : seqHeap :=
  let s seqNo := newSequence 1 3 seqNo (ns_Config twoBuckets) sampleParams in
  mkSeqHeap 2 {[0 := s 1; 1 := s 2]}.
Definition someLog : persisted := mkPersisted 2 [(1, Persistent_ECEntry (mkECEntry 3))].

(** The tables of a result, an empty one if there is none. *)
Definition tablesNew (r : outcome (persisted * seqHeap * clientTracker * allOutstandingReqs)) : allOutstandingReqs :=
  match r with Ok (_, _, _, ao) => ao | _ => mkAllOutstanding ∅ ∅ ∅ end.
Definition tablesApplied (r : outcome (string + persisted * seqHeap * allOutstandingReqs * ActionList))
    : seqHeap * allOutstandingReqs :=
  match r with Ok (inr (_, sh, ao, _)) => (sh, ao) | _ => (emptySeqHeap, mkAllOutstanding ∅ ∅ ∅) end.

Definition startTables : allOutstandingReqs :=
  tablesNew (newOutstandingReqs emptyHeap someLog emptySeqHeap newClientTracker twoBuckets).
Definition firstBatch : list RequestAck := [mkAck 1 0 (Some [7]); mkAck 1 2 (Some [8])].
Definition afterFirst : seqHeap * allOutstandingReqs :=
  tablesApplied (allOutstandingReqs_applyAcks emptyHeap someLog sampleTwoSeqs startTables 1 0 firstBatch).
Definition secondBatch : list RequestAck := [mkAck 1 3 (Some [9])].
Definition afterSecond : seqHeap * allOutstandingReqs :=
  tablesApplied (allOutstandingReqs_applyAcks emptyHeap someLog afterFirst.1 afterFirst.2 0 1 secondBatch).

Lemma twoBuckets_wf : outstanding_wf twoBuckets.
Proof. split; [cbn; lia |]. intros c ->%list_elem_of_singleton. cbn. lia. Qed.

Lemma afterSecond_reached :
  aoReach twoBuckets afterSecond.2 (((fun r => (1, r)) <$> firstBatch) ++ ((fun r => (0, r)) <$> secondBatch)).
Proof.
  eapply (ao_apply twoBuckets emptyHeap someLog afterFirst.1 _ _ 0 1 secondBatch afterFirst.2); [| vm_compute; reflexivity].
  eapply (ao_apply twoBuckets emptyHeap someLog sampleTwoSeqs _ _ 1 0 firstBatch startTables _ []); [| vm_compute; reflexivity].
  eapply (ao_new twoBuckets emptyHeap someLog emptySeqHeap newClientTracker). vm_compute. reflexivity.
Defined.


(** One bucket and two clients. *)
Definition oneBucket : NetworkState :=
  mkNetworkState (mkConfig [0; 1; 2; 3] 5 100 1 1) [mkClientState 1 10 0 0 []; mkClientState 2 10 0 0 []] [] false.

(** A tracker whose available list is given. *)
Definition available (acks : list RequestAck) : clientTracker := newClientTracker <| ct_availableList := mkAppendList [] acks |>.

Lemma available_requests_satisfied_witness :
  exists p' sh' ct' ao' acts,
    allOutstandingReqs_advanceRequests emptyHeap someLog afterFirst.1 (available [mkAck 1 2 (Some [8])]) afterFirst.2
      = Ok (p', sh', ct', ao', acts)
    /\ ao_outstandingRequests afterFirst.2 !! [8] = Some 0
    /\ exists s', sh_seqs sh' !! 0 = Some s' /\ [8] ∉ sq_outstandingReqs s'.
Proof.
  destruct (available_requests_satisfied emptyHeap someLog afterFirst.1 (available [mkAck 1 2 (Some [8])]) afterFirst.2)
    as (p' & sh' & ct' & ao' & acts & H & _ & _ & Hd).
  - eapply (wait_apply emptyHeap someLog sampleTwoSeqs _ _ 1 0 firstBatch startTables);
      [apply wait_new; vm_compute; reflexivity | vm_compute; reflexivity].
  - assert (Ha : map_Forall (fun _ s => sq_clientRequests s = []) (sh_seqs afterFirst.1)).
    { apply (bool_decide_unpack _). vm_compute. exact I. }
    intros l s Hs. unfold reqsLive. rewrite (Ha l s Hs). constructor.
  - discriminate.
  - exists p', sh', ct', ao', acts. split; [exact H |]. split; [vm_compute; reflexivity |].
    apply (Hd (mkAck 1 2 (Some [8]))); [repeat constructor | vm_compute; reflexivity].
Defined.

(** Two available requests with the same digest stall a sequence.  The
    tables are indexed by the digest alone, so requests of two clients with
    equal payloads share an entry: both requests are available, the first
    batch uses the entry up, and the sequence of the second batch waits for a
    request that has already been delivered to it, with nothing left to
    deliver. *)
Theorem equal_digests_stall_sequence :
  exists p sh ct ao p1 sh1 ao1 a1 p2 sh2 ao2 a2 s,
    newOutstandingReqs emptyHeap someLog sampleTwoSeqs (available [mkAck 1 0 (Some [7]); mkAck 2 0 (Some [7])]) oneBucket
      = Ok (p, sh, ct, ao)
    /\ al_pending (ct_availableList ct) = []
    /\ allOutstandingReqs_applyAcks emptyHeap p sh ao 0 0 [mkAck 1 0 (Some [7])] = Ok (inr (p1, sh1, ao1, a1))
    /\ allOutstandingReqs_applyAcks emptyHeap p1 sh1 ao1 0 1 [mkAck 2 0 (Some [7])] = Ok (inr (p2, sh2, ao2, a2))
    /\ sh_seqs sh2 !! 1 = Some s /\ sq_state s = sequencePendingRequests /\ [7] ∈ sq_outstandingReqs s.
Proof.
  do 13 eexists. split; [vm_compute; reflexivity |]. split; [reflexivity |]. split; [vm_compute; reflexivity |].
  split; [vm_compute; reflexivity |]. split; [vm_compute; reflexivity |]. split; [reflexivity |].
  apply (bool_decide_unpack _). vm_compute. exact I.
Qed.
