(* ===== verification/EpochActive.v ===== *)
(** * Active epoch

    [pkg/statemachine/epoch_active.go]: the sequences of the epoch in
    progress, the assignment of buckets to leaders, which messages apply now,
    and the proposal of batches by this node.  The log, the commit state and
    the client tracker are shared with the other components and passed in and
    out; client requests are only read. *)
From stdpp Require Import pretty.
From S2P Require Import Prelude Msgs Actions Stateless Persisted MsgBuffers.
From S2P Require Import ReqHeap Sequence CommitState ClientTracker Proposer Outstanding.

(** ** Data *)

(** The components an epoch shares with the rest of the state machine. *)
Record shared := mkShared {
  sd_persisted : persisted;
  sd_commitState : commitState;
  sd_clientTracker : clientTracker;
}.

#[global] Instance eta_shared : Eta shared := mkEta (fun r => mkShared (sd_persisted r) (sd_commitState r) (sd_clientTracker r)).

Record preprepareBuffer := mkPreprepareBuffer {
  ppb_nextSeqNo : Z;
  ppb_buffer : msgBuffer;
}.

#[global] Instance eta_preprepareBuffer : Eta preprepareBuffer := mkEta (fun r => mkPreprepareBuffer (ppb_nextSeqNo r) (ppb_buffer r)).

Record activeEpoch := mkActiveEpoch {
  ae_epochConfig : EpochConfig;
  ae_networkConfig : NetworkState_Config;
  ae_myConfig : EventInitialParameters;
  ae_outstandingReqs : allOutstandingReqs;
  ae_proposer : proposer;
  ae_buckets : gmap Z Z;                           (* bucket to node *)
  ae_seqHeap : seqHeap;
  ae_sequences : list (list loc);                  (* by checkpoint interval *)
  ae_preprepareBuffers : list preprepareBuffer;    (* indexed by bucket *)
  ae_otherBuffers : gmap Z msgBuffer;
  ae_lowestUncommitted : Z;
  ae_lowestUnallocated : list Z;                   (* indexed by bucket *)
  ae_lastCommittedAtTick : Z;
  ae_ticksSinceProgress : Z;                       (* uint32 *)
}.

#[global] Instance eta_activeEpoch : Eta activeEpoch := mkEta (fun r =>
  mkActiveEpoch (ae_epochConfig r) (ae_networkConfig r) (ae_myConfig r) (ae_outstandingReqs r) (ae_proposer r) (ae_buckets r)
    (ae_seqHeap r) (ae_sequences r) (ae_preprepareBuffers r) (ae_otherBuffers r) (ae_lowestUncommitted r)
    (ae_lowestUnallocated r) (ae_lastCommittedAtTick r) (ae_ticksSinceProgress r)).

(** ** Creation *)

(** The leader of one bucket: the node the rotation assigns it to if that node
    leads in this epoch, the next leader in turn otherwise. *)
Definition assignBucket (epochConfig : EpochConfig) (nc : NetworkState_Config) (i : Z) (st : gmap Z Z * Z)
    : outcome (gmap Z Z * Z) :=
  let '(buckets, overflowIndex) := st in
  k ← umod (u64 i +! ec_Number epochConfig) (Z.of_nat (length (nc_Nodes nc)));
  leader ← sliceGet (nc_Nodes nc) k;
  if bool_decide (leader ∈ ec_Leaders epochConfig) then Ok (<[i := leader]> buckets, overflowIndex)
  else
    j ← umod overflowIndex (Z.of_nat (length (ec_Leaders epochConfig)));
    other ← sliceGet (ec_Leaders epochConfig) j;
    Ok (<[i := other]> buckets, overflowIndex + 1).

Definition assignBuckets (epochConfig : EpochConfig) (nc : NetworkState_Config) : outcome (gmap Z Z) :=
  '(buckets, _) ← forRange (assignBucket epochConfig nc) (seqZ 0 (nc_NumberOfBuckets nc)) (∅, 0);
  Ok buckets.

(** The first sequence number of every bucket after [startingSeqNo]. *)
Definition firstUnallocated (startingSeqNo : Z) (nc : NetworkState_Config) (n : nat) : outcome (list Z) :=
  forRange (fun i lu =>
      let firstSeqNo := startingSeqNo +! u64 (i + 1) in
      b ← seqToBucket firstSeqNo nc;
      sliceSet lu b firstSeqNo)
    (seqZ 0 (Z.of_nat n)) (replicate n 0).

Definition newActiveEpoch (h : reqHeap) (sd : shared) (nbs : nodeBuffers) (epochConfig : EpochConfig)
    (myConfig : EventInitialParameters) : outcome (shared * activeEpoch) :=
  let cs := sd_commitState sd in
  let networkConfig := ns_Config (cs_activeState cs) in
  let startingSeqNo := cs_highestCommit cs in
  '(p, sh, ct, outstandingReqs) ← newOutstandingReqs h (sd_persisted sd) emptySeqHeap (sd_clientTracker sd) (cs_activeState cs);
  buckets ← assignBuckets epochConfig networkConfig;
  lowestUnallocated ← firstUnallocated startingSeqNo networkConfig (size buckets);
  let lowestUncommitted := cs_highestCommit cs +! 1 in
  let '(proposer, ct) := newProposer startingSeqNo (u64 (nc_CheckpointInterval networkConfig)) myConfig ct buckets in
  let name suffix := ("epoch-" ++ pretty (ec_Number epochConfig) ++ suffix)%string in
  let preprepareBuffers := imap (fun i lu =>
      mkPreprepareBuffer lu (newMsgBuffer (name "-preprepare")
        (nodeBuffers_nodeBuffer nbs (default 0 (buckets !! Z.of_nat i))))) lowestUnallocated in
  let otherBuffers := foldl (fun m node => <[node := newMsgBuffer (name "-other") (nodeBuffers_nodeBuffer nbs node)]> m)
      (∅ : gmap Z msgBuffer) (nc_Nodes networkConfig) in
  Ok (sd <| sd_persisted := p |> <| sd_clientTracker := ct |>,
      mkActiveEpoch epochConfig networkConfig myConfig outstandingReqs proposer buckets sh [] preprepareBuffers otherBuffers
        lowestUncommitted lowestUnallocated 0 0).

(** ** Watermarks and lookup *)

Definition activeEpoch_seqToBucket (e : activeEpoch) (seqNo : Z) : outcome Z := seqToBucket seqNo (ae_networkConfig e).

(** The leader of a bucket, node [0] if the map has none. *)
Definition bucketOwner (e : activeEpoch) (bucketID : Z) : Z := default 0 (ae_buckets e !! bucketID).

(** [len(e.buckets)]. *)
Definition numBuckets (e : activeEpoch) : Z := Z.of_nat (size (ae_buckets e)).

Definition activeEpoch_lowWatermark (e : activeEpoch) : outcome Z :=
  interval ← sliceGet (ae_sequences e) 0;
  l ← sliceGet interval 0;
  s ← loadSequence (ae_seqHeap e) l;
  Ok (sq_seqNo s).

Definition activeEpoch_highWatermark (cs : commitState) (e : activeEpoch) : outcome Z :=
  match last (ae_sequences e) with
  | None => Ok (cs_lowWatermark cs)
  | Some interval =>
    l ← sliceGet interval (Z.of_nat (length interval) - 1);
    s ← loadSequence (ae_seqHeap e) l;
    Ok (sq_seqNo s)
  end.

(** The pointer to the sequence of a sequence number; [/] and [%] on Go's
    signed integers truncate. *)
Definition activeEpoch_sequence (e : activeEpoch) (seqNo : Z) : outcome loc :=
  low ← activeEpoch_lowWatermark e;
  let ci := nc_CheckpointInterval (ae_networkConfig e) in
  let offset := s64 (seqNo -! low) in
  if ci =? 0 then Panic "integer divide by zero"
  else
    let ciIndex := Z.quot offset ci in
    let ciOffset := Z.rem offset ci in
    if (ciIndex >=? Z.of_nat (length (ae_sequences e))) || (ciIndex <? 0) || (ciOffset <? 0) then Panic "dev error"
    else
      interval ← sliceGet (ae_sequences e) ciIndex;
      l ← sliceGet interval ciOffset;
      s ← loadSequence (ae_seqHeap e) l;
      _ ← assertTrue (sq_seqNo s =? seqNo) "sequence retrieved had different seq_no than expected";
      Ok l.

Definition activeEpoch_inWatermarks (cs : commitState) (e : activeEpoch) (seqNo : Z) : outcome bool :=
  low ← activeEpoch_lowWatermark e;
  if seqNo >=? low then
    high ← activeEpoch_highWatermark cs e;
    Ok (seqNo <=? high)
  else Ok false.

(** ** Which messages apply *)

(** The common end of the prepare and commit cases. *)
Definition inWindow (cs : commitState) (ae : activeEpoch) (seqNo : Z) : outcome applyable :=
  low ← activeEpoch_lowWatermark ae;
  if seqNo <? low then Ok past
  else
    high ← activeEpoch_highWatermark cs ae;
    Ok (if high <? seqNo then future else current).

Definition activeEpoch_filter (cs : commitState) (ae : activeEpoch) (source : Z) (msg : Msg) : outcome applyable :=
  match msg with
  | Msg_Preprepare m =>
    let seqNo := pp_SeqNo m in
    bucketID ← activeEpoch_seqToBucket ae seqNo;
    if negb (bucketOwner ae bucketID =? source) then Ok invalid
    else if ec_PlannedExpiration (ae_epochConfig ae) <? seqNo then Ok invalid
    else
      high ← activeEpoch_highWatermark cs ae;
      if high <? seqNo then Ok future
      else
        low ← activeEpoch_lowWatermark ae;
        if seqNo <? low then Ok past
        else
          ppb ← sliceGet (ae_preprepareBuffers ae) bucketID;
          Ok (if seqNo <? ppb_nextSeqNo ppb then past
              else if ppb_nextSeqNo ppb <? seqNo then future
              else current)
  | Msg_Prepare m =>
    let seqNo := prep_SeqNo m in
    bucketID ← activeEpoch_seqToBucket ae seqNo;
    if bucketOwner ae bucketID =? source then Ok invalid
    else if ec_PlannedExpiration (ae_epochConfig ae) <? seqNo then Ok invalid
    else inWindow cs ae seqNo
  | Msg_Commit m =>
    let seqNo := com_SeqNo m in
    if ec_PlannedExpiration (ae_epochConfig ae) <? seqNo then Ok invalid
    else inWindow cs ae seqNo
  | _ => Panic "unexpected msg type"
  end.

(** ** Operations *)

(** Calls a method of the sequence a pointer refers to. *)
Definition callSequence (f : persisted -> sequence -> outcome (persisted * sequence * ActionList))
    (sd : shared) (e : activeEpoch) (l : loc) : outcome (shared * activeEpoch * ActionList) :=
  '(p, sh, actions) ← onSequence f (sd_persisted sd) (ae_seqHeap e) l;
  Ok (sd <| sd_persisted := p |>, e <| ae_seqHeap := sh |>, actions).

(** [e.lowestUnallocated[bucket] += len(e.buckets)]. *)
Definition bumpUnallocated (e : activeEpoch) (bucket : Z) : outcome activeEpoch :=
  lu ← sliceGet (ae_lowestUnallocated e) bucket;
  lus ← sliceSet (ae_lowestUnallocated e) bucket (lu +! numBuckets e);
  Ok (e <| ae_lowestUnallocated := lus |>).

Section Epoch.

Context `{Size : ProtoSize} (h : reqHeap).

Definition activeEpoch_applyPreprepareMsg (sd : shared) (e : activeEpoch) (source seqNo : Z) (batch : list RequestAck)
    : outcome (shared * activeEpoch * ActionList) :=
  l ← activeEpoch_sequence e seqNo;
  seq ← loadSequence (ae_seqHeap e) l;
  if sq_owner seq =? ip_Id (ae_myConfig e) then
    callSequence (fun p s => sequence_applyPrepareMsg h p s source (sq_digest seq)) sd e l
  else
    bucketID ← activeEpoch_seqToBucket e seqNo;
    lu ← sliceGet (ae_lowestUnallocated e) bucketID;
    _ ← assertTrue (seqNo =? lu) "step should defer all but the next expected preprepare";
    e ← bumpUnallocated e bucketID;
    r ← allOutstandingReqs_applyAcks h (sd_persisted sd) (ae_seqHeap e) (ae_outstandingReqs e) bucketID l batch;
    match r with
    | inl err => Panic "handle me, we need to stop the bucket and suspect"
    | inr (p, sh, ao, actions) =>
      Ok (sd <| sd_persisted := p |>, e <| ae_seqHeap := sh |> <| ae_outstandingReqs := ao |>, actions)
    end.

Definition activeEpoch_applyPrepareMsg (sd : shared) (e : activeEpoch) (source seqNo : Z) (digest : slice)
    : outcome (shared * activeEpoch * ActionList) :=
  l ← activeEpoch_sequence e seqNo;
  callSequence (fun p s => sequence_applyPrepareMsg h p s source digest) sd e l.

(** Hands the committed sequences from [lowestUncommitted] on to the commit state. *)
Fixpoint commitLoop (fuel : nat) (cs : commitState) (e : activeEpoch) : outcome (commitState * activeEpoch) :=
  match fuel with
  | O => OutOfFuel
  | S fuel' =>
    high ← activeEpoch_highWatermark cs e;
    if ae_lowestUncommitted e <=? high then
      l ← activeEpoch_sequence e (ae_lowestUncommitted e);
      seq ← loadSequence (ae_seqHeap e) l;
      if bool_decide (sq_state seq = sequenceCommitted) then
        q ← deref (sq_qEntry seq) "nil pointer dereference: qEntry";
        cs ← commitState_commit cs q;
        commitLoop fuel' cs (e <| ae_lowestUncommitted ::= fun n => n +! 1 |>)
      else Ok (cs, e)
    else Ok (cs, e)
  end.

(** The number of sequences of the epoch. *)
Definition seqCount (e : activeEpoch) : nat := length (concat (ae_sequences e)).

(** Every iteration commits one more of the epoch's sequences.  The actions of
    the sequence are dropped, as the source drops them. *)
Definition activeEpoch_applyCommitMsg (sd : shared) (e : activeEpoch) (source seqNo : Z) (digest : slice)
    : outcome (shared * activeEpoch * ActionList) :=
  l ← activeEpoch_sequence e seqNo;
  '(sd, e, _) ← callSequence (fun p s => sequence_applyCommitMsg h p s source digest) sd e l;
  seq ← loadSequence (ae_seqHeap e) l;
  if negb (bool_decide (sq_state seq = sequenceCommitted)) || negb (seqNo =? ae_lowestUncommitted e) then Ok (sd, e, [])
  else
    '(cs, e) ← commitLoop (S (seqCount e)) (sd_commitState sd) e;
    Ok (sd <| sd_commitState := cs |>, e, []).

(** The loop of [apply] over consecutive preprepares of a bucket. *)
Fixpoint applyPreprepares (fuel : nat) (sd : shared) (ae : activeEpoch) (source bucket : Z) (nextMsg : option Msg)
    (actions : ActionList) : outcome (shared * activeEpoch * ActionList) :=
  match nextMsg with
  | None => Ok (sd, ae, actions)
  | Some msg =>
    match fuel with
    | O => OutOfFuel
    | S fuel' =>
      match msg with
      | Msg_Preprepare pp =>
        '(sd, ae, more) ← activeEpoch_applyPreprepareMsg sd ae source (pp_SeqNo pp) (pp_Batch pp);
        ppb ← sliceGet (ae_preprepareBuffers ae) bucket;
        let ppb := ppb <| ppb_nextSeqNo ::= fun n => n +! numBuckets ae |> in
        ppbs ← sliceSet (ae_preprepareBuffers ae) bucket ppb;
        let ae := ae <| ae_preprepareBuffers := ppbs |> in
        '(buffer, nextMsg) ← msgBuffer_next (activeEpoch_filter (sd_commitState sd) ae) (ppb_buffer ppb);
        ppbs ← sliceSet (ae_preprepareBuffers ae) bucket (ppb <| ppb_buffer := buffer |>);
        applyPreprepares fuel' sd (ae <| ae_preprepareBuffers := ppbs |>) source bucket nextMsg
          (ActionList_concat actions more)
      | _ => Panic "interface conversion: not a Preprepare message"
      end
    end
  end.

(** Every iteration but the first takes a message out of the bucket's buffer. *)
Definition activeEpoch_apply (sd : shared) (ae : activeEpoch) (source : Z) (msg : Msg)
    : outcome (shared * activeEpoch * ActionList) :=
  match msg with
  | Msg_Preprepare m =>
    bucket ← activeEpoch_seqToBucket ae (pp_SeqNo m);
    ppb ← sliceGet (ae_preprepareBuffers ae) bucket;
    applyPreprepares (S (length (mb_buffer (ppb_buffer ppb)))) sd ae source bucket (Some msg) []
  | Msg_Prepare m => activeEpoch_applyPrepareMsg sd ae source (prep_SeqNo m) (prep_Digest m)
  | Msg_Commit m => activeEpoch_applyCommitMsg sd ae source (com_SeqNo m) (com_Digest m)
  | _ => Panic "unexpected msg type"
  end.

Definition activeEpoch_step (sd : shared) (ae : activeEpoch) (source : Z) (msg : Msg)
    : outcome (shared * activeEpoch * ActionList) :=
  v ← activeEpoch_filter (sd_commitState sd) ae source msg;
  match v with
  | past => Ok (sd, ae, [])
  | future =>
    match msg with
    | Msg_Preprepare m =>
      bucket ← activeEpoch_seqToBucket ae (pp_SeqNo m);
      ppb ← sliceGet (ae_preprepareBuffers ae) bucket;
      ppbs ← sliceSet (ae_preprepareBuffers ae) bucket (ppb <| ppb_buffer ::= fun mb => msgBuffer_store mb msg |>);
      Ok (sd, ae <| ae_preprepareBuffers := ppbs |>, [])
    | _ =>
      mb ← deref (ae_otherBuffers ae !! source) "nil pointer dereference: msgBuffer";
      Ok (sd, ae <| ae_otherBuffers ::= <[source := msgBuffer_store mb msg]> |>, [])
    end
  | invalid => Ok (sd, ae, [])
  | current => activeEpoch_apply sd ae source msg
  end.

(** One bucket of the first loop of [drainBuffers]. *)
Definition drainPreprepares (i : Z) (st : shared * activeEpoch * ActionList) : outcome (shared * activeEpoch * ActionList) :=
  let '(sd, e, actions) := st in
  ppb ← sliceGet (ae_preprepareBuffers e) i;
  let source := bucketOwner e i in
  '(buffer, nextMsg) ← msgBuffer_next (activeEpoch_filter (sd_commitState sd) e) (ppb_buffer ppb);
  ppbs ← sliceSet (ae_preprepareBuffers e) i (ppb <| ppb_buffer := buffer |>);
  let e := e <| ae_preprepareBuffers := ppbs |> in
  match nextMsg with
  | None => Ok (sd, e, actions)
  | Some msg =>
    '(sd, e, more) ← activeEpoch_apply sd e source msg;
    Ok (sd, e, ActionList_concat actions more)
  end.

(** One node of the second loop; applying does not touch the node's buffer. *)
Definition drainOther (id : Z) (st : shared * activeEpoch * ActionList) : outcome (shared * activeEpoch * ActionList) :=
  let '(_, e, _) := st in
  mb ← deref (ae_otherBuffers e !! id) "nil pointer dereference: msgBuffer";
  '(mb, st) ← msgBuffer_iterate
      (fun (st : shared * activeEpoch * ActionList) source msg =>
         let '(sd, e, _) := st in activeEpoch_filter (sd_commitState sd) e source msg)
      (fun source msg (st : shared * activeEpoch * ActionList) =>
         let '(sd, e, actions) := st in
         '(sd, e, more) ← activeEpoch_apply sd e source msg;
         Ok (sd, e, ActionList_concat actions more))
      mb st;
  let '(sd, e, actions) := st in
  Ok (sd, e <| ae_otherBuffers ::= <[id := mb]> |>, actions).

Definition activeEpoch_drainBuffers (sd : shared) (e : activeEpoch) : outcome (shared * activeEpoch * ActionList) :=
  st ← forRange drainPreprepares (seqZ 0 (numBuckets e)) (sd, e, []);
  forRange drainOther (nc_Nodes (ae_networkConfig e)) st.

(** The sequences of one more checkpoint interval. *)
Definition newInterval (high : Z) (e : activeEpoch) : outcome (seqHeap * list loc) :=
  forRange (fun i (st : seqHeap * list loc) =>
      let '(sh, ls) := st in
      let seqNo := high +! 1 +! u64 i in
      b ← activeEpoch_seqToBucket e seqNo;
      let '(sh, l) := allocSequence sh
        (newSequence (bucketOwner e b) (ec_Number (ae_epochConfig e)) seqNo (ae_networkConfig e) (ae_myConfig e)) in
      Ok (sh, ls ++ [l]))
    (seqZ 0 (nc_CheckpointInterval (ae_networkConfig e))) (ae_seqHeap e, []).

Fixpoint extendSequences (fuel : nat) (sd : shared) (e : activeEpoch) (actions : ActionList)
    : outcome (shared * activeEpoch * ActionList) :=
  match fuel with
  | O => OutOfFuel
  | S fuel' =>
    high ← activeEpoch_highWatermark (sd_commitState sd) e;
    if (high <? ec_PlannedExpiration (ae_epochConfig e)) && (high <? cs_stopAtSeqNo (sd_commitState sd)) then
      _ ← makeSlice (nc_CheckpointInterval (ae_networkConfig e)) 0;
      '(p, more) ← persisted_addNEntry (sd_persisted sd) (mkNEntry (high +! 1) (ae_epochConfig e));
      '(sh, newSequences) ← newInterval high e;
      extendSequences fuel' (sd <| sd_persisted := p |>)
        (e <| ae_seqHeap := sh |> <| ae_sequences ::= fun l => l ++ [newSequences] |>) (ActionList_concat actions more)
    else Ok (sd, e, actions)
  end.

(** Proposes full batches in one bucket this node leads. *)
Fixpoint proposeBucket (fuel : nat) (bid : Z) (sd : shared) (e : activeEpoch) (actions : ActionList)
    : outcome (shared * activeEpoch * ActionList) :=
  match fuel with
  | O => OutOfFuel
  | S fuel' =>
    seqNo ← sliceGet (ae_lowestUnallocated e) bid;
    high ← activeEpoch_highWatermark (sd_commitState sd) e;
    if high <? seqNo then Ok (sd, e, actions)
    else
      prb ← deref (proposer_proposalBucket (ae_proposer e) bid) "nil pointer dereference: proposalBucket";
      let '(prb, pending) := proposalBucket_hasPending prb seqNo in
      let e := e <| ae_proposer ::= fun p => p <| pr_proposalBuckets ::= <[bid := prb]> |> |> in
      if negb pending then Ok (sd, e, actions)
      else
        l ← activeEpoch_sequence e seqNo;
        let '(prb, reqs) := proposalBucket_next prb in
        let e := e <| ae_proposer ::= fun p => p <| pr_proposalBuckets ::= <[bid := prb]> |> |> in
        '(sd, e, more) ← callSequence (fun p s => sequence_allocateAsOwner h p s reqs) sd e l;
        e ← bumpUnallocated e bid;
        proposeBucket fuel' bid sd e (ActionList_concat actions more)
  end.

Definition proposeOwn (bid : Z) (st : shared * activeEpoch * ActionList) : outcome (shared * activeEpoch * ActionList) :=
  let '(sd, e, actions) := st in
  if negb (bucketOwner e bid =? ip_Id (ae_myConfig e)) then Ok st
  else proposeBucket (S (seqCount e)) bid sd e actions.

(** Every interval has at least one sequence, so the first loop ends after at
    most [stopAtSeqNo - high] iterations, and the proposals of a bucket after
    as many as there are sequences. *)
Definition activeEpoch_advance (sd : shared) (e : activeEpoch) : outcome (shared * activeEpoch * ActionList) :=
  high ← activeEpoch_highWatermark (sd_commitState sd) e;
  _ ← assertTrue (high <=? ec_PlannedExpiration (ae_epochConfig e))
        "high watermark should never extend beyond the planned epoch expiration";
  _ ← assertTrue (high <=? cs_stopAtSeqNo (sd_commitState sd)) "high watermark should never extend beyond the stop at sequence";
  '(sd, e, actions) ← extendSequences (S (Z.to_nat (cs_stopAtSeqNo (sd_commitState sd) - high))) sd e [];
  '(sd, e, more) ← activeEpoch_drainBuffers sd e;
  let actions := ActionList_concat actions more in
  '(proposer, ct) ← proposer_advance h (ae_proposer e) (sd_clientTracker sd) (ae_lowestUncommitted e);
  let sd := sd <| sd_clientTracker := ct |> in
  let e := e <| ae_proposer := proposer |> in
  forRange proposeOwn (seqZ 0 (nc_NumberOfBuckets (ae_networkConfig e))) (sd, e, actions).

(** Drops the intervals below the low watermark. *)
Fixpoint dropIntervals (fuel : nat) (seqNo : Z) (e : activeEpoch) : outcome activeEpoch :=
  match fuel with
  | O => OutOfFuel
  | S fuel' =>
    low ← activeEpoch_lowWatermark e;
    if low <? seqNo then
      rest ← sliceFrom (ae_sequences e) 1;
      dropIntervals fuel' seqNo (e <| ae_sequences := rest |>)
    else Ok e
  end.

Definition activeEpoch_moveLowWatermark (sd : shared) (e : activeEpoch) (seqNo : Z)
    : outcome (shared * activeEpoch * ActionList * bool) :=
  if seqNo =? ec_PlannedExpiration (ae_epochConfig e) then Ok (sd, e, [], true)
  else if seqNo =? cs_stopAtSeqNo (sd_commitState sd) then Ok (sd, e, [], true)
  else
    '(sd, e, actions) ← activeEpoch_advance sd e;
    e ← dropIntervals (S (length (ae_sequences e))) seqNo e;
    Ok (sd, e, actions, false).

Definition activeEpoch_applyBatchHashResult (sd : shared) (e : activeEpoch) (seqNo : Z) (digest : slice)
    : outcome (shared * activeEpoch * ActionList) :=
  inside ← activeEpoch_inWatermarks (sd_commitState sd) e seqNo;
  if negb inside then Ok (sd, e, [])
  else
    l ← activeEpoch_sequence e seqNo;
    callSequence (fun p s => sequence_applyBatchHashResult h p s digest) sd e l.

(** The heartbeat of one bucket: a batch of whatever is pending, or an empty one. *)
Definition heartbeat (bid : Z) (st : shared * activeEpoch * ActionList) : outcome (shared * activeEpoch * ActionList) :=
  let '(sd, e, actions) := st in
  unallocatedSeqNo ← sliceGet (ae_lowestUnallocated e) bid;
  high ← activeEpoch_highWatermark (sd_commitState sd) e;
  if high <? unallocatedSeqNo then Ok st
  else if negb (bucketOwner e bid =? ip_Id (ae_myConfig e)) then Ok st
  else
    l ← activeEpoch_sequence e unallocatedSeqNo;
    prb ← deref (proposer_proposalBucket (ae_proposer e) bid) "nil pointer dereference: proposalBucket";
    let '(prb, outstanding) := proposalBucket_hasOutstanding prb unallocatedSeqNo in
    let '(prb, clientReqs) := if outstanding then proposalBucket_next prb else (prb, []) in
    let e := e <| ae_proposer ::= fun p => p <| pr_proposalBuckets ::= <[bid := prb]> |> |> in
    '(sd, e, more) ← callSequence (fun p s => sequence_allocateAsOwner h p s clientReqs) sd e l;
    e ← bumpUnallocated e bid;
    Ok (sd, e, ActionList_concat actions more).

Definition activeEpoch_tick (sd : shared) (e : activeEpoch) : outcome (shared * activeEpoch * ActionList) :=
  if ae_lastCommittedAtTick e <? cs_highestCommit (sd_commitState sd) then
    Ok (sd, e <| ae_lastCommittedAtTick := cs_highestCommit (sd_commitState sd) |> <| ae_ticksSinceProgress := 0 |>, [])
  else
    let e := e <| ae_ticksSinceProgress ::= fun n => u32 (n + 1) |> in
    '(sd, actions) ←
      (if ip_SuspectTicks (ae_myConfig e) <? ae_ticksSinceProgress e then
         let suspect := mkSuspect (ec_Number (ae_epochConfig e)) in
         let actions := ActionList_Send [] (nc_Nodes (ae_networkConfig e)) (Msg_Suspect suspect) in
         '(p, more) ← persisted_addSuspect (sd_persisted sd) suspect;
         Ok (sd <| sd_persisted := p |>, ActionList_concat actions more)
       else Ok (sd, []));
    if (ip_HeartbeatTicks (ae_myConfig e) =? 0)
       || negb (ae_ticksSinceProgress e mod ip_HeartbeatTicks (ae_myConfig e) =? 0)
    then Ok (sd, e, actions)
    else forRange heartbeat (seqZ 0 (Z.of_nat (length (ae_lowestUnallocated e)))) (sd, e, actions).

End Epoch.

(** ** Specification *)

(** All sequences of the epoch, in order. *)
Definition seqLocs (e : activeEpoch) : list loc := concat (ae_sequences e).

(** What identifies a sequence: its number, its leader and its epoch. *)
Definition seqId (s : sequence) : Z * Z * Z := (sq_seqNo s, sq_owner s, sq_epoch s).

(** The sequences are those of consecutive numbers from [low] on, in intervals
    of the checkpoint interval, each led by the leader of its bucket. *)
Record sequences_wf (low : Z) (e : activeEpoch) : Prop := {
  sw_ci : 0 < nc_CheckpointInterval (ae_networkConfig e) < 2 ^ 31;
  sw_buckets : 0 < nc_NumberOfBuckets (ae_networkConfig e) < 2 ^ 31;
  sw_low : 0 <= low;
  sw_range : low + Z.of_nat (length (seqLocs e)) < 2 ^ 63;
  sw_intervals : Forall (fun i => Z.of_nat (length i) = nc_CheckpointInterval (ae_networkConfig e)) (ae_sequences e);
  sw_seqs : forall k l, seqLocs e !! k = Some l -> exists s, sh_seqs (ae_seqHeap e) !! l = Some s
    /\ seqId s = (low + Z.of_nat k,
                  bucketOwner e ((low + Z.of_nat k) mod nc_NumberOfBuckets (ae_networkConfig e)),
                  ec_Number (ae_epochConfig e));
  sw_fresh : forall l, sh_next (ae_seqHeap e) <= l -> sh_seqs (ae_seqHeap e) !! l = None;
}.

(** ** Lemmas: finding a sequence *)

Lemma concat_lookup {A : Type} (ls : list (list A)) (n k : nat) :
  (0 < n)%nat -> Forall (fun l => length l = n) ls ->
  concat ls !! k = (ls !! (k / n)%nat ≫= fun l => l !! (k mod n)%nat).
Proof.
  intros Hn Hls. revert k. induction Hls as [|l ls Hl _ IH]; intros k; cbn [concat]; [done |].
  destruct (decide (k < n)%nat) as [Hk | Hk].
  - rewrite Nat.div_small, Nat.mod_small by done. cbn. by rewrite lookup_app_l by lia.
  - rewrite lookup_app_r by lia. rewrite Hl, IH.
    replace (k / n)%nat with ((k - n + 1 * n) / n)%nat by (f_equal; lia).
    replace (k mod n)%nat with ((k - n + 1 * n) mod n)%nat by (f_equal; lia).
    rewrite Nat.div_add, Nat.Div0.mod_add by lia. replace ((k - n) / n + 1)%nat with (S ((k - n) / n)) by lia. done.
Qed.

Lemma sliceGet_lookup {A : Type} (l : list A) (i : Z) (x : A) : sliceGet l i = Ok x <-> 0 <= i /\ l !! Z.to_nat i = Some x.
Proof.
  unfold sliceGet. destruct (Z.ltb_spec i 0); [split; [done | lia] |]. rewrite deref_Ok. split; [auto | by intros []].
Qed.

Section Lookup.

Context (low : Z) (e : activeEpoch) (Hwf : sequences_wf low e).

Let ci : nat := Z.to_nat (nc_CheckpointInterval (ae_networkConfig e)).

Lemma intervals_length : Forall (fun l => length l = ci) (ae_sequences e).
Proof using Hwf. eapply Forall_impl; [exact (sw_intervals _ _ Hwf) |]. cbn. intros l Hl. unfold ci. lia. Qed.

Lemma seqLocs_lookup (k : nat) : seqLocs e !! k = (ae_sequences e !! (k / ci)%nat ≫= fun l => l !! (k mod ci)%nat).
Proof using Hwf. apply concat_lookup; [pose proof (sw_ci _ _ Hwf); unfold ci; lia | exact intervals_length]. Qed.

Lemma seqLocs_length : length (seqLocs e) = (length (ae_sequences e) * ci)%nat.
Proof using Hwf.
  unfold seqLocs. pose proof intervals_length as Hi. induction Hi as [|l ls Hl _ IH]; [done |].
  cbn [concat length]. rewrite length_app, IH, Hl. lia.
Qed.

Lemma lowWatermark_wf : seqLocs e <> [] -> activeEpoch_lowWatermark e = Ok low.
Proof using Hwf.
  intros Hne. destruct (seqLocs e !! 0%nat) as [l |] eqn:Hl; [| by destruct (seqLocs e)].
  destruct (sw_seqs _ _ Hwf _ _ Hl) as (s & Hs & [= Hseq _ _]). rewrite seqLocs_lookup in Hl.
  rewrite Nat.div_0_l, Nat.Div0.mod_0_l in Hl by (pose proof (sw_ci _ _ Hwf); unfold ci; lia).
  destruct (ae_sequences e !! 0%nat) as [i |] eqn:Hi; cbn in Hl; [| done].
  unfold activeEpoch_lowWatermark. rewrite (proj2 (sliceGet_lookup _ 0 i)) by done. cbn [mbind outcome_bind].
  rewrite (proj2 (sliceGet_lookup _ 0 l)) by done. cbn [mbind outcome_bind]. unfold loadSequence. rewrite Hs. cbn. f_equal. lia.
Qed.

Lemma highWatermark_wf (cs : commitState) :
  seqLocs e <> [] -> activeEpoch_highWatermark cs e = Ok (low + Z.of_nat (length (seqLocs e)) - 1).
Proof using Hwf.
  intros Hne. pose proof (sw_ci _ _ Hwf) as Hci. assert (Hpos : (0 < ci)%nat) by (unfold ci; lia).
  assert (Hlen : (0 < length (ae_sequences e))%nat).
  { destruct (ae_sequences e) eqn:E; [| cbn; lia]. unfold seqLocs in Hne. by rewrite E in Hne. }
  unfold activeEpoch_highWatermark. rewrite last_lookup.
  destruct (ae_sequences e !! pred (length (ae_sequences e))) as [i |] eqn:Hi; [| apply lookup_ge_None in Hi; lia].
  pose proof (proj1 (Forall_lookup _ _) intervals_length _ _ Hi) as Hli. cbn in Hli.
  assert (Hk : seqLocs e !! (length (seqLocs e) - 1)%nat = i !! (ci - 1)%nat).
  { rewrite seqLocs_lookup, seqLocs_length.
    replace (length (ae_sequences e) * ci - 1)%nat with ((ci - 1) + pred (length (ae_sequences e)) * ci)%nat by nia.
    rewrite Nat.div_add, Nat.Div0.mod_add by lia. rewrite Nat.div_small, Nat.mod_small by lia. cbn. by rewrite Hi. }
  destruct (seqLocs e !! (length (seqLocs e) - 1)%nat) as [l |] eqn:Hl.
  2: { apply lookup_ge_None in Hl. destruct (seqLocs e); [done | cbn in Hl; lia]. }
  destruct (sw_seqs _ _ Hwf _ _ Hl) as (s & Hs & [= Hseq _ _]).
  rewrite (proj2 (sliceGet_lookup _ _ l)); [| split; [lia |]; rewrite Hk; f_equal; lia].
  cbn [mbind outcome_bind]. unfold loadSequence. rewrite Hs. cbn. f_equal.
  destruct (seqLocs e); [done | cbn in *; lia].
Qed.

(** Every number between the watermarks is found. *)
Lemma sequence_wf_lookup (seqNo : Z) :
  low <= seqNo < low + Z.of_nat (length (seqLocs e)) ->
  exists l, activeEpoch_sequence e seqNo = Ok l /\ seqLocs e !! Z.to_nat (seqNo - low) = Some l.
Proof using Hwf.
  intros Hr. pose proof (sw_ci _ _ Hwf) as Hci. pose proof (sw_range _ _ Hwf). pose proof (sw_low _ _ Hwf).
  assert (Hpos : (0 < ci)%nat) by (unfold ci; lia).
  destruct (seqLocs e !! Z.to_nat (seqNo - low)) as [l |] eqn:Hl; [| apply lookup_ge_None in Hl; lia].
  exists l. split; [| done]. destruct (sw_seqs _ _ Hwf _ _ Hl) as (s & Hs & [= Hseq _ _]).
  unfold activeEpoch_sequence. rewrite lowWatermark_wf by (intros E; rewrite E in Hl; done). cbn [mbind outcome_bind].
  rewrite seqLocs_lookup in Hl.
  destruct (Z.eqb_spec (nc_CheckpointInterval (ae_networkConfig e)) 0); [lia |]. nowrap.
  assert (Hs64 : s64 (seqNo - low) = seqNo - low) by (unfold s64; nowrap; destruct (Z.ltb_spec (seqNo - low) (2 ^ 63)); lia).
  rewrite Hs64. rewrite Z.quot_div_nonneg, Z.rem_mod_nonneg by lia.
  assert (Hdiv : Z.to_nat ((seqNo - low) / nc_CheckpointInterval (ae_networkConfig e)) = (Z.to_nat (seqNo - low) / ci)%nat)
    by (unfold ci; rewrite Z2Nat.inj_div by lia; done).
  assert (Hmod : Z.to_nat ((seqNo - low) mod nc_CheckpointInterval (ae_networkConfig e)) = (Z.to_nat (seqNo - low) mod ci)%nat)
    by (unfold ci; rewrite Z2Nat.inj_mod by lia; done).
  pose proof (Z.div_pos (seqNo - low) (nc_CheckpointInterval (ae_networkConfig e)) ltac:(lia) ltac:(lia)).
  pose proof (Z.mod_pos_bound (seqNo - low) (nc_CheckpointInterval (ae_networkConfig e)) ltac:(lia)).
  destruct (ae_sequences e !! (Z.to_nat (seqNo - low) / ci)%nat) as [i |] eqn:Hi; cbn in Hl; [| done].
  pose proof (lookup_lt_Some _ _ _ Hi) as Hlt.
  rewrite Z.geb_leb. destruct (Z.leb_spec (Z.of_nat (length (ae_sequences e))) ((seqNo - low) / nc_CheckpointInterval (ae_networkConfig e))); [lia |].
  destruct (Z.ltb_spec ((seqNo - low) / nc_CheckpointInterval (ae_networkConfig e)) 0); [lia |].
  destruct (Z.ltb_spec ((seqNo - low) mod nc_CheckpointInterval (ae_networkConfig e)) 0); [lia |]. cbn [orb].
  rewrite (proj2 (sliceGet_lookup _ _ i)) by (split; [lia | by rewrite Hdiv]). cbn [mbind outcome_bind].
  rewrite (proj2 (sliceGet_lookup _ _ l)) by (split; [lia | by rewrite Hmod]). cbn [mbind outcome_bind].
  unfold loadSequence. rewrite Hs. cbn. rewrite (proj2 (Z.eqb_eq _ _)) by lia. done.
Qed.

End Lookup.

(** ** Lemmas: what the operations keep *)

Definition heapKept (sh sh' : seqHeap) : Prop :=
  sh_next sh' = sh_next sh /\ forall l, seqId <$> sh_seqs sh' !! l = seqId <$> sh_seqs sh !! l.

#[global] Instance heapKept_preorder : PreOrder heapKept.
Proof.
  split; [done |]. intros sh1 sh2 sh3 [H1 H2] [H3 H4]. split; [congruence |]. intros l. by rewrite H4, H2.
Qed.

Record epochKept (e e' : activeEpoch) : Prop := {
  ek_epochConfig : ae_epochConfig e' = ae_epochConfig e;
  ek_networkConfig : ae_networkConfig e' = ae_networkConfig e;
  ek_myConfig : ae_myConfig e' = ae_myConfig e;
  ek_buckets : ae_buckets e' = ae_buckets e;
  ek_sequences : ae_sequences e' = ae_sequences e;
  ek_heap : heapKept (ae_seqHeap e) (ae_seqHeap e');
}.

#[global] Instance epochKept_preorder : PreOrder epochKept.
Proof.
  split; [intros e; by split |]. intros e1 e2 e3 [] []. split; try congruence. by transitivity (ae_seqHeap e2).
Qed.

Lemma epochKept_wf (low : Z) (e e' : activeEpoch) : epochKept e e' -> sequences_wf low e -> sequences_wf low e'.
Proof.
  intros [He Hn _ Hb Hs [Hnx Hid]] []. split; unfold seqLocs, bucketOwner in *; rewrite ?Hs, ?Hn, ?Hb, ?He, ?Hnx; try done.
  - intros k l Hl. destruct (sw_seqs0 k l Hl) as (s & Hls & Hsid). specialize (Hid l). rewrite Hls in Hid. cbn in Hid.
    destruct (sh_seqs (ae_seqHeap e') !! l) as [s' |]; cbn in Hid; [| done]. injection Hid as Hid1 Hid2 Hid3.
    exists s'. split; [done |]. unfold seqId in *. congruence.
  - intros l Hl. specialize (Hid l). rewrite sw_fresh0 in Hid by done. by destruct (sh_seqs (ae_seqHeap e') !! l).
Qed.

(** Operations on one sequence keep what identifies it. *)
Definition keepsId (f : persisted -> sequence -> outcome (persisted * sequence * ActionList)) : Prop :=
  forall p s p' s' acts, f p s = Ok (p', s', acts) -> seqId s' = seqId s.

Lemma sameVotes_id (s s' : sequence) : sameVotes s s' -> seqId s' = seqId s.
Proof. intros []. unfold seqId. congruence. Qed.

Lemma advanceState_id (h : reqHeap) (p p' : persisted) (s s' : sequence) (acts : ActionList) :
  sequence_advanceState h p s = Ok (p', s', acts) -> seqId s' = seqId s.
Proof. intros [Had _]%advanceState_spec. apply sameVotes_id, (ad_same _ _ _ Had). Qed.

Lemma nodeChoice_id (s s' : sequence) (n : Z) (c : nodeSeqChoice) : sequence_nodeChoice s n = (s', c) -> seqId s' = seqId s.
Proof. intros (_ & Hs & _)%nodeChoice_spec. by apply sameVotes_id. Qed.

Lemma applyPrepareMsg_id (h : reqHeap) (source : Z) (digest : slice) :
  keepsId (fun p s => sequence_applyPrepareMsg h p s source digest).
Proof.
  intros p s p' s' acts H. unfold sequence_applyPrepareMsg in H.
  destruct (sequence_nodeChoice s source) as [s1 c] eqn:Hc. apply nodeChoice_id in Hc.
  case_match; [by injection H as <- <- <- |]. apply advanceState_id in H. by rewrite H.
Qed.

Lemma applyCommitMsg_id (h : reqHeap) (source : Z) (digest : slice) :
  keepsId (fun p s => sequence_applyCommitMsg h p s source digest).
Proof.
  intros p s p' s' acts H. unfold sequence_applyCommitMsg in H.
  destruct (sequence_nodeChoice s source) as [s1 c] eqn:Hc. apply nodeChoice_id in Hc.
  case_match; [by injection H as <- <- <- |]. apply advanceState_id in H. by rewrite H.
Qed.

Lemma applyBatchHashResult_id (h : reqHeap) (digest : slice) : keepsId (fun p s => sequence_applyBatchHashResult h p s digest).
Proof. intros p s p' s' acts H. unfold sequence_applyBatchHashResult in H. apply applyPrepareMsg_id in H. done. Qed.

Lemma allocate_id (h : reqHeap) (acks : list RequestAck) (out : gset bytes) : keepsId (fun p s => sequence_allocate h p s acks out).
Proof.
  intros p s p' s' acts H. unfold sequence_allocate in H. apply bind_Ok in H as (u & _ & H). case_match.
  - apply applyBatchHashResult_id in H. done.
  - apply bind_Ok in H as ([[p1 s1] a1] & H1 & H). injection H as <- <- <-. apply advanceState_id in H1. done.
Qed.

Lemma allocateAsOwner_id (h : reqHeap) (reqs : list loc) : keepsId (fun p s => sequence_allocateAsOwner h p s reqs).
Proof.
  intros p s p' s' acts H. unfold sequence_allocateAsOwner in H. apply bind_Ok in H as (acks & _ & H). by apply allocate_id in H.
Qed.

Lemma satisfyOutstanding_id (h : reqHeap) (ack : RequestAck) : keepsId (fun p s => sequence_satisfyOutstanding h p s ack).
Proof. intros p s p' s' acts H. unfold sequence_satisfyOutstanding in H. apply bind_Ok in H as (u & _ & H). by apply advanceState_id in H. Qed.

Create HintDb epoch.
#[export] Hint Resolve applyPrepareMsg_id applyCommitMsg_id applyBatchHashResult_id allocate_id allocateAsOwner_id : epoch.

Lemma onSequence_kept (f : persisted -> sequence -> outcome (persisted * sequence * ActionList)) (p p' : persisted) (sh sh' : seqHeap)
    (l : loc) (acts : ActionList) :
  keepsId f -> onSequence f p sh l = Ok (p', sh', acts) -> heapKept sh sh'.
Proof.
  intros Hf H. unfold onSequence, loadSequence in H. apply bind_Ok in H as (s & Hs & H). apply deref_Ok in Hs.
  apply bind_Ok in H as ([[p1 s1] a1] & H1 & H). injection H as <- <- <-. apply Hf in H1. split; [done |].
  intros l'. cbn. rewrite lookup_insert. case_decide; [| done]. subst l'. rewrite Hs. cbn. by rewrite H1.
Qed.

Lemma applyAcks_kept (h : reqHeap) (p p' : persisted) (sh sh' : seqHeap) (ao ao' : allOutstandingReqs) (bucket : Z) (l : loc)
    (batch : list RequestAck) (acts : ActionList) :
  allOutstandingReqs_applyAcks h p sh ao bucket l batch = Ok (inr (p', sh', ao', acts)) -> heapKept sh sh'.
Proof.
  unfold allOutstandingReqs_applyAcks. intros H. apply bind_Ok in H as (u & _ & H).
  apply bind_Ok in H as ([err | [ao1 out1]] & _ & H); [done |]. apply bind_Ok in H as ([[p1 sh1] a1] & H1 & H).
  injection H as <- <- <- <-. eapply onSequence_kept; [| exact H1]. apply allocate_id.
Qed.

Lemma callSequence_kept (f : persisted -> sequence -> outcome (persisted * sequence * ActionList)) (sd sd' : shared) (e e' : activeEpoch)
    (l : loc) (acts : ActionList) :
  keepsId f -> callSequence f sd e l = Ok (sd', e', acts) -> epochKept e e'.
Proof.
  intros Hf H. unfold callSequence in H. apply bind_Ok in H as ([[p sh] a] & H1 & H). injection H as <- <- <-.
  split; try done. by eapply onSequence_kept.
Qed.

Lemma bumpUnallocated_kept (e e' : activeEpoch) (b : Z) : bumpUnallocated e b = Ok e' -> epochKept e e'.
Proof.
  unfold bumpUnallocated. intros H. apply bind_Ok in H as (lu & _ & H). apply bind_Ok in H as (lus & _ & H).
  injection H as <-. by split.
Qed.

(** Splits a run of the epoch's code and its conditionals. *)
Ltac epoch_runs :=
  repeat match goal with
  | H : Ok _ = Ok _ |- _ => injection H as; subst
  | H : inr _ = inr _ |- _ => injection H as; subst
  | H : Some _ = Some _ |- _ => injection H as; subst
  | H : (_, _) = (_, _) |- _ => injection H as; subst
  | H : Panic _ = Ok _ |- _ => discriminate H
  | H : OutOfFuel = Ok _ |- _ => discriminate H
  | H : (_ ≫= _) = Ok _ |- _ =>
    let x := fresh "x" in let Hx := fresh "Hrun" in let Hk := fresh "Hrun" in apply bind_Ok in H as (x & Hx & Hk)
  | H : (let '(_, _) := ?x in _) = Ok _ |- _ => destruct x eqn:?
  | H : (if ?c then _ else _) = Ok _ |- _ => destruct c eqn:?
  | H : match ?x with _ => _ end = Ok _ |- _ => destruct x eqn:?
  end.

(** Closes [epochKept] goals from the steps in the context. *)
Ltac kept :=
  match goal with
  | |- epochKept ?e ?e => reflexivity
  | H : callSequence _ _ ?e _ = Ok (_, ?e', _) |- epochKept ?e _ =>
    transitivity e'; [eapply callSequence_kept; [| exact H]; eauto with epoch |]; clear H; kept
  | H : bumpUnallocated ?e _ = Ok ?e' |- epochKept ?e _ =>
    transitivity e'; [by eapply bumpUnallocated_kept; exact H |]; clear H; kept
  | |- epochKept _ _ => by split
  end.

Section Kept.

Context `{Size : ProtoSize} (h : reqHeap).

Lemma applyPreprepareMsg_kept (sd sd' : shared) (e e' : activeEpoch) (source seqNo : Z) (batch : list RequestAck) (acts : ActionList) :
  activeEpoch_applyPreprepareMsg h sd e source seqNo batch = Ok (sd', e', acts) -> epochKept e e'.
Proof.
  unfold activeEpoch_applyPreprepareMsg. intros H. epoch_runs; [kept |].
  match goal with H : bumpUnallocated e _ = Ok ?e1 |- _ => transitivity e1; [by eapply bumpUnallocated_kept |] end.
  match goal with H : allOutstandingReqs_applyAcks _ _ _ _ _ _ _ = _ |- _ => apply applyAcks_kept in H end. by split.
Qed.

Lemma applyPrepareMsg_kept (sd sd' : shared) (e e' : activeEpoch) (source seqNo : Z) (digest : slice) (acts : ActionList) :
  activeEpoch_applyPrepareMsg h sd e source seqNo digest = Ok (sd', e', acts) -> epochKept e e'.
Proof. unfold activeEpoch_applyPrepareMsg. intros H. epoch_runs. kept. Qed.

Lemma commitLoop_kept (fuel : nat) (cs cs' : commitState) (e e' : activeEpoch) :
  commitLoop fuel cs e = Ok (cs', e') -> epochKept e e' /\ ae_seqHeap e' = ae_seqHeap e.
Proof.
  revert cs e. induction fuel as [|fuel IH]; intros cs e H; cbn [commitLoop] in H; [done |]. epoch_runs; try done.
  match goal with H : commitLoop _ _ _ = _ |- _ => apply IH in H as [Hk Hh] end.
  split; [| done]. etransitivity; [| exact Hk]. by split.
Qed.

Lemma applyCommitMsg_kept (sd sd' : shared) (e e' : activeEpoch) (source seqNo : Z) (digest : slice) (acts : ActionList) :
  activeEpoch_applyCommitMsg h sd e source seqNo digest = Ok (sd', e', acts) -> epochKept e e'.
Proof.
  unfold activeEpoch_applyCommitMsg. intros H. epoch_runs; [kept |].
  match goal with H : commitLoop _ _ ?e1 = _ |- _ => apply commitLoop_kept in H as [Hk _]; transitivity e1; [| exact Hk] end. kept.
Qed.

Lemma applyPreprepares_kept (fuel : nat) (sd sd' : shared) (e e' : activeEpoch) (source bucket : Z) (next : option Msg) (a0 acts : ActionList) :
  applyPreprepares h fuel sd e source bucket next a0 = Ok (sd', e', acts) -> epochKept e e'.
Proof.
  revert sd e next a0. induction fuel as [|fuel IH]; intros sd e next a0 H; destruct next as [msg |]; cbn [applyPreprepares] in H; try done.
  1, 3: by injection H as <- <- <-.
  destruct msg; try done. epoch_runs.
  match goal with H : applyPreprepares _ _ _ _ _ _ _ _ = _ |- _ => apply IH in H end.
  match goal with H : activeEpoch_applyPreprepareMsg _ _ _ _ _ _ = Ok (_, ?e1, _) |- _ => apply applyPreprepareMsg_kept in H; transitivity e1; [exact H |] end.
  etransitivity; [| eassumption]. by split.
Qed.

Lemma apply_kept (sd sd' : shared) (e e' : activeEpoch) (source : Z) (msg : Msg) (acts : ActionList) :
  activeEpoch_apply h sd e source msg = Ok (sd', e', acts) -> epochKept e e'.
Proof.
  unfold activeEpoch_apply. destruct msg; try done; intros H.
  - epoch_runs. by eapply applyPreprepares_kept.
  - by eapply applyPrepareMsg_kept.
  - by eapply applyCommitMsg_kept.
Qed.

Lemma step_kept (sd sd' : shared) (e e' : activeEpoch) (source : Z) (msg : Msg) (acts : ActionList) :
  activeEpoch_step h sd e source msg = Ok (sd', e', acts) -> epochKept e e'.
Proof.
  unfold activeEpoch_step. intros H. apply bind_Ok in H as (v & _ & H). destruct v; epoch_runs; try (by split); by eapply apply_kept.
Qed.

Lemma drainPreprepares_kept (i : Z) (sd sd' : shared) (e e' : activeEpoch) (a0 acts : ActionList) :
  drainPreprepares h i (sd, e, a0) = Ok (sd', e', acts) -> epochKept e e'.
Proof.
  unfold drainPreprepares. intros H. epoch_runs; [| by split].
  match goal with H : activeEpoch_apply _ _ _ _ _ = _ |- _ => apply apply_kept in H end. etransitivity; [| eassumption]. by split.
Qed.

Lemma drainOther_kept (id : Z) (sd sd' : shared) (e e' : activeEpoch) (a0 acts : ActionList) :
  drainOther h id (sd, e, a0) = Ok (sd', e', acts) -> epochKept e e'.
Proof.
  unfold drainOther. intros H. apply bind_Ok in H as (mb & _ & H). apply bind_Ok in H as ([mb' [[sd1 e1] a1]] & Hit & H).
  injection H as <- <- <-.
  apply (iterate_inv (fun st : shared * activeEpoch * ActionList => epochKept e st.1.2)) in Hit; [| | reflexivity].
  - cbn in Hit. etransitivity; [exact Hit |]. by split.
  - intros src m [[sd2 e2] a2] st' Hk Ha. cbn in *. epoch_runs. cbn.
    match goal with H : activeEpoch_apply _ _ _ _ _ = _ |- _ => apply apply_kept in H end. by etransitivity.
Qed.

Lemma drainBuffers_kept (sd sd' : shared) (e e' : activeEpoch) (acts : ActionList) :
  activeEpoch_drainBuffers h sd e = Ok (sd', e', acts) -> epochKept e e'.
Proof.
  unfold activeEpoch_drainBuffers. intros H. apply bind_Ok in H as ([[sd1 e1] a1] & H1 & H2). transitivity e1.
  - change e1 with (sd1, e1, a1).1.2. refine (forRange_inv (fun st => epochKept e st.1.2) _ _ _ _ _ _ H1); [| reflexivity].
    intros i [[sd2 e2] a2] [[sd3 e3] a3] _ Hk Hs. apply drainPreprepares_kept in Hs. by etransitivity.
  - change e' with (sd', e', acts).1.2. refine (forRange_inv (fun st => epochKept e1 st.1.2) _ _ _ _ _ _ H2); [| reflexivity].
    intros i [[sd2 e2] a2] [[sd3 e3] a3] _ Hk Hs. apply drainOther_kept in Hs. by etransitivity.
Qed.

Lemma proposeBucket_kept (fuel : nat) (bid : Z) (sd sd' : shared) (e e' : activeEpoch) (a0 acts : ActionList) :
  proposeBucket h fuel bid sd e a0 = Ok (sd', e', acts) -> epochKept e e'.
Proof.
  revert sd e a0. induction fuel as [|fuel IH]; intros sd e a0 H; cbn [proposeBucket] in H; [done |]. epoch_runs; [by split | by split |].
  match goal with H : proposeBucket _ _ _ _ _ _ = _ |- _ => apply IH in H as Hk end.
  match goal with H : callSequence _ _ ?e1 _ = _ |- _ => transitivity e1; [by split |] end.
  match goal with H : epochKept ?e2 e' |- _ => transitivity e2; [kept | exact H] end.
Qed.

Lemma proposeOwn_kept (bid : Z) (sd sd' : shared) (e e' : activeEpoch) (a0 acts : ActionList) :
  proposeOwn h bid (sd, e, a0) = Ok (sd', e', acts) -> epochKept e e'.
Proof. unfold proposeOwn. intros H. epoch_runs; [reflexivity |]. by eapply proposeBucket_kept. Qed.

Lemma heartbeat_kept (bid : Z) (sd sd' : shared) (e e' : activeEpoch) (a0 acts : ActionList) :
  heartbeat h bid (sd, e, a0) = Ok (sd', e', acts) -> epochKept e e'.
Proof.
  unfold heartbeat. intros H. epoch_runs; try reflexivity.
  all: match goal with H : callSequence _ _ ?e1 _ = _ |- _ => transitivity e1; [by split |] end; kept.
Qed.

Lemma applyBatchHashResult_kept (sd sd' : shared) (e e' : activeEpoch) (seqNo : Z) (digest : slice) (acts : ActionList) :
  activeEpoch_applyBatchHashResult h sd e seqNo digest = Ok (sd', e', acts) -> epochKept e e'.
Proof. unfold activeEpoch_applyBatchHashResult. intros H. epoch_runs; [reflexivity |]. kept. Qed.

Lemma tick_kept (sd sd' : shared) (e e' : activeEpoch) (acts : ActionList) :
  activeEpoch_tick h sd e = Ok (sd', e', acts) -> epochKept e e'.
Proof.
  unfold activeEpoch_tick. intros H. destruct (ae_lastCommittedAtTick e <? _); [injection H as <- <- <-; by split |].
  apply bind_Ok in H as ([sd1 a1] & _ & H). case_match; [injection H as <- <- <-; by split |].
  change e' with (sd', e', acts).1.2. refine (forRange_inv (fun st => epochKept e st.1.2) _ _ _ _ _ _ H); [| by split].
  intros i [[sd2 e2] a2] [[sd3 e3] a3] _ Hk Hs. apply heartbeat_kept in Hs. by etransitivity.
Qed.

End Kept.

(** ** Lemmas: extending and dropping intervals *)

(** The well-formed states of an epoch; before its first interval is allocated
    the sequences start after the commit state's low watermark. *)
Definition epoch_wf (cs : commitState) (low : Z) (e : activeEpoch) : Prop :=
  sequences_wf low e /\ (seqLocs e = [] -> ae_sequences e = [] /\ low = cs_lowWatermark cs + 1).

Lemma epochKept_epoch_wf (cs : commitState) (low : Z) (e e' : activeEpoch) :
  epochKept e e' -> epoch_wf cs low e -> epoch_wf cs low e'.
Proof.
  intros Hk [Hwf He]. split; [by eapply epochKept_wf |]. unfold seqLocs in *. by rewrite (ek_sequences _ _ Hk).
Qed.

Lemma high_wf (cs : commitState) (low : Z) (e : activeEpoch) :
  epoch_wf cs low e -> activeEpoch_highWatermark cs e = Ok (low + Z.of_nat (length (seqLocs e)) - 1).
Proof.
  intros [Hwf He]. destruct (decide (seqLocs e = [])) as [Hnil | Hne]; [| by apply highWatermark_wf].
  destruct (He Hnil) as [Hs ->]. unfold activeEpoch_highWatermark. rewrite Hnil, Hs. cbn. f_equal. lia.
Qed.

(** The new sequences of an interval. *)
Lemma newInterval_spec (high : Z) (e : activeEpoch) :
  0 < nc_CheckpointInterval (ae_networkConfig e) < 2 ^ 31 -> 0 < nc_NumberOfBuckets (ae_networkConfig e) < 2 ^ 31 ->
  -1 <= high < 2 ^ 62 + 2 ^ 32 -> (forall l, sh_next (ae_seqHeap e) <= l -> sh_seqs (ae_seqHeap e) !! l = None) ->
  exists sh ls, newInterval high e = Ok (sh, ls)
    /\ Z.of_nat (length ls) = nc_CheckpointInterval (ae_networkConfig e)
    /\ (forall l, sh_next sh <= l -> sh_seqs sh !! l = None)
    /\ (forall l s, sh_seqs (ae_seqHeap e) !! l = Some s -> sh_seqs sh !! l = Some s)
    /\ forall k l, ls !! k = Some l -> exists s, sh_seqs sh !! l = Some s
         /\ seqId s = (high + 1 + Z.of_nat k, bucketOwner e ((high + 1 + Z.of_nat k) mod nc_NumberOfBuckets (ae_networkConfig e)),
                       ec_Number (ae_epochConfig e)).
Proof.
  intros Hci Hn Hh Hfresh. unfold newInterval.
  match goal with |- context [forRange ?b _ _] => set (body := b) end.
  assert (Hm : forall m : nat, Z.of_nat m <= nc_CheckpointInterval (ae_networkConfig e) ->
    exists sh ls, forRange body (seqZ 0 (Z.of_nat m)) (ae_seqHeap e, []) = Ok (sh, ls)
    /\ length ls = m
    /\ (forall l, sh_next sh <= l -> sh_seqs sh !! l = None)
    /\ (forall l s, sh_seqs (ae_seqHeap e) !! l = Some s -> sh_seqs sh !! l = Some s)
    /\ forall k l, ls !! k = Some l -> exists s, sh_seqs sh !! l = Some s
         /\ seqId s = (high + 1 + Z.of_nat k, bucketOwner e ((high + 1 + Z.of_nat k) mod nc_NumberOfBuckets (ae_networkConfig e)),
                       ec_Number (ae_epochConfig e))).
  { induction m as [|m IH]; intros Hle.
    - exists (ae_seqHeap e), []. split; [done |]. split; [done |]. split; [done |]. split; [done |]. done.
    - destruct IH as (sh & ls & Hrun & Hlen & Hfr & Hold & Hids); [lia |].
      replace (Z.of_nat (S m)) with (Z.of_nat m + 1) by lia. rewrite (seqZ_app 0 (Z.of_nat m) 1) by lia.
      rewrite forRange_app, Hrun. change (seqZ (0 + Z.of_nat m) 1) with [0 + Z.of_nat m]. cbn [mbind outcome_bind forRange].
      unfold body at 1. unfold activeEpoch_seqToBucket, seqToBucket. nowrap. rewrite umod_pos by lia. cbn.
      do 2 eexists. split; [done |]. split; [rewrite length_app; cbn; lia |]. cbn.
      assert (Hnew : sh_seqs sh !! sh_next sh = None) by (apply Hfr; lia).
      assert (Hins : forall l s0 s, sh_seqs sh !! l = Some s -> <[sh_next sh := s0]> (sh_seqs sh) !! l = Some s).
      { intros l s0 s Hs. rewrite lookup_insert_ne; [done |]. intros <-. congruence. }
      split; [intros l Hl; rewrite lookup_insert_ne by lia; apply Hfr; lia |]. split; [intros l s Hs; by apply Hins, Hold |].
      intros k l. destruct (decide (k = m)) as [-> | Hk].
      + rewrite lookup_app_r, Hlen, Nat.sub_diag by lia. intros [= <-]. eexists. split; [apply lookup_insert_eq |].
        unfold seqId. cbn. done.
      + intros Hl. pose proof (lookup_lt_Some _ _ _ Hl) as Hlt. rewrite length_app in Hlt. cbn in Hlt.
        rewrite lookup_app_l in Hl by lia. destruct (Hids k l Hl) as (s & Hs & Hid). exists s. split; [by apply Hins | done]. }
  destruct (Hm (Z.to_nat (nc_CheckpointInterval (ae_networkConfig e)))) as (sh & ls & Hrun & Hlen & Hrest); [lia |].
  rewrite Z2Nat.id in Hrun by lia. exists sh, ls. split; [done |]. split; [lia | done].
Qed.

Lemma addInterval_wf (cs : commitState) (low : Z) (e : activeEpoch) (sh : seqHeap) (ls : list loc) :
  epoch_wf cs low e -> low + Z.of_nat (length (seqLocs e)) - 1 < 2 ^ 62 + 2 ^ 32 ->
  newInterval (low + Z.of_nat (length (seqLocs e)) - 1) e = Ok (sh, ls) ->
  epoch_wf cs low (e <| ae_seqHeap := sh |> <| ae_sequences ::= fun l => l ++ [ls] |>)
  /\ Z.of_nat (length ls) = nc_CheckpointInterval (ae_networkConfig e).
Proof.
  intros [Hwf He] Hr Hnew. pose proof (sw_low _ _ Hwf).
  destruct (newInterval_spec (low + Z.of_nat (length (seqLocs e)) - 1) e) as (sh' & ls' & Hn' & Hlen & Hfr & Hold & Hids);
    [exact (sw_ci _ _ Hwf) | exact (sw_buckets _ _ Hwf) | lia | exact (sw_fresh _ _ Hwf) |].
  rewrite Hnew in Hn'. injection Hn' as <- <-. split; [| done]. pose proof (sw_ci _ _ Hwf).
  assert (Hcat : concat (ae_sequences e ++ [ls]) = seqLocs e ++ ls) by (rewrite concat_app; cbn; by rewrite app_nil_r).
  split; [| unfold seqLocs; cbn; rewrite Hcat; intros Hnil; apply (f_equal length) in Hnil; rewrite length_app in Hnil; cbn in Hnil; lia].
  destruct Hwf. split; try done; unfold seqLocs; cbn; rewrite ?Hcat.
  - rewrite length_app. lia.
  - apply Forall_app. split; [done | by repeat constructor].
  - intros k l Hl. apply lookup_app_Some in Hl as [Hl | [Hk Hl]].
    + destruct (sw_seqs0 k l Hl) as (s & Hs & Hid). exists s. split; [by apply Hold | done].
    + destruct (Hids _ _ Hl) as (s & Hs & Hid). exists s. split; [done |].
      match type of Hid with _ = (?x, _, _) => replace x with (low + Z.of_nat k) in Hid by lia end. done.
Qed.

Lemma extendSequences_spec (fuel : nat) (sd : shared) (low : Z) (e : activeEpoch) (a0 : ActionList) :
  epoch_wf (sd_commitState sd) low e -> cs_stopAtSeqNo (sd_commitState sd) < 2 ^ 62 -> pst_log (sd_persisted sd) <> [] ->
  (Z.to_nat (cs_stopAtSeqNo (sd_commitState sd) - (low + Z.of_nat (length (seqLocs e)) - 1)) < fuel)%nat ->
  exists sd' e' acts, extendSequences fuel sd e a0 = Ok (sd', e', acts)
    /\ epoch_wf (sd_commitState sd) low e' /\ sd_commitState sd' = sd_commitState sd /\ pst_log (sd_persisted sd') <> []
    /\ ec_PlannedExpiration (ae_epochConfig e') = ec_PlannedExpiration (ae_epochConfig e)
    /\ (ec_PlannedExpiration (ae_epochConfig e) <= low + Z.of_nat (length (seqLocs e')) - 1
        \/ cs_stopAtSeqNo (sd_commitState sd) <= low + Z.of_nat (length (seqLocs e')) - 1).
Proof.
  revert sd e a0. induction fuel as [|fuel IH]; intros sd e a0 Hwf Hstop Hne Hf; [lia |]. cbn [extendSequences].
  rewrite (high_wf _ _ _ Hwf). cbn [mbind outcome_bind]. destruct (andb _ _) eqn:Hc.
  2: { exists sd, e, a0. split; [done |]. split; [done |]. split; [done |]. split; [done |]. split; [done |].
       apply andb_false_iff in Hc as [Hc | Hc]; apply Z.ltb_ge in Hc; lia. }
  apply andb_true_iff in Hc as [_ Hlt%Z.ltb_lt].
  assert (Hci := sw_ci _ _ (proj1 Hwf)). assert (Hlow := sw_low _ _ (proj1 Hwf)).
  unfold makeSlice. rewrite (proj2 (Z.ltb_ge _ _)) by lia. cbn [mbind outcome_bind].
  unfold persisted_addNEntry. match goal with |- context [persisted_appendLogEntry ?p ?en] =>
    destruct (addEntry_total p en Hne) as (p1 & a1 & -> & Hne1) end. cbn [mbind outcome_bind].
  destruct (newInterval_spec (low + Z.of_nat (length (seqLocs e)) - 1) e) as (sh & ls & Hnew & _);
    [done | exact (sw_buckets _ _ (proj1 Hwf)) | lia | exact (sw_fresh _ _ (proj1 Hwf)) |].
  rewrite Hnew. cbn [mbind outcome_bind].
  destruct (addInterval_wf (sd_commitState sd) low e sh ls Hwf) as [Hwf1 Hlen]; [lia | done |].
  set (sd1 := sd <| sd_persisted := p1 |>). set (e1 := e <| ae_seqHeap := sh |> <| ae_sequences ::= _ |>) in *.
  destruct (IH sd1 e1 (ActionList_concat a0 a1) Hwf1 Hstop Hne1) as (sd' & e' & acts & Hrun & Hres).
  - assert (Hl1 : length (seqLocs e1) = (length (seqLocs e) + length ls)%nat).
    { unfold seqLocs, e1. cbn. by rewrite concat_app, length_app, concat_cons, app_nil_r. }
    rewrite Hl1. change (sd_commitState sd1) with (sd_commitState sd). lia.
  - exists sd', e', acts. split; [exact Hrun |]. exact Hres.
Qed.

Lemma dropIntervals_spec (fuel : nat) (cs : commitState) (low seqNo : Z) (e e' : activeEpoch) :
  epoch_wf cs low e -> dropIntervals fuel seqNo e = Ok e' ->
  exists low', epoch_wf cs low' e' /\ low <= low' /\ seqNo <= low' /\ seqLocs e' = drop (Z.to_nat (low' - low)) (seqLocs e).
Proof.
  revert low e. induction fuel as [|fuel IH]; intros low e Hwf H; cbn [dropIntervals] in H; [done |].
  destruct (ae_sequences e) as [|i rest] eqn:Hseq.
  { unfold activeEpoch_lowWatermark in H. by rewrite Hseq in H. }
  pose proof (sw_ci _ _ (proj1 Hwf)) as Hci. pose proof (sw_intervals _ _ (proj1 Hwf)) as Hi. rewrite Hseq in Hi.
  apply Forall_cons in Hi as [Hi Hrest].
  assert (Hne : seqLocs e <> []) by (intros E; destruct (proj2 Hwf E); congruence).
  rewrite (lowWatermark_wf low e (proj1 Hwf) Hne) in H. cbn [mbind outcome_bind] in H.
  destruct (Z.ltb_spec low seqNo).
  2: { injection H as <-. exists low. split; [done |]. split; [lia |]. split; [lia |]. by rewrite Z.sub_diag. }
  unfold sliceFrom in H. cbn [length] in H.
  destruct (andb _ _) eqn:Hb in H; [| apply andb_false_iff in Hb as [Hb | Hb]; apply Z.leb_gt in Hb; lia]. cbn [mbind outcome_bind] in H.
  change (drop (Z.to_nat 1) (i :: rest)) with rest in H.
  assert (Hsplit : seqLocs e = i ++ concat rest) by (unfold seqLocs; by rewrite Hseq).
  apply (IH (low + nc_CheckpointInterval (ae_networkConfig e))) in H as (low' & Hwf' & Hle & Hge & Hdrop).
  - exists low'. split; [done |]. split; [lia |]. split; [done |]. rewrite Hdrop, Hsplit. unfold seqLocs. cbn.
    rewrite drop_app_ge by lia. f_equal. lia.
  - split.
    + destruct (proj1 Hwf). split; try done; unfold seqLocs in *; cbn in *; [lia | rewrite Hsplit, length_app in sw_range0; lia |].
      intros k l Hl. destruct (sw_seqs0 (length i + k)%nat l) as (s & Hs & Hid).
      { rewrite Hsplit, lookup_app_r by lia. rewrite <- Hl. f_equal. lia. }
      exists s. split; [done |]. rewrite Hid. unfold bucketOwner. cbn. replace (low + nc_CheckpointInterval (ae_networkConfig e) + Z.of_nat k)
        with (low + Z.of_nat (length i + k)) by lia. done.
    + unfold seqLocs. cbn. intros Hnil. destruct rest as [|i2 rest2].
      * (* the next iteration would index an empty list *)
        destruct fuel as [|fuel]; cbn [dropIntervals] in H; [done |]. unfold activeEpoch_lowWatermark in H. by cbn in H.
      * apply Forall_cons in Hrest as [Hi2 _]. apply (f_equal length) in Hnil. cbn in Hnil. rewrite length_app in Hnil. lia.
Qed.

(** ** Lemmas: the buckets of a new epoch *)

(** The node the rotation assigns a bucket to. *)
Definition rotation (epochConfig : EpochConfig) (nc : NetworkState_Config) (i : Z) : option Z :=
  nc_Nodes nc !! Z.to_nat ((u64 i +! ec_Number epochConfig) mod Z.of_nat (length (nc_Nodes nc))).

(** A leader of the epoch, the one of the rotation if it leads. *)
Definition bucketLeader (epochConfig : EpochConfig) (nc : NetworkState_Config) (i leader : Z) : Prop :=
  leader ∈ ec_Leaders epochConfig
  /\ forall l, rotation epochConfig nc i = Some l -> l ∈ ec_Leaders epochConfig -> leader = l.

Lemma sliceGet_mod {A : Type} (l : list A) (a : Z) :
  l <> [] -> exists x, sliceGet l (a mod Z.of_nat (length l)) = Ok x /\ l !! Z.to_nat (a mod Z.of_nat (length l)) = Some x.
Proof.
  intros Hne. assert (Hl : 0 < Z.of_nat (length l)) by (destruct l; [done | cbn; lia]).
  pose proof (Z.mod_pos_bound a (Z.of_nat (length l)) Hl).
  destruct (lookup_lt_is_Some_2 l (Z.to_nat (a mod Z.of_nat (length l)))) as [x Hx]; [lia |].
  exists x. split; [apply sliceGet_lookup; split; [lia | done] | done].
Qed.

Lemma assignBucket_spec (epochConfig : EpochConfig) (nc : NetworkState_Config) (i : Z) (st : gmap Z Z * Z) :
  nc_Nodes nc <> [] -> ec_Leaders epochConfig <> [] ->
  exists leader overflow, assignBucket epochConfig nc i st = Ok (<[i := leader]> st.1, overflow)
    /\ bucketLeader epochConfig nc i leader.
Proof.
  intros Hn Hl. destruct st as [buckets overflow]. unfold assignBucket.
  assert (0 < Z.of_nat (length (nc_Nodes nc))) by (destruct (nc_Nodes nc); [done | cbn; lia]).
  assert (0 < Z.of_nat (length (ec_Leaders epochConfig))) by (destruct (ec_Leaders epochConfig); [done | cbn; lia]).
  rewrite !umod_pos by done. cbn [mbind outcome_bind].
  destruct (sliceGet_mod (nc_Nodes nc) (u64 i +! ec_Number epochConfig) Hn) as (x & -> & Hx). cbn [mbind outcome_bind].
  unfold bucketLeader, rotation. rewrite Hx. case_bool_decide as Hin.
  - do 2 eexists. split; [done |]. split; [done |]. by intros l [= <-].
  - destruct (sliceGet_mod (ec_Leaders epochConfig) overflow Hl) as (y & -> & Hy). cbn [mbind outcome_bind].
    do 2 eexists. split; [done |]. split; [by eapply list_elem_of_lookup_2 |]. by intros l [= <-].
Qed.

Lemma assignBuckets_spec (epochConfig : EpochConfig) (nc : NetworkState_Config) :
  nc_Nodes nc <> [] -> ec_Leaders epochConfig <> [] -> 0 <= nc_NumberOfBuckets nc ->
  exists buckets, assignBuckets epochConfig nc = Ok buckets
    /\ dom buckets = list_to_set (seqZ 0 (nc_NumberOfBuckets nc))
    /\ forall i leader, buckets !! i = Some leader -> bucketLeader epochConfig nc i leader.
Proof.
  intros Hn Hl Hb. unfold assignBuckets.
  assert (Hgen : forall l st, (forall i leader, st.1 !! i = Some leader -> bucketLeader epochConfig nc i leader) ->
    exists st', forRange (assignBucket epochConfig nc) l st = Ok st'
      /\ dom st'.1 = dom st.1 ∪ list_to_set l
      /\ forall i leader, st'.1 !! i = Some leader -> bucketLeader epochConfig nc i leader).
  { induction l as [|i l IH]; intros st Hst; cbn.
    - exists st. split; [done |]. split; [set_solver | done].
    - destruct (assignBucket_spec epochConfig nc i st Hn Hl) as (leader & o & -> & Hld). cbn.
      destruct (IH (<[i := leader]> st.1, o)) as (st' & Hrun & Hdom & Hall).
      + intros j x. cbn. rewrite lookup_insert. case_decide; [| by apply Hst]. intros [= <-]. by subst j.
      + exists st'. split; [done |]. split; [| done]. rewrite Hdom. cbn. rewrite dom_insert_L. set_solver. }
  destruct (Hgen (seqZ 0 (nc_NumberOfBuckets nc)) (∅, 0)) as ([buckets o] & Hrun & Hdom & Hall); [done |].
  rewrite Hrun. cbn in *. exists buckets. split; [done |]. split; [rewrite Hdom; set_solver | done].
Qed.

(** The first number of bucket [b] above [start]. *)
Definition isFirstAfter (start n b s : Z) : Prop := start < s <= start + n /\ s mod n = b.

Lemma firstUnallocated_spec (start : Z) (nc : NetworkState_Config) :
  0 < nc_NumberOfBuckets nc < 2 ^ 31 -> 0 <= start < 2 ^ 62 ->
  exists lus, firstUnallocated start nc (Z.to_nat (nc_NumberOfBuckets nc)) = Ok lus
    /\ Z.of_nat (length lus) = nc_NumberOfBuckets nc
    /\ forall b s, 0 <= b -> lus !! Z.to_nat b = Some s -> isFirstAfter start (nc_NumberOfBuckets nc) b s.
Proof.
  intros Hn Hs. unfold firstUnallocated. rewrite Z2Nat.id by lia. set (n := nc_NumberOfBuckets nc) in *.
  match goal with |- context [forRange ?b _ _] => set (body := b) end.
  assert (Hm : forall m : nat, Z.of_nat m <= n -> exists lus, forRange body (seqZ 0 (Z.of_nat m)) (replicate (Z.to_nat n) 0) = Ok lus
    /\ Z.of_nat (length lus) = n
    /\ forall i, 1 <= i <= Z.of_nat m -> lus !! Z.to_nat ((start + i) mod n) = Some (start + i)).
  { induction m as [|m IH]; intros Hle.
    - exists (replicate (Z.to_nat n) 0). split; [done |]. rewrite length_replicate. split; lia.
    - destruct IH as (lus & Hrun & Hlen & Hi); [lia |].
      replace (Z.of_nat (S m)) with (Z.of_nat m + 1) by lia. rewrite (seqZ_app 0 (Z.of_nat m) 1) by lia.
      rewrite forRange_app, Hrun. change (seqZ (0 + Z.of_nat m) 1) with [0 + Z.of_nat m]. cbn [mbind outcome_bind forRange].
      unfold body at 1. unfold seqToBucket. fold n. nowrap. rewrite umod_pos by lia. cbn [mbind outcome_bind].
      pose proof (Z.mod_pos_bound (start + (0 + Z.of_nat m + 1)) n ltac:(lia)) as Hb.
      unfold sliceSet. rewrite (proj2 (andb_true_iff _ _)) by (split; [apply Z.leb_le | apply Z.ltb_lt]; lia). cbn.
      eexists. split; [done |]. split; [by rewrite length_insert |]. intros i Hi'.
      destruct (decide (i = Z.of_nat m + 1)) as [-> | Hne].
      + replace (0 + Z.of_nat m + 1) with (Z.of_nat m + 1) by lia. replace (0 + Z.of_nat m + 1) with (Z.of_nat m + 1) in Hb by lia.
        rewrite list_lookup_insert_eq by lia. done.
      + rewrite list_lookup_insert_ne; [apply Hi; lia |]. intros Heq.
        pose proof (Z.mod_pos_bound (start + i) n ltac:(lia)). apply Z2Nat.inj in Heq; [| lia | lia].
        pose proof (Z.div_mod (start + (0 + Z.of_nat m + 1)) n ltac:(lia)) as E1. pose proof (Z.div_mod (start + i) n ltac:(lia)) as E2.
        set (q1 := (start + (0 + Z.of_nat m + 1)) / n) in *. set (q2 := (start + i) / n) in *.
        assert (Hd : n * (q1 - q2) = Z.of_nat m + 1 - i) by lia. destruct (decide (q1 - q2 <= 0)); [nia |]. nia. }
  destruct (Hm (Z.to_nat n)) as (lus & Hrun & Hlen & Hi); [lia |]. rewrite Z2Nat.id in Hrun by lia.
  exists lus. split; [done |]. split; [done |]. intros b s Hb Hl.
  pose proof (lookup_lt_Some _ _ _ Hl) as Hlt.
  set (i := 1 + (b - start - 1) mod n). pose proof (Z.mod_pos_bound (b - start - 1) n ltac:(lia)) as Hbd.
  assert (Hmod : (start + i) mod n = b).
  { unfold i. replace (start + (1 + (b - start - 1) mod n)) with ((start + 1) + (b - start - 1) mod n) by lia.
    rewrite Zplus_mod_idemp_r. replace (start + 1 + (b - start - 1)) with b by lia. apply Z.mod_small. lia. }
  specialize (Hi i ltac:(lia)). rewrite Hmod, Hl in Hi. injection Hi as ->. split; [lia | done].
Qed.

(** ** Lemmas: the start of an epoch *)

Lemma newBucketOutstanding_total (ns : NetworkState) (i : Z) :
  outstanding_wf ns -> 0 <= i < nc_NumberOfBuckets (ns_Config ns) -> exists bo, newBucketOutstanding ns i = Ok bo.
Proof.
  intros Hwf Hi. pose proof (ow_buckets _ Hwf). unfold newBucketOutstanding.
  match goal with |- context [forRange ?b ?l ?st] => destruct (forRange_total b (fun c => c ∈ ns_Clients ns) l st) as [cls ->] end; [| | by eexists].
  2: by apply Forall_forall.
  intros client cls Hc. destruct (ow_clients _ Hwf _ Hc) as (? & ? & ? & ?).
  destruct (firstInBucket_spec ns client i (seqZ 0 (nc_NumberOfBuckets (ns_Config ns))) Hwf Hc) as (r & -> & Hr & _).
  { intros j Hj%elem_of_seqZ. lia. }
  { by apply bucket_has_request. }
  cbn [mbind outcome_bind]. rewrite u64_small by lia.
  destruct (skipPreviouslyCommitted_spec ns (mkClientOutstanding r (nc_NumberOfBuckets (ns_Config ns)) client) Hwf Hc eq_refl)
    as (next & -> & _); [cbn; lia |]. by eexists.
Qed.

Lemma newOutstandingReqs_total (h : reqHeap) (p : persisted) (sh : seqHeap) (ct : clientTracker) (ns : NetworkState) :
  outstanding_wf ns -> exists ct' ao, newOutstandingReqs h p sh ct ns = Ok (p, sh, ct', ao) /\ ct_readyList ct' = ct_readyList ct.
Proof.
  intros Hwf. unfold newOutstandingReqs.
  match goal with |- context [forRange ?b ?l ?st] =>
    destruct (forRange_total b (fun i => 0 <= i < nc_NumberOfBuckets (ns_Config ns)) l st) as [bs ->] end.
  - intros i bs Hi. destruct (newBucketOutstanding_total ns i Hwf Hi) as [bo ->]. by eexists.
  - apply Forall_forall. intros i Hi%elem_of_seqZ. lia.
  - cbn [mbind outcome_bind]. unfold allOutstandingReqs_advanceRequests.
    match goal with |- context [advanceAvailable ?f h p sh ?ct0 ?ao0 ?a0] =>
      destruct (advanceAvailable_idle f h p sh ct0 ao0 a0) as (ct' & ao & -> & Hr) end; [done | lia |].
    by exists ct', ao.
Qed.

(** The configurations an epoch can start from. *)
Record start_wf (sd : shared) (epochConfig : EpochConfig) : Prop := {
  st_clients : outstanding_wf (cs_activeState (sd_commitState sd));
  st_ci : 0 < nc_CheckpointInterval (ns_Config (cs_activeState (sd_commitState sd))) < 2 ^ 31;
  st_nodes : nc_Nodes (ns_Config (cs_activeState (sd_commitState sd))) <> [];
  st_leaders : ec_Leaders epochConfig <> [];
  st_commit : 0 <= cs_highestCommit (sd_commitState sd) < 2 ^ 62;
}.

(** What a new epoch looks like. *)
Record startsAt (sd : shared) (epochConfig : EpochConfig) (e : activeEpoch) : Prop := {
  sa_config : ae_epochConfig e = epochConfig /\ ae_networkConfig e = ns_Config (cs_activeState (sd_commitState sd));
  sa_none : ae_sequences e = [] /\ ae_seqHeap e = emptySeqHeap;
  sa_uncommitted : ae_lowestUncommitted e = cs_highestCommit (sd_commitState sd) + 1;
  sa_buckets : forall b, 0 <= b < nc_NumberOfBuckets (ae_networkConfig e) ->
    bucketLeader epochConfig (ae_networkConfig e) b (bucketOwner e b)
    /\ exists first ppb, ae_lowestUnallocated e !! Z.to_nat b = Some first
       /\ ae_preprepareBuffers e !! Z.to_nat b = Some ppb /\ ppb_nextSeqNo ppb = first
       /\ isFirstAfter (cs_highestCommit (sd_commitState sd)) (nc_NumberOfBuckets (ae_networkConfig e)) b first;
  sa_proposes : forall b, is_Some (proposer_proposalBucket (ae_proposer e) b)
    <-> (0 <= b < nc_NumberOfBuckets (ae_networkConfig e) /\ bucketOwner e b = ip_Id (ae_myConfig e));
}.

Lemma newActiveEpoch_spec (h : reqHeap) (sd : shared) (nbs : nodeBuffers) (epochConfig : EpochConfig) (my : EventInitialParameters) :
  start_wf sd epochConfig ->
  exists sd' e, newActiveEpoch h sd nbs epochConfig my = Ok (sd', e)
    /\ startsAt sd epochConfig e /\ sd_commitState sd' = sd_commitState sd /\ sd_persisted sd' = sd_persisted sd.
Proof.
  intros [Hcl Hci Hnodes Hlead Hcom]. pose proof (ow_buckets _ Hcl) as Hn. unfold newActiveEpoch.
  destruct (newOutstandingReqs_total h (sd_persisted sd) emptySeqHeap (sd_clientTracker sd) (cs_activeState (sd_commitState sd)) Hcl)
    as (ct & ao & -> & _). cbn [mbind outcome_bind].
  destruct (assignBuckets_spec epochConfig (ns_Config (cs_activeState (sd_commitState sd))) Hnodes Hlead) as (buckets & -> & Hdom & Hbl); [lia |].
  cbn [mbind outcome_bind].
  assert (Hsize : size buckets = Z.to_nat (nc_NumberOfBuckets (ns_Config (cs_activeState (sd_commitState sd))))).
  { rewrite <- size_dom, Hdom, size_list_to_set by apply NoDup_seqZ. apply length_seqZ. }
  rewrite Hsize. destruct (firstUnallocated_spec (cs_highestCommit (sd_commitState sd)) (ns_Config (cs_activeState (sd_commitState sd))))
    as (lus & -> & Hlen & Hfirst); [done | done |]. cbn [mbind outcome_bind].
  destruct (newProposer _ _ _ _ _) as [pr ct'] eqn:Hpr. do 2 eexists. split; [reflexivity |].
  split; [| by split]. assert (Hin : forall b, is_Some (buckets !! b) <-> 0 <= b < nc_NumberOfBuckets (ns_Config (cs_activeState (sd_commitState sd)))).
  { intros b. rewrite <- elem_of_dom, Hdom, elem_of_list_to_set, elem_of_seqZ. lia. }
  split; cbn; [done | done | nowrap; done | |].
  - intros b Hb. destruct (proj2 (Hin b) Hb) as [leader Hl]. unfold bucketOwner. cbn. rewrite Hl. cbn. split; [by apply Hbl |].
    destruct (lookup_lt_is_Some_2 lus (Z.to_nat b)) as [first Hf]; [lia |].
    do 2 eexists. split; [exact Hf |]. split; [rewrite list_lookup_imap, Hf; reflexivity |]. split; [done |]. apply Hfirst; [lia | done].
  - intros b. unfold newProposer in Hpr. injection Hpr as <- _. unfold proposer_proposalBucket, bucketOwner. cbn.
    rewrite map_lookup_imap. destruct (buckets !! b) as [leader |] eqn:Hl; cbn.
    + destruct (Z.eqb_spec leader (ip_Id my)); cbn; split; [| by eexists | by intros [] | by intros []].
      intros _. split; [apply Hin; by eexists | done].
    + split; [by intros [] |]. intros [Hb _]. apply Hin in Hb as [? ?]. congruence.
Qed.

(** ** Reachable states of an epoch *)

Section Reach.

Context `{Size : ProtoSize}.

(** Everything the state machine does with an active epoch: it is created,
    receives messages, hash results and ticks, advances, drains its buffers
    and moves its low watermark.  Client requests and the shared components
    may change in any way in between. *)
Inductive epochReach : shared -> activeEpoch -> Prop :=
| reach_new h sd nbs epochConfig my sd' e :
    start_wf sd epochConfig -> newActiveEpoch h sd nbs epochConfig my = Ok (sd', e) -> epochReach sd' e
| reach_step h sd e source msg sd' e' acts :
    epochReach sd e -> activeEpoch_step h sd e source msg = Ok (sd', e', acts) -> epochReach sd' e'
| reach_hash h sd e seqNo digest sd' e' acts :
    epochReach sd e -> activeEpoch_applyBatchHashResult h sd e seqNo digest = Ok (sd', e', acts) -> epochReach sd' e'
| reach_tick h sd e sd' e' acts :
    epochReach sd e -> activeEpoch_tick h sd e = Ok (sd', e', acts) -> epochReach sd' e'
| reach_drain h sd e sd' e' acts :
    epochReach sd e -> activeEpoch_drainBuffers h sd e = Ok (sd', e', acts) -> epochReach sd' e'
| reach_requests h sd e p sh ct ao acts :
    epochReach sd e ->
    allOutstandingReqs_advanceRequests h (sd_persisted sd) (ae_seqHeap e) (sd_clientTracker sd) (ae_outstandingReqs e)
      = Ok (p, sh, ct, ao, acts) ->
    epochReach (sd <| sd_persisted := p |> <| sd_clientTracker := ct |>) (e <| ae_seqHeap := sh |> <| ae_outstandingReqs := ao |>)
| reach_advance h sd e sd' e' acts :
    epochReach sd e -> 0 <= cs_lowWatermark (sd_commitState sd) -> cs_stopAtSeqNo (sd_commitState sd) < 2 ^ 62 ->
    activeEpoch_advance h sd e = Ok (sd', e', acts) -> epochReach sd' e'
| reach_move h sd e seqNo sd' e' acts done :
    epochReach sd e -> 0 <= cs_lowWatermark (sd_commitState sd) -> cs_stopAtSeqNo (sd_commitState sd) < 2 ^ 62 ->
    activeEpoch_moveLowWatermark h sd e seqNo = Ok (sd', e', acts, done) -> epochReach sd' e'
| reach_other sd sd' e : epochReach sd e -> epochReach sd' e.

(** The invariant of the epoch's sequences. *)
Definition epochInv (e : activeEpoch) : Prop :=
  exists low, sequences_wf low e /\ (seqLocs e = [] -> ae_sequences e = []).

Lemma epochKept_inv (e e' : activeEpoch) : epochKept e e' -> epochInv e -> epochInv e'.
Proof.
  intros Hk (low & Hwf & He). exists low. split; [by eapply epochKept_wf |]. unfold seqLocs in *. by rewrite (ek_sequences _ _ Hk).
Qed.

Lemma startsAt_inv (sd : shared) (epochConfig : EpochConfig) (e : activeEpoch) :
  start_wf sd epochConfig -> startsAt sd epochConfig e -> epochInv e.
Proof.
  intros [] [[_ Hnc] [Hs Hh] _ _ _]. exists 0. split; [| done]. unfold seqLocs. split; unfold seqLocs; rewrite ?Hs, ?Hh, ?Hnc; cbn; try done.
  apply (ow_buckets _ st_clients0).
Qed.

(** Relative to the commit state at hand, an epoch without sequences starts
    right after its low watermark. *)
Lemma epochInv_wf (cs : commitState) (e : activeEpoch) (high : Z) :
  epochInv e -> 0 <= cs_lowWatermark cs -> activeEpoch_highWatermark cs e = Ok high -> high < 2 ^ 62 ->
  exists low, epoch_wf cs low e.
Proof.
  intros (low & Hwf & He) Hl Hh Hr. destruct (decide (seqLocs e = [])) as [Hnil | Hne]; [| by exists low].
  exists (cs_lowWatermark cs + 1). split; [| by intros _; split; [apply He |]].
  unfold activeEpoch_highWatermark in Hh. rewrite (He Hnil) in Hh. injection Hh as <-.
  destruct Hwf. split; try done; rewrite ?Hnil; [lia | cbn; lia | done].
Qed.

Lemma extendSequences_inv (fuel : nat) (sd sd' : shared) (low : Z) (e e' : activeEpoch) (a0 acts : ActionList) :
  epoch_wf (sd_commitState sd) low e -> cs_stopAtSeqNo (sd_commitState sd) < 2 ^ 62 ->
  extendSequences fuel sd e a0 = Ok (sd', e', acts) -> epoch_wf (sd_commitState sd) low e'.
Proof.
  revert sd e a0. induction fuel as [|fuel IH]; intros sd e a0 Hwf Hstop H; cbn [extendSequences] in H; [done |].
  rewrite (high_wf _ _ _ Hwf) in H. cbn [mbind outcome_bind] in H. destruct (andb _ _) eqn:Hc; [| by injection H as <- <- <-].
  apply andb_true_iff in Hc as [_ Hlt%Z.ltb_lt]. apply bind_Ok in H as (ms & _ & H).
  apply bind_Ok in H as ([p1 a1] & _ & H). apply bind_Ok in H as ([sh ls] & Hnew & H).
  apply addInterval_wf with (cs := sd_commitState sd) in Hnew as [Hwf1 _]; [| done | lia].
  apply (IH (sd <| sd_persisted := p1 |>)) in H; [exact H | exact Hwf1 | exact Hstop].
Qed.

Lemma advance_inv (h : reqHeap) (sd sd' : shared) (e e' : activeEpoch) (acts : ActionList) :
  epochInv e -> 0 <= cs_lowWatermark (sd_commitState sd) -> cs_stopAtSeqNo (sd_commitState sd) < 2 ^ 62 ->
  activeEpoch_advance h sd e = Ok (sd', e', acts) -> epochInv e'.
Proof.
  intros Hinv Hl Hstop H. unfold activeEpoch_advance in H. apply bind_Ok in H as (high & Hh & H).
  apply bind_Ok in H as (u1 & _ & H). apply bind_Ok in H as (u2 & Hle & H). apply assertTrue_Ok, Z.leb_le in Hle.
  apply bind_Ok in H as ([[sd1 e1] a1] & H1 & H). apply bind_Ok in H as ([[sd2 e2] a2] & H2 & H).
  apply bind_Ok in H as ([pr ct] & _ & H).
  assert (Hinv1 : epochInv e1).
  { destruct (epochInv_wf (sd_commitState sd) e high Hinv Hl Hh) as [low Hwf]; [lia |].
    apply (extendSequences_inv _ _ _ low) in H1; [| done | done]. exists low. destruct H1 as [? He]. split; [done |]. apply He. }
  apply (epochKept_inv e1); [| done]. transitivity e2; [by eapply drainBuffers_kept |].
  change e' with (sd', e', acts).1.2. refine (forRange_inv (fun st => epochKept e2 st.1.2) _ _ _ _ _ _ H); [| by split].
  intros b [[sd3 e3] a3] [[sd4 e4] a4] _ Hk Hs. apply proposeOwn_kept in Hs. by etransitivity.
Qed.

Lemma advanceAvailable_kept (fuel : nat) (h : reqHeap) (p p' : persisted) (sh sh' : seqHeap) (ct ct' : clientTracker)
    (ao ao' : allOutstandingReqs) (a0 acts : ActionList) :
  advanceAvailable fuel h p sh ct ao a0 = Ok (p', sh', ct', ao', acts) -> heapKept sh sh'.
Proof.
  revert p sh ct ao a0. induction fuel as [|fuel IH]; intros p sh ct ao a0 H; cbn [advanceAvailable] in H; [done |]. epoch_runs.
  - match goal with H : advanceAvailable _ _ _ ?sh1 _ _ _ = _, H' : onSequence _ _ _ _ = _ |- _ =>
      apply IH in H; transitivity sh1; [| exact H]; eapply onSequence_kept; [| exact H'] end. apply satisfyOutstanding_id.
  - by eapply IH.
  - reflexivity.
Qed.

Lemma dropIntervals_inv (fuel : nat) (seqNo : Z) (e e' : activeEpoch) :
  epochInv e -> dropIntervals fuel seqNo e = Ok e' -> epochInv e'.
Proof.
  intros (low & Hwf & He) H. destruct (decide (seqLocs e = [])) as [Hnil | Hne].
  - destruct fuel; cbn [dropIntervals] in H; [done |]. unfold activeEpoch_lowWatermark in H. by rewrite (He Hnil) in H.
  - eapply (dropIntervals_spec fuel newCommitState low) in H as (low' & [Hwf' He'] & _); [| by split].
    exists low'. split; [done |]. apply He'.
Qed.

Lemma epochReach_inv (sd : shared) (e : activeEpoch) : epochReach sd e -> epochInv e.
Proof.
  induction 1 as [h sd nbs ec my sd' e Hst H | h sd e source msg sd' e' acts _ IH H | h sd e seqNo digest sd' e' acts _ IH H
    | h sd e sd' e' acts _ IH H | h sd e sd' e' acts _ IH H | h sd e p sh ct ao acts _ IH H
    | h sd e sd' e' acts _ IH Hl Hs H | h sd e seqNo sd' e' acts d _ IH Hl Hs H | sd sd' e _ IH].
  - destruct (newActiveEpoch_spec h sd nbs ec my Hst) as (sd1 & e1 & H1 & Hat & _). rewrite H in H1. injection H1 as <- <-.
    by eapply startsAt_inv.
  - eapply epochKept_inv; [by eapply step_kept | done].
  - eapply epochKept_inv; [by eapply applyBatchHashResult_kept | done].
  - eapply epochKept_inv; [by eapply tick_kept | done].
  - eapply epochKept_inv; [by eapply drainBuffers_kept | done].
  - eapply (epochKept_inv e); [| done]. apply advanceAvailable_kept in H. by split.
  - by eapply advance_inv.
  - unfold activeEpoch_moveLowWatermark in H. epoch_runs; [done | done |].
    eapply dropIntervals_inv; [| eassumption]. by eapply advance_inv.
  - done.
Qed.

(** C21: in every reachable state of an epoch its sequences are those of
    consecutive sequence numbers, each led by the leader of its bucket and of
    this epoch, in intervals of exactly one checkpoint interval; and looking up
    any number between the watermarks finds its sequence, so that none of the
    sanity panics of the lookup is reached. *)
Theorem epoch_sequences_consecutive (sd : shared) (e : activeEpoch) :
  epochReach sd e -> exists low, sequences_wf low e
    /\ forall seqNo, low <= seqNo < low + Z.of_nat (length (seqLocs e)) ->
         exists l s, activeEpoch_sequence e seqNo = Ok l /\ sh_seqs (ae_seqHeap e) !! l = Some s
           /\ sq_seqNo s = seqNo /\ sq_epoch s = ec_Number (ae_epochConfig e)
           /\ sq_owner s = bucketOwner e (seqNo mod nc_NumberOfBuckets (ae_networkConfig e)).
Proof.
  intros (low & Hwf & _)%epochReach_inv. exists low. split; [done |]. intros seqNo Hr.
  destruct (sequence_wf_lookup low e Hwf seqNo Hr) as (l & Hl & Hk). destruct (sw_seqs _ _ Hwf _ _ Hk) as (s & Hs & [= H1 H2 H3]).
  exists l, s. split; [done |]. split; [done |]. rewrite H1, H2. replace (low + Z.of_nat (Z.to_nat (seqNo - low))) with seqNo by lia. done.
Qed.

End Reach.

(** A new epoch gives every bucket a leader and a first sequence.  From
    any commit state and client set of the ranges considered it is created
    without a panic; every bucket is led by one of the epoch's leaders, the
    node of the rotation if that node leads; it starts with the first sequence
    number of the bucket above the highest commit, which is also the next
    preprepare expected; and this node proposes exactly in the buckets it
    leads. *)
Theorem new_epoch_assigns_buckets (h : reqHeap) (sd : shared) (nbs : nodeBuffers) (epochConfig : EpochConfig)
    (my : EventInitialParameters) :
  start_wf sd epochConfig ->
  exists sd' e, newActiveEpoch h sd nbs epochConfig my = Ok (sd', e) /\ startsAt sd epochConfig e.
Proof.
  intros Hst. destruct (newActiveEpoch_spec h sd nbs epochConfig my Hst) as (sd' & e & H & Hat & _). eauto.
Qed.

(** ** Handing committed sequences over *)

(** The state of the sequence of a number. *)
Definition seqAt (low : Z) (e : activeEpoch) (seqNo : Z) (s : sequence) : Prop :=
  exists l, seqLocs e !! Z.to_nat (seqNo - low) = Some l /\ sh_seqs (ae_seqHeap e) !! l = Some s.

(** The Q entries of [k] committed sequences from [from] on. *)
Definition committedRun (low : Z) (e : activeEpoch) (from : Z) (qs : list QEntry) : Prop :=
  forall j q, qs !! j = Some q -> exists s, seqAt low e (from + Z.of_nat j) s
    /\ sq_state s = sequenceCommitted /\ sq_qEntry s = Some q.

(** The run ends at the end of the window or before a sequence that is not committed. *)
Definition runEnds (low : Z) (e : activeEpoch) (next : Z) : Prop :=
  low + Z.of_nat (length (seqLocs e)) <= next \/ exists s, seqAt low e next s /\ sq_state s <> sequenceCommitted.

Lemma commitState_commit_returns (cs : commitState) (q : QEntry) : returns (commitState_commit cs q).
Proof. unfold commitState_commit, commitSlot. code_returns. Qed.

Lemma commitLoop_spec (fuel : nat) (low : Z) (cs : commitState) (e : activeEpoch) :
  sequences_wf low e -> low <= ae_lowestUncommitted e ->
  (Z.to_nat (low + Z.of_nat (length (seqLocs e)) - ae_lowestUncommitted e) < fuel)%nat -> seqLocs e <> [] ->
  returns (commitLoop fuel cs e)
  /\ forall cs' e', commitLoop fuel cs e = Ok (cs', e') -> exists qs,
       e' = e <| ae_lowestUncommitted := ae_lowestUncommitted e + Z.of_nat (length qs) |>
       /\ forRange (fun q cs => commitState_commit cs q) qs cs = Ok cs'
       /\ committedRun low e (ae_lowestUncommitted e) qs
       /\ runEnds low e (ae_lowestUncommitted e + Z.of_nat (length qs)).
Proof.
  revert cs e. induction fuel as [|fuel IH]; intros cs e Hwf Hlow Hf Hne; [lia |]. cbn [commitLoop].
  pose proof (sw_range _ _ Hwf) as Hrange. pose proof (sw_low _ _ Hwf) as Hlow0. rewrite (highWatermark_wf low e Hwf cs Hne). cbn [mbind outcome_bind].
  assert (Hstop : runEnds low e (ae_lowestUncommitted e) -> returns (Ok (cs, e)) /\ forall cs' e', Ok (cs, e) = Ok (cs', e') -> exists qs,
       e' = e <| ae_lowestUncommitted := ae_lowestUncommitted e + Z.of_nat (length qs) |>
       /\ forRange (fun q cs => commitState_commit cs q) qs cs = Ok cs'
       /\ committedRun low e (ae_lowestUncommitted e) qs
       /\ runEnds low e (ae_lowestUncommitted e + Z.of_nat (length qs))).
  { intros Hend. split; [done |]. intros cs' e' [= <- <-]. exists []. rewrite Z.add_0_r. split; [by destruct e |].
    split; [done |]. split; [intros j q Hj; done | done]. }
  destruct (Z.leb_spec (ae_lowestUncommitted e) (low + Z.of_nat (length (seqLocs e)) - 1)) as [Hle | Hgt]; [| apply Hstop; left; lia].
  destruct (sequence_wf_lookup low e Hwf (ae_lowestUncommitted e)) as (l & -> & Hl); [lia |]. cbn [mbind outcome_bind].
  destruct (sw_seqs _ _ Hwf _ _ Hl) as (s & Hs & _). unfold loadSequence. rewrite Hs. cbn [deref mbind outcome_bind].
  assert (Hat : seqAt low e (ae_lowestUncommitted e) s) by (by exists l).
  case_bool_decide as Hst; [| apply Hstop; right; by exists s]. clear Hstop.
  destruct (sq_qEntry s) as [q |] eqn:Hq; cbn [deref mbind outcome_bind]; [| by split].
  pose proof (commitState_commit_returns cs q) as Hret. destruct (commitState_commit cs q) as [cs1 | |] eqn:Hc; cbn [mbind outcome_bind]; [| by split | by destruct Hret].
  nowrap. set (e1 := e <| ae_lowestUncommitted ::= fun n => n +! 1 |>).
  assert (He1 : ae_lowestUncommitted e1 = ae_lowestUncommitted e + 1) by (cbn; nowrap; done).
  assert (Hwf1 : sequences_wf low e1) by (destruct Hwf; by split).
  destruct (IH cs1 e1 Hwf1) as [Hr1 Hs1]; [lia | rewrite He1; change (seqLocs e1) with (seqLocs e); lia | done |].
  split; [done |]. intros cs' e' H. destruct (Hs1 cs' e' H) as (qs & -> & Hrun & Hcom & Hend).
  rewrite He1 in *. exists (q :: qs). cbn [length]. replace (ae_lowestUncommitted e + Z.of_nat (S (length qs)))
    with (ae_lowestUncommitted e + 1 + Z.of_nat (length qs)) by lia.
  split; [done |]. split; [cbn; by rewrite Hc |]. split; [| exact Hend].
  intros [|j] q' Hj; cbn in Hj; [injection Hj as <-; exists s; rewrite Z.add_0_r; done |].
  replace (ae_lowestUncommitted e + Z.of_nat (S j)) with (ae_lowestUncommitted e + 1 + Z.of_nat j) by lia. by apply Hcom.
Qed.

Lemma advanceOnce_returns (h : reqHeap) (p : persisted) (s : sequence) : returns (advanceOnce h p s).
Proof.
  unfold advanceOnce, sequence_prepare, sequence_checkPrepareQuorum, persisted_addQEntry, persisted_addPEntry,
    persisted_appendLogEntry, loadRequest. code_returns.
Qed.

Lemma advanceLoop_returns (fuel : nat) (h : reqHeap) (p : persisted) (s : sequence) (acts : ActionList) :
  (7 <= fuel + rank s)%nat -> (rank s <= 6)%nat -> returns (advanceLoop fuel h p s acts).
Proof.
  revert p s acts. induction fuel as [|fuel IH]; intros p s acts Hf Hr; [lia |]. cbn [advanceLoop].
  apply returns_bind; [apply advanceOnce_returns |]. intros [[p1 s1] a1] [Had _]%advanceOnce_spec.
  case_decide as Heq; [done |]. pose proof (ad_mono _ _ _ Had).
  assert (rank s <> rank s1) by (unfold rank; intros E; apply Heq; by destruct (sq_state s), (sq_state s1)).
  apply IH; [lia |]. unfold rank. destruct (sq_state s1); cbn; lia.
Qed.

Lemma advanceState_returns (h : reqHeap) (p : persisted) (s : sequence) : returns (sequence_advanceState h p s).
Proof. apply advanceLoop_returns; [lia |]. unfold rank. destruct (sq_state s); cbn; lia. Qed.

Lemma applyCommitMsg_returns (h : reqHeap) (p : persisted) (s : sequence) (source : Z) (digest : slice) :
  returns (sequence_applyCommitMsg h p s source digest).
Proof.
  unfold sequence_applyCommitMsg. destruct (sequence_nodeChoice s source). case_match; [done |]. apply advanceState_returns.
Qed.

(** C20: committed sequences are handed to the commit state in order and
    without gaps.  Handling a commit message always returns or panics; what it
    hands over are the Q entries of committed sequences of consecutive numbers
    from the lowest uncommitted one on, each once and in order; when it hands
    anything over it goes on to the first sequence that is not committed or to
    the end of the window; and it does hand over when the message commits the
    lowest uncommitted sequence. *)
Theorem committed_prefix_handed_over (h : reqHeap) (low : Z) (sd : shared) (e : activeEpoch) (source seqNo : Z) (digest : slice) :
  sequences_wf low e -> seqLocs e <> [] -> low <= ae_lowestUncommitted e ->
  returns (activeEpoch_applyCommitMsg h sd e source seqNo digest)
  /\ forall sd' e' acts, activeEpoch_applyCommitMsg h sd e source seqNo digest = Ok (sd', e', acts) -> exists qs,
       ae_lowestUncommitted e' = ae_lowestUncommitted e + Z.of_nat (length qs)
       /\ forRange (fun q cs => commitState_commit cs q) qs (sd_commitState sd) = Ok (sd_commitState sd')
       /\ committedRun low e' (ae_lowestUncommitted e) qs
       /\ (qs <> [] -> runEnds low e' (ae_lowestUncommitted e'))
       /\ (forall s, seqNo = ae_lowestUncommitted e -> seqAt low e' seqNo s -> sq_state s = sequenceCommitted -> qs <> []).
Proof.
  intros Hwf Hne Hlow. unfold activeEpoch_applyCommitMsg.
  assert (Hseq : returns (activeEpoch_sequence e seqNo)).
  { unfold activeEpoch_sequence, activeEpoch_lowWatermark, loadSequence. code_returns. }
  destruct (activeEpoch_sequence e seqNo) as [l | |] eqn:Hl; cbn [mbind outcome_bind]; [| by split | by destruct Hseq].
  set (f := fun p s => sequence_applyCommitMsg h p s source digest).
  assert (Hcall : returns (callSequence f sd e l)).
  { unfold callSequence, onSequence, loadSequence, f. code_returns; apply applyCommitMsg_returns. }
  destruct (callSequence f sd e l) as [[[sd1 e1] a1] | |] eqn:Hc; cbn [mbind outcome_bind]; [| by split | by destruct Hcall].
  assert (Hk : epochKept e e1) by (eapply callSequence_kept; [apply applyCommitMsg_id | exact Hc]).
  assert (Hcs : sd_commitState sd1 = sd_commitState sd /\ ae_lowestUncommitted e1 = ae_lowestUncommitted e).
  { unfold callSequence in Hc. apply bind_Ok in Hc as ([[p sh] a] & _ & Hc). by injection Hc as <- <- <-. }
  destruct Hcs as [Hcs Hlu]. assert (Hwf1 : sequences_wf low e1) by (by eapply epochKept_wf).
  assert (Hlocs : seqLocs e1 = seqLocs e) by (unfold seqLocs; by rewrite (ek_sequences _ _ Hk)).
  unfold loadSequence. destruct (sh_seqs (ae_seqHeap e1) !! l) as [s |] eqn:Hs; cbn [deref mbind outcome_bind]; [| by split].
  rewrite Hlu, <- Hcs.
  destruct (bool_decide (sq_state s = sequenceCommitted)) eqn:Hst; cbn [negb orb].
  2: { split; [done |]. intros sd' e' acts [= <- <- <-]. exists []. rewrite Z.add_0_r. split; [done |]. split; [done |].
       split; [intros j q Hj; done |]. split; [done |]. intros s' -> (l' & Hl' & Hs') Hc'.
       destruct (decide (ae_lowestUncommitted e < low + Z.of_nat (length (seqLocs e)))) as [Hin |].
       - destruct (sequence_wf_lookup low e Hwf (ae_lowestUncommitted e)) as (l2 & Hl2 & Hk2); [lia |].
         rewrite Hl in Hl2. injection Hl2 as <-. rewrite Hlocs, Hk2 in Hl'. injection Hl' as <-. rewrite Hs in Hs'. injection Hs' as <-.
         apply bool_decide_eq_false in Hst. done.
       - rewrite Hlocs in Hl'. apply lookup_lt_Some in Hl'. lia. }
  destruct (Z.eqb_spec seqNo (ae_lowestUncommitted e)) as [-> | Hneq]; cbn [negb].
  2: { split; [done |]. intros sd' e' acts [= <- <- <-]. exists []. rewrite Z.add_0_r. split; [done |]. split; [done |].
       split; [intros j q Hj; done |]. split; [done |]. intros s' ->. done. }
  destruct (commitLoop_spec (S (seqCount e1)) low (sd_commitState sd1) e1 Hwf1) as [Hret Hspec];
    [lia | unfold seqCount; fold (seqLocs e1); lia | by rewrite Hlocs |].
  destruct (commitLoop (S (seqCount e1)) (sd_commitState sd1) e1) as [[cs' e2] | |]; cbn [mbind outcome_bind]; [| by split | by destruct Hret].
  split; [done |]. intros sd' e' acts [= <- <- <-]. destruct (Hspec cs' e2 eq_refl) as (qs & -> & Hrun & Hcom & Hend).
  rewrite Hlu in *. exists qs. split; [done |]. split; [exact Hrun |]. split; [exact Hcom |]. split; [by intros _ |].
  intros s' _ Hat Hst' ->. destruct Hend as [Hend | (s2 & (l2 & Hl2 & Hs2) & Hn2)].
  - destruct Hat as (l2 & Hl2 & _). apply lookup_lt_Some in Hl2. unfold seqLocs in *. cbn in *. lia.
  - destruct Hat as (l3 & Hl3 & Hs3). unfold seqLocs in *. cbn in *. rewrite Z.add_0_r in Hl2. rewrite Hl2 in Hl3. injection Hl3 as <-.
    rewrite Hs2 in Hs3. by injection Hs3 as <-.
Qed.

(** ** The actions [applyCommitMsg] drops *)

Definition myChoice (s : sequence) : nodeSeqChoice := choiceOf s (ip_Id (sq_myConfig s)).

(** Whether the quorum checks of a sequence hold. *)
Definition canPrepare (s : sequence) : Prop :=
  nsc_state (myChoice s) <> nodeSeqUninitialized /\ str (nsc_digest (myChoice s)) = str (sq_digest s)
  /\ quorumOf (sq_prepares s) s.
Definition canCommit (s : sequence) : Prop :=
  nsc_state (myChoice s) = nodeSeqPrepared /\ quorumOf (sq_commits s) s.

(** A sequence whose state cannot advance any further. *)
Definition atRest (s : sequence) : Prop :=
  match sq_state s with
  | sequencePendingRequests => sq_outstandingReqs s <> ∅
  | sequenceReady => notNil (sq_digest s) = false /\ sq_batch s <> []
  | sequencePreprepared => ~ canPrepare s
  | sequencePrepared => ~ canCommit s
  | _ => True
  end.

Lemma atRest_same (s s' : sequence) : sameVotes s s' -> sq_state s' = sq_state s -> atRest s -> atRest s'.
Proof.
  intros [] Hst. unfold atRest, canPrepare, canCommit, quorumOf, myChoice. rewrite Hst.
  destruct (sq_state s); rewrite ?sv_outstanding, ?sv_digest, ?sv_batch, ?sv_prepares, ?sv_commits, ?sv_networkConfig,
    ?sv_myConfig, ?sv_choices; done.
Qed.

(** One step of [advanceState]: it stays exactly at rest, silently. *)
Lemma advanceOnce_rest (h : reqHeap) (p p' : persisted) (s s' : sequence) (acts : ActionList) :
  advanceOnce h p s = Ok (p', s', acts) -> (sq_state s' = sq_state s <-> atRest s) /\ (atRest s -> p' = p /\ acts = []).
Proof.
  unfold advanceOnce, atRest. destruct (sq_state s) eqn:Hst; intros H.
  - injection H as <- <- <-. by rewrite Hst.
  - injection H as <- <- <-. by rewrite Hst.
  - injection H as <- <- <-. unfold sequence_checkRequests. destruct (Nat.ltb_spec 0 (size (sq_outstandingReqs s))) as [Hs | Hs].
    + rewrite Hst. split; [| done]. split; [intros _ E; rewrite E, size_empty in Hs; lia | done].
    + cbn. split; [| done]. split; [done |]. intros Hne. destruct Hne. apply leibniz_equiv, size_empty_inv. lia.
  - destruct (orb _ _) eqn:Ho.
    + assert (Hne : sq_state s' <> sequenceReady).
      { apply prepare_spec in H; [| done | done]. destruct H as (_ & Hp & _). by rewrite Hp. }
      split; [split; [done |] |]; intros [Hd Hb]; rewrite Hd in Ho; cbn in Ho; by destruct (sq_batch s).
    + injection H as <- <- <-. rewrite Hst. apply orb_false_iff in Ho as [Hd Hb]. split; [| done].
      split; [| done]. intros _. split; [done |]. by destruct (sq_batch s).
  - unfold sequence_checkPrepareQuorum in H. destruct (sequence_nodeChoice s _) as [s1 c] eqn:Hc.
    apply nodeChoice_spec in Hc as (-> & Hs1 & Hst1 & _). pose proof Hs1 as []. rewrite sv_digest, sv_networkConfig in H.
    unfold canPrepare, quorumOf, myChoice. destruct (Nat.ltb_spec (nodeSeqState_iota (nsc_state (choiceOf s (ip_Id (sq_myConfig s))))) (nodeSeqState_iota nodeSeqPreprepared)) as [Hm | Hm].
    { injection H as <- <- <-. rewrite Hst1, Hst. split; [| done]. split; [| done]. intros _ (Hn & _).
      destruct (nsc_state (choiceOf s (ip_Id (sq_myConfig s)))); cbn in Hm; [done | lia | lia]. }
    destruct (negb _) eqn:He.
    { injection H as <- <- <-. rewrite Hst1, Hst. split; [| done]. split; [| done]. intros _ (_ & Hd & _).
      apply bytesEqual_spec in Hd. by rewrite Hd in He. }
    destruct (Z.ltb_spec (default 0 (sq_prepares s !! str (sq_digest s))) (intersectionQuorum (sq_networkConfig s))) as [Hq | Hq].
    { injection H as <- <- <-. rewrite Hst1, Hst. split; [| done]. split; [| done]. intros _ (_ & _ & Hd). lia. }
    apply negb_false_iff, bytesEqual_spec in He. apply bind_Ok in H as ([p1 a1] & _ & H). injection H as <- <- <-. cbn.
    assert (Hcan : nsc_state (choiceOf s (ip_Id (sq_myConfig s))) <> nodeSeqUninitialized /\
       str (nsc_digest (choiceOf s (ip_Id (sq_myConfig s)))) = str (sq_digest s) /\
       intersectionQuorum (sq_networkConfig s) <= default 0 (sq_prepares s !! str (sq_digest s))).
    { split; [| done]. intros E. rewrite E in Hm. cbn in Hm. lia. }
    split; [split; [done |] |]; intros Hn; by destruct Hn.
  - injection H as <- <- <-. unfold sequence_checkCommitQuorum. destruct (sequence_nodeChoice s _) as [s1 c] eqn:Hc.
    apply nodeChoice_spec in Hc as (-> & Hs1 & Hst1 & _). pose proof Hs1 as []. rewrite sv_networkConfig. split; [| done].
    unfold canCommit, quorumOf, myChoice.
    destruct (Nat.ltb_spec (nodeSeqState_iota (nsc_state (choiceOf s (ip_Id (sq_myConfig s))))) (nodeSeqState_iota nodeSeqPrepared)) as [Hm | Hm].
    { rewrite Hst1, Hst. split; [| done]. intros _ (Hn & _). rewrite Hn in Hm. cbn in Hm. lia. }
    destruct (Z.ltb_spec (default 0 (sq_commits s !! str (sq_digest s))) (intersectionQuorum (sq_networkConfig s))) as [Hq | Hq].
    { rewrite Hst1, Hst. split; [| done]. intros _ (_ & Hd). lia. }
    cbn. split; [done |]. intros Hn. destruct Hn. split; [| done]. by destruct (nsc_state (choiceOf s (ip_Id (sq_myConfig s)))); cbn in Hm; try lia.
  - injection H as <- <- <-. by rewrite Hst.
Qed.

Lemma advanceLoop_rest (fuel : nat) (h : reqHeap) (p p' : persisted) (s s' : sequence) (a0 acts : ActionList) :
  advanceLoop fuel h p s a0 = Ok (p', s', acts) -> atRest s'.
Proof.
  revert p s a0. induction fuel as [|fuel IH]; intros p s a0 H; cbn [advanceLoop] in H; [done |].
  apply bind_Ok in H as ([[p1 s1] a1] & Ho & H). case_decide as Heq; [| by eapply IH].
  injection H as <- <- <-. pose proof (advanceOnce_spec _ _ _ _ _ _ Ho) as [Had _].
  apply (atRest_same s); [exact (ad_same _ _ _ Had) | done |]. by apply (advanceOnce_rest _ _ _ _ _ _ Ho).
Qed.

(** At rest, advancing does nothing. *)
Lemma advanceState_atRest (h : reqHeap) (p p' : persisted) (s s' : sequence) (acts : ActionList) :
  atRest s -> sequence_advanceState h p s = Ok (p', s', acts) -> p' = p /\ acts = [].
Proof.
  unfold sequence_advanceState. cbn [advanceLoop]. intros Hr H. apply bind_Ok in H as ([[p1 s1] a1] & Ho & H).
  destruct (advanceOnce_rest _ _ _ _ _ _ Ho) as [Hst Hsil]. destruct (Hsil Hr) as [-> ->].
  rewrite decide_True in H by (by apply Hst). by injection H as <- <- <-.
Qed.

Lemma advanceLoop_committed (fuel : nat) (h : reqHeap) (p p' : persisted) (s s' : sequence) (a0 acts : ActionList) :
  sq_state s = sequenceCommitted -> advanceLoop fuel h p s a0 = Ok (p', s', acts) -> p' = p /\ acts = a0.
Proof.
  destruct fuel as [|fuel]; [done |]. cbn [advanceLoop]. intros Hst H. apply bind_Ok in H as ([[p1 s1] a1] & Ho & H).
  unfold advanceOnce in Ho. rewrite Hst in Ho. injection Ho as <- <- <-. rewrite decide_True in H by done.
  injection H as <- <- <-. unfold ActionList_concat. by rewrite app_nil_r.
Qed.

(** A prepared sequence can only become committed, silently. *)
Lemma advanceState_prepared (h : reqHeap) (p p' : persisted) (s s' : sequence) (acts : ActionList) :
  sq_state s = sequencePrepared -> sequence_advanceState h p s = Ok (p', s', acts) -> p' = p /\ acts = [].
Proof.
  unfold sequence_advanceState. generalize 7%nat as fuel. intros fuel Hst H. cbn [advanceLoop] in H.
  apply bind_Ok in H as ([[p1 s1] a1] & Ho & H). unfold advanceOnce in Ho. rewrite Hst in Ho. injection Ho as <- <- <-.
  destruct (checkCommitQuorum_spec s Hst) as [_ [Hq | Hq]]; case_decide; try congruence.
  - by injection H as <- <- <-.
  - by apply advanceLoop_committed in H.
Qed.

Lemma applyCommitMsg_silent (h : reqHeap) (p p' : persisted) (s s' : sequence) (source : Z) (digest : slice) (acts : ActionList) :
  atRest s -> source <> ip_Id (sq_myConfig s) \/ nsc_state (myChoice s) <> nodeSeqUninitialized ->
  sequence_applyCommitMsg h p s source digest = Ok (p', s', acts) -> p' = p /\ acts = [].
Proof.
  intros Hr Hme H. unfold sequence_applyCommitMsg in H. destruct (sequence_nodeChoice s source) as [s1 c] eqn:Hc.
  apply nodeChoice_spec in Hc as (-> & Hs1 & Hst & _). case_match; [by injection H as <- <- <- |]. cbn in H.
  destruct (decide (sq_state s = sequencePrepared)) as [Hp | Hnp].
  - eapply advanceState_prepared; [| exact H]. cbn. congruence.
  - eapply advanceState_atRest; [| exact H]. pose proof (atRest_same _ _ Hs1 Hst Hr) as Hr1. pose proof Hs1 as [].
    unfold atRest in *. cbn. destruct (sq_state s1) eqn:Hst1; try done.
    intros (Hm & Hd & Hq). apply Hr1. unfold canPrepare, myChoice, quorumOf in *. cbn in *.
    unfold choiceOf in Hm, Hd. cbn in Hm, Hd. rewrite lookup_insert in Hm, Hd.
    destruct (decide (source = ip_Id (sq_myConfig s1))) as [-> | Hne]; [| done]. cbn in Hm, Hd.
    rewrite sv_myConfig in Hme, Hd. destruct Hme as [Hme | Hme]; [done |].
    rewrite !sv_choices. rewrite sv_myConfig. done.
Qed.

Lemma applyPrepareMsg_rest (h : reqHeap) (p p' : persisted) (s s' : sequence) (source : Z) (digest : slice) (acts : ActionList) :
  (source <> sq_owner s -> atRest s) -> sequence_applyPrepareMsg h p s source digest = Ok (p', s', acts) -> atRest s'.
Proof.
  intros Hr H. unfold sequence_applyPrepareMsg in H. destruct (sequence_nodeChoice s source) as [s1 c] eqn:Hc.
  apply nodeChoice_spec in Hc as (-> & Hs1 & Hst & _). destruct (andb _ _) eqn:Hg; [| by eapply advanceLoop_rest].
  injection H as <- <- <-. apply andb_true_iff in Hg as [Hg%negb_true_iff%Z.eqb_neq _]. rewrite (sv_owner _ _ Hs1) in Hg.
  apply (atRest_same s); auto.
Qed.

Lemma allocate_rest (h : reqHeap) (p p' : persisted) (s s' : sequence) (acks : list RequestAck) (out : gset bytes) (acts : ActionList) :
  sequence_allocate h p s acks out = Ok (p', s', acts) -> atRest s'.
Proof.
  unfold sequence_allocate. intros H. apply bind_Ok in H as (u & _ & H). case_match.
  - unfold sequence_applyBatchHashResult in H. eapply applyPrepareMsg_rest; [| exact H]. done.
  - apply bind_Ok in H as ([[p1 s1] a1] & H1 & H). injection H as <- <- <-. by eapply advanceLoop_rest.
Qed.

(** Every operation leaves a sequence at rest. *)
Lemma runSeqOp_rest (h : reqHeap) (p p' : persisted) (s s' : sequence) (op : seqOp) (acts : ActionList) :
  atRest s -> runSeqOp h p s op = Ok (p', s', acts) -> atRest s'.
Proof.
  intros Hr. destruct op; cbn [runSeqOp]; intros H.
  - by eapply allocate_rest.
  - unfold sequence_allocateAsOwner in H. apply bind_Ok in H as (acks & _ & H). by eapply allocate_rest.
  - unfold sequence_applyBatchHashResult in H. eapply applyPrepareMsg_rest; [| exact H]. done.
  - unfold sequence_satisfyOutstanding in H. apply bind_Ok in H as (u & _ & H). by eapply advanceLoop_rest.
  - by eapply applyPrepareMsg_rest.
  - by eapply applyPrepareMsg_rest.
  - unfold sequence_applyCommitMsg in H. destruct (sequence_nodeChoice s source) as [s1 c] eqn:Hc.
    apply nodeChoice_spec in Hc as (-> & Hs1 & Hst & _). case_match; [| by eapply advanceLoop_rest].
    injection H as <- <- <-. by apply (atRest_same s).
Qed.

Lemma seqRun_rest (s0 s : sequence) (ops : list seqOp) (acts : ActionList) : seqRun s0 ops s acts -> atRest s0 -> atRest s.
Proof. induction 1 as [| ops s acts h p op p' s' more _ IH _ H]; intros Hr; [done |]. eapply runSeqOp_rest; [by apply IH | exact H]. Qed.

(** Nothing is lost when the active epoch drops the actions of a commit
    message.  In every state a sequence can reach, a commit message of another
    node, or of this node once it has preprepared, changes neither the log nor
    asks for any action. *)
Theorem dropped_commit_actions_empty (h : reqHeap) (p p' : persisted) (owner epoch seqNo : Z) (nc : NetworkState_Config)
    (my : EventInitialParameters) (ops : list seqOp) (s s' : sequence) (acts more : ActionList) (source : Z) (digest : slice) :
  seqRun (newSequence owner epoch seqNo nc my) ops s acts ->
  source <> ip_Id (sq_myConfig s) \/ nsc_state (myChoice s) <> nodeSeqUninitialized ->
  sequence_applyCommitMsg h p s source digest = Ok (p', s', more) -> p' = p /\ more = [].
Proof. intros Hrun Hme H. eapply applyCommitMsg_silent; [| exact Hme | exact H]. by eapply seqRun_rest. Qed.

(** ** Witnesses *)

(** A network of four nodes with two buckets, at its first checkpoint. *)
Definition startShared : shared :=
  mkShared someLog (newCommitState <| cs_activeState := twoBuckets |> <| cs_stopAtSeqNo := 10 |>
      <| cs_lowerHalfCommits := replicate 5 None |> <| cs_upperHalfCommits := replicate 5 None |>) newClientTracker.
Definition startConfig : EpochConfig := mkEpochConfig 2 [0; 1; 3] 100.
Definition startMy : EventInitialParameters := mkInitialParameters 1 1 1 1 1 1.

Lemma startShared_wf : start_wf startShared startConfig.
Proof. split; [exact twoBuckets_wf | cbn; lia | discriminate | discriminate | cbn; lia]. Qed.

(** The state of a result, a fixed one if there is none. *)
Definition epochOf {A : Type} (r : outcome (shared * activeEpoch * A)) : shared * activeEpoch :=
  match r with
  | Ok (sd, e, _) => (sd, e)
  | _ => (startShared, mkActiveEpoch startConfig (mkConfig [] 0 0 0 0) startMy (mkAllOutstanding ∅ ∅ ∅) (mkProposer ∅ 0) ∅
                        emptySeqHeap [] [] ∅ 0 [] 0 0)
  end.

Definition startEpoch : shared * activeEpoch :=
  epochOf (se ← newActiveEpoch emptyHeap startShared (newNodeBuffers startMy) startConfig startMy; Ok (se, ())).

(** The epoch once it has its sequences. *)
Definition runningEpoch : shared * activeEpoch :=
  epochOf (activeEpoch_advance (Size := unitSize) emptyHeap startEpoch.1 startEpoch.2).

(** The epoch after messages of other nodes. *)
Definition stepAll (msgs : list (Z * Msg)) (st : shared * activeEpoch) : outcome (shared * activeEpoch * unit) :=
  st ← forRange (fun m (st : shared * activeEpoch) =>
      '(sd, e, _) ← activeEpoch_step (Size := unitSize) emptyHeap st.1 st.2 m.1 m.2; Ok (sd, e)) msgs st;
  Ok (st, ()).

Definition firstVotes : list (Z * Msg) :=
  [(3, Msg_Preprepare (mkPreprepare 1 2 [])); (0, Msg_Prepare (mkPrepare 1 2 None)); (1, Msg_Prepare (mkPrepare 1 2 None));
   (2, Msg_Prepare (mkPrepare 1 2 None)); (0, Msg_Commit (mkCommit 1 2 None)); (1, Msg_Commit (mkCommit 1 2 None))].
Definition votedEpoch : shared * activeEpoch := epochOf (stepAll firstVotes runningEpoch).

Lemma runningEpoch_reached : epochReach (Size := unitSize) runningEpoch.1 runningEpoch.2.
Proof.
  apply (reach_advance (Size := unitSize) emptyHeap startEpoch.1 startEpoch.2 _ _
    (match activeEpoch_advance (Size := unitSize) emptyHeap startEpoch.1 startEpoch.2 with Ok (_, _, a) => a | _ => [] end));
    [| vm_compute; done | vm_compute; done | vm_compute; reflexivity].
  apply (reach_new (Size := unitSize) emptyHeap startShared (newNodeBuffers startMy) startConfig startMy _ _ startShared_wf).
  vm_compute. reflexivity.
Qed.

Lemma stepAll_reached (msgs : list (Z * Msg)) (st st' : shared * activeEpoch) :
  epochReach (Size := unitSize) st.1 st.2 -> stepAll msgs st = Ok (st', ()) -> epochReach (Size := unitSize) st'.1 st'.2.
Proof.
  unfold stepAll. intros Hr H. apply bind_Ok in H as (st1 & H & [= <-]). revert st Hr H.
  induction msgs as [|[source m] msgs IH]; cbn [forRange]; intros st Hr H; [by injection H as -> |].
  apply bind_Ok in H as (st2 & H1 & H). apply bind_Ok in H1 as ([[sd e] a] & H1 & [= <-]).
  eapply IH; [| exact H]. eapply reach_step; [exact Hr | exact H1].
Qed.

Lemma votedEpoch_reached : epochReach (Size := unitSize) votedEpoch.1 votedEpoch.2.
Proof. apply (stepAll_reached firstVotes runningEpoch _ runningEpoch_reached). vm_compute. reflexivity. Qed.

Lemma wf_low (low l : Z) (e : activeEpoch) (s : sequence) :
  sequences_wf low e -> seqLocs e !! 0%nat = Some l -> sh_seqs (ae_seqHeap e) !! l = Some s -> low = sq_seqNo s.
Proof. intros Hwf Hl Hs. destruct (sw_seqs _ _ Hwf _ _ Hl) as (s' & Hs' & [= H _ _]). simplify_eq. lia. Qed.

Lemma votedEpoch_wf : sequences_wf 1 votedEpoch.2.
Proof.
  destruct (epochReach_inv (Size := unitSize) _ _ votedEpoch_reached) as (low & Hwf & _).
  assert (low = 1) as ->; [| exact Hwf].
  erewrite (wf_low low 0 _ _ Hwf); [| vm_compute; reflexivity ..]. reflexivity.
Qed.

Lemma epoch_sequences_consecutive_witness :
  exists l s, activeEpoch_sequence runningEpoch.2 7 = Ok l /\ sh_seqs (ae_seqHeap runningEpoch.2) !! l = Some s
    /\ sq_seqNo s = 7 /\ sq_owner s = 3.
Proof.
  destruct (epoch_sequences_consecutive (Size := unitSize) _ _ runningEpoch_reached) as (low & Hwf & H).
  assert (low = 1) as -> by (erewrite (wf_low low 0 _ _ Hwf); [| vm_compute; reflexivity ..]; reflexivity).
  destruct (H 7) as (l & s & Hl & Hs & Hn & _ & Ho); [vm_compute; split; [discriminate | reflexivity] |].
  exists l, s. repeat split; [exact Hl | exact Hs | exact Hn |]. rewrite Ho. vm_compute. reflexivity.
Defined.

Lemma new_epoch_assigns_buckets_witness :
  exists sd' e, newActiveEpoch emptyHeap startShared (newNodeBuffers startMy) startConfig startMy = Ok (sd', e)
    /\ bucketOwner e 1 = 3 /\ proposer_proposalBucket (ae_proposer e) 1 = None.
Proof.
  destruct (new_epoch_assigns_buckets emptyHeap startShared (newNodeBuffers startMy) startConfig startMy startShared_wf)
    as (sd' & e & H & _). exists sd', e. split; [exact H |].
  vm_compute in H. injection H as <- <-. vm_compute. by split.
Defined.

Lemma committed_prefix_handed_over_witness :
  exists sd' e' acts, activeEpoch_applyCommitMsg emptyHeap votedEpoch.1 votedEpoch.2 3 1 None = Ok (sd', e', acts)
    /\ ae_lowestUncommitted votedEpoch.2 = 1 /\ ae_lowestUncommitted e' = 2
    /\ cs_highestCommit (sd_commitState sd') = 1
    /\ runEnds 1 e' 2.
Proof.
  destruct (committed_prefix_handed_over emptyHeap 1 votedEpoch.1 votedEpoch.2 3 1 None votedEpoch_wf) as [_ H];
    [vm_compute; discriminate | vm_compute; discriminate |].
  destruct (activeEpoch_applyCommitMsg emptyHeap votedEpoch.1 votedEpoch.2 3 1 None) as [[[sd' e'] acts] | |] eqn:He;
    [| vm_compute in He; discriminate ..].
  destruct (H sd' e' acts eq_refl) as (qs & Hlow & _ & _ & Hends & _). exists sd', e', acts. split; [reflexivity |].
  assert (ae_lowestUncommitted e' = 2 /\ cs_highestCommit (sd_commitState sd') = 1) as [H2 H1].
  { vm_compute in He. injection He as <- <- <-. by split. }
  split; [vm_compute; reflexivity |]. split; [exact H2 |]. split; [exact H1 |].
  rewrite <- H2. apply Hends. intros ->. rewrite H2 in Hlow. vm_compute in Hlow. discriminate.
Defined.

Lemma dropped_commit_actions_empty_witness :
  exists s' more, sequence_applyCommitMsg emptyHeap sampleLog (endOf (sampleEnd (take 4 sampleOps))) 2 (Some [9]) = Ok (sampleLog, s', more)
    /\ sq_state s' = sequencePrepared /\ more = [].
Proof.
  destruct (sequence_applyCommitMsg emptyHeap sampleLog (endOf (sampleEnd (take 4 sampleOps))) 2 (Some [9]))
    as [[[p' s'] more] | |] eqn:H; [| vm_compute in H; discriminate ..].
  destruct (dropped_commit_actions_empty emptyHeap sampleLog p' 0 2 1 sampleConfig (mkInitialParameters 1 1 1 1 1 1) (take 4 sampleOps)
    (endOf (sampleEnd (take 4 sampleOps))) s' (actsOf (sampleEnd (take 4 sampleOps))) more 2 (Some [9])) as [-> ->].
  - apply sampleEnd_run; [vm_compute; repeat split; discriminate | vm_compute; eexists; reflexivity].
  - left. vm_compute. discriminate.
  - exact H.
  - exists s', []. split; [reflexivity |]. split; [| reflexivity]. vm_compute in H. injection H as <-. reflexivity.
Defined.
