(* ===== verification/Disseminator.v ===== *)
(** * Client hash disseminator

    [pkg/statemachine/client_hash_disseminator.go]: the acknowledgements that
    make a client request correct (a weak quorum knows it) and ready (a strong
    quorum knows it), the window of request numbers of every client, and the
    ticks that fetch requests and repeat acknowledgements.  The request objects
    live in the heap of [ReqHeap]; the client tracker is shared with the other
    components and passed in and out.

    Go iterates over a map in an order that is not defined.  Where the code
    does, the order is a parameter, the class [MapRange]. *)
From stdpp Require Import sorting.
From S2P Require Import Prelude Msgs Actions Stateless MsgBuffers ReqHeap ClientTracker.

(** ** Ranges and sorting *)

(** A [range] over a map visits every entry once, in some order. *)
Class MapRange := {
  mapRange : gmap bytes loc -> list (bytes * loc);
  mapRange_perm : forall m, mapRange m ≡ₚ map_to_list m;
}.

(** The order of the entries in the model's own maps. *)
Definition canonicalRange : MapRange := {| mapRange := map_to_list; mapRange_perm := fun m => reflexivity _ |}.

(** [bytes.Compare]. *)
Fixpoint bytesCompare (a b : bytes) : comparison :=
  match a, b with
  | [], [] => Eq
  | [], _ :: _ => Lt
  | _ :: _, [] => Gt
  | x :: a', y :: b' => match Z.compare x y with Eq => bytesCompare a' b' | c => c end
  end.

(** The order of [toFetch]: decreasing digests. *)
Definition fetchOrder (x y : bytes * loc) : Prop := bytesCompare (x.1) (y.1) <> Lt.

#[global] Instance fetchOrder_dec : RelDecision fetchOrder.
Proof. intros x y. unfold fetchOrder. destruct (bytesCompare x.1 y.1); (right + left); congruence. Defined.

(** ** Data *)

(** [reqNoList] and [reqNoMap] hold the same pointers; an element of the list
    is its value.  [clientTracker] is shared and passed. *)
Record client := mkClient {
  c_myConfig : EventInitialParameters;
  c_networkConfig : NetworkState_Config;
  c_clientState : NetworkState_Client;
  c_highWatermark : Z;
  c_nextReadyMark : Z;
  c_reqNoList : list loc;
  c_reqNoMap : gmap Z loc;
}.

#[global] Instance eta_client : Eta client := mkEta (fun r =>
  mkClient (c_myConfig r) (c_networkConfig r) (c_clientState r) (c_highWatermark r) (c_nextReadyMark r) (c_reqNoList r)
    (c_reqNoMap r)).

Record clientHashDisseminator := mkDisseminator {
  chd_myConfig : EventInitialParameters;
  chd_nodeBuffers : nodeBuffers;
  chd_allocatedThrough : Z;
  chd_networkConfig : NetworkState_Config;
  chd_clientStates : list NetworkState_Client;
  chd_msgBuffers : gmap Z msgBuffer;
  chd_clients : gmap Z client;
}.

#[global] Instance eta_disseminator : Eta clientHashDisseminator := mkEta (fun r =>
  mkDisseminator (chd_myConfig r) (chd_nodeBuffers r) (chd_allocatedThrough r) (chd_networkConfig r) (chd_clientStates r)
    (chd_msgBuffers r) (chd_clients r)).

(** The configurations are nil until [reinitialize]. *)
Definition newClientHashDisseminator (nbs : nodeBuffers) (myConfig : EventInitialParameters) : clientHashDisseminator :=
  mkDisseminator myConfig nbs 0 (mkConfig [] 0 0 0 0) [] ∅ ∅.

Definition newClient (myConfig : EventInitialParameters) : client :=
  mkClient myConfig (mkConfig [] 0 0 0 0) (mkClientState 0 0 0 0 []) 0 0 [] ∅.

Definition newClientReqNo (myConfig : EventInitialParameters) (clientID reqNo : Z) (networkConfig : NetworkState_Config)
    (validAfterSeqNo : Z) : clientReqNo :=
  mkClientReqNo myConfig networkConfig clientID reqNo validAfterSeqNo ∅ ∅ ∅ ∅ ∅ false 0 0.

(** [len(cr.agreements)]. *)
Definition agreementCount (cr : clientRequest) : Z := Z.of_nat (size (cr_agreements cr)).

(** A loop [for i := low; i <= high; i++] over a [uint64]: it never ends when
    [high] is the largest one. *)
Definition forUpTo {St : Type} (low high : Z) (body : Z -> St -> outcome St) (st : St) : outcome St :=
  if high =? 2 ^ 64 - 1 then OutOfFuel else forRange body (seqZ low (high - low + 1)) st.

(** ** One request number *)

(** Methods of a [clientReqNo] get and return the object itself; the methods
    of the client read and write it through its pointer. *)
Definition clientReqNo_clientReq (h : reqHeap) (crn : clientReqNo) (ack : RequestAck) : reqHeap * clientReqNo * loc :=
  let digestKey := if (slen (ra_Digest ack) =? 0)%nat then [] else str (ra_Digest ack) in
  match crn_requests crn !! digestKey with
  | Some clientReq => (h, crn, clientReq)
  | None =>
    let '(h, clientReq) := allocRequest h (mkClientRequest ack ∅ false false 0 0) in
    (h, crn <| crn_requests ::= <[digestKey := clientReq]> |>, clientReq)
  end.

(** [clientReq(ack)] marked stored and entered in [myRequests] under [key]. *)
Definition storeMine (h : reqHeap) (crn : clientReqNo) (ack : RequestAck) (key : bytes) : outcome (reqHeap * clientReqNo) :=
  let '(h, crn, l) := clientReqNo_clientReq h crn ack in
  cr ← loadRequest h l;
  Ok (storeRequest h l (cr <| cr_stored := true |>), crn <| crn_myRequests ::= <[key := l]> |>).

(** The acknowledgement of the null request, which replaces the others. *)
Definition promoteNull (h : reqHeap) (crn : clientReqNo) : outcome (reqHeap * clientReqNo * RequestAck) :=
  let nullAck := mkAck (crn_clientID crn) (crn_reqNo crn) None in
  '(h, crn) ← storeMine h crn nullAck [];
  Ok (h, crn <| crn_acksSent := 1 |> <| crn_ticksSinceAck := 0 |>, nullAck).

Definition clientReqNo_applyNewRequest (h : reqHeap) (crn : clientReqNo) (ack : RequestAck)
    : outcome (reqHeap * clientReqNo * ActionList) :=
  match crn_myRequests crn !! str (ra_Digest ack) with
  | Some _ => Ok (h, crn, [])
  | None =>
    '(h, crn) ← storeMine h crn ack (str (ra_Digest ack));
    if (size (crn_myRequests crn) =? 1)%nat then
      Ok (h, crn <| crn_acksSent := 1 |> <| crn_ticksSinceAck := 0 |>,
          ActionList_Send [] (nc_Nodes (crn_networkConfig crn)) (Msg_RequestAck ack))
    else
      match crn_myRequests crn !! [] with
      | None => Ok (h, crn, [])
      | Some _ =>
        '(h, crn, nullAck) ← promoteNull h crn;
        Ok (h, crn, ActionList_Send [] (nc_Nodes (crn_networkConfig crn)) (Msg_RequestAck nullAck))
      end
  end.

Definition clientReqNo_applyRequestAck (h : reqHeap) (crn : clientReqNo) (source : Z) (ack : RequestAck) (force : bool)
    : outcome (reqHeap * clientReqNo) :=
  if negb (slen (ra_Digest ack) =? 0)%nat && (bool_decide (source ∉ crn_nonNullVoters crn) && negb force) then Ok (h, crn)
  else
    let crn := if negb (slen (ra_Digest ack) =? 0)%nat then crn <| crn_nonNullVoters ::= fun s => {[source]} ∪ s |> else crn in
    let '(h, crn, l) := clientReqNo_clientReq h crn ack in
    cr ← loadRequest h l;
    let cr := cr <| cr_agreements ::= fun s => {[source]} ∪ s |> in
    let h := storeRequest h l cr in
    if agreementCount cr <? someCorrectQuorum (crn_networkConfig crn) then Ok (h, crn)
    else
      let crn := crn <| crn_weakRequests ::= <[str (ra_Digest ack) := l]> |> in
      if agreementCount cr <? intersectionQuorum (crn_networkConfig crn) then Ok (h, crn)
      else Ok (h, crn <| crn_strongRequests ::= <[str (ra_Digest ack) := l]> |>).

(** [cr.fetch()]: the nodes are sorted, so the order of the range over the set
    does not matter. *)
Definition clientRequest_fetch (cr : clientRequest) : clientRequest * ActionList :=
  if cr_fetching cr then (cr, [])
  else
    let nodes := merge_sort Z.le (elements (cr_agreements cr)) in
    (cr <| cr_fetching := true |> <| cr_ticksFetching := 0 |>, ActionList_Send [] nodes (Msg_FetchRequest (cr_ack cr))).

(** Fetches the request a pointer refers to. *)
Definition fetchAt (h : reqHeap) (l : loc) : outcome (reqHeap * ActionList) :=
  cr ← loadRequest h l;
  let '(cr, actions) := clientRequest_fetch cr in
  Ok (storeRequest h l cr, actions).

Section Disseminator.

Context `{Range : MapRange} `{Size : ProtoSize}.

(** One digest of the loop of [reinitialize]: the acknowledgements of the
    nodes still in the network are applied again. *)
Definition restoreRequest (nodes : list Z) (old : bytes * loc) (st : reqHeap * clientReqNo) : outcome (reqHeap * clientReqNo) :=
  oldClientReq ← loadRequest st.1 old.2;
  '(h, crn) ← forRange (fun id (st : reqHeap * clientReqNo) =>
      if bool_decide (id ∈ cr_agreements oldClientReq)
      then clientReqNo_applyRequestAck st.1 st.2 id (cr_ack oldClientReq) true
      else Ok st) nodes st;
  if cr_stored oldClientReq then storeMine h crn (cr_ack oldClientReq) old.1 else Ok (h, crn).

(** The comparison function given to [sort.Slice] compares the indices, which
    leaves the digests in some order. *)
Definition clientReqNo_reinitialize (h : reqHeap) (crn : clientReqNo) (networkConfig : NetworkState_Config)
    : outcome (reqHeap * clientReqNo) :=
  let oldRequests := crn_requests crn in
  let crn := crn <| crn_networkConfig := networkConfig |> <| crn_nonNullVoters := ∅ |> <| crn_requests := ∅ |>
                 <| crn_weakRequests := ∅ |> <| crn_strongRequests := ∅ |> <| crn_myRequests := ∅ |> in
  forRange (restoreRequest (nc_Nodes networkConfig)) (mapRange oldRequests) (h, crn).

(** The second step of [tick]: fetch the only correct request. *)
Definition tickFetchCorrect (h : reqHeap) (crn : clientReqNo) : outcome (reqHeap * ActionList) :=
  if negb (size (crn_weakRequests crn) =? 1)%nat then Ok (h, [])
  else
    match mapRange (crn_weakRequests crn) with
    | [] => Ok (h, [])
    | (_, l) :: _ =>
      cr ← loadRequest h l;
      if cr_stored cr || cr_fetching cr then Ok (h, [])
      else if cr_ticksCorrect cr <=? 4 then Ok (storeRequest h l (cr <| cr_ticksCorrect ::= fun n => n +! 1 |>), [])
      else fetchAt h l
    end.

(** The third step of [tick]: the fetches that have waited long enough. *)
Definition tickFetching (entry : bytes * loc) (st : reqHeap * list (bytes * loc)) : outcome (reqHeap * list (bytes * loc)) :=
  let '(h, toFetch) := st in
  cr ← loadRequest h entry.2;
  if negb (cr_fetching cr) then Ok (h, toFetch)
  else if cr_ticksFetching cr <=? 4 then Ok (storeRequest h entry.2 (cr <| cr_ticksFetching ::= fun n => n +! 1 |>), toFetch)
  else Ok (storeRequest h entry.2 (cr <| cr_fetching := false |>), toFetch ++ [(str (ra_Digest (cr_ack cr)), entry.2)]).

(** The last step of [tick]: repeat the acknowledgement, with a linear backoff. *)
Definition tickResend (h : reqHeap) (crn : clientReqNo) : outcome (clientReqNo * ActionList) :=
  if crn_acksSent crn =? 0 then Ok (crn, [])
  else if negb (crn_ticksSinceAck crn =? mul64 (crn_acksSent crn) 20) then
    Ok (crn <| crn_ticksSinceAck ::= fun n => n +! 1 |>, [])
  else
    l ← (if (1 <? size (crn_myRequests crn))%nat then deref (crn_myRequests crn !! []) "nil pointer dereference: null request"
         else match mapRange (crn_myRequests crn) with
              | [] => Panic "we have sent an ack for a request, but do not have the ack"
              | (_, l) :: _ => Ok l
              end);
    cr ← loadRequest h l;
    let crn := crn <| crn_acksSent ::= fun n => n +! 1 |> <| crn_ticksSinceAck := 0 |> in
    Ok (crn, ActionList_Send [] (nc_Nodes (crn_networkConfig crn)) (Msg_RequestAck (cr_ack cr))).

Definition clientReqNo_tick (h : reqHeap) (crn : clientReqNo) : outcome (reqHeap * clientReqNo * ActionList) :=
  if crn_committed crn then Ok (h, crn, [])
  else
    '(h, crn, actions) ←
      (if bool_decide (crn_myRequests crn !! [] = None) && (1 <? size (crn_weakRequests crn))%nat then
         '(h, crn, nullAck) ← promoteNull h crn;
         Ok (h, crn, ActionList_CorrectRequest
                       (ActionList_Send [] (nc_Nodes (crn_networkConfig crn)) (Msg_RequestAck nullAck)) nullAck)
       else Ok (h, crn, []));
    '(h, more) ← tickFetchCorrect h crn;
    let actions := ActionList_concat actions more in
    '(h, toFetch) ← forRange tickFetching (mapRange (crn_weakRequests crn)) (h, []);
    '(h, actions) ← forRange (fun (x : bytes * loc) (st : reqHeap * ActionList) =>
        '(h, more) ← fetchAt st.1 x.2; Ok (h, ActionList_concat st.2 more)) (merge_sort fetchOrder toFetch) (h, actions);
    '(crn, more) ← tickResend h crn;
    Ok (h, crn, ActionList_concat actions more).

(** ** One client *)

Definition client_inWatermarks (c : client) (reqNo : Z) : bool :=
  (reqNo <=? c_highWatermark c) && (cl_LowWatermark (c_clientState c) <=? reqNo).

(** The assertion compares a typed nil pointer with nil and cannot fail; a
    missing element is dereferenced. *)
Definition client_reqNo (c : client) (reqNo : Z) : outcome loc :=
  deref (c_reqNoMap c !! reqNo) "nil pointer dereference: list.Element".

(** Some strong request is stored here; which one the range finds first does
    not matter. *)
Definition readyReqNo (crn : clientReqNo) : bool :=
  existsb (fun x => bool_decide (is_Some (crn_myRequests crn !! x.1))) (mapRange (crn_strongRequests crn)).

(** The loop of [advanceReady]; it ends when an iteration leaves
    [nextReadyMark] behind. *)
Fixpoint advanceReadyLoop (fuel : nat) (i : Z) (h : reqHeap) (ct : clientTracker) (c : client)
    : outcome (clientTracker * client) :=
  if i <=? c_highWatermark c then
    match fuel with
    | O => OutOfFuel
    | S fuel' =>
      if negb (i =? c_nextReadyMark c) then Ok (ct, c)
      else
        l ← client_reqNo c i;
        crn ← loadReqNo h l;
        if crn_committed crn then advanceReadyLoop fuel' (i +! 1) h ct (c <| c_nextReadyMark := i +! 1 |>)
        else if readyReqNo crn
        then advanceReadyLoop fuel' (i +! 1) h (clientTracker_addReady ct l) (c <| c_nextReadyMark := i +! 1 |>)
        else advanceReadyLoop fuel' (i +! 1) h ct c
    end
  else Ok (ct, c).

(** Every iteration but the last moves [nextReadyMark] up towards
    [highWatermark], and one more iteration may end the loop. *)
Definition client_advanceReady (h : reqHeap) (ct : clientTracker) (c : client) : outcome (clientTracker * client) :=
  advanceReadyLoop (Z.to_nat (c_highWatermark c - c_nextReadyMark c + 2)) (c_nextReadyMark c) h ct c.

(** [LowWatermark + Width - WidthConsumedLastCheckpoint]. *)
Definition intermediateHighWatermark (cs : NetworkState_Client) : Z :=
  cl_LowWatermark cs +! cl_Width cs -! cl_WidthConsumedLastCheckpoint cs.

(** One request number of the loop of [reinitialize]. *)
Definition restoreReqNo (seqNo : Z) (networkConfig : NetworkState_Config) (clientState : NetworkState_Client)
    (oldReqNoMap : gmap Z loc) (reqNo : Z) (st : reqHeap * client * ActionList) : outcome (reqHeap * client * ActionList) :=
  let '(h, c, actions) := st in
  committed ← isCommitted reqNo clientState;
  let '(h, l, actions) :=
    match oldReqNoMap !! reqNo with
    | Some l => (h, l, actions)
    | None =>
      let validAfterSeqNo := if intermediateHighWatermark clientState <? reqNo
                             then seqNo +! u64 (nc_CheckpointInterval networkConfig) else seqNo in
      let '(h, l) := allocReqNo h (newClientReqNo (c_myConfig c) (cl_Id clientState) reqNo (c_networkConfig c) validAfterSeqNo) in
      (h, l, ActionList_AllocateRequest actions (cl_Id clientState) reqNo)
    end in
  crn ← loadReqNo h l;
  '(h, crn) ← clientReqNo_reinitialize h (crn <| crn_committed := committed |>) networkConfig;
  Ok (storeReqNo h l crn, c <| c_reqNoList ::= fun ls => ls ++ [l] |> <| c_reqNoMap ::= <[reqNo := l]> |>, actions).

Definition client_reinitialize (h : reqHeap) (ct : clientTracker) (c : client) (seqNo : Z) (networkConfig : NetworkState_Config)
    (clientState : NetworkState_Client) (reconfiguring : bool) : outcome (reqHeap * clientTracker * client * ActionList) :=
  let oldReqNoMap := c_reqNoMap c in
  let high := if reconfiguring then intermediateHighWatermark clientState else cl_LowWatermark clientState +! cl_Width clientState in
  let c := c <| c_networkConfig := networkConfig |> <| c_clientState := clientState |> <| c_highWatermark := high |>
             <| c_nextReadyMark := cl_LowWatermark clientState |> <| c_reqNoList := [] |> <| c_reqNoMap := ∅ |> in
  '(h, c, actions) ← forUpTo (cl_LowWatermark clientState) high
      (restoreReqNo seqNo networkConfig clientState oldReqNoMap) (h, c, []);
  '(ct, c) ← client_advanceReady h ct c;
  Ok (h, ct, c, actions).

(** The loop of [allocate] that drops the numbers below the new low watermark. *)
Fixpoint dropReqNos (h : reqHeap) (low : Z) (els : list loc) (m : gmap Z loc) : outcome (list loc * gmap Z loc) :=
  match els with
  | [] => Ok ([], m)
  | l :: els' =>
    crn ← loadReqNo h l;
    if crn_reqNo crn =? low then Ok (els, m) else dropReqNos h low els' (delete (crn_reqNo crn) m)
  end.

(** One number of the loop that marks the committed ones. *)
Definition markReqNo (state : NetworkState_Client) (c : client) (reqNo : Z) (h : reqHeap) : outcome reqHeap :=
  committed ← isCommitted reqNo state;
  if (committed : bool) then
    l ← deref (c_reqNoMap c !! reqNo) "nil pointer dereference: list.Element";
    crn ← loadReqNo h l;
    Ok (storeReqNo h l (crn <| crn_committed := true |>))
  else Ok h.

(** One new number. *)
Definition addReqNo (state : NetworkState_Client) (validAfterSeqNo : Z) (reqNo : Z) (st : reqHeap * client * ActionList)
    : outcome (reqHeap * client * ActionList) :=
  let '(h, c, actions) := st in
  let '(h, l) := allocReqNo h (newClientReqNo (c_myConfig c) (cl_Id state) reqNo (c_networkConfig c) validAfterSeqNo) in
  Ok (h, c <| c_reqNoList ::= fun ls => ls ++ [l] |> <| c_reqNoMap ::= <[reqNo := l]> |>,
      ActionList_AllocateRequest actions (cl_Id state) reqNo).

Definition client_allocate (h : reqHeap) (ct : clientTracker) (c : client) (seqNo : Z) (state : NetworkState_Client)
    (reconfiguring : bool) : outcome (reqHeap * clientTracker * client * ActionList) :=
  let intermediate := intermediateHighWatermark state in
  _ ← assertTrue (intermediate =? c_highWatermark c)
        "new intermediate high watermark should always be the old high watemark, in the allocation path";
  let newHighWatermark := if reconfiguring then intermediate else cl_LowWatermark state +! cl_Width state in
  let c := if c_nextReadyMark c <? cl_LowWatermark state then c <| c_nextReadyMark := cl_LowWatermark state |> else c in
  '(els, m) ← dropReqNos h (cl_LowWatermark state) (c_reqNoList c) (c_reqNoMap c);
  let c := c <| c_reqNoList := els |> <| c_reqNoMap := m |> in
  h ← forUpTo (cl_LowWatermark state) (c_highWatermark c) (markReqNo state c) h;
  let c := c <| c_clientState := state |> in
  let validAfterSeqNo := seqNo +! u64 (nc_CheckpointInterval (c_networkConfig c)) in
  '(h, c, actions) ← forUpTo (intermediate +! 1) newHighWatermark (addReqNo state validAfterSeqNo) (h, c, []);
  let c := c <| c_highWatermark := newHighWatermark |> in
  '(ct, c) ← client_advanceReady h ct c;
  Ok (h, ct, c, actions).

Definition client_ack (h : reqHeap) (ct : clientTracker) (c : client) (source : Z) (ack : RequestAck)
    : outcome (reqHeap * clientTracker * client * ActionList * loc) :=
  _ ← assertTrue (bool_decide (is_Some (c_reqNoMap c !! ra_ReqNo ack))) "got ack outside of the watermarks";
  crne ← client_reqNo c (ra_ReqNo ack);
  crn ← loadReqNo h crne;
  let '(h, crn, l) := clientReqNo_clientReq h crn ack in
  cr ← loadRequest h l;
  let cr := cr <| cr_agreements ::= fun s => {[source]} ∪ s |> in
  let h := storeRequest h l cr in
  let newlyCorrect := agreementCount cr =? someCorrectQuorum (c_networkConfig c) in
  let crn := if newlyCorrect then crn <| crn_weakRequests ::= <[str (ra_Digest ack) := l]> |> else crn in
  let actions := if newlyCorrect && negb (cr_stored cr) then ActionList_CorrectRequest [] ack else [] in
  let correctAndMyAck := (someCorrectQuorum (c_networkConfig c) <=? agreementCount cr) && (source =? ip_Id (c_myConfig c)) in
  let ct := if cr_stored cr && (newlyCorrect || correctAndMyAck) then clientTracker_addAvailable ct ack else ct in
  if agreementCount cr =? intersectionQuorum (c_networkConfig c) then
    let crn := crn <| crn_strongRequests ::= <[str (ra_Digest ack) := l]> |> in
    let h := storeReqNo h crne crn in
    '(ct, c) ← client_advanceReady h ct c;
    Ok (h, ct, c, actions, l)
  else Ok (storeReqNo h crne crn, ct, c, actions, l).

(** One element of the loop of [tick]. *)
Definition tickReqNo (l : loc) (st : reqHeap * ActionList) : outcome (reqHeap * ActionList) :=
  crn ← loadReqNo st.1 l;
  '(h, crn, more) ← clientReqNo_tick st.1 crn;
  Ok (storeReqNo h l crn, ActionList_concat st.2 more).

Definition client_tick (h : reqHeap) (c : client) : outcome (reqHeap * ActionList) := forRange tickReqNo (c_reqNoList c) (h, []).

(** ** The disseminator *)

Definition clientHashDisseminator_client (d : clientHashDisseminator) (clientID : Z) : option client := chd_clients d !! clientID.

(** One client of the loop of [reinitialize].  The old clients are pointers: a
    client that is listed twice finds the object already reinitialized. *)
Definition restoreClient (seqNo : Z) (networkState : NetworkState) (oldClients : gmap Z client) (clientState : NetworkState_Client)
    (st : reqHeap * clientTracker * clientHashDisseminator * ActionList)
    : outcome (reqHeap * clientTracker * clientHashDisseminator * ActionList) :=
  let '(h, ct, d, actions) := st in
  let c := match oldClients !! cl_Id clientState with
           | Some c => default c (chd_clients d !! cl_Id clientState)
           | None => newClient (chd_myConfig d)
           end in
  '(h, ct, c, more) ← client_reinitialize h ct c seqNo (ns_Config networkState) clientState
      (0 <? length (ns_PendingReconfigurations networkState))%nat;
  Ok (h, ct, d <| chd_clients ::= <[cl_Id clientState := c]> |>, ActionList_concat actions more).

Definition clientHashDisseminator_reinitialize (h : reqHeap) (ct : clientTracker) (d : clientHashDisseminator) (seqNo : Z)
    (networkState : NetworkState) : outcome (reqHeap * clientTracker * clientHashDisseminator * ActionList) :=
  let oldClients := chd_clients d in
  let d := d <| chd_allocatedThrough := seqNo |> <| chd_networkConfig := ns_Config networkState |> <| chd_clients := ∅ |>
             <| chd_clientStates := ns_Clients networkState |> in
  '(h, ct, d, actions) ← forRange (restoreClient seqNo networkState oldClients) (chd_clientStates d) (h, ct, d, []);
  let oldMsgBuffers := chd_msgBuffers d in
  let buffers := foldl (fun (m : gmap Z msgBuffer) id =>
      <[id := default (newMsgBuffer "clients" (nodeBuffers_nodeBuffer (chd_nodeBuffers d) id)) (oldMsgBuffers !! id)]> m)
      ∅ (nc_Nodes (ns_Config networkState)) in
  Ok (h, ct, d <| chd_msgBuffers := buffers |>, actions).

(** One client of the loop of [tick]. *)
Definition tickClient (d : clientHashDisseminator) (clientState : NetworkState_Client) (st : reqHeap * ActionList)
    : outcome (reqHeap * ActionList) :=
  c ← deref (chd_clients d !! cl_Id clientState) "nil pointer dereference: client";
  '(h, more) ← client_tick st.1 c;
  Ok (h, ActionList_concat st.2 more).

Definition clientHashDisseminator_tick (h : reqHeap) (d : clientHashDisseminator) : outcome (reqHeap * ActionList) :=
  forRange (tickClient d) (chd_clientStates d) (h, []).

Definition clientHashDisseminator_filter (d : clientHashDisseminator) (source : Z) (msg : Msg) : outcome applyable :=
  match msg with
  | Msg_RequestAck ack =>
    match clientHashDisseminator_client d (ra_ClientId ack) with
    | None => Ok future
    | Some c => Ok (if ra_ReqNo ack <? cl_LowWatermark (c_clientState c) then past
                    else if c_highWatermark c <? ra_ReqNo ack then future
                    else current)
    end
  | Msg_FetchRequest _ => Ok current
  | _ => Panic "unexpected bad client window message type, this indicates a bug"
  end.

Definition clientHashDisseminator_ack (h : reqHeap) (ct : clientTracker) (d : clientHashDisseminator) (source : Z) (ack : RequestAck)
    : outcome (reqHeap * clientTracker * clientHashDisseminator * ActionList * loc) :=
  _ ← assertTrue (bool_decide (is_Some (chd_clients d !! ra_ClientId ack)))
        "the step filtering should delay reqs for non-existent clients";
  c ← deref (chd_clients d !! ra_ClientId ack) "nil pointer dereference: client";
  '(h, ct, c, actions, l) ← client_ack h ct c source ack;
  Ok (h, ct, d <| chd_clients ::= <[ra_ClientId ack := c]> |>, actions, l).

Definition clientHashDisseminator_replyFetchRequest (h : reqHeap) (d : clientHashDisseminator) (source clientID reqNo : Z)
    (digest : slice) : outcome ActionList :=
  match clientHashDisseminator_client d clientID with
  | None => Ok []
  | Some c =>
    if negb (client_inWatermarks c reqNo) then Ok []
    else
      l ← client_reqNo c reqNo;
      creq ← loadReqNo h l;
      match crn_requests creq !! str digest with
      | None => Ok []
      | Some dl =>
        data ← loadRequest h dl;
        if bool_decide (ip_Id (chd_myConfig d) ∈ cr_agreements data)
        then Ok (ActionList_ForwardRequest [] [source] (mkAck clientID reqNo digest))
        else Ok []
      end
  end.

Definition clientHashDisseminator_applyMsg (h : reqHeap) (ct : clientTracker) (d : clientHashDisseminator) (source : Z) (msg : Msg)
    : outcome (reqHeap * clientTracker * clientHashDisseminator * ActionList) :=
  match msg with
  | Msg_RequestAck ack =>
    '(h, ct, d, actions, _) ← clientHashDisseminator_ack h ct d source ack;
    Ok (h, ct, d, actions)
  | Msg_FetchRequest m =>
    actions ← clientHashDisseminator_replyFetchRequest h d source (ra_ClientId m) (ra_ReqNo m) (ra_Digest m);
    Ok (h, ct, d, actions)
  | _ => Panic "unexpected bad client window message type, this indicates a bug"
  end.

Definition clientHashDisseminator_step (h : reqHeap) (ct : clientTracker) (d : clientHashDisseminator) (source : Z) (msg : Msg)
    : outcome (reqHeap * clientTracker * clientHashDisseminator * ActionList) :=
  v ← clientHashDisseminator_filter d source msg;
  match v with
  | past => Ok (h, ct, d, [])
  | future =>
    mb ← deref (chd_msgBuffers d !! source) "nil pointer dereference: msgBuffer";
    Ok (h, ct, d <| chd_msgBuffers ::= <[source := msgBuffer_store mb msg]> |>, [])
  | _ => clientHashDisseminator_applyMsg h ct d source msg
  end.

Definition clientHashDisseminator_applyNewRequest (h : reqHeap) (d : clientHashDisseminator) (ack : RequestAck)
    : outcome (reqHeap * ActionList) :=
  match chd_clients d !! ra_ClientId ack with
  | None => Ok (h, [])
  | Some c =>
    if negb (client_inWatermarks c (ra_ReqNo ack)) then Ok (h, [])
    else
      l ← client_reqNo c (ra_ReqNo ack);
      crn ← loadReqNo h l;
      '(h, crn, actions) ← clientReqNo_applyNewRequest h crn ack;
      Ok (storeReqNo h l crn, actions)
  end.

(** One node of the last loop of [allocate]; applying a message does not touch
    the buffers. *)
Definition drainClientMsgs (id : Z) (st : reqHeap * clientTracker * clientHashDisseminator * ActionList)
    : outcome (reqHeap * clientTracker * clientHashDisseminator * ActionList) :=
  let '(_, _, d, _) := st in
  mb ← deref (chd_msgBuffers d !! id) "nil pointer dereference: msgBuffer";
  '(mb, st) ← msgBuffer_iterate
      (fun (st : reqHeap * clientTracker * clientHashDisseminator * ActionList) source msg =>
         let '(_, _, d, _) := st in clientHashDisseminator_filter d source msg)
      (fun source msg (st : reqHeap * clientTracker * clientHashDisseminator * ActionList) =>
         let '(h, ct, d, actions) := st in
         '(h, ct, d, more) ← clientHashDisseminator_applyMsg h ct d source msg;
         Ok (h, ct, d, ActionList_concat actions more))
      mb st;
  let '(h, ct, d, actions) := st in
  Ok (h, ct, d <| chd_msgBuffers ::= <[id := mb]> |>, actions).

Definition clientHashDisseminator_allocate (h : reqHeap) (ct : clientTracker) (d : clientHashDisseminator) (seqNo : Z)
    (networkState : NetworkState) : outcome (reqHeap * clientTracker * clientHashDisseminator * ActionList) :=
  _ ← assertTrue (seqNo =? u64 (nc_CheckpointInterval (ns_Config networkState)) +! chd_allocatedThrough d)
        "unexpected skip in allocate, expected next allocation at next checkpoint";
  let d := d <| chd_allocatedThrough := seqNo |> in
  st ← forRange (fun client (st : reqHeap * clientTracker * clientHashDisseminator * ActionList) =>
      let '(h, ct, d, actions) := st in
      c ← deref (chd_clients d !! cl_Id client) "nil pointer dereference: client";
      '(h, ct, c, more) ← client_allocate h ct c seqNo client (0 <? length (ns_PendingReconfigurations networkState))%nat;
      Ok (h, ct, d <| chd_clients ::= <[cl_Id client := c]> |>, ActionList_concat actions more))
    (ns_Clients networkState) (h, ct, d, []);
  forRange drainClientMsgs (nc_Nodes (chd_networkConfig d)) st.

End Disseminator.

(** ** Specification: certificates *)

(** Pointers at or above [hp_next] are not allocated yet. *)
Definition heap_ok (h : reqHeap) : Prop := forall l, hp_next h <= l -> hp_requests h !! l = None /\ hp_reqNos h !! l = None.

(** What identifies a request: client, request number and digest. *)
Definition requestKey (cr : clientRequest) : Z * Z * bytes :=
  (ra_ClientId (cr_ack cr), ra_ReqNo (cr_ack cr), str (ra_Digest (cr_ack cr))).

(** The bookkeeping of one request: it is weak, strong and mine exactly when
    its agreements reach the quorums and when it is stored. *)
Record certified (crn : clientReqNo) (dg : bytes) (l : loc) (cr : clientRequest) : Prop := {
  ce_key : requestKey cr = (crn_clientID crn, crn_reqNo crn, dg);
  ce_weak : crn_weakRequests crn !! dg = Some l <-> someCorrectQuorum (crn_networkConfig crn) <= agreementCount cr;
  ce_strong : crn_strongRequests crn !! dg = Some l <-> intersectionQuorum (crn_networkConfig crn) <= agreementCount cr;
  ce_mine : crn_myRequests crn !! dg = Some l <-> cr_stored cr = true;
}.

Record crn_wf (h : reqHeap) (crn : clientReqNo) : Prop := {
  cw_request : forall dg l, crn_requests crn !! dg = Some l -> exists cr, hp_requests h !! l = Some cr /\ certified crn dg l cr;
  cw_weak : crn_weakRequests crn ⊆ crn_requests crn;
  cw_strong : crn_strongRequests crn ⊆ crn_requests crn;
  cw_mine : crn_myRequests crn ⊆ crn_requests crn;
  cw_faults : 0 <= nc_F (crn_networkConfig crn) <= Z.of_nat (length (nc_Nodes (crn_networkConfig crn)));
}.

(** The part of a request number that its methods do not change. *)
Definition crnId (crn : clientReqNo) : EventInitialParameters * NetworkState_Config * Z * Z * Z :=
  (crn_myConfig crn, crn_networkConfig crn, crn_clientID crn, crn_reqNo crn, crn_validAfterSeqNo crn).

(** A method changes only the requests of its own number, and allocates. *)
Record touched (h h' : reqHeap) (crn crn' : clientReqNo) : Prop := {
  to_next : hp_next h <= hp_next h';
  to_reqNos : hp_reqNos h' = hp_reqNos h;
  to_frame : forall l, l < hp_next h -> (forall dg, crn_requests crn !! dg <> Some l) -> hp_requests h' !! l = hp_requests h !! l;
  to_new : forall dg l, crn_requests crn' !! dg = Some l -> crn_requests crn !! dg = Some l \/ hp_next h <= l;
  to_id : crnId crn' = crnId crn;
}.

Definition good (h : reqHeap) (crn : clientReqNo) : Prop := heap_ok h /\ crn_wf h crn.

Definition stepOk (h h' : reqHeap) (crn crn' : clientReqNo) : Prop := touched h h' crn crn' /\ good h' crn'.

(** [m'] is [m] with [dg] mapped to [l] exactly when [P] holds. *)
Definition reflects (m m' : gmap bytes loc) (dg : bytes) (l : loc) (P : Prop) : Prop :=
  (forall k, k <> dg -> m' !! k = m !! k) /\ (m' !! dg = Some l <-> P) /\ (m' !! dg = None \/ m' !! dg = Some l).

(** An acknowledgement that belongs to a request number. *)
Definition ackOf (crn : clientReqNo) (ack : RequestAck) : Prop :=
  ra_ClientId ack = crn_clientID crn /\ ra_ReqNo ack = crn_reqNo crn.

(** ** Lemmas: one request number *)

Lemma touched_refl (h : reqHeap) (crn : clientReqNo) : touched h h crn crn.
Proof. split; auto; lia. Qed.

Lemma touched_trans (h1 h2 h3 : reqHeap) (c1 c2 c3 : clientReqNo) :
  touched h1 h2 c1 c2 -> touched h2 h3 c2 c3 -> touched h1 h3 c1 c3.
Proof.
  intros [] []. split; [lia | congruence | | | congruence].
  - intros l Hl Hn. rewrite to_frame1; [by apply to_frame0 | lia |]. intros dg Hdg. destruct (to_new0 _ _ Hdg) as [H | H]; [by eapply Hn | lia].
  - intros dg l Hdg. destruct (to_new1 _ _ Hdg) as [H | H]; [| right; lia]. by apply to_new0.
Qed.

Lemma allocated (h : reqHeap) (l : loc) (cr : clientRequest) : heap_ok h -> hp_requests h !! l = Some cr -> l < hp_next h.
Proof. intros Hok H. destruct (Z.lt_ge_cases l (hp_next h)) as [| Hge]; [done |]. destruct (Hok l Hge). congruence. Qed.

Lemma quorums_positive (nc : NetworkState_Config) :
  0 <= nc_F nc <= Z.of_nat (length (nc_Nodes nc)) -> 0 < someCorrectQuorum nc <= intersectionQuorum nc.
Proof.
  intros HF. unfold someCorrectQuorum, intersectionQuorum. split; [lia |].
  rewrite Z.quot_div_nonneg by lia. apply Z.div_le_lower_bound; lia.
Qed.

Lemma reflects_same (m : gmap bytes loc) (dg : bytes) (l : loc) (P : Prop) :
  (m !! dg = None \/ m !! dg = Some l) -> (m !! dg = Some l <-> P) -> reflects m m dg l P.
Proof. intros H1 H2. by split; [| split]. Qed.

Lemma reflects_insert (m : gmap bytes loc) (dg : bytes) (l : loc) (P : Prop) : P -> reflects m (<[dg := l]> m) dg l P.
Proof.
  intros HP. split; [intros k Hk; by rewrite lookup_insert_ne |]. rewrite lookup_insert_eq. by split; [| right].
Qed.

(** Changing a request together with its bookkeeping. *)
Lemma update_request (h : reqHeap) (crn crn' : clientReqNo) (dg : bytes) (l : loc) (cr cr' : clientRequest) :
  good h crn -> crn_requests crn !! dg = Some l -> hp_requests h !! l = Some cr -> cr_ack cr' = cr_ack cr ->
  crnId crn' = crnId crn -> crn_requests crn' = crn_requests crn ->
  reflects (crn_weakRequests crn) (crn_weakRequests crn') dg l (someCorrectQuorum (crn_networkConfig crn) <= agreementCount cr') ->
  reflects (crn_strongRequests crn) (crn_strongRequests crn') dg l (intersectionQuorum (crn_networkConfig crn) <= agreementCount cr') ->
  reflects (crn_myRequests crn) (crn_myRequests crn') dg l (cr_stored cr' = true) ->
  stepOk h (storeRequest h l cr') crn crn'.
Proof.
  intros [Hok Hwf] Hl Hcr Hack Hid Hreq (Hw1 & Hw2 & Hw3) (Hs1 & Hs2 & Hs3) (Hm1 & Hm2 & Hm3).
  pose proof (allocated _ _ _ Hok Hcr) as Hlt. pose proof Hid as [= H1 H2 H3 H4 H5].
  assert (Hsub : forall m m' : gmap bytes loc, m ⊆ crn_requests crn -> (forall k, k <> dg -> m' !! k = m !! k) ->
    (m' !! dg = None \/ m' !! dg = Some l) -> m' ⊆ crn_requests crn).
  { intros m m' Hm Hk Hd. apply map_subseteq_spec. intros k x Hx. destruct (decide (k = dg)) as [-> | Hne]; [| rewrite Hk in Hx by done; by eapply lookup_weaken].
    destruct Hd as [Hd | Hd]; rewrite Hd in Hx; [done | by injection Hx as <-]. }
  split; split; cbn; [lia | done | | | done | |].
  - intros l' _ Hn. rewrite lookup_insert_ne; [done |]. intros <-. by eapply Hn.
  - rewrite Hreq. auto.
  - intros l' Hge. cbn in Hge |- *. rewrite lookup_insert_ne by lia. by apply Hok.
  - destruct Hwf as [Hr Hw Hs Hm HF]. split; rewrite ?Hreq; [| exact (Hsub _ _ Hw Hw1 Hw3) | exact (Hsub _ _ Hs Hs1 Hs3) | exact (Hsub _ _ Hm Hm1 Hm3) | by rewrite H2].
    intros k l' Hk. cbn. destruct (Hr k l' Hk) as (cr1 & Hcr1 & Hce). destruct (decide (k = dg)) as [-> | Hne].
    + simplify_eq. rewrite lookup_insert_eq. eexists. split; [done |]. destruct Hce as [Hkey _ _ _].
      split; rewrite ?H2; [| done | done | done]. unfold requestKey in *. rewrite Hack, H3, H4. done.
    + assert (l' <> l) as Hll. { intros ->. destruct (Hr dg l Hl) as (cr2 & Hcr2 & []). destruct Hce. simplify_eq. congruence. }
      rewrite lookup_insert_ne by done. eexists. split; [done |]. destruct Hce.
      split; rewrite ?H2, ?H3, ?H4, ?Hw1, ?Hs1, ?Hm1 by done; done.
Qed.

Lemma digestKey_str (b : slice) : (if (slen b =? 0)%nat then [] else str b) = str b.
Proof. unfold slen. by destruct (str b). Qed.

(** The entries of the three certificate maps of a digest are its request. *)
Lemma certificate_cases (h : reqHeap) (crn : clientReqNo) (dg : bytes) (l : loc) :
  crn_wf h crn -> crn_requests crn !! dg = Some l ->
  (crn_weakRequests crn !! dg = None \/ crn_weakRequests crn !! dg = Some l)
  /\ (crn_strongRequests crn !! dg = None \/ crn_strongRequests crn !! dg = Some l)
  /\ (crn_myRequests crn !! dg = None \/ crn_myRequests crn !! dg = Some l).
Proof.
  intros [_ Hw Hs Hm _] Hl.
  assert (Hc : forall m : gmap bytes loc, m ⊆ crn_requests crn -> m !! dg = None \/ m !! dg = Some l).
  { intros m Hsub. destruct (m !! dg) as [l' |] eqn:Hd; [right | by left]. rewrite <- Hl, <- Hd. rewrite Hd. symmetry. by eapply lookup_weaken. }
  auto.
Qed.

Lemma clientReq_spec (h h' : reqHeap) (crn crn' : clientReqNo) (ack : RequestAck) (l : loc) :
  good h crn -> ackOf crn ack -> clientReqNo_clientReq h crn ack = (h', crn', l) ->
  stepOk h h' crn crn' /\ crn_requests crn' !! str (ra_Digest ack) = Some l
  /\ crn' = crn <| crn_requests := crn_requests crn' |>
  /\ exists cr, hp_requests h' !! l = Some cr /\ certified crn' (str (ra_Digest ack)) l cr.
Proof.
  intros [Hok Hwf] [Hc Hr] H. unfold clientReqNo_clientReq in H. rewrite digestKey_str in H.
  set (dg := str (ra_Digest ack)) in *. destruct (crn_requests crn !! dg) as [l0 |] eqn:Hd.
  - injection H as <- <- <-. split; [by split; [apply touched_refl |] |]. split; [done |]. split; [by destruct crn |].
    by apply (cw_request _ _ Hwf).
  - cbn in H. injection H as <- <- <-. destruct Hwf as [Hreq Hw Hs Hm HF].
    pose proof (quorums_positive _ HF) as Hq. pose proof (Hok (hp_next h) (Z.le_refl _)) as [Hn _].
    assert (Hnone : forall m : gmap bytes loc, m ⊆ crn_requests crn -> m !! dg = None)
      by (intros m Hsub; by eapply lookup_weaken_None).
    assert (Hce : certified (crn <| crn_requests ::= <[dg := hp_next h]> |>) dg (hp_next h) (mkClientRequest ack ∅ false false 0 0)).
    { split; cbn; rewrite ?Hnone by done.
      - unfold requestKey. cbn. by rewrite Hc, Hr.
      - unfold agreementCount. cbn. rewrite size_empty. split; [done | lia].
      - unfold agreementCount. cbn. rewrite size_empty. split; [done | lia].
      - done. }
    split; [split; split; cbn |].
    + lia.
    + done.
    + intros l' Hl' _. rewrite lookup_insert_ne by lia. done.
    + intros k l'. rewrite lookup_insert. case_decide; [intros [= <-]; right; lia | auto].
    + done.
    + intros l' Hge. cbn in Hge |- *. rewrite lookup_insert_ne by lia. apply Hok. lia.
    + split; cbn; [| by apply insert_subseteq_r; [apply Hnone | done] .. | done].
      intros k l'. rewrite lookup_insert. case_decide as Hk; [subst k; intros [= <-]; rewrite lookup_insert_eq; eauto |].
      intros Hl'. destruct (Hreq k l' Hl') as (cr & Hcr & Hce'). exists cr. rewrite lookup_insert_ne; [split; [done | by destruct Hce'; split] |].
      intros <-. congruence.
    + cbn. rewrite lookup_insert_eq. split; [done |]. split; [done |]. eexists. split; [apply lookup_insert_eq | exact Hce].
Qed.

Lemma crnId_requests (crn : clientReqNo) (m : gmap bytes loc) : crnId (crn <| crn_requests := m |>) = crnId crn.
Proof. done. Qed.

Lemma stepOk_refl (h : reqHeap) (crn : clientReqNo) : good h crn -> stepOk h h crn crn.
Proof. intros H. by split; [apply touched_refl |]. Qed.

Lemma stepOk_trans (h1 h2 h3 : reqHeap) (c1 c2 c3 : clientReqNo) : stepOk h1 h2 c1 c2 -> stepOk h2 h3 c2 c3 -> stepOk h1 h3 c1 c3.
Proof. intros [H1 _] [H2 H3]. by split; [eapply touched_trans |]. Qed.

(** Changes that the bookkeeping does not mention. *)
Lemma stepOk_crn (h h' : reqHeap) (crn c1 c2 : clientReqNo) :
  crnId c2 = crnId c1 -> crn_requests c2 = crn_requests c1 -> crn_weakRequests c2 = crn_weakRequests c1 ->
  crn_strongRequests c2 = crn_strongRequests c1 -> crn_myRequests c2 = crn_myRequests c1 ->
  stepOk h h' crn c1 -> stepOk h h' crn c2.
Proof.
  intros Hid H1 H2 H3 H4 [[] [Hok []]]. pose proof Hid as [= E1 E2 E3 E4 E5].
  split; [split; rewrite ?H1; congruence || done |]. split; [done |].
  split; rewrite ?H1, ?H2, ?H3, ?H4, ?E2; [| done | done | done | done].
  intros dg l Hl. destruct (cw_request0 dg l Hl) as (cr & Hcr & []). exists cr. split; [done |].
  split; rewrite ?H2, ?H3, ?H4, ?E2, ?E3, ?E4; done.
Qed.

Lemma storeMine_spec (h : reqHeap) (crn : clientReqNo) (ack : RequestAck) :
  good h crn -> ackOf crn ack ->
  exists h' crn', storeMine h crn ack (str (ra_Digest ack)) = Ok (h', crn') /\ stepOk h h' crn crn'
    /\ is_Some (crn_myRequests crn' !! str (ra_Digest ack)) /\ crn_myRequests crn ⊆ crn_myRequests crn'.
Proof.
  intros Hg Ha. unfold storeMine. destruct (clientReqNo_clientReq h crn ack) as [[h1 c1] l] eqn:Hreq.
  destruct (clientReq_spec _ _ _ _ _ _ Hg Ha Hreq) as (Hst & Hl & Hc1 & cr & Hcr & Hce). unfold loadRequest. rewrite Hcr. cbn.
  do 2 eexists. split; [done |]. pose proof Hst as [_ Hg1]. pose proof Hg1 as [_ Hwf1].
  destruct (certificate_cases _ _ _ _ Hwf1 Hl) as (Hw & Hs & Hm). destruct Hce as [Hk Hcw Hcs Hcm]. cbn. split; [| split].
  - eapply stepOk_trans; [exact Hst |]. eapply update_request; [exact Hg1 | exact Hl | exact Hcr | done | done | done | | |]; cbn.
    + by apply reflects_same.
    + by apply reflects_same.
    + by apply reflects_insert.
  - rewrite lookup_insert_eq. by eexists.
  - rewrite Hc1. cbn. destruct (crn_myRequests crn !! str (ra_Digest ack)) as [l' |] eqn:Hd; [| by apply insert_subseteq].
    rewrite insert_id; [done |]. rewrite Hc1 in Hm. cbn in Hm. rewrite Hd in Hm. destruct Hm as [Hm | Hm]; [done |].
    by rewrite Hd.
Qed.

Lemma stepOk_ackOf (h h' : reqHeap) (crn crn' : clientReqNo) (ack : RequestAck) : stepOk h h' crn crn' -> ackOf crn ack -> ackOf crn' ack.
Proof. intros [[_ _ _ _ [= _ _ H1 H2 _]] _]. unfold ackOf. by rewrite H1, H2. Qed.

Lemma promoteNull_spec (h : reqHeap) (crn : clientReqNo) :
  good h crn -> exists h' crn', promoteNull h crn = Ok (h', crn', mkAck (crn_clientID crn) (crn_reqNo crn) None)
    /\ stepOk h h' crn crn' /\ is_Some (crn_myRequests crn' !! []) /\ crn_acksSent crn' = 1 /\ crn_ticksSinceAck crn' = 0.
Proof.
  intros Hg. unfold promoteNull.
  destruct (storeMine_spec h crn (mkAck (crn_clientID crn) (crn_reqNo crn) None) Hg) as (h1 & c1 & H1 & Hst & Hm & _); [done |].
  change (str (ra_Digest (mkAck (crn_clientID crn) (crn_reqNo crn) None))) with (@nil Z) in H1, Hm.
  rewrite H1. cbn. do 2 eexists. split; [done |]. split; [| done].
  eapply stepOk_crn; [.. | exact Hst]; done.
Qed.

Lemma applyNewRequest_spec (h : reqHeap) (crn : clientReqNo) (ack : RequestAck) :
  good h crn -> ackOf crn ack ->
  exists h' crn' acts, clientReqNo_applyNewRequest h crn ack = Ok (h', crn', acts) /\ stepOk h h' crn crn'.
Proof.
  intros Hg Ha. unfold clientReqNo_applyNewRequest. case_match; [do 3 eexists; split; [done | by apply stepOk_refl] |].
  destruct (storeMine_spec h crn ack Hg Ha) as (h1 & c1 & -> & Hst & _). cbn [mbind outcome_bind].
  case_match; [do 3 eexists; split; [done |]; by eapply stepOk_crn; [.. | exact Hst] |].
  case_match; [| do 3 eexists; split; [done | exact Hst]].
  destruct (promoteNull_spec h1 c1) as (h2 & c2 & -> & Hst2 & _); [apply Hst |]. cbn. do 3 eexists. split; [done |].
  by eapply stepOk_trans.
Qed.

Lemma agreement_grows (cr : clientRequest) (source : Z) :
  agreementCount cr <= agreementCount (cr <| cr_agreements ::= fun s => {[source]} ∪ s |>) <= agreementCount cr + 1.
Proof.
  unfold agreementCount. cbn. destruct (decide (source ∈ cr_agreements cr)) as [Hin | Hin].
  - rewrite subseteq_union_1_L by set_solver. lia.
  - rewrite size_union by set_solver. rewrite size_singleton. lia.
Qed.

Lemma applyRequestAck_spec (h : reqHeap) (crn : clientReqNo) (source : Z) (ack : RequestAck) (force : bool) :
  good h crn -> ackOf crn ack -> exists h' crn', clientReqNo_applyRequestAck h crn source ack force = Ok (h', crn') /\ stepOk h h' crn crn'.
Proof.
  intros Hg Ha. unfold clientReqNo_applyRequestAck. case_match; [do 2 eexists; split; [done | by apply stepOk_refl] |].
  set (c0 := if negb (slen (ra_Digest ack) =? 0)%nat then _ else crn).
  assert (Hst0 : stepOk h h crn c0).
  { unfold c0. case_match; [| by apply stepOk_refl]. eapply stepOk_crn; [.. | by apply stepOk_refl]; done. }
  destruct (clientReqNo_clientReq h c0 ack) as [[h1 c1] l] eqn:Hreq.
  destruct (clientReq_spec h h1 c0 c1 ack l) as (Hst1 & Hl & Hc1 & cr & Hcr & Hce); [apply Hst0 | by eapply stepOk_ackOf | done |].
  unfold loadRequest. rewrite Hcr. cbn [mbind outcome_bind deref]. pose proof Hst1 as [_ Hg1]. pose proof Hg1 as [_ Hwf1].
  destruct (certificate_cases _ _ _ _ Hwf1 Hl) as (Hw & Hs & Hm). destruct Hce as [Hk Hcw Hcs Hcm].
  set (cr' := cr <| cr_agreements ::= _ |>). pose proof (agreement_grows cr source) as Hgrow. fold cr' in Hgrow.
  assert (Hs' : stepOk h h1 crn c1) by (eapply stepOk_trans; done).
  assert (Hup : forall c2, crnId c2 = crnId c1 -> crn_requests c2 = crn_requests c1 -> crn_myRequests c2 = crn_myRequests c1 ->
    reflects (crn_weakRequests c1) (crn_weakRequests c2) (str (ra_Digest ack)) l (someCorrectQuorum (crn_networkConfig c1) <= agreementCount cr') ->
    reflects (crn_strongRequests c1) (crn_strongRequests c2) (str (ra_Digest ack)) l (intersectionQuorum (crn_networkConfig c1) <= agreementCount cr') ->
    stepOk h (storeRequest h1 l cr') crn c2).
  { intros c2 Hid Hr2 Hm2 Hw2 Hs2. eapply stepOk_trans; [exact Hs' |].
    eapply update_request; [exact Hg1 | exact Hl | exact Hcr | done | done | done | exact Hw2 | exact Hs2 |].
    rewrite Hm2. by apply reflects_same. }
  pose proof (quorums_positive _ (cw_faults _ _ Hwf1)) as Hqp.
  destruct (Z.ltb_spec (agreementCount cr') (someCorrectQuorum (crn_networkConfig c1))) as [Hlt | Hge].
  { do 2 eexists. split; [done |]. apply Hup; [done | done | done | |].
    - apply reflects_same; [done |]. rewrite Hcw. lia.
    - apply reflects_same; [done |]. rewrite Hcs. lia. }
  set (c2 := c1 <| crn_weakRequests ::= _ |>). change (crn_networkConfig c2) with (crn_networkConfig c1).
  destruct (Z.ltb_spec (agreementCount cr') (intersectionQuorum (crn_networkConfig c1))) as [Hlt2 | Hge2]; do 2 eexists;
    (split; [done |]); apply Hup; cbn; try done; try by apply reflects_insert.
  apply reflects_same; [done |]. rewrite Hcs. lia.
Qed.

(** The requests of a number can be read and belong to it. *)
Definition readable (h : reqHeap) (crn : clientReqNo) : Prop :=
  forall dg l, crn_requests crn !! dg = Some l -> exists cr, hp_requests h !! l = Some cr /\ requestKey cr = (crn_clientID crn, crn_reqNo crn, dg).

Definition config_ok (nc : NetworkState_Config) : Prop := 0 <= nc_F nc <= Z.of_nat (length (nc_Nodes nc)).

(** [crn_networkConfig := nc] and no requests. *)
Definition cleared (crn : clientReqNo) (nc : NetworkState_Config) : clientReqNo :=
  crn <| crn_networkConfig := nc |> <| crn_nonNullVoters := ∅ |> <| crn_requests := ∅ |>
      <| crn_weakRequests := ∅ |> <| crn_strongRequests := ∅ |> <| crn_myRequests := ∅ |>.

Lemma cleared_good (h : reqHeap) (crn : clientReqNo) (nc : NetworkState_Config) : heap_ok h -> config_ok nc -> good h (cleared crn nc).
Proof. intros Hok Hnc. split; [done |]. by split. Qed.

Section Lemmas.

Context `{Range : MapRange} `{Size : ProtoSize}.

Lemma elem_of_mapRange (m : gmap bytes loc) (dg : bytes) (l : loc) : (dg, l) ∈ mapRange m <-> m !! dg = Some l.
Proof. rewrite mapRange_perm. apply elem_of_map_to_list. Qed.

Lemma reinitialize_spec (h : reqHeap) (crn : clientReqNo) (nc : NetworkState_Config) :
  heap_ok h -> readable h crn -> config_ok nc ->
  exists h' crn', clientReqNo_reinitialize h crn nc = Ok (h', crn') /\ stepOk h h' (cleared crn nc) crn'.
Proof.
  intros Hok Hrd Hnc. unfold clientReqNo_reinitialize. fold (cleared crn nc).
  destruct (forRange_ok (fun st : reqHeap * clientReqNo => stepOk h st.1 (cleared crn nc) st.2) (restoreRequest (nc_Nodes nc))
    (mapRange (crn_requests crn)) (h, cleared crn nc)) as ([h' c'] & H & Hst); [| by apply stepOk_refl, cleared_good | by do 2 eexists].
  intros [dg l] [h1 c1] Hin%elem_of_mapRange Hst1. cbn in Hst1. unfold restoreRequest. cbn [fst snd].
  destruct (Hrd dg l Hin) as (old & Hold & Hkey). pose proof (allocated _ _ _ Hok Hold) as Hlt.
  assert (Hold1 : hp_requests h1 !! l = Some old) by (rewrite (to_frame _ _ _ _ (proj1 Hst1)); [done | done | by intros dg' ?]).
  unfold loadRequest. rewrite Hold1. cbn [mbind outcome_bind deref].
  assert (Hack : forall c, crnId c = crnId (cleared crn nc) -> ackOf c (cr_ack old)).
  { intros c [= _ _ E1 E2 _]. unfold requestKey in Hkey. injection Hkey as E3 E4 _. split; congruence. }
  set (body := fun (id : Z) (st : reqHeap * clientReqNo) => _).
  destruct (forRange_ok (fun st : reqHeap * clientReqNo => stepOk h st.1 (cleared crn nc) st.2) body (nc_Nodes nc) (h1, c1))
    as ([h2 c2] & -> & Hst2); [| exact Hst1 |].
  - intros id [h2 c2] _ Hst2. unfold body. cbn [fst snd] in *. case_match; [| by eexists].
    destruct (applyRequestAck_spec h2 c2 id (cr_ack old) true) as (h3 & c3 & -> & Hst3); [apply Hst2 | apply Hack, Hst2 |].
    eexists. split; [done |]. by eapply stepOk_trans.
  - cbn [mbind outcome_bind fst snd] in *. case_match; [| by eexists].
    unfold requestKey in Hkey. injection Hkey as _ _ <-.
    destruct (storeMine_spec h2 c2 (cr_ack old)) as (h3 & c3 & -> & Hst3 & _); [apply Hst2 | apply Hack, Hst2 |].
    eexists. split; [done |]. by eapply stepOk_trans.
Qed.

(** Changing a request without its agreements or its storage. *)
Lemma change_request (h : reqHeap) (crn : clientReqNo) (dg : bytes) (l : loc) (cr cr' : clientRequest) :
  good h crn -> crn_requests crn !! dg = Some l -> hp_requests h !! l = Some cr ->
  cr_ack cr' = cr_ack cr -> cr_agreements cr' = cr_agreements cr -> cr_stored cr' = cr_stored cr ->
  stepOk h (storeRequest h l cr') crn crn.
Proof.
  intros Hg Hl Hcr H1 H2 H3. pose proof Hg as [_ Hwf]. destruct (cw_request _ _ Hwf _ _ Hl) as (cr1 & Hcr1 & []). simplify_eq.
  destruct (certificate_cases _ _ _ _ Hwf Hl) as (Hw & Hs & Hm). unfold agreementCount in *. rewrite <- H2 in ce_weak0, ce_strong0. rewrite <- H3 in ce_mine0.
  eapply update_request; try done; by apply reflects_same.
Qed.

Lemma fetchAt_spec (h : reqHeap) (crn : clientReqNo) (dg : bytes) (l : loc) :
  good h crn -> crn_requests crn !! dg = Some l -> exists h' acts, fetchAt h l = Ok (h', acts) /\ stepOk h h' crn crn.
Proof.
  intros Hg Hl. pose proof Hg as [_ Hwf]. destruct (cw_request _ _ Hwf _ _ Hl) as (cr & Hcr & _).
  unfold fetchAt, loadRequest. rewrite Hcr. cbn [mbind outcome_bind deref]. destruct (clientRequest_fetch cr) as [cr' acts] eqn:Hf.
  do 2 eexists. split; [done |]. unfold clientRequest_fetch in Hf. case_match; injection Hf as <- _; by eapply change_request.
Qed.

Lemma weak_known (h : reqHeap) (crn : clientReqNo) (dg : bytes) (l : loc) :
  good h crn -> (dg, l) ∈ mapRange (crn_weakRequests crn) -> crn_requests crn !! dg = Some l.
Proof. intros [_ [_ Hw _ _ _]] H%elem_of_mapRange. by eapply lookup_weaken. Qed.

Lemma tickFetchCorrect_spec (h : reqHeap) (crn : clientReqNo) :
  good h crn -> exists h' acts, tickFetchCorrect h crn = Ok (h', acts) /\ stepOk h h' crn crn.
Proof.
  intros Hg. unfold tickFetchCorrect. case_match; [do 2 eexists; split; [done | by apply stepOk_refl] |].
  destruct (mapRange _) as [|[dg l] rest] eqn:Hr; [do 2 eexists; split; [done | by apply stepOk_refl] |].
  assert (Hl : crn_requests crn !! dg = Some l) by (eapply weak_known; [exact Hg | rewrite Hr; by left]).
  pose proof Hg as [_ Hwf]. destruct (cw_request _ _ Hwf _ _ Hl) as (cr & Hcr & _).
  unfold loadRequest. rewrite Hcr. cbn [mbind outcome_bind deref].
  case_match; [do 2 eexists; split; [done | by apply stepOk_refl] |].
  case_match; [do 2 eexists; split; [done |]; by eapply change_request | by eapply fetchAt_spec].
Qed.

(** What the fetching steps of [tick] maintain: the pointers are requests of
    this number. *)
Definition ownRequests (crn : clientReqNo) (ls : list (bytes * loc)) : Prop :=
  Forall (fun x => exists dg, crn_requests crn !! dg = Some x.2) ls.

Lemma tickFetching_spec (h : reqHeap) (crn : clientReqNo) :
  good h crn -> exists h' toFetch, forRange tickFetching (mapRange (crn_weakRequests crn)) (h, []) = Ok (h', toFetch)
    /\ stepOk h h' crn crn /\ ownRequests crn toFetch.
Proof.
  intros Hg.
  destruct (forRange_ok (fun st : reqHeap * list (bytes * loc) => stepOk h st.1 crn crn /\ ownRequests crn st.2) tickFetching
    (mapRange (crn_weakRequests crn)) (h, [])) as ([h' ls] & H & Hst & Hown);
    [| by split; [apply stepOk_refl | constructor] | do 2 eexists; split; [exact H | by split]].
  intros [dg l] [h1 ls1] Hin [Hst1 Hown1]. cbn [fst snd] in *. pose proof (weak_known _ _ _ _ Hg Hin) as Hl.
  pose proof Hst1 as [_ Hg1]. destruct (cw_request _ _ (proj2 Hg1) _ _ Hl) as (cr & Hcr & _).
  unfold tickFetching, loadRequest. cbn [fst snd]. rewrite Hcr. cbn [mbind outcome_bind deref].
  case_match; [by eexists |]. case_match; eexists; (split; [done |]); cbn [fst snd]; split; try done;
    try (eapply stepOk_trans; [exact Hst1 | by eapply change_request]).
  apply Forall_app. split; [done |]. constructor; [by exists dg | constructor].
Qed.

Lemma fetchAll_spec (h : reqHeap) (crn : clientReqNo) (ls : list (bytes * loc)) (acts : ActionList) :
  good h crn -> ownRequests crn ls -> exists h' acts',
    forRange (fun (x : bytes * loc) (st : reqHeap * ActionList) =>
      '(h, more) ← fetchAt st.1 x.2; Ok (h, ActionList_concat st.2 more)) ls (h, acts) = Ok (h', acts')
    /\ stepOk h h' crn crn.
Proof.
  intros Hg Hown. set (body := fun (x : bytes * loc) (st : reqHeap * ActionList) => _).
  destruct (forRange_ok (fun st : reqHeap * ActionList => stepOk h st.1 crn crn) body ls (h, acts)) as ([h' acts'] & H & Hst);
    [| by apply stepOk_refl | by do 2 eexists].
  intros x [h1 a1] Hin Hst1. cbn [fst] in Hst1. destruct (proj1 (Forall_forall _ _) Hown x Hin) as [dg Hl]. unfold body. cbn [fst snd].
  destruct (fetchAt_spec h1 crn dg x.2) as (h2 & a2 & -> & Hst2); [apply Hst1 | done |]. cbn. eexists. split; [done |].
  by eapply stepOk_trans.
Qed.

Lemma tickResend_cases (h : reqHeap) (crn crn' : clientReqNo) (acts : ActionList) :
  tickResend h crn = Ok (crn', acts) -> good h crn -> stepOk h h crn crn'.
Proof.
  unfold tickResend. intros H Hg. case_match; [injection H as <- _; by apply stepOk_refl |].
  case_match; [injection H as <- _; eapply stepOk_crn; [.. | by apply stepOk_refl]; done |].
  apply bind_Ok in H as (l & _ & H). apply bind_Ok in H as (cr & _ & H). injection H as <- _.
  eapply stepOk_crn; [.. | by apply stepOk_refl]; done.
Qed.

Lemma tick_spec (h h' : reqHeap) (crn crn' : clientReqNo) (acts : ActionList) :
  clientReqNo_tick h crn = Ok (h', crn', acts) -> good h crn -> stepOk h h' crn crn'.
Proof.
  unfold clientReqNo_tick. intros H Hg. case_match; [injection H as <- <- _; by apply stepOk_refl |].
  apply bind_Ok in H as ([[h1 c1] a1] & H1 & H).
  assert (Hst1 : stepOk h h1 crn c1).
  { case_match; [| injection H1 as <- <- _; by apply stepOk_refl].
    destruct (promoteNull_spec h crn Hg) as (hn & cn & Hp & Hst & _). rewrite Hp in H1. injection H1 as <- <- _. exact Hst. }
  destruct (tickFetchCorrect_spec h1 c1) as (h2 & a2 & H2 & Hst2); [apply Hst1 |]. rewrite H2 in H. cbn [mbind outcome_bind] in H.
  destruct (tickFetching_spec h2 c1) as (h3 & ls & H3 & Hst3 & Hown); [apply Hst2 |]. rewrite H3 in H. cbn [mbind outcome_bind] in H.
  destruct (fetchAll_spec h3 c1 (merge_sort fetchOrder ls) (ActionList_concat a1 a2)) as (h4 & a4 & H4 & Hst4);
    [apply Hst3 | unfold ownRequests; by rewrite merge_sort_Permutation |]. rewrite H4 in H. cbn [mbind outcome_bind] in H.
  apply bind_Ok in H as ([c5 a5] & H5 & H). injection H as <- <- _.
  eapply stepOk_trans; [exact Hst1 |]. eapply stepOk_trans; [exact Hst2 |]. eapply stepOk_trans; [exact Hst3 |].
  eapply stepOk_trans; [exact Hst4 |]. eapply tickResend_cases; [exact H5 | apply Hst4].
Qed.

(** ** Specification: clients *)

(** The request number a pointer refers to. *)
Definition reqNoAt (h : reqHeap) (id : Z) (nc : NetworkState_Config) (r : Z) (l : loc) : Prop :=
  exists crn, hp_reqNos h !! l = Some crn /\ crn_clientID crn = id /\ crn_reqNo crn = r /\ crn_networkConfig crn = nc /\ crn_wf h crn.

(** A client's window: one request number for each of [low .. high], in order. *)
Record client_wf (h : reqHeap) (id : Z) (nc : NetworkState_Config) (c : client) : Prop := {
  cl_config : c_networkConfig c = nc;
  cl_range : 0 <= cl_LowWatermark (c_clientState c) <= c_highWatermark c /\ c_highWatermark c < 2 ^ 64 - 1;
  cl_ready : cl_LowWatermark (c_clientState c) <= c_nextReadyMark c <= c_highWatermark c + 1;
  cl_list : Forall2 (fun r l => c_reqNoMap c !! r = Some l)
    (seqZ (cl_LowWatermark (c_clientState c)) (c_highWatermark c - cl_LowWatermark (c_clientState c) + 1)) (c_reqNoList c);
  cl_window : forall r l, c_reqNoMap c !! r = Some l ->
    cl_LowWatermark (c_clientState c) <= r <= c_highWatermark c /\ reqNoAt h id nc r l;
}.

Definition clients_wf (h : reqHeap) (nc : NetworkState_Config) (m : gmap Z client) : Prop :=
  forall id c, m !! id = Some c -> client_wf h id nc c.

Definition disseminator_wf (h : reqHeap) (d : clientHashDisseminator) : Prop :=
  heap_ok h /\ clients_wf h (chd_networkConfig d) (chd_clients d).

(** ** Lemmas: frames *)

(** The objects of other request numbers are kept. *)
Record framed (h h' : reqHeap) (id r : Z) : Prop := {
  fr_next : hp_next h <= hp_next h';
  fr_reqNos : forall l crn, hp_reqNos h !! l = Some crn -> (crn_clientID crn, crn_reqNo crn) <> (id, r) -> hp_reqNos h' !! l = Some crn;
  fr_requests : forall l cr, hp_requests h !! l = Some cr -> (requestKey cr).1 <> (id, r) -> hp_requests h' !! l = Some cr;
}.

Lemma crn_wf_framed (h h' : reqHeap) (id r : Z) (crn : clientReqNo) :
  framed h h' id r -> (crn_clientID crn, crn_reqNo crn) <> (id, r) -> crn_wf h crn -> crn_wf h' crn.
Proof.
  intros [_ _ Hf] Hne []. split; try done. intros dg l Hl. destruct (cw_request0 dg l Hl) as (cr & Hcr & Hce).
  exists cr. split; [| done]. apply Hf; [done |]. rewrite (ce_key _ _ _ _ Hce). done.
Qed.

Lemma reqNoAt_framed (h h' : reqHeap) (id r id' r' : Z) (nc : NetworkState_Config) (l : loc) :
  framed h h' id r -> (id', r') <> (id, r) -> reqNoAt h id' nc r' l -> reqNoAt h' id' nc r' l.
Proof.
  intros Hf Hne (crn & Hl & <- & <- & Hnc & Hwf). exists crn. split; [by apply (fr_reqNos _ _ _ _ Hf) |].
  do 3 (split; [done |]). by eapply crn_wf_framed.
Qed.

(** Writing back a request number after one of its methods. *)
Lemma store_back (h h' : reqHeap) (id r : Z) (l : loc) (crn0 crn crn' : clientReqNo) :
  heap_ok h -> hp_reqNos h !! l = Some crn0 -> crn_clientID crn0 = id -> crn_reqNo crn0 = r ->
  crn_clientID crn = id -> crn_reqNo crn = r -> readable h crn -> stepOk h h' crn crn' ->
  framed h (storeReqNo h' l crn') id r /\ heap_ok (storeReqNo h' l crn') /\ reqNoAt (storeReqNo h' l crn') id (crn_networkConfig crn') r l.
Proof.
  intros Hok0 Hl Hi0 Hr0 <- <- Hrd [[Hnext Hrn Hfr _ [= _ _ E3 E4 _]] [Hok Hwf]]. split; [| split].
  - split; cbn; [done | |].
    + intros l' crn1 Hl' Hne. rewrite Hrn, lookup_insert_ne; [done |]. intros <-. assert (crn1 = crn0) as -> by congruence. congruence.
    + intros l' cr Hcr Hne. rewrite Hfr; [done | |].
      * by eapply allocated.
      * intros dg Hdg. destruct (Hrd _ _ Hdg) as (cr' & Hcr' & Hk). assert (cr' = cr) as -> by congruence. injection Hk as E5 E6 _. congruence.
  - intros l' Hge. cbn in Hge |- *. destruct (Hok l' Hge) as [H1 H2]. split; [done |]. rewrite lookup_insert_ne; [done |].
    intros <-. rewrite Hrn, Hl in H2. done.
  - exists crn'. cbn. rewrite lookup_insert_eq. split; [done |]. split; [done |]. split; [done |]. split; [done |]. by destruct Hwf.
Qed.

Lemma client_wf_store (h h' : reqHeap) (nc : NetworkState_Config) (id id' r : Z) (c : client) :
  client_wf h id' nc c -> framed h h' id r ->
  (forall l, id' = id -> c_reqNoMap c !! r = Some l -> reqNoAt h' id nc r l) -> client_wf h' id' nc c.
Proof.
  intros [] Hf Hr. split; try done. intros r' l Hl. destruct (cl_window0 r' l Hl) as [Hw Hat]. split; [done |].
  destruct (decide ((id', r') = (id, r))) as [[= -> ->] | Hne]; [by apply Hr |]. by eapply reqNoAt_framed.
Qed.

Lemma client_lookup (h : reqHeap) (id : Z) (nc : NetworkState_Config) (c : client) (r : Z) :
  client_wf h id nc c -> cl_LowWatermark (c_clientState c) <= r <= c_highWatermark c ->
  exists l crn, c_reqNoMap c !! r = Some l /\ hp_reqNos h !! l = Some crn /\ crn_clientID crn = id /\ crn_reqNo crn = r
    /\ crn_networkConfig crn = nc /\ crn_wf h crn.
Proof.
  intros Hwf Hr. pose proof (cl_list _ _ _ _ Hwf) as Hl.
  destruct (Forall2_lookup_l _ _ _ (Z.to_nat (r - cl_LowWatermark (c_clientState c))) r Hl) as (l & _ & Hm).
  { apply lookup_seqZ. lia. }
  destruct (cl_window _ _ _ _ Hwf r l Hm) as [_ (crn & H)]. exists l, crn. by split.
Qed.

Lemma crn_readable (h : reqHeap) (crn : clientReqNo) : crn_wf h crn -> readable h crn.
Proof. intros [] dg l Hl. destruct (cw_request0 dg l Hl) as (cr & Hcr & []). eauto. Qed.

(** *** Advancing the ready mark *)

(** A number that is passed: committed, or strong and stored. *)
Definition passes (h : reqHeap) (c : client) (i : Z) : Prop :=
  exists l crn, c_reqNoMap c !! i = Some l /\ hp_reqNos h !! l = Some crn /\ crn_committed crn || readyReqNo crn = true.

(** The numbers that become ready between two marks. *)
Definition newlyReady (h : reqHeap) (c : client) (from to : Z) : list loc :=
  omap (fun i => l ← c_reqNoMap c !! i; crn ← hp_reqNos h !! l; if crn_committed crn then None else Some l) (seqZ from (to - from)).

Lemma newlyReady_cons (h : reqHeap) (c : client) (i to : Z) (l : loc) (crn : clientReqNo) :
  i < to -> c_reqNoMap c !! i = Some l -> hp_reqNos h !! l = Some crn ->
  newlyReady h c i to = (if crn_committed crn then [] else [l]) ++ newlyReady h c (i + 1) to.
Proof.
  intros Hlt Hl Hcrn. unfold newlyReady. rewrite (seqZ_cons i) by lia. cbn [omap list_omap]. rewrite Hl. cbn. rewrite Hcrn. cbn.
  replace (Z.succ i) with (i + 1) by lia. replace (Z.pred (to - i)) with (to - (i + 1)) by lia. by destruct (crn_committed crn).
Qed.

Lemma advanceReadyLoop_spec (fuel : nat) (h : reqHeap) (id : Z) (nc : NetworkState_Config) (ct : clientTracker) (c : client) :
  client_wf h id nc c -> (Z.to_nat (c_highWatermark c - c_nextReadyMark c + 2) <= fuel)%nat ->
  exists to, c_nextReadyMark c <= to <= c_highWatermark c + 1
    /\ advanceReadyLoop fuel (c_nextReadyMark c) h ct c
       = Ok (foldl clientTracker_addReady ct (newlyReady h c (c_nextReadyMark c) to), c <| c_nextReadyMark := to |>)
    /\ (forall i, c_nextReadyMark c <= i < to -> passes h c i) /\ ~ passes h c to.
Proof.
  revert ct c. induction fuel as [|fuel IH]; intros ct c Hwf Hfuel; pose proof (cl_range _ _ _ _ Hwf) as Hrg;
    pose proof (cl_ready _ _ _ _ Hwf) as Hrd; [lia |].
  assert (Hself : c <| c_nextReadyMark := c_nextReadyMark c |> = c) by (by destruct c).
  assert (Hempty : newlyReady h c (c_nextReadyMark c) (c_nextReadyMark c) = []) by (unfold newlyReady; by rewrite Z.sub_diag).
  cbn [advanceReadyLoop]. destruct (Z.leb_spec (c_nextReadyMark c) (c_highWatermark c)) as [Hle | Hgt].
  2: { exists (c_nextReadyMark c). rewrite Hempty, Hself. split; [lia |]. split; [done |]. split; [lia |].
       intros (l & crn & Hl & _). apply (cl_window _ _ _ _ Hwf) in Hl as [? _]. lia. }
  rewrite Z.eqb_refl. cbn [negb].
  destruct (client_lookup h id nc c (c_nextReadyMark c) Hwf) as (l & crn & Hl & Hcrn & _); [lia |].
  unfold client_reqNo, loadReqNo. rewrite Hl. cbn [mbind outcome_bind deref]. rewrite Hcrn. cbn [mbind outcome_bind deref].
  rewrite (add64_small (c_nextReadyMark c)) by lia.
  assert (Hgo : forall ct1, crn_committed crn || readyReqNo crn = true -> exists to, c_nextReadyMark c <= to <= c_highWatermark c + 1
    /\ advanceReadyLoop fuel (c_nextReadyMark c + 1) h ct1 (c <| c_nextReadyMark := c_nextReadyMark c + 1 |>)
       = Ok (foldl clientTracker_addReady ct1 (newlyReady h c (c_nextReadyMark c + 1) to), c <| c_nextReadyMark := to |>)
    /\ c_nextReadyMark c < to
    /\ (forall i, c_nextReadyMark c <= i < to -> passes h c i) /\ ~ passes h c to).
  { intros ct1 Hp. set (c1 := c <| c_nextReadyMark := c_nextReadyMark c + 1 |>).
    destruct (IH ct1 c1) as (to & Hto & Hrun & Hall & Hno).
    - destruct Hwf. split; try done. cbn. lia.
    - cbn. lia.
    - exists to. cbn in Hto, Hrun, Hall. split; [lia |]. split; [exact Hrun |]. split; [lia |]. split; [| exact Hno].
      intros i Hi. destruct (decide (i = c_nextReadyMark c)) as [-> | Hne]; [exists l, crn; done |]. apply Hall. lia. }
  destruct (crn_committed crn) eqn:Hcom; [| destruct (readyReqNo crn) eqn:Hrdy].
  - destruct (Hgo ct eq_refl) as (to & Hto & Hrun & Hlt & Hall & Hno). exists to. rewrite (newlyReady_cons _ _ _ _ l crn), Hcom by done.
    by split.
  - destruct (Hgo (clientTracker_addReady ct l) eq_refl) as (to & Hto & Hrun & Hlt & Hall & Hno). exists to.
    rewrite (newlyReady_cons _ _ _ _ l crn), Hcom by done. by split.
  - exists (c_nextReadyMark c). rewrite Hempty, Hself. split; [lia |]. split; [| split; [lia |]].
    + destruct fuel as [|fuel]; [lia |]. cbn [advanceReadyLoop]. case_match; [| done].
      destruct (Z.eqb_spec (c_nextReadyMark c + 1) (c_nextReadyMark c)); [lia | done].
    + intros (l' & crn' & Hl' & Hcrn' & Hp). simplify_eq. by rewrite Hcom, Hrdy in Hp.
Qed.

Lemma client_wf_mark (h : reqHeap) (id : Z) (nc : NetworkState_Config) (c : client) (to : Z) :
  client_wf h id nc c -> cl_LowWatermark (c_clientState c) <= to <= c_highWatermark c + 1 -> client_wf h id nc (c <| c_nextReadyMark := to |>).
Proof. intros [] Hto. by split. Qed.

Lemma advanceReady_wf (h : reqHeap) (id : Z) (nc : NetworkState_Config) (ct : clientTracker) (c : client) :
  client_wf h id nc c -> exists ct' c', client_advanceReady h ct c = Ok (ct', c') /\ client_wf h id nc c'.
Proof.
  intros Hwf. destruct (advanceReadyLoop_spec _ h id nc ct c Hwf (Nat.le_refl _)) as (to & Hto & Hrun & _).
  unfold client_advanceReady. rewrite Hrun. do 2 eexists. split; [done |]. apply client_wf_mark; [done |].
  pose proof (cl_ready _ _ _ _ Hwf). lia.
Qed.

(** *** Operations of a client *)

(** An operation of one request number, seen from its client. *)
Definition clientStep (h h' : reqHeap) (id r : Z) (nc : NetworkState_Config) (c c' : client) : Prop :=
  heap_ok h' /\ client_wf h' id nc c' /\ framed h h' id r.

Lemma store_client (h h' : reqHeap) (id r : Z) (nc : NetworkState_Config) (c : client) (l : loc) (crn crn' : clientReqNo) :
  heap_ok h -> client_wf h id nc c -> c_reqNoMap c !! r = Some l -> hp_reqNos h !! l = Some crn ->
  crn_clientID crn = id -> crn_reqNo crn = r -> crn_networkConfig crn = nc -> crn_wf h crn -> stepOk h h' crn crn' ->
  clientStep h (storeReqNo h' l crn') id r nc c c.
Proof.
  intros Hok Hwf Hl Hcrn Hid Hr Hnc Hcwf Hst. pose proof (crn_readable _ _ Hcwf) as Hrd.
  destruct (store_back h h' id r l crn crn crn' Hok Hcrn Hid Hr Hid Hr Hrd Hst) as (Hf & Hok' & Hat).
  split; [done |]. split; [| done]. eapply client_wf_store; [exact Hwf | exact Hf |]. intros l' _ Hl'. simplify_eq.
  pose proof Hst as [[_ _ _ _ [= _ E2 _ _ _]] _]. by rewrite E2 in Hat.
Qed.

Lemma client_ack_spec (h : reqHeap) (id : Z) (nc : NetworkState_Config) (ct : clientTracker) (c : client) (source : Z) (ack : RequestAck) :
  heap_ok h -> client_wf h id nc c -> ra_ClientId ack = id -> cl_LowWatermark (c_clientState c) <= ra_ReqNo ack <= c_highWatermark c ->
  exists h' ct' c' acts l, client_ack h ct c source ack = Ok (h', ct', c', acts, l) /\ clientStep h h' id (ra_ReqNo ack) nc c c'.
Proof.
  intros Hok Hwf Hid Hr. destruct (client_lookup h id nc c _ Hwf Hr) as (lc & crn & Hl & Hcrn & Hci & Hcr & Hcn & Hcwf).
  unfold client_ack, client_reqNo, loadReqNo. rewrite Hl. rewrite bool_decide_true by (by eexists). cbn [mbind outcome_bind deref assertTrue].
  rewrite Hcrn. cbn [mbind outcome_bind deref]. destruct (clientReqNo_clientReq h crn ack) as [[h1 c1] l] eqn:Hreq.
  destruct (clientReq_spec h h1 crn c1 ack l) as (Hst1 & Hl1 & Hc1 & cr & Hcr1 & Hce); [done | split; congruence | done |].
  unfold loadRequest. rewrite Hcr1. cbn [mbind outcome_bind deref]. rewrite (cl_config _ _ _ _ Hwf).
  pose proof Hst1 as [Htc Hg1]. pose proof Hg1 as [_ Hwf1]. destruct (certificate_cases _ _ _ _ Hwf1 Hl1) as (Hw & Hs & Hm).
  destruct Hce as [Hk Hcw Hcs Hcm]. set (cr' := cr <| cr_agreements ::= _ |>).
  pose proof (agreement_grows cr source) as Hgrow. fold cr' in Hgrow.
  assert (Hn1 : crn_networkConfig c1 = nc) by (destruct Htc as [_ _ _ _ [= _ E _ _ _]]; congruence).
  rewrite Hn1 in Hcw, Hcs.
  set (c2 := if agreementCount cr' =? someCorrectQuorum nc then _ else c1).
  assert (Hup : forall c3, crnId c3 = crnId c1 -> crn_requests c3 = crn_requests c1 -> crn_myRequests c3 = crn_myRequests c1 ->
    crn_weakRequests c3 = crn_weakRequests c2 ->
    reflects (crn_strongRequests c1) (crn_strongRequests c3) (str (ra_Digest ack)) l (intersectionQuorum nc <= agreementCount cr') ->
    clientStep h (storeReqNo (storeRequest h1 l cr') lc c3) id (ra_ReqNo ack) nc c c).
  { intros c3 Hid3 Hr3 Hm3 Hw3 Hs3. eapply store_client; try done. eapply stepOk_trans; [exact Hst1 |].
    eapply update_request; [exact Hg1 | exact Hl1 | exact Hcr1 | done | done | done | | by rewrite Hn1 | by rewrite Hm3; apply reflects_same].
    rewrite Hw3, Hn1. unfold c2. destruct (Z.eqb_spec (agreementCount cr') (someCorrectQuorum nc)) as [Heq | Hne].
    - apply reflects_insert. lia.
    - apply reflects_same; [done |]. rewrite Hcw. lia. }
  assert (Hc2 : crnId c2 = crnId c1 /\ crn_requests c2 = crn_requests c1 /\ crn_myRequests c2 = crn_myRequests c1
    /\ crn_strongRequests c2 = crn_strongRequests c1) by (unfold c2; by case_match).
  destruct Hc2 as (E1 & E2 & E3 & E4). destruct (Z.eqb_spec (agreementCount cr') (intersectionQuorum nc)) as [Heq | Hne].
  - destruct (Hup (c2 <| crn_strongRequests ::= <[str (ra_Digest ack) := l]> |>)) as (Hok' & Hwf' & Hf); [done | done | done | done | |].
    { cbn. rewrite E4. apply reflects_insert. lia. }
    set (ct1 := if _ : bool then clientTracker_addAvailable ct ack else ct).
    destruct (advanceReady_wf _ id nc ct1 c Hwf') as (ct2 & c4 & Hadv & Hwf4). rewrite Hadv. cbn [mbind outcome_bind].
    do 5 eexists. split; [done |]. by split.
  - do 5 eexists. split; [done |]. apply Hup; try done. rewrite E4. apply reflects_same; [done |]. rewrite Hcs. lia.
Qed.

Lemma client_newRequest_spec (h : reqHeap) (id : Z) (nc : NetworkState_Config) (c : client) (ack : RequestAck) :
  heap_ok h -> client_wf h id nc c -> ra_ClientId ack = id -> cl_LowWatermark (c_clientState c) <= ra_ReqNo ack <= c_highWatermark c ->
  exists l crn h' crn' acts, client_reqNo c (ra_ReqNo ack) = Ok l /\ loadReqNo h l = Ok crn
    /\ clientReqNo_applyNewRequest h crn ack = Ok (h', crn', acts)
    /\ clientStep h (storeReqNo h' l crn') id (ra_ReqNo ack) nc c c.
Proof.
  intros Hok Hwf Hid Hr. destruct (client_lookup h id nc c _ Hwf Hr) as (lc & crn & Hl & Hcrn & Hci & Hcr & Hcn & Hcwf).
  destruct (applyNewRequest_spec h crn ack) as (h' & crn' & acts & H & Hst); [done | split; congruence |].
  exists lc, crn, h', crn', acts. unfold client_reqNo, loadReqNo. rewrite Hl, Hcrn. cbn. split; [done |]. split; [done |]. split; [done |].
  by eapply store_client.
Qed.

(** Frames of the numbers of one client. *)
Definition framedClient (h h' : reqHeap) (id : Z) : Prop :=
  hp_next h <= hp_next h'
  /\ (forall l crn, hp_reqNos h !! l = Some crn -> crn_clientID crn <> id -> hp_reqNos h' !! l = Some crn)
  /\ (forall l cr, hp_requests h !! l = Some cr -> (requestKey cr).1.1 <> id -> hp_requests h' !! l = Some cr).

Lemma framedClient_refl (h : reqHeap) (id : Z) : framedClient h h id.
Proof. by split. Qed.

Lemma framedClient_trans (h1 h2 h3 : reqHeap) (id : Z) : framedClient h1 h2 id -> framedClient h2 h3 id -> framedClient h1 h3 id.
Proof. intros (H1 & H2 & H3) (H4 & H5 & H6). split; [lia |]. split; eauto. Qed.

Lemma framed_client (h h' : reqHeap) (id r : Z) : framed h h' id r -> framedClient h h' id.
Proof.
  intros []. split; [done |]. split; [intros l crn Hl Hne; apply fr_reqNos0; [done | congruence] |].
  intros l cr Hl Hne. apply fr_requests0; [done |]. destruct (requestKey cr) as [[a b] x]. cbn in *. congruence.
Qed.

Lemma client_wf_framed (h h' : reqHeap) (id id' : Z) (nc : NetworkState_Config) (c : client) :
  framedClient h h' id -> id' <> id -> client_wf h id' nc c -> client_wf h' id' nc c.
Proof.
  intros (_ & Hf1 & Hf2) Hne []. split; try done. intros r l Hl. destruct (cl_window0 r l Hl) as [Hw (crn & Hcrn & <- & <- & Hnc & Hwf)].
  split; [done |]. exists crn. split; [by apply Hf1 |]. do 3 (split; [done |]). destruct Hwf. split; try done.
  intros dg lr Hlr. destruct (cw_request0 dg lr Hlr) as (cr & Hcr & Hce). exists cr. split; [| done].
  apply Hf2; [done |]. by rewrite (ce_key _ _ _ _ Hce).
Qed.

Lemma tickReqNo_spec (h : reqHeap) (id : Z) (nc : NetworkState_Config) (c : client) (l : loc) (st st' : reqHeap * ActionList) :
  l ∈ c_reqNoList c -> heap_ok st.1 /\ client_wf st.1 id nc c /\ framedClient h st.1 id -> tickReqNo l st = Ok st' ->
  heap_ok st'.1 /\ client_wf st'.1 id nc c /\ framedClient h st'.1 id.
Proof.
  destruct st as [h1 a1], st' as [h2 a2]. intros Hin (Hok1 & Hwf1 & Hf1) Hb. unfold tickReqNo in Hb. cbn [fst snd] in *.
  apply bind_Ok in Hb as (crn & Hl & Hb). apply bind_Ok in Hb as ([[h3 c3] a3] & Ht & Hb). injection Hb as <- _.
  apply deref_Ok in Hl. apply list_elem_of_lookup in Hin as [k Hk].
  destruct (Forall2_lookup_r _ _ _ _ _ (cl_list _ _ _ _ Hwf1) Hk) as (r & _ & Hm).
  destruct (cl_window _ _ _ _ Hwf1 _ _ Hm) as [_ (crn' & Hl' & Hid & Hr & Hnc & Hcwf)]. simplify_eq.
  destruct (store_client h1 h3 (crn_clientID crn) (crn_reqNo crn) (crn_networkConfig crn) c l crn c3) as (Hok3 & Hwf3 & Hf3);
    try done; [by eapply tick_spec |].
  split; [done |]. split; [done |]. eapply framedClient_trans; [exact Hf1 |]. by eapply framed_client.
Qed.

Lemma client_tick_spec (h h' : reqHeap) (id : Z) (nc : NetworkState_Config) (c : client) (acts : ActionList) :
  client_tick h c = Ok (h', acts) -> heap_ok h -> client_wf h id nc c ->
  heap_ok h' /\ client_wf h' id nc c /\ framedClient h h' id.
Proof.
  intros H Hok Hwf. change (heap_ok (h', acts).1 /\ client_wf (h', acts).1 id nc c /\ framedClient h (h', acts).1 id).
  eapply (forRange_inv (fun st : reqHeap * ActionList => heap_ok st.1 /\ client_wf st.1 id nc c /\ framedClient h st.1 id)); [| | exact H].
  - intros l st st' Hin. by apply tickReqNo_spec.
  - split; [done |]. split; [done |]. apply framedClient_refl.
Qed.

(** *** Building a window *)

Definition clientState_ok (cs : NetworkState_Client) : Prop :=
  0 <= cl_LowWatermark cs /\ 0 <= cl_WidthConsumedLastCheckpoint cs <= cl_Width cs /\ cl_Width cs < 2 ^ 32
  /\ cl_LowWatermark cs + cl_Width cs < 2 ^ 64 - 1.

(** The numbers from [i] on that an earlier window has. *)
Definition oldReqNos (h : reqHeap) (id i : Z) (m : gmap Z loc) : Prop :=
  forall r l, i <= r -> m !! r = Some l -> exists crn, hp_reqNos h !! l = Some crn /\ crn_clientID crn = id /\ crn_reqNo crn = r /\ readable h crn.

(** The window [low .. i - 1] of a client. *)
Record built (h : reqHeap) (id : Z) (nc : NetworkState_Config) (low i : Z) (c : client) : Prop := {
  bu_heap : heap_ok h;
  bu_list : Forall2 (fun r l => c_reqNoMap c !! r = Some l) (seqZ low (i - low)) (c_reqNoList c);
  bu_map : forall r l, c_reqNoMap c !! r = Some l -> low <= r < i /\ reqNoAt h id nc r l;
}.

Definition pushReqNo (c : client) (r : Z) (l : loc) : client :=
  c <| c_reqNoList ::= fun ls => ls ++ [l] |> <| c_reqNoMap ::= <[r := l]> |>.

Lemma built_push (h h' : reqHeap) (id : Z) (nc : NetworkState_Config) (low i : Z) (c : client) (l : loc) :
  low <= i -> built h id nc low i c -> framed h h' id i -> heap_ok h' -> reqNoAt h' id nc i l -> built h' id nc low (i + 1) (pushReqNo c i l).
Proof.
  intros Hi [Hok Hlist Hmap] Hf Hok' Hat. split; [done | |]; cbn.
  - replace (i + 1 - low) with ((i - low) + 1) by lia. rewrite seqZ_app by lia.
    apply Forall2_app.
    + eapply Forall2_impl; [exact Hlist |]. intros r l' Hl'. cbn. destruct (Hmap _ _ Hl'). rewrite lookup_insert_ne by lia. done.
    + replace (low + (i - low)) with i by lia. constructor; [apply lookup_insert_eq | constructor].
  - intros r l'. rewrite lookup_insert. case_decide as Hr; [subst r; intros [= <-]; split; [lia | done] |].
    intros Hl'. destruct (Hmap _ _ Hl') as [Hw Hat']. split; [lia |]. eapply reqNoAt_framed; [exact Hf | | exact Hat']. congruence.
Qed.

Lemma oldReqNos_framed (h h' : reqHeap) (id i : Z) (m : gmap Z loc) :
  framed h h' id i -> oldReqNos h id i m -> oldReqNos h' id (i + 1) m.
Proof.
  intros [_ Hf1 Hf2] Hold r l Hr Hl. destruct (Hold r l) as (crn & Hcrn & Hid & Hrn & Hrd); [lia | done |].
  assert (Hne : (crn_clientID crn, crn_reqNo crn) <> (id, i)) by (intros [=]; lia).
  exists crn. split; [by apply Hf1 |]. do 2 (split; [done |]). intros dg lr Hlr. destruct (Hrd _ _ Hlr) as (cr & Hcr & Hk).
  exists cr. split; [| done]. apply Hf2; [done |]. by rewrite Hk.
Qed.

Lemma alloc_framed (h : reqHeap) (id i : Z) (crn : clientReqNo) :
  heap_ok h -> framed h (allocReqNo h crn).1 id i /\ heap_ok (allocReqNo h crn).1 /\ hp_reqNos (allocReqNo h crn).1 !! hp_next h = Some crn.
Proof.
  intros Hok. split; [| split]; cbn.
  - split; cbn; [lia | | done]. intros l crn' Hl _. rewrite lookup_insert_ne; [done |]. intros <-.
    destruct (Hok (hp_next h) (Z.le_refl _)). congruence.
  - intros l Hl. cbn in *. destruct (Hok l) as [H1 H2]; [lia |]. split; [done |]. rewrite lookup_insert_ne by lia. done.
  - apply lookup_insert_eq.
Qed.

Lemma framed_trans (h1 h2 h3 : reqHeap) (id r : Z) : framed h1 h2 id r -> framed h2 h3 id r -> framed h1 h3 id r.
Proof. intros [] []. split; [lia | eauto | eauto]. Qed.

Lemma restoreReqNo_spec (h : reqHeap) (id seqNo low i : Z) (nc : NetworkState_Config) (cs : NetworkState_Client) (m : gmap Z loc)
    (c : client) (acts : ActionList) :
  config_ok nc -> clientState_ok cs -> cl_Id cs = id -> 0 <= i -> low <= i -> built h id nc low i c -> oldReqNos h id i m ->
  exists h' l acts', restoreReqNo seqNo nc cs m i (h, c, acts) = Ok (h', pushReqNo c i l, acts')
    /\ built h' id nc low (i + 1) (pushReqNo c i l) /\ oldReqNos h' id (i + 1) m /\ framed h h' id i.
Proof.
  intros Hnc Hcs Hid Hi Hlow Hb Hold. destruct Hcs as (Hc1 & Hc2 & Hc3 & Hc4). pose proof (bu_heap _ _ _ _ _ _ Hb) as Hok.
  unfold restoreReqNo. rewrite isCommitted_spec by lia. cbn [mbind outcome_bind]. set (committed := _ || _).
  assert (Hfin : forall (h1 : reqHeap) (l : loc) (acts1 : ActionList) (crn0 : clientReqNo), framed h h1 id i -> heap_ok h1 -> hp_reqNos h1 !! l = Some crn0 ->
    crn_clientID crn0 = id -> crn_reqNo crn0 = i -> readable h1 crn0 ->
    exists h' acts', (crn ← loadReqNo h1 l; '(h2, crn') ← clientReqNo_reinitialize h1 (crn <| crn_committed := committed |>) nc;
        Ok (storeReqNo h2 l crn', c <| c_reqNoList ::= fun ls => ls ++ [l] |> <| c_reqNoMap ::= <[i := l]> |>, acts1))
      = Ok (h', pushReqNo c i l, acts') /\ built h' id nc low (i + 1) (pushReqNo c i l) /\ oldReqNos h' id (i + 1) m /\ framed h h' id i).
  { intros h1 l acts1 crn0 Hf Hok1 Hl Hid0 Hr0 Hrd. unfold loadReqNo. rewrite Hl. cbn [mbind outcome_bind deref].
    destruct (reinitialize_spec h1 (crn0 <| crn_committed := committed |>) nc) as (h2 & crn' & -> & Hst); [done | exact Hrd | done |].
    cbn [mbind outcome_bind]. set (crn1 := cleared (crn0 <| crn_committed := committed |>) nc) in *.
    destruct (store_back h1 h2 id i l crn0 crn1 crn') as (Hf2 & Hok2 & Hat); try done.
    pose proof Hst as [[_ _ _ _ [= _ E2 _ _ _]] _]. rewrite E2 in Hat. pose proof (framed_trans _ _ _ _ _ Hf Hf2) as Hf3.
    do 2 eexists. split; [done |]. split; [by eapply built_push |]. split; [| done]. by eapply oldReqNos_framed. }
  destruct (m !! i) as [l |] eqn:Hm.
  - destruct (Hold i l) as (crn0 & Hl & Hid0 & Hr0 & Hrd); [lia | done |].
    destruct (Hfin h l acts crn0) as (h' & acts' & Hrun & H); try done. exists h', l, acts'. by split.
  - set (crn0 := newClientReqNo _ _ _ _ _). destruct (alloc_framed h id i crn0 Hok) as (Hf & Hok1 & Hl).
    destruct (allocReqNo h crn0) as [h1 l] eqn:Hal. injection Hal as Hh Hl1. subst l. cbn [fst] in *.
    destruct (Hfin h1 (hp_next h) (ActionList_AllocateRequest acts (cl_Id cs) i) crn0) as (h' & acts' & Hrun & H); try done.
    exists h', (hp_next h), acts'. by split.
Qed.

Lemma restoreReqNos_spec (n : nat) (h : reqHeap) (id seqNo low i : Z) (nc : NetworkState_Config) (cs : NetworkState_Client) (m : gmap Z loc)
    (c : client) (acts : ActionList) :
  config_ok nc -> clientState_ok cs -> cl_Id cs = id -> 0 <= i -> low <= i -> built h id nc low i c -> oldReqNos h id i m ->
  exists h' ls mp acts', forRange (restoreReqNo seqNo nc cs m) (seqZ i (Z.of_nat n)) (h, c, acts)
      = Ok (h', c <| c_reqNoList := ls |> <| c_reqNoMap := mp |>, acts')
    /\ built h' id nc low (i + Z.of_nat n) (c <| c_reqNoList := ls |> <| c_reqNoMap := mp |>) /\ framedClient h h' id.
Proof.
  intros Hnc Hcs Hid. revert h i c acts. induction n as [|n IH]; intros h i c acts Hi Hlow Hb Hold.
  - exists h, (c_reqNoList c), (c_reqNoMap c), acts. replace (i + Z.of_nat 0) with i by lia.
    assert (c <| c_reqNoList := c_reqNoList c |> <| c_reqNoMap := c_reqNoMap c |> = c) as -> by (by destruct c).
    split; [done |]. split; [done |]. apply framedClient_refl.
  - rewrite seqZ_cons by lia. cbn [forRange].
    destruct (restoreReqNo_spec h id seqNo low i nc cs m c acts) as (h1 & l & acts1 & -> & Hb1 & Hold1 & Hf1); try done.
    cbn [mbind outcome_bind]. replace (Z.succ i) with (i + 1) by lia. replace (Z.pred (Z.of_nat (S n))) with (Z.of_nat n) by lia.
    destruct (IH h1 (i + 1) (pushReqNo c i l) acts1) as (h2 & ls & mp & acts2 & -> & Hb2 & Hf2); [lia | lia | done | done |].
    exists h2, ls, mp, acts2. replace (i + Z.of_nat (S n)) with (i + 1 + Z.of_nat n) by lia. split; [done |]. split; [exact Hb2 |].
    eapply framedClient_trans; [by eapply framed_client | done].
Qed.

Lemma seqZ_nat (i n : Z) : 0 <= n -> seqZ i n = seqZ i (Z.of_nat (Z.to_nat n)).
Proof. intros H. by rewrite Z2Nat.id. Qed.

Lemma forUpTo_eq {St : Type} (low high : Z) (body : Z -> St -> outcome St) (st : St) :
  high < 2 ^ 64 - 1 -> forUpTo low high body st = forRange body (seqZ low (high - low + 1)) st.
Proof. intros H. unfold forUpTo. destruct (Z.eqb_spec high (2 ^ 64 - 1)); [lia | done]. Qed.

Lemma intermediate_small (cs : NetworkState_Client) :
  clientState_ok cs -> intermediateHighWatermark cs = cl_LowWatermark cs + cl_Width cs - cl_WidthConsumedLastCheckpoint cs.
Proof. intros (H1 & H2 & H3 & H4). unfold intermediateHighWatermark. nowrap. done. Qed.

(** A complete window is well formed. *)
Lemma built_client (h : reqHeap) (id : Z) (nc : NetworkState_Config) (c : client) :
  c_networkConfig c = nc -> 0 <= cl_LowWatermark (c_clientState c) <= c_highWatermark c -> c_highWatermark c < 2 ^ 64 - 1 ->
  cl_LowWatermark (c_clientState c) <= c_nextReadyMark c <= c_highWatermark c + 1 ->
  built h id nc (cl_LowWatermark (c_clientState c)) (c_highWatermark c + 1) c -> client_wf h id nc c.
Proof.
  intros H1 H2 H3 H4 [Hok Hlist Hmap]. split; [done | done | done | |].
  - by replace (c_highWatermark c - cl_LowWatermark (c_clientState c) + 1) with (c_highWatermark c + 1 - cl_LowWatermark (c_clientState c)) by lia.
  - intros r l Hl. destruct (Hmap r l Hl). split; [lia | done].
Qed.

Lemma client_reinitialize_spec (h : reqHeap) (ct : clientTracker) (c : client) (id seqNo : Z) (nc : NetworkState_Config)
    (cs : NetworkState_Client) (reconfiguring : bool) :
  heap_ok h -> config_ok nc -> clientState_ok cs -> cl_Id cs = id -> oldReqNos h id (cl_LowWatermark cs) (c_reqNoMap c) ->
  exists h' ct' c' acts, client_reinitialize h ct c seqNo nc cs reconfiguring = Ok (h', ct', c', acts)
    /\ heap_ok h' /\ client_wf h' id nc c' /\ framedClient h h' id.
Proof.
  intros Hok Hnc Hcs Hid Hold. pose proof (intermediate_small cs Hcs) as Him. pose proof Hcs as (H1 & H2 & H3 & H4).
  unfold client_reinitialize. set (high := if reconfiguring then _ else _).
  assert (Hhigh : cl_LowWatermark cs <= high < 2 ^ 64 - 1) by (unfold high; rewrite Him; nowrap; case_match; lia).
  set (c1 := c <| c_networkConfig := nc |> <| c_clientState := cs |> <| c_highWatermark := high |>
             <| c_nextReadyMark := cl_LowWatermark cs |> <| c_reqNoList := [] |> <| c_reqNoMap := ∅ |>).
  rewrite forUpTo_eq, seqZ_nat by lia.
  destruct (restoreReqNos_spec (Z.to_nat (high - cl_LowWatermark cs + 1)) h id seqNo (cl_LowWatermark cs) (cl_LowWatermark cs) nc cs (c_reqNoMap c) c1 [])
    as (h1 & ls & mp & acts & -> & Hb & Hf); try done.
  { split; [done | |]; cbn; [rewrite Z.sub_diag; constructor | done]. }
  cbn [mbind outcome_bind]. rewrite Z2Nat.id in Hb by lia.
  replace (cl_LowWatermark cs + (high - cl_LowWatermark cs + 1)) with (high + 1) in Hb by lia.
  destruct (advanceReady_wf h1 id nc ct (c1 <| c_reqNoList := ls |> <| c_reqNoMap := mp |>)) as (ct2 & c2 & -> & Hwf2).
  { apply built_client; cbn; [done | lia | lia | lia | exact Hb]. }
  cbn [mbind outcome_bind]. do 4 eexists. split; [done |]. split; [apply Hb | by split].
Qed.

(** Dropping the numbers below a new low watermark. *)
Lemma dropReqNos_spec (n : nat) (h : reqHeap) (id : Z) (nc : NetworkState_Config) (low i high : Z) (c : client) :
  low = i + Z.of_nat n -> low <= high ->
  Forall2 (fun r l => c_reqNoMap c !! r = Some l) (seqZ i (high + 1 - i)) (c_reqNoList c) ->
  (forall r l, c_reqNoMap c !! r = Some l -> i <= r < high + 1 /\ reqNoAt h id nc r l) -> heap_ok h ->
  exists els m, dropReqNos h low (c_reqNoList c) (c_reqNoMap c) = Ok (els, m)
    /\ built h id nc low (high + 1) (c <| c_reqNoList := els |> <| c_reqNoMap := m |>).
Proof.
  revert i c. induction n as [|n IH]; intros i c Hlow Hhigh Hlist Hmap Hok.
  - assert (i = low) as -> by lia. rewrite seqZ_cons in Hlist by lia. inversion Hlist as [| r l rs ls Hl Hls Er El]. subst r rs.
    cbn [dropReqNos]. destruct (Hmap _ _ Hl) as [_ (crn & Hcrn & _ & Hr & _)]. unfold loadReqNo. rewrite Hcrn. cbn [mbind outcome_bind deref].
    rewrite Hr, Z.eqb_refl. do 2 eexists. split; [done |]. split; [done | | exact Hmap]. cbn. rewrite seqZ_cons by lia. by constructor.
  - rewrite seqZ_cons in Hlist by lia. inversion Hlist as [| r l rs ls Hl Hls Er El]. subst r rs.
    cbn [dropReqNos]. destruct (Hmap _ _ Hl) as [_ (crn & Hcrn & _ & Hr & _)]. unfold loadReqNo. rewrite Hcrn. cbn [mbind outcome_bind deref].
    rewrite Hr. destruct (Z.eqb_spec i low); [lia |].
    set (c1 := c <| c_reqNoList := ls |> <| c_reqNoMap := delete i (c_reqNoMap c) |>).
    destruct (IH (i + 1) c1) as (els & m & Hrun & Hb); [lia | lia | | | done | exists els, m; by split].
    + cbn. replace (Z.succ i) with (i + 1) in Hls by lia. replace (Z.pred (high + 1 - i)) with (high + 1 - (i + 1)) in Hls by lia.
      apply Forall2_same_length_lookup_2; [by eapply Forall2_length |]. intros k r l' Hk Hl'.
      pose proof (Forall2_lookup_lr _ _ _ _ _ _ Hls Hk Hl') as Hm. apply lookup_seqZ in Hk. rewrite lookup_delete_ne by lia. exact Hm.
    + cbn. intros r l' Hl'. apply lookup_delete_Some in Hl' as [Hne Hl']. destruct (Hmap _ _ Hl'). split; [lia | done].
Qed.

Lemma markReqNo_spec (h : reqHeap) (id low high r : Z) (nc : NetworkState_Config) (cs : NetworkState_Client) (c : client) :
  clientState_ok cs -> 0 <= low <= r -> r <= high -> built h id nc low (high + 1) c ->
  exists h', markReqNo cs c r h = Ok h' /\ built h' id nc low (high + 1) c /\ framedClient h h' id.
Proof.
  intros (H1 & H2 & H3 & H4) Hr Hh Hb. unfold markReqNo. rewrite isCommitted_spec by lia. cbn [mbind outcome_bind].
  case_match; [| exists h; split; [done |]; split; [done | apply framedClient_refl]].
  pose proof Hb as [Hok Hlist Hmap].
  destruct (Forall2_lookup_l _ _ _ (Z.to_nat (r - low)) r Hlist) as (l & _ & Hl); [apply lookup_seqZ; lia |].
  destruct (Hmap r l Hl) as [_ (crn & Hcrn & Hid & Hrn & Hnc & Hwf)]. rewrite Hl. cbn [mbind outcome_bind deref].
  unfold loadReqNo. rewrite Hcrn. cbn [mbind outcome_bind deref]. set (crn' := crn <| crn_committed := true |>).
  assert (Hst : stepOk h h crn crn') by (eapply stepOk_crn; [.. | by apply stepOk_refl]; done).
  destruct (store_back h h id r l crn crn crn') as (Hf & Hok' & Hat); try done; [by apply crn_readable |].
  eexists. split; [done |]. split; [| by eapply framed_client]. split; [done | done |].
  intros r' l' Hl'. destruct (Hmap r' l' Hl') as [Hw Hat']. split; [done |].
  destruct (decide (r' = r)) as [-> | Hne]; [simplify_eq; by rewrite Hnc in Hat || exact Hat |].
  eapply reqNoAt_framed; [exact Hf | congruence | done].
Qed.

Lemma addLoop_spec (n : nat) (h : reqHeap) (id low i valid : Z) (nc : NetworkState_Config) (cs : NetworkState_Client) (c : client)
    (acts : ActionList) :
  config_ok nc -> c_networkConfig c = nc -> cl_Id cs = id -> low <= i -> built h id nc low i c ->
  exists h' ls mp acts', forRange (addReqNo cs valid) (seqZ i (Z.of_nat n)) (h, c, acts)
      = Ok (h', c <| c_reqNoList := ls |> <| c_reqNoMap := mp |>, acts')
    /\ built h' id nc low (i + Z.of_nat n) (c <| c_reqNoList := ls |> <| c_reqNoMap := mp |>) /\ framedClient h h' id.
Proof.
  intros Hnc. revert h i c acts. induction n as [|n IH]; intros h i c acts Hcn Hid Hlow Hb.
  - exists h, (c_reqNoList c), (c_reqNoMap c), acts. replace (i + Z.of_nat 0) with i by lia.
    assert (c <| c_reqNoList := c_reqNoList c |> <| c_reqNoMap := c_reqNoMap c |> = c) as -> by (by destruct c).
    split; [done |]. split; [done |]. apply framedClient_refl.
  - rewrite seqZ_cons by lia. cbn [forRange].
    set (crn0 := newClientReqNo (c_myConfig c) (cl_Id cs) i (c_networkConfig c) valid).
    assert (addReqNo cs valid i (h, c, acts)
      = Ok ((allocReqNo h crn0).1, pushReqNo c i (hp_next h), ActionList_AllocateRequest acts (cl_Id cs) i)) as -> by done.
    destruct (alloc_framed h id i crn0) as (Hf & Hok1 & Hl); [apply Hb |].
    set (h1 := (allocReqNo h crn0).1) in *. cbn [mbind outcome_bind].
    replace (Z.succ i) with (i + 1) by lia. replace (Z.pred (Z.of_nat (S n))) with (Z.of_nat n) by lia.
    destruct (IH h1 (i + 1) (pushReqNo c i (hp_next h)) (ActionList_AllocateRequest acts (cl_Id cs) i))
      as (h2 & ls & mp & acts2 & -> & Hb2 & Hf2); [done | done | lia | |].
    { eapply built_push; try done. exists crn0. split; [done |]. split; [done |]. split; [done |]. split; [done |]. by split; cbn; rewrite ?Hcn. }
    exists h2, ls, mp, acts2. replace (i + Z.of_nat (S n)) with (i + 1 + Z.of_nat n) by lia. split; [done |]. split; [exact Hb2 |].
    eapply framedClient_trans; [by eapply framed_client | done].
Qed.

Lemma client_allocate_spec (h : reqHeap) (ct : clientTracker) (c : client) (id seqNo : Z) (nc : NetworkState_Config)
    (cs : NetworkState_Client) (reconfiguring : bool) :
  heap_ok h -> config_ok nc -> client_wf h id nc c -> clientState_ok cs -> cl_Id cs = id ->
  cl_LowWatermark (c_clientState c) <= cl_LowWatermark cs -> intermediateHighWatermark cs = c_highWatermark c ->
  exists h' ct' c' acts, client_allocate h ct c seqNo cs reconfiguring = Ok (h', ct', c', acts)
    /\ heap_ok h' /\ client_wf h' id nc c' /\ framedClient h h' id.
Proof.
  intros Hok Hnc Hwf Hcs Hid Hlow Hint. pose proof Hcs as (H1 & H2 & H3 & H4).
  pose proof (intermediate_small cs Hcs) as Him. pose proof Hwf as [Hcfg Hrg Hrd Hlist Hwin].
  unfold client_allocate. rewrite Hint, Z.eqb_refl. cbn [assertTrue mbind outcome_bind].
  set (high' := if reconfiguring then _ else _). set (c1 := if c_nextReadyMark c <? _ then _ else c).
  assert (Hc1 : c1 = c <| c_nextReadyMark := Z.max (c_nextReadyMark c) (cl_LowWatermark cs) |>).
  { unfold c1. destruct (Z.ltb_spec (c_nextReadyMark c) (cl_LowWatermark cs)); [by rewrite Z.max_r by lia | rewrite Z.max_l by lia; by destruct c]. }
  rewrite Hc1. clear c1 Hc1. set (c1 := c <| c_nextReadyMark := _ |>).
  destruct (dropReqNos_spec (Z.to_nat (cl_LowWatermark cs - cl_LowWatermark (c_clientState c))) h id nc (cl_LowWatermark cs)
    (cl_LowWatermark (c_clientState c)) (c_highWatermark c) c1) as (els & m & Hdrop & Hb); [lia | lia | | | done |].
  { cbn. by replace (c_highWatermark c + 1 - cl_LowWatermark (c_clientState c)) with (c_highWatermark c - cl_LowWatermark (c_clientState c) + 1) by lia. }
  { intros r l Hl. destruct (Hwin r l Hl). split; [lia | done]. }
  rewrite Hdrop. cbn [mbind outcome_bind]. set (c2 := c1 <| c_reqNoList := els |> <| c_reqNoMap := m |>) in *.
  change (c_highWatermark c2) with (c_highWatermark c). rewrite forUpTo_eq by lia.
  destruct (forRange_ok (fun h' => built h' id nc (cl_LowWatermark cs) (c_highWatermark c + 1) c2 /\ framedClient h h' id) (markReqNo cs c2)
    (seqZ (cl_LowWatermark cs) (c_highWatermark c - cl_LowWatermark cs + 1)) h) as (h1 & -> & Hb1 & Hf1); [| split; [done | apply framedClient_refl] |].
  { intros r h1 Hin [Hb1 Hf1]. apply elem_of_seqZ in Hin.
    destruct (markReqNo_spec h1 id (cl_LowWatermark cs) (c_highWatermark c) r nc cs c2) as (h2 & -> & Hb2 & Hf2); [done | lia | lia | done |].
    exists h2. split; [done |]. split; [done |]. by eapply framedClient_trans. }
  cbn [mbind outcome_bind]. set (c3 := c2 <| c_clientState := cs |>).
  assert (Hh' : c_highWatermark c <= high' < 2 ^ 64 - 1) by (unfold high'; nowrap; case_match; lia).
  rewrite forUpTo_eq, seqZ_nat by (nowrap; lia). rewrite (add64_small (c_highWatermark c) 1) by lia.
  destruct (addLoop_spec (Z.to_nat (high' - (c_highWatermark c + 1) + 1)) h1 id (cl_LowWatermark cs) (c_highWatermark c + 1)
    (seqNo +! u64 (nc_CheckpointInterval (c_networkConfig c3))) nc cs c3 []) as (h2 & ls & mp & acts & -> & Hb2 & Hf2);
    [done | done | done | lia | by destruct Hb1; split |].
  cbn [mbind outcome_bind]. rewrite Z2Nat.id in Hb2 by lia.
  replace (c_highWatermark c + 1 + (high' - (c_highWatermark c + 1) + 1)) with (high' + 1) in Hb2 by lia.
  destruct (advanceReady_wf h2 id nc ct (c3 <| c_reqNoList := ls |> <| c_reqNoMap := mp |> <| c_highWatermark := high' |>)) as (ct4 & c4 & -> & Hwf4).
  { apply built_client; cbn; [done | lia | lia | lia |]. by destruct Hb2; split. }
  cbn [mbind outcome_bind]. do 4 eexists. split; [done |]. split; [apply Hb2 |]. split; [done |]. by eapply framedClient_trans.
Qed.

(** ** Lemmas: the disseminator *)

Lemma clients_wf_step (h h' : reqHeap) (id : Z) (nc : NetworkState_Config) (m : gmap Z client) (c : client) :
  clients_wf h nc m -> framedClient h h' id -> client_wf h' id nc c -> clients_wf h' nc (<[id := c]> m).
Proof.
  intros Hm Hf Hc id' c'. rewrite lookup_insert. case_decide as Hid; [subst id'; by intros [= <-] |].
  intros Hc'. eapply client_wf_framed; [exact Hf | congruence | by apply Hm].
Qed.

Lemma client_config_ok (h : reqHeap) (id : Z) (nc : NetworkState_Config) (c : client) : client_wf h id nc c -> config_ok nc.
Proof.
  intros Hwf. destruct (client_lookup h id nc c (cl_LowWatermark (c_clientState c)) Hwf) as (l & crn & _ & _ & _ & _ & <- & []); [| done].
  pose proof (cl_range _ _ _ _ Hwf). lia.
Qed.

Lemma disseminator_ack_spec (h : reqHeap) (ct : clientTracker) (d : clientHashDisseminator) (source : Z) (ack : RequestAck) (c : client) :
  disseminator_wf h d -> chd_clients d !! ra_ClientId ack = Some c ->
  cl_LowWatermark (c_clientState c) <= ra_ReqNo ack <= c_highWatermark c ->
  exists h' ct' c' acts l, clientHashDisseminator_ack h ct d source ack = Ok (h', ct', d <| chd_clients ::= <[ra_ClientId ack := c']> |>, acts, l)
    /\ disseminator_wf h' (d <| chd_clients ::= <[ra_ClientId ack := c']> |>).
Proof.
  intros [Hok Hcl] Hc Hr. unfold clientHashDisseminator_ack. rewrite Hc. rewrite bool_decide_true by (by eexists). cbn [assertTrue mbind outcome_bind deref].
  destruct (client_ack_spec h _ _ ct c source ack Hok (Hcl _ _ Hc) eq_refl Hr) as (h' & ct' & c' & acts & l & -> & Hok' & Hwf' & Hf).
  cbn [mbind outcome_bind]. do 5 eexists. split; [done |]. split; [done |]. eapply clients_wf_step; [exact Hcl | by eapply framed_client | done].
Qed.

Lemma replyFetchRequest_total (h : reqHeap) (d : clientHashDisseminator) (source clientID reqNo : Z) (digest : slice) :
  disseminator_wf h d -> exists acts, clientHashDisseminator_replyFetchRequest h d source clientID reqNo digest = Ok acts.
Proof.
  intros [Hok Hcl]. unfold clientHashDisseminator_replyFetchRequest, clientHashDisseminator_client.
  destruct (chd_clients d !! clientID) as [c |] eqn:Hc; [| by eexists]. unfold client_inWatermarks. case_match eqn:Hw; [by eexists |].
  destruct (client_lookup h clientID _ c reqNo (Hcl _ _ Hc)) as (l & crn & Hl & Hcrn & _ & _ & _ & Hcwf); [lia |].
  unfold client_reqNo, loadReqNo. rewrite Hl. cbn [mbind outcome_bind deref]. rewrite Hcrn. cbn [mbind outcome_bind deref].
  destruct (crn_requests crn !! str digest) as [lr |] eqn:Hlr; [| by eexists].
  destruct (cw_request _ _ Hcwf _ _ Hlr) as (cr & Hcr & _). unfold loadRequest. rewrite Hcr. cbn. case_match; by eexists.
Qed.

(** A message the filter calls current is applied without a panic. *)
Lemma applyMsg_spec (h : reqHeap) (ct : clientTracker) (d : clientHashDisseminator) (source source' : Z) (msg : Msg) :
  disseminator_wf h d -> clientHashDisseminator_filter d source' msg = Ok current ->
  exists h' ct' m acts, clientHashDisseminator_applyMsg h ct d source msg = Ok (h', ct', d <| chd_clients := m |>, acts)
    /\ disseminator_wf h' (d <| chd_clients := m |>).
Proof.
  intros Hwf. unfold clientHashDisseminator_filter, clientHashDisseminator_applyMsg, clientHashDisseminator_client.
  destruct msg; try done.
  - intros _. destruct (replyFetchRequest_total h d source (ra_ClientId m) (ra_ReqNo m) (ra_Digest m) Hwf) as [acts ->]. cbn.
    exists h, ct, (chd_clients d), acts. assert (d <| chd_clients := chd_clients d |> = d) as -> by (by destruct d). by split.
  - destruct (chd_clients d !! ra_ClientId m) as [c |] eqn:Hc; [| done]. intros Hf.
    destruct (disseminator_ack_spec h ct d source m c Hwf Hc) as (h' & ct' & c' & acts & l & -> & Hwf').
    + destruct (Z.ltb_spec (ra_ReqNo m) (cl_LowWatermark (c_clientState c))); [done |].
      destruct (Z.ltb_spec (c_highWatermark c) (ra_ReqNo m)); [done |]. lia.
    + cbn [mbind outcome_bind]. do 4 eexists. split; [done |]. exact Hwf'.
Qed.

Lemma oldReqNos_framedClient (h h' : reqHeap) (id id' i : Z) (m : gmap Z loc) :
  framedClient h h' id -> id' <> id -> oldReqNos h id' i m -> oldReqNos h' id' i m.
Proof.
  intros (_ & Hf1 & Hf2) Hne Hold r l Hr Hl. destruct (Hold r l Hr Hl) as (crn & Hcrn & Hid & Hrn & Hrd). exists crn.
  split; [apply Hf1; congruence |]. do 2 (split; [done |]). intros dg lr Hlr. destruct (Hrd dg lr Hlr) as (cr & Hcr & Hk).
  exists cr. split; [| done]. apply Hf2; [done |]. rewrite Hk. cbn. congruence.
Qed.

Lemma client_wf_old (h : reqHeap) (id i : Z) (nc : NetworkState_Config) (c : client) : client_wf h id nc c -> oldReqNos h id i (c_reqNoMap c).
Proof.
  intros Hwf r l _ Hl. destruct (cl_window _ _ _ _ Hwf r l Hl) as [_ (crn & H1 & H2 & H3 & _ & H5)]. exists crn. auto using crn_readable.
Qed.

(** The network states the disseminator is given. *)
Definition state_ok (ns : NetworkState) : Prop :=
  config_ok (ns_Config ns) /\ NoDup (cl_Id <$> ns_Clients ns) /\ Forall clientState_ok (ns_Clients ns).

Lemma restoreClients_spec (css : list NetworkState_Client) (seqNo : Z) (ns : NetworkState) (old : gmap Z client)
    (h : reqHeap) (ct : clientTracker) (d : clientHashDisseminator) (acts : ActionList) :
  config_ok (ns_Config ns) -> NoDup (cl_Id <$> css) -> Forall clientState_ok css -> heap_ok h -> clients_wf h (ns_Config ns) (chd_clients d) ->
  (forall cs, cs ∈ css -> chd_clients d !! cl_Id cs = None) ->
  (forall cs c i, cs ∈ css -> old !! cl_Id cs = Some c -> oldReqNos h (cl_Id cs) i (c_reqNoMap c)) ->
  exists h' ct' m acts', forRange (restoreClient seqNo ns old) css (h, ct, d, acts) = Ok (h', ct', d <| chd_clients := m |>, acts')
    /\ heap_ok h' /\ clients_wf h' (ns_Config ns) m.
Proof.
  intros Hnc. revert h ct d acts. induction css as [|cs css IH]; intros h ct d acts Hnd Hcss Hok Hcl Hnone Hold.
  - exists h, ct, (chd_clients d), acts. assert (d <| chd_clients := chd_clients d |> = d) as -> by (by destruct d). done.
  - cbn [forRange]. apply NoDup_cons in Hnd as [Hnin Hnd]. apply Forall_cons in Hcss as [Hcs Hcss].
    assert (Hfresh : forall cs', cs' ∈ css -> cl_Id cs' <> cl_Id cs). { intros cs' Hin He. apply Hnin. rewrite <- He. by apply list_elem_of_fmap_2. }
    set (c := match old !! cl_Id cs with Some c => c | None => newClient (chd_myConfig d) end).
    destruct (client_reinitialize_spec h ct c (cl_Id cs) seqNo (ns_Config ns) cs (0 <? length (ns_PendingReconfigurations ns))%nat)
      as (h1 & ct1 & c1 & acts1 & Hre & Hok1 & Hwf1 & Hf1); try done.
    { unfold c. destruct (old !! cl_Id cs) as [c0 |] eqn:Hc0; [eapply Hold; [by left | done] | done]. }
    assert (restoreClient seqNo ns old cs (h, ct, d, acts)
      = Ok (h1, ct1, d <| chd_clients ::= <[cl_Id cs := c1]> |>, ActionList_concat acts acts1)) as ->.
    { unfold restoreClient. rewrite (Hnone cs) by (by left). cbn [default option.from_option]. unfold c in Hre.
      destruct (old !! cl_Id cs); by rewrite Hre. }
    cbn [mbind outcome_bind].
    destruct (IH h1 ct1 (d <| chd_clients ::= <[cl_Id cs := c1]> |>) (ActionList_concat acts acts1)) as (h2 & ct2 & m & acts2 & -> & H2 & H3); try done.
    + by eapply clients_wf_step.
    + intros cs' Hin. cbn. rewrite lookup_insert_ne by (by apply not_eq_sym, Hfresh). apply Hnone. by right.
    + intros cs' c' i Hin Hc'. eapply oldReqNos_framedClient; [exact Hf1 | by apply Hfresh |]. apply Hold; [by right | done].
    + exists h2, ct2, m, acts2. by split.
Qed.

Lemma disseminator_reinitialize_spec (h : reqHeap) (ct : clientTracker) (d : clientHashDisseminator) (seqNo : Z) (ns : NetworkState) :
  disseminator_wf h d -> state_ok ns ->
  exists h' ct' d' acts, clientHashDisseminator_reinitialize h ct d seqNo ns = Ok (h', ct', d', acts) /\ disseminator_wf h' d'.
Proof.
  intros [Hok Hcl] (Hnc & Hnd & Hcss). unfold clientHashDisseminator_reinitialize. cbn [chd_clientStates].
  set (d1 := d <| chd_allocatedThrough := seqNo |> <| chd_networkConfig := ns_Config ns |> <| chd_clients := ∅ |> <| chd_clientStates := ns_Clients ns |>).
  change (chd_clientStates d1) with (ns_Clients ns).
  destruct (restoreClients_spec (ns_Clients ns) seqNo ns (chd_clients d) h ct d1 []) as (h' & ct' & m & acts & -> & Hok' & Hcl'); try done.
  { intros cs c i _ Hc. eapply client_wf_old. by apply Hcl. }
  cbn [mbind outcome_bind]. do 4 eexists. split; [done |]. by split.
Qed.

(** One client of the first loop of [allocate] moves its window up. *)
Definition movesUp (d : clientHashDisseminator) (cs : NetworkState_Client) : Prop :=
  forall c, chd_clients d !! cl_Id cs = Some c -> cl_LowWatermark (c_clientState c) <= cl_LowWatermark cs.

Lemma allocateClients_spec (css : list NetworkState_Client) (seqNo : Z) (reconfiguring : bool) (h h' : reqHeap) (ct ct' : clientTracker)
    (d d' : clientHashDisseminator) (acts acts' : ActionList) :
  NoDup (cl_Id <$> css) -> Forall clientState_ok css -> Forall (movesUp d) css -> disseminator_wf h d ->
  forRange (fun client (st : reqHeap * clientTracker * clientHashDisseminator * ActionList) =>
      let '(h, ct, d, actions) := st in
      c ← deref (chd_clients d !! cl_Id client) "nil pointer dereference: client";
      '(h, ct, c, more) ← client_allocate h ct c seqNo client reconfiguring;
      Ok (h, ct, d <| chd_clients ::= <[cl_Id client := c]> |>, ActionList_concat actions more)) css (h, ct, d, acts)
    = Ok (h', ct', d', acts') -> disseminator_wf h' d'.
Proof.
  revert h ct d acts. induction css as [|cs css IH]; intros h ct d acts Hnd Hcss Hup [Hok Hcl] H; cbn [forRange] in H.
  { by injection H as <- _ <- _. }
  apply NoDup_cons in Hnd as [Hnin Hnd]. apply Forall_cons in Hcss as [Hcs Hcss]. apply Forall_cons in Hup as [Hu Hup].
  apply bind_Ok in H as ([[[h1 ct1] d1] a1] & H1 & H). apply bind_Ok in H1 as (c & Hc%deref_Ok & H1).
  apply bind_Ok in H1 as ([[[h2 ct2] c2] a2] & Hal & H1). injection H1 as <- <- <- <-.
  pose proof (Hcl _ _ Hc) as Hwf. pose proof (client_config_ok _ _ _ _ Hwf) as Hnc.
  assert (Hint : intermediateHighWatermark cs = c_highWatermark c).
  { unfold client_allocate in Hal. apply bind_Ok in Hal as (u & Ha%assertTrue_Ok & _). by apply Z.eqb_eq in Ha. }
  destruct (client_allocate_spec h ct c (cl_Id cs) seqNo _ cs reconfiguring Hok Hnc Hwf Hcs eq_refl (Hu c Hc) Hint)
    as (h3 & ct3 & c3 & a3 & Hal' & Hok3 & Hwf3 & Hf3). rewrite Hal in Hal'. injection Hal' as <- <- <- <-.
  eapply IH; [done | done | | | exact H].
  - apply Forall_forall. intros cs' Hin c' Hc'. cbn in Hc'. rewrite lookup_insert_ne in Hc'.
    + apply (proj1 (Forall_forall _ _) Hup cs' Hin c' Hc').
    + intros He. apply Hnin. rewrite He. by apply list_elem_of_fmap_2.
  - split; [done |]. by eapply clients_wf_step.
Qed.

Lemma drainClientMsgs_spec (id : Z) (st st' : reqHeap * clientTracker * clientHashDisseminator * ActionList) :
  disseminator_wf st.1.1.1 st.1.2 -> drainClientMsgs id st = Ok st' -> disseminator_wf st'.1.1.1 st'.1.2.
Proof.
  destruct st as [[[h ct] d] acts]. cbn [fst snd]. intros Hwf H. unfold drainClientMsgs in H. apply bind_Ok in H as (mb & _ & H).
  apply bind_Ok in H as ([mb' [[[h1 ct1] d1] a1]] & Hit & H). injection H as <-. cbn [fst snd].
  enough (disseminator_wf h1 d1) as [H1 H2] by done. unfold msgBuffer_iterate in Hit.
  change (disseminator_wf (h1, ct1, d1, a1).1.1.1 (h1, ct1, d1, a1).1.2). revert Hit.
  change (disseminator_wf (h, ct, d, acts).1.1.1 (h, ct, d, acts).1.2) in Hwf. revert Hwf.
  generalize (h, ct, d, acts) as st, (h1, ct1, d1, a1) as st'. generalize (mb_buffer mb) at 1 as rest. generalize (@nil Msg) as before.
  intros before rest. revert mb before. induction rest as [|m rest IH]; intros mb before st st' Hwf H; cbn [iterateFrom] in H; [by injection H as _ <- |].
  destruct st as [[[h2 ct2] d2] a2]. apply bind_Ok in H as (v & Hv & H). destruct v; try (by eapply IH).
  apply bind_Ok in H as (st3 & Ha & H). eapply IH; [| exact H]. apply bind_Ok in Ha as ([[[h4 ct4] d4] a4] & Ha & Hst). injection Hst as <-.
  destruct (applyMsg_spec h2 ct2 d2 (nb_id (mb_nodeBuffer (msgBuffer_remove mb before m rest))) (nb_id (mb_nodeBuffer mb)) m Hwf Hv)
    as (h5 & ct5 & m5 & a5 & Ha' & Hwf5). cbn [fst snd]. rewrite Ha in Ha'. injection Ha' as -> -> -> ->. exact Hwf5.
Qed.

(** ** Reachable states *)

(** The states of the disseminator and of the request heap in a run: the
    network states it is given have different clients and move windows up. *)
Inductive dissReach : reqHeap -> clientHashDisseminator -> Prop :=
| dr_new nbs my : dissReach emptyHeap (newClientHashDisseminator nbs my)
| dr_reinitialize h ct d seqNo ns h' ct' d' acts :
    dissReach h d -> state_ok ns -> clientHashDisseminator_reinitialize h ct d seqNo ns = Ok (h', ct', d', acts) -> dissReach h' d'
| dr_step h ct d source msg h' ct' d' acts :
    dissReach h d -> clientHashDisseminator_step h ct d source msg = Ok (h', ct', d', acts) -> dissReach h' d'
| dr_newRequest h d ack h' acts :
    dissReach h d -> clientHashDisseminator_applyNewRequest h d ack = Ok (h', acts) -> dissReach h' d
| dr_tick h d h' acts : dissReach h d -> clientHashDisseminator_tick h d = Ok (h', acts) -> dissReach h' d
| dr_allocate h ct d seqNo ns h' ct' d' acts :
    dissReach h d -> state_ok ns -> Forall (movesUp d) (ns_Clients ns) ->
    clientHashDisseminator_allocate h ct d seqNo ns = Ok (h', ct', d', acts) -> dissReach h' d'.

Lemma step_wf (h h' : reqHeap) (ct ct' : clientTracker) (d d' : clientHashDisseminator) (source : Z) (msg : Msg) (acts : ActionList) :
  disseminator_wf h d -> clientHashDisseminator_step h ct d source msg = Ok (h', ct', d', acts) -> disseminator_wf h' d'.
Proof.
  intros Hwf H. unfold clientHashDisseminator_step in H. apply bind_Ok in H as (v & Hv & H). destruct v.
  - by injection H as <- _ <- _.
  - destruct (applyMsg_spec h ct d source source msg Hwf Hv) as (h1 & ct1 & m & a & Ha & Hwf1). rewrite Ha in H. by injection H as <- _ <- _.
  - apply bind_Ok in H as (mb & _ & H). by injection H as <- _ <- _.
  - unfold clientHashDisseminator_filter in Hv. destruct msg; try done. case_match; [| done]. case_match; [done |]. by case_match.
Qed.

Lemma applyNewRequest_wf (h h' : reqHeap) (d : clientHashDisseminator) (ack : RequestAck) (acts : ActionList) :
  disseminator_wf h d -> clientHashDisseminator_applyNewRequest h d ack = Ok (h', acts) -> disseminator_wf h' d.
Proof.
  intros [Hok Hcl] H. unfold clientHashDisseminator_applyNewRequest in H.
  destruct (chd_clients d !! ra_ClientId ack) as [c |] eqn:Hc; [| by injection H as <- _]. unfold client_inWatermarks in H.
  case_match eqn:Hw; [by injection H as <- _ |].
  destruct (client_newRequest_spec h _ _ c ack Hok (Hcl _ _ Hc) eq_refl) as (l & crn & h1 & crn1 & a & H1 & H2 & H3 & Hok1 & Hwf1 & Hf1); [lia |].
  rewrite H1 in H. cbn [mbind outcome_bind] in H. rewrite H2 in H. cbn [mbind outcome_bind] in H. rewrite H3 in H. cbn in H. injection H as <- _.
  split; [done |]. intros id c' Hc'. destruct (decide (id = ra_ClientId ack)) as [-> | Hne]; [by simplify_eq |].
  eapply client_wf_framed; [by eapply framed_client | done | by apply Hcl].
Qed.

Lemma tickClient_wf (d : clientHashDisseminator) (cs : NetworkState_Client) (st st' : reqHeap * ActionList) :
  disseminator_wf st.1 d -> tickClient d cs st = Ok st' -> disseminator_wf st'.1 d.
Proof.
  destruct st as [h1 a1], st' as [h2 a2]. intros [Hok1 Hcl1] Hb. unfold tickClient in Hb. cbn [fst snd] in *.
  apply bind_Ok in Hb as (c & Hc%deref_Ok & Hb). apply bind_Ok in Hb as ([h3 a3] & Ht & Hb). injection Hb as <- _.
  destruct (client_tick_spec h1 h3 _ _ c a3 Ht Hok1 (Hcl1 _ _ Hc)) as (Hok3 & Hwf3 & Hf3).
  split; [done |]. intros id c' Hc'. destruct (decide (id = cl_Id cs)) as [-> | Hne]; [by simplify_eq |].
  eapply client_wf_framed; [exact Hf3 | done | by apply Hcl1].
Qed.

Lemma tick_wf (h h' : reqHeap) (d : clientHashDisseminator) (acts : ActionList) :
  disseminator_wf h d -> clientHashDisseminator_tick h d = Ok (h', acts) -> disseminator_wf h' d.
Proof.
  intros Hwf H. unfold clientHashDisseminator_tick in H. change h' with (h', acts).1.
  eapply (forRange_inv (fun st : reqHeap * ActionList => disseminator_wf st.1 d)); [| | exact H]; [| done].
  intros cs st st' _. apply tickClient_wf.
Qed.

Lemma dissReach_wf (h : reqHeap) (d : clientHashDisseminator) : dissReach h d -> disseminator_wf h d.
Proof.
  induction 1 as [nbs my | h ct d seqNo ns h' ct' d' acts _ IH Hns H | h ct d source msg h' ct' d' acts _ IH H | h d ack h' acts _ IH H
    | h d h' acts _ IH H | h ct d seqNo ns h' ct' d' acts _ IH (Hnc & Hnd & Hcss) Hup H].
  - split; [| done]. intros l _. by split.
  - destruct (disseminator_reinitialize_spec h ct d seqNo ns IH Hns) as (h1 & ct1 & d1 & a1 & H1 & Hwf). rewrite H in H1. by injection H1 as -> -> -> ->.
  - by eapply step_wf.
  - by eapply applyNewRequest_wf.
  - by eapply tick_wf.
  - unfold clientHashDisseminator_allocate in H. apply bind_Ok in H as (u & _ & H). apply bind_Ok in H as ([[[h1 ct1] d1] a1] & H1 & H).
    apply allocateClients_spec in H1; [| done | done | done | by destruct IH; split].
    change (disseminator_wf (h', ct', d', acts).1.1.1 (h', ct', d', acts).1.2).
    eapply (forRange_inv (fun st : reqHeap * clientTracker * clientHashDisseminator * ActionList => disseminator_wf st.1.1.1 st.1.2));
      [| | exact H]; [| done].
    intros id st st' _ Hwf Hd. by eapply drainClientMsgs_spec.
Qed.

End Lemmas.

(** ** Ticks do not depend on the order of a range *)

Lemma bytesCompare_opp (a b : bytes) : bytesCompare b a = CompOpp (bytesCompare a b).
Proof.
  revert b. induction a as [|x a IH]; intros [|y b]; cbn; try done. rewrite (Z.compare_antisym x y). destruct (Z.compare x y); cbn; auto.
Qed.

Lemma bytesCompare_Eq (a b : bytes) : bytesCompare a b = Eq -> a = b.
Proof.
  revert b. induction a as [|x a IH]; intros [|y b]; cbn; try done. destruct (Z.compare_spec x y); try done. intros H1. subst y. f_equal. auto.
Qed.

Lemma bytesCompare_Lt_trans (a b c : bytes) : bytesCompare a b = Lt -> bytesCompare b c <> Gt -> bytesCompare a c = Lt.
Proof.
  revert b c. induction a as [|x a IH]; intros [|y b] [|z c]; cbn; try done.
  destruct (Z.compare_spec x y) as [-> | Hxy |]; try done.
  - destruct (Z.compare_spec y z) as [-> | |]; try done. apply IH.
  - intros _ Hyz. destruct (Z.compare_spec y z) as [-> | |]; try done; destruct (Z.compare_spec x z); try done; lia.
Qed.

#[local] Instance fetchOrder_total : Total fetchOrder.
Proof.
  intros x y. unfold fetchOrder. rewrite (bytesCompare_opp x.1 y.1). destruct (bytesCompare x.1 y.1); [left; done | right; done | left; done].
Qed.

#[local] Instance fetchOrder_trans : Transitive fetchOrder.
Proof.
  intros x y z. unfold fetchOrder. intros Hxy Hyz Hxz. apply Hyz.
  assert (Hyx : bytesCompare y.1 x.1 <> Gt) by (rewrite (bytesCompare_opp x.1 y.1); by destruct (bytesCompare x.1 y.1)).
  destruct (bytesCompare y.1 x.1) eqn:E; [| | done].
  - apply bytesCompare_Eq in E. congruence.
  - eapply bytesCompare_Lt_trans; [exact E |]. rewrite Hxz. done.
Qed.

(** What the third step of a tick does to one request. *)
Definition tickedFetch (cr : clientRequest) : clientRequest :=
  if negb (cr_fetching cr) then cr
  else if cr_ticksFetching cr <=? 4 then cr <| cr_ticksFetching ::= fun n => n +! 1 |>
  else cr <| cr_fetching := false |>.
Definition fetchAgain (l : loc) (cr : clientRequest) : list (bytes * loc) :=
  if cr_fetching cr && negb (cr_ticksFetching cr <=? 4) then [(str (ra_Digest (cr_ack cr)), l)] else [].

Lemma storeRequest_id (h : reqHeap) (l : loc) (cr : clientRequest) : hp_requests h !! l = Some cr -> storeRequest h l cr = h.
Proof. intros H. unfold storeRequest. destruct h. cbn in *. unfold update_field. cbn. by rewrite insert_id. Qed.

Lemma storeRequest_comm (h : reqHeap) (l1 l2 : loc) (a b : clientRequest) :
  l1 <> l2 -> storeRequest (storeRequest h l1 a) l2 b = storeRequest (storeRequest h l2 b) l1 a.
Proof. intros Hne. unfold storeRequest. destruct h. unfold update_field. cbn. f_equal. by apply insert_insert_ne. Qed.

Lemma tickFetching_eq (h : reqHeap) (dg : bytes) (l : loc) (cr : clientRequest) (acc : list (bytes * loc)) :
  hp_requests h !! l = Some cr -> tickFetching (dg, l) (h, acc) = Ok (storeRequest h l (tickedFetch cr), acc ++ fetchAgain l cr).
Proof.
  intros Hcr. unfold tickFetching, loadRequest, tickedFetch, fetchAgain. cbn [snd]. rewrite Hcr. cbn [mbind outcome_bind deref].
  destruct (cr_fetching cr); cbn [negb andb]; [| by rewrite storeRequest_id, app_nil_r]. case_match; cbn [negb]; by rewrite ?app_nil_r.
Qed.

Lemma ticked_all (h : reqHeap) (l : loc) (cr : clientRequest) (ls : list (bytes * loc)) :
  Forall (fun x => is_Some (hp_requests h !! x.2)) ls -> Forall (fun x => is_Some (hp_requests (storeRequest h l cr) !! x.2)) ls.
Proof. intros Hall. eapply Forall_impl; [exact Hall |]. intros z Hz. cbn. rewrite lookup_insert. by case_decide. Qed.

Lemma tickFetching_acc (l1 : list (bytes * loc)) (h : reqHeap) (acc1 acc2 : list (bytes * loc)) :
  Forall (fun x => is_Some (hp_requests h !! x.2)) l1 -> acc1 ≡ₚ acc2 ->
  exists h' t1 t2, forRange tickFetching l1 (h, acc1) = Ok (h', t1) /\ forRange tickFetching l1 (h, acc2) = Ok (h', t2) /\ t1 ≡ₚ t2.
Proof.
  revert h acc1 acc2. induction l1 as [|[dg l] l1 IH]; intros h a1 a2 Hall Ha; cbn [forRange]; [by exists h, a1, a2 |].
  apply Forall_cons in Hall as [[cr Hcr] Hall]. cbn in Hcr. rewrite !(tickFetching_eq _ _ _ _ _ Hcr). cbn [mbind outcome_bind].
  apply IH; [by apply ticked_all | by f_equiv].
Qed.

(** The loop over two orders of the same entries. *)
Lemma tickFetching_perm (l1 l2 : list (bytes * loc)) (h : reqHeap) (acc1 acc2 : list (bytes * loc)) :
  l1 ≡ₚ l2 -> NoDup l1.*2 -> Forall (fun x => is_Some (hp_requests h !! x.2)) l1 -> acc1 ≡ₚ acc2 ->
  exists h' t1 t2, forRange tickFetching l1 (h, acc1) = Ok (h', t1) /\ forRange tickFetching l2 (h, acc2) = Ok (h', t2) /\ t1 ≡ₚ t2.
Proof.
  intros Hp. revert h acc1 acc2. induction Hp as [| [dg l] l1 l2 Hp IH | [d1 x] [d2 y] l1 | l1 l2 l3 Hp1 IH1 Hp2 IH2];
    intros h acc1 acc2 Hnd Hall Hacc; cbn [forRange].
  - by exists h, acc1, acc2.
  - apply NoDup_cons in Hnd as [Hnin Hnd]. apply Forall_cons in Hall as [[cr Hcr] Hall]. cbn in Hnin, Hcr.
    rewrite !(tickFetching_eq _ _ _ _ _ Hcr). cbn [mbind outcome_bind]. apply IH; [done | by apply ticked_all | by f_equiv].
  - cbn in Hnd. apply NoDup_cons in Hnd as [Hn1 Hnd]. apply NoDup_cons in Hnd as [Hn2 Hnd]. apply Forall_cons in Hall as [[cry Hcry] Hall].
    apply Forall_cons in Hall as [[crx Hcrx] Hall]. cbn in Hcrx, Hcry. assert (x <> y) by (intros ->; apply Hn1; by left).
    rewrite (tickFetching_eq _ _ _ _ _ Hcry), (tickFetching_eq _ _ _ _ _ Hcrx). cbn [mbind outcome_bind].
    rewrite (tickFetching_eq _ _ x crx), (tickFetching_eq _ _ y cry) by (cbn; by rewrite lookup_insert_ne). cbn [mbind outcome_bind].
    rewrite (storeRequest_comm h y x) by done. set (h1 := storeRequest _ y _).
    apply tickFetching_acc.
    + unfold h1. by do 2 apply ticked_all.
    + rewrite <- !app_assoc. rewrite Hacc. f_equiv. apply Permutation_app_comm.
  - destruct (IH1 h acc1 acc2 Hnd Hall Hacc) as (h1 & t1 & t2 & E1 & E2 & Ht).
    destruct (IH2 h acc2 acc2) as (h2 & t3 & t4 & E3 & E4 & Ht'); [by rewrite <- Hp1 | by rewrite <- Hp1 | done |].
    rewrite E2 in E3. injection E3 as <- <-. exists h1, t1, t4. split; [done |]. split; [done |]. by etrans.
Qed.

Section TwoRanges.

Context (R1 R2 : MapRange) `{Size : ProtoSize}.

Lemma ranges_perm (m : gmap bytes loc) : @mapRange R1 m ≡ₚ @mapRange R2 m.
Proof. by rewrite !mapRange_perm. Qed.

Lemma ranges_small (m : gmap bytes loc) : (size m <= 1)%nat -> @mapRange R1 m = @mapRange R2 m.
Proof.
  intros Hm. pose proof (ranges_perm m) as Hp. pose proof (mapRange_perm (MapRange := R2) m) as H2.
  assert (Hlen : length (@mapRange R2 m) = size m) by (by rewrite H2, length_map_to_list).
  destruct (@mapRange R2 m) as [|x [|y rest]]; [by apply Permutation_nil_r | by apply Permutation_singleton_r | cbn in Hlen; lia].
Qed.

Lemma tickFetchCorrect_ranges (h : reqHeap) (crn : clientReqNo) :
  @tickFetchCorrect R1 h crn = @tickFetchCorrect R2 h crn.
Proof.
  unfold tickFetchCorrect. destruct (Nat.eqb_spec (size (crn_weakRequests crn)) 1) as [Hs | Hs]; [| done]. cbn [negb].
  by rewrite ranges_small by lia.
Qed.

Lemma tickResend_ranges (h : reqHeap) (crn : clientReqNo) : @tickResend R1 h crn = @tickResend R2 h crn.
Proof.
  unfold tickResend. case_match; [done |]. case_match; [done |].
  destruct (Nat.ltb_spec 1 (size (crn_myRequests crn))); [done |]. by rewrite ranges_small by lia.
Qed.

(** The requests to fetch again, in either order, sort to the same list. *)
Lemma tickFetching_ranges (h : reqHeap) (crn : clientReqNo) :
  good h crn -> exists h' t1 t2, forRange tickFetching (@mapRange R1 (crn_weakRequests crn)) (h, []) = Ok (h', t1)
    /\ forRange tickFetching (@mapRange R2 (crn_weakRequests crn)) (h, []) = Ok (h', t2)
    /\ merge_sort fetchOrder t1 = merge_sort fetchOrder t2.
Proof.
  intros Hg. pose proof Hg as [_ Hwf].
  assert (Hreq : forall dg l, (dg, l) ∈ @mapRange R1 (crn_weakRequests crn) ->
    exists cr, hp_requests h !! l = Some cr /\ str (ra_Digest (cr_ack cr)) = dg /\ crn_requests crn !! dg = Some l).
  { intros dg l Hin. pose proof (weak_known (Range := R1) _ _ _ _ Hg Hin) as Hl. destruct (cw_request _ _ Hwf _ _ Hl) as (cr & Hcr & [Hk _ _ _]).
    exists cr. unfold requestKey in Hk. by injection Hk as _ _ <-. }
  destruct (tickFetching_perm (@mapRange R1 (crn_weakRequests crn)) (@mapRange R2 (crn_weakRequests crn)) h [] [])
    as (h' & t1 & t2 & E1 & E2 & Ht); [apply ranges_perm | | | done |].
  - apply NoDup_fmap_2_strong; [| rewrite mapRange_perm; apply NoDup_map_to_list].
    intros [d1 l1] [d2 l2] H1 H2 E. cbn in E. subst l2. destruct (Hreq _ _ H1) as (c1 & Hc1 & <- & _), (Hreq _ _ H2) as (c2 & Hc2 & <- & _).
    by simplify_eq.
  - apply Forall_forall. intros [dg l] Hin. destruct (Hreq _ _ Hin) as (cr & Hcr & _). by eexists.
  - exists h', t1, t2. split; [done |]. split; [done |].
    assert (Hown : Forall (fun x => crn_requests crn !! x.1 = Some x.2) t1).
    { change (Forall (fun x => crn_requests crn !! x.1 = Some x.2) (h', t1).2).
      enough (Hinv : touched h (h', t1).1 crn crn /\ good (h', t1).1 crn /\ Forall (fun x => crn_requests crn !! x.1 = Some x.2) (h', t1).2) by apply Hinv.
      eapply (forRange_inv (fun st : reqHeap * list (bytes * loc) => touched h st.1 crn crn /\ good st.1 crn
        /\ Forall (fun x => crn_requests crn !! x.1 = Some x.2) st.2)); [| | exact E1]; [| split; [apply touched_refl |]; by split].
      intros [dg l] [h1 a1] [h2 a2] Hin (Ht1 & Hg1 & Ha1) Hb. cbn [fst snd] in *. pose proof (weak_known (Range := R1) _ _ _ _ Hg Hin) as Hl.
      destruct (cw_request _ _ (proj2 Hg1) _ _ Hl) as (cr & Hcr & [Hk _ _ _]). rewrite (tickFetching_eq _ _ _ _ _ Hcr) in Hb. injection Hb as <- <-.
      assert (Hst : stepOk h1 (storeRequest h1 l (tickedFetch cr)) crn crn).
      { eapply change_request; try done; unfold tickedFetch; case_match; try done; by case_match. }
      split; [by eapply touched_trans; [| apply Hst] |]. split; [apply Hst |]. apply Forall_app. split; [done |].
      unfold fetchAgain. case_match; [| done]. constructor; [| done]. cbn. unfold requestKey in Hk. by injection Hk as _ _ ->. }
    apply (Sorted_unique_strong fetchOrder).
    + intros x1 x2 H1 H2 Ho1 Ho2. rewrite merge_sort_Permutation in H1, H2. rewrite <- Ht in H2.
      pose proof (proj1 (Forall_forall _ _) Hown _ H1) as Hx1. pose proof (proj1 (Forall_forall _ _) Hown _ H2) as Hx2.
      unfold fetchOrder in Ho1, Ho2. rewrite (bytesCompare_opp x1.1 x2.1) in Ho2.
      assert (x1.1 = x2.1) as E by (apply bytesCompare_Eq; by destruct (bytesCompare x1.1 x2.1)).
      destruct x1, x2. cbn in *. congruence.
    + apply Sorted_merge_sort. apply _.
    + apply Sorted_merge_sort. apply _.
    + by rewrite !merge_sort_Permutation.
Qed.

Lemma tick_ranges (h : reqHeap) (crn : clientReqNo) : good h crn -> @clientReqNo_tick R1 h crn = @clientReqNo_tick R2 h crn.
Proof.
  intros Hg. unfold clientReqNo_tick. case_match; [done |]. set (first := if bool_decide _ && _ then _ else _).
  destruct first as [[[h1 c1] a1] | |] eqn:Hf; [| done | done]. cbn [mbind outcome_bind].
  assert (Hg1 : good h1 c1).
  { unfold first in Hf. case_match; [| by injection Hf as <- <- _].
    destruct (promoteNull_spec h crn Hg) as (hn & cn & Hp & Hst & _). rewrite Hp in Hf. injection Hf as <- <- _. apply Hst. }
  rewrite <- tickFetchCorrect_ranges. destruct (tickFetchCorrect_spec (Range := R1) h1 c1 Hg1) as (h2 & a2 & -> & Hst2). cbn [mbind outcome_bind].
  destruct (tickFetching_ranges h2 c1) as (h3 & t1 & t2 & -> & -> & Hs); [apply Hst2 |]. cbn [mbind outcome_bind]. rewrite <- Hs.
  destruct (forRange _ _ _) as [[h4 a4] | |]; [| done | done]. cbn [mbind outcome_bind]. by rewrite tickResend_ranges.
Qed.

Lemma client_tick_ranges (h : reqHeap) (id : Z) (nc : NetworkState_Config) (c : client) :
  heap_ok h -> client_wf h id nc c -> @client_tick R1 h c = @client_tick R2 h c.
Proof.
  intros Hok Hwf. unfold client_tick.
  apply (forRange_ext (fun st : reqHeap * ActionList => heap_ok st.1 /\ client_wf st.1 id nc c /\ framedClient h st.1 id)).
  - intros l [h1 a1] Hin (Hok1 & Hwf1 & _). unfold tickReqNo. cbn [fst snd] in *. destruct (loadReqNo h1 l) as [crn | |] eqn:Hl; [| done | done].
    cbn [mbind outcome_bind]. apply deref_Ok in Hl. apply list_elem_of_lookup in Hin as [k Hk].
    destruct (Forall2_lookup_r _ _ _ _ _ (cl_list _ _ _ _ Hwf1) Hk) as (r & _ & Hm).
    destruct (cl_window _ _ _ _ Hwf1 _ _ Hm) as [_ (crn' & Hl' & _ & _ & _ & Hcwf)]. simplify_eq. by rewrite tick_ranges.
  - intros l st st' Hin. by apply (tickReqNo_spec (Range := R1)).
  - split; [done |]. split; [done |]. apply framedClient_refl.
Qed.

(** C29: a tick is deterministic.  Ticking ranges over maps, whose order Go
    leaves open, yet in every reachable state the new state, the messages sent
    and their order are the same whatever the order of the ranges: where it
    could matter the code sorts, by a key that tells the entries apart. *)
Theorem tick_order_independent (h : reqHeap) (d : clientHashDisseminator) :
  @dissReach R1 Size h d -> @clientHashDisseminator_tick R1 h d = @clientHashDisseminator_tick R2 h d.
Proof.
  intros Hwf%dissReach_wf. unfold clientHashDisseminator_tick.
  apply (forRange_ext (fun st : reqHeap * ActionList => disseminator_wf st.1 d)); [| | done].
  - intros cs [h1 a1] _ [Hok1 Hcl1]. unfold tickClient. cbn [fst snd] in *. destruct (chd_clients d !! cl_Id cs) as [c |] eqn:Hc; [| done]. cbn [deref mbind outcome_bind].
    by rewrite (client_tick_ranges h1 (cl_Id cs) (chd_networkConfig d)) by (done || by apply Hcl1).
  - intros cs st st' _ H1 Hb. by eapply (tickClient_wf (Range := R1)).
Qed.

End TwoRanges.

(** ** Properties *)

Section Claims.

Context `{Range : MapRange} `{Size : ProtoSize}.


(** The messages of the disseminator never panic.  In every reachable
    state an acknowledgement or a fetch request, whatever client, request
    number and digest it names, from any node of the network is handled. *)
Theorem client_messages_handled (h : reqHeap) (ct : clientTracker) (d : clientHashDisseminator) (source : Z) (msg : Msg) :
  dissReach h d -> is_Some (chd_msgBuffers d !! source) ->
  match msg with Msg_RequestAck _ | Msg_FetchRequest _ => True | _ => False end ->
  exists h' ct' d' acts, clientHashDisseminator_step h ct d source msg = Ok (h', ct', d', acts).
Proof.
  intros Hwf%dissReach_wf [mb Hmb] Hmsg. unfold clientHashDisseminator_step.
  assert (Hv : exists v, clientHashDisseminator_filter d source msg = Ok v /\ v <> invalid).
  { unfold clientHashDisseminator_filter. destruct msg; try done; [by eexists |]. case_match; [| by eexists].
    eexists. split; [done |]. case_match; [done |]. by case_match. }
  destruct Hv as (v & Hv & Hni). rewrite Hv. cbn [mbind outcome_bind]. destruct v; [by do 4 eexists | | by rewrite Hmb; do 4 eexists | done].
  destruct (applyMsg_spec h ct d source source msg Hwf Hv) as (h' & ct' & m & acts & -> & _). by do 4 eexists.
Qed.

(** A request number that may be proposed: it has committed, or some request
    of it is stored here and acknowledged by an intersection quorum. *)
Definition proposable (h : reqHeap) (c : client) (i : Z) : Prop :=
  exists l crn, c_reqNoMap c !! i = Some l /\ hp_reqNos h !! l = Some crn
    /\ (crn_committed crn = true \/ exists dg lr cr, crn_requests crn !! dg = Some lr /\ hp_requests h !! lr = Some cr
          /\ cr_stored cr = true /\ intersectionQuorum (crn_networkConfig crn) <= agreementCount cr).

Lemma readyReqNo_spec (h : reqHeap) (crn : clientReqNo) :
  crn_wf h crn -> readyReqNo crn = true <-> exists dg lr cr, crn_requests crn !! dg = Some lr /\ hp_requests h !! lr = Some cr
    /\ cr_stored cr = true /\ intersectionQuorum (crn_networkConfig crn) <= agreementCount cr.
Proof.
  intros [Hr _ Hs Hm _]. unfold readyReqNo. rewrite existsb_exists. split.
  - intros ([dg lr] & Hin & Hmy%bool_decide_eq_true). rewrite <- list_elem_of_In, elem_of_mapRange in Hin. destruct Hmy as [l' Hl'].
    pose proof (lookup_weaken _ _ _ _ Hin Hs) as Hreq. cbn in Hl'. pose proof (lookup_weaken _ _ _ _ Hl' Hm) as Hreq'. simplify_eq.
    destruct (Hr _ _ Hreq) as (cr & Hcr & []). exists dg, lr, cr. split; [done |]. split; [done |]. by rewrite <- ce_mine0, <- ce_strong0.
  - intros (dg & lr & cr & Hreq & Hcr & Hst & Hq). destruct (Hr _ _ Hreq) as (cr' & Hcr' & []). simplify_eq.
    exists (dg, lr). rewrite <- list_elem_of_In, elem_of_mapRange, ce_strong0. split; [done |]. apply bool_decide_eq_true. exists lr. by apply ce_mine0.
Qed.

Lemma passes_proposable (h : reqHeap) (id i : Z) (nc : NetworkState_Config) (c : client) :
  client_wf h id nc c -> passes h c i <-> proposable h c i.
Proof.
  intros Hwf. split.
  - intros (l & crn & Hl & Hcrn & Hp). exists l, crn. split; [done |]. split; [done |].
    destruct (cl_window _ _ _ _ Hwf _ _ Hl) as [_ (crn' & Hcrn' & _ & _ & _ & Hcwf)]. simplify_eq.
    apply orb_true_iff in Hp as [Hp | Hp]; [by left | right]. by apply readyReqNo_spec.
  - intros (l & crn & Hl & Hcrn & Hp). exists l, crn. split; [done |]. split; [done |].
    destruct (cl_window _ _ _ _ Hwf _ _ Hl) as [_ (crn' & Hcrn' & _ & _ & _ & Hcwf)]. simplify_eq.
    apply orb_true_iff. destruct Hp as [Hp | Hp]; [by left | right]. by apply (readyReqNo_spec h).
Qed.

(** Request numbers become ready in order and without gaps.  In every
    reachable state, advancing the ready mark of a client returns, moves the
    mark over proposable numbers only, stops exactly at the first number that
    is not proposable, and appends to the ready list the passed numbers that
    have not committed, in order and each once. *)
Theorem ready_in_order (h : reqHeap) (ct : clientTracker) (d : clientHashDisseminator) (id : Z) (c : client) :
  dissReach h d -> chd_clients d !! id = Some c ->
  exists to, c_nextReadyMark c <= to <= c_highWatermark c + 1
    /\ client_advanceReady h ct c = Ok (foldl clientTracker_addReady ct (newlyReady h c (c_nextReadyMark c) to), c <| c_nextReadyMark := to |>)
    /\ (forall i, c_nextReadyMark c <= i < to -> proposable h c i) /\ ~ proposable h c to.
Proof.
  intros Hwf%dissReach_wf Hc. pose proof (proj2 Hwf _ _ Hc) as Hcw.
  destruct (advanceReadyLoop_spec _ h id _ ct c Hcw (Nat.le_refl _)) as (to & Hto & Hrun & Hall & Hno). exists to. split; [done |]. split; [done |].
  split; [| by rewrite <- passes_proposable]. intros i Hi. rewrite <- passes_proposable by done. by apply Hall.
Qed.

End Claims.

(** ** Witnesses *)

(** A network of four nodes and one client with three request numbers. *)
Definition dissState : NetworkState := mkNetworkState (mkConfig [0; 1; 2; 3] 5 100 2 1) [mkClientState 7 2 0 0 []] [] false.
Definition dissParams : EventInitialParameters := mkInitialParameters 1 1 1 1 1 1.

#[local] Existing Instance canonicalRange.
#[local] Existing Instance unitSize.

Definition dissNew : reqHeap * clientTracker * clientHashDisseminator :=
  match clientHashDisseminator_reinitialize emptyHeap newClientTracker (newClientHashDisseminator (newNodeBuffers dissParams) dissParams) 0 dissState with
  | Ok (h, ct, d, _) => (h, ct, d)
  | _ => (emptyHeap, newClientTracker, newClientHashDisseminator (newNodeBuffers dissParams) dissParams)
  end.

(** The state after this node stored a request and three nodes acknowledged it. *)
Definition ackedOnce (source : Z) (digest : slice) (st : reqHeap * clientTracker * clientHashDisseminator)
    : outcome (reqHeap * clientTracker * clientHashDisseminator) :=
  '(h, ct, d, _) ← clientHashDisseminator_step st.1.1 st.1.2 st.2 source (Msg_RequestAck (mkAck 7 0 digest));
  Ok (h, ct, d).
Definition storedOnce (digest : slice) (st : reqHeap * clientTracker * clientHashDisseminator)
    : outcome (reqHeap * clientTracker * clientHashDisseminator) :=
  '(h, _) ← clientHashDisseminator_applyNewRequest st.1.1 st.2 (mkAck 7 0 digest);
  Ok (h, st.1.2, st.2).

Lemma dissNew_reached : dissReach dissNew.1.1 dissNew.2.
Proof.
  eapply (dr_reinitialize emptyHeap newClientTracker _ 0 dissState _ dissNew.1.2 _ _ (dr_new (newNodeBuffers dissParams) dissParams)).
  - split; [unfold config_ok; cbn; lia |]. split; [by apply (bool_decide_unpack _) |].
    constructor; [unfold clientState_ok; cbn; lia | constructor].
  - vm_compute. reflexivity.
Qed.

Lemma acked_reached (source : Z) (digest : slice) (st st' : reqHeap * clientTracker * clientHashDisseminator) :
  dissReach st.1.1 st.2 -> ackedOnce source digest st = Ok st' -> dissReach st'.1.1 st'.2.
Proof.
  intros Hr H. unfold ackedOnce in H. apply bind_Ok in H as ([[[h ct] d] a] & H & [= <-]). eapply dr_step; [exact Hr | exact H].
Qed.

Lemma stored_reached (digest : slice) (st st' : reqHeap * clientTracker * clientHashDisseminator) :
  dissReach st.1.1 st.2 -> storedOnce digest st = Ok st' -> dissReach st'.1.1 st'.2.
Proof.
  intros Hr H. unfold storedOnce in H. apply bind_Ok in H as ([h a] & H & [= <-]). eapply dr_newRequest; [exact Hr | exact H].
Qed.

Definition dissAcked : reqHeap * clientTracker * clientHashDisseminator :=
  match (st ← storedOnce (Some [9]) dissNew; st ← ackedOnce 0 (Some [9]) st; ackedOnce 1 (Some [9]) st) with
  | Ok st => st
  | _ => dissNew
  end.

Lemma dissAcked_reached : dissReach dissAcked.1.1 dissAcked.2.
Proof.
  destruct (storedOnce (Some [9]) dissNew) as [st1 | |] eqn:H1; [| vm_compute in H1; discriminate ..].
  pose proof (stored_reached _ _ _ dissNew_reached H1) as R1.
  destruct (ackedOnce 0 (Some [9]) st1) as [st2 | |] eqn:H2; [| vm_compute in H1; injection H1 as <-; vm_compute in H2; discriminate ..].
  pose proof (acked_reached _ _ _ _ R1 H2) as R2.
  destruct (ackedOnce 1 (Some [9]) st2) as [st3 | |] eqn:H3;
    [| vm_compute in H1; injection H1 as <-; vm_compute in H2; injection H2 as <-; vm_compute in H3; discriminate ..].
  pose proof (acked_reached _ _ _ _ R2 H3) as R3. unfold dissAcked. rewrite H1. cbn [mbind outcome_bind]. rewrite H2. cbn [mbind outcome_bind].
  by rewrite H3.
Qed.

Definition dissClient : client := match chd_clients dissAcked.2 !! 7 with Some c => c | None => newClient dissParams end.


Lemma client_messages_handled_witness :
  exists h' ct' d' acts,
    clientHashDisseminator_step dissAcked.1.1 dissAcked.1.2 dissAcked.2 2 (Msg_RequestAck (mkAck 7 0 (Some [9]))) = Ok (h', ct', d', acts).
Proof. apply client_messages_handled; [exact dissAcked_reached | vm_compute; eexists; reflexivity | exact I]. Defined.

Definition markOf (r : outcome (clientTracker * client)) : Z := match r with Ok (_, c) => c_nextReadyMark c | _ => -1 end.

Lemma ready_in_order_witness :
  exists ct' c', client_advanceReady dissAcked.1.1 dissAcked.1.2 dissClient = Ok (ct', c')
    /\ c_nextReadyMark c' = 0 /\ ~ proposable dissAcked.1.1 dissClient 0.
Proof.
  destruct (ready_in_order dissAcked.1.1 dissAcked.1.2 dissAcked.2 7 dissClient dissAcked_reached) as (to & Hto & Hrun & _ & Hno);
    [vm_compute; reflexivity |].
  assert (Hm : markOf (client_advanceReady dissAcked.1.1 dissAcked.1.2 dissClient) = 0) by (vm_compute; reflexivity).
  rewrite Hrun in Hm. change (to = 0) in Hm. subst to.
  do 2 eexists. split; [exact Hrun |]. split; [reflexivity | exact Hno].
Defined.

(** The range in the opposite order. *)
Definition reverseRange : MapRange :=
  {| mapRange := fun m => reverse (map_to_list m); mapRange_perm := fun m => reverse_Permutation (map_to_list m) |}.

Lemma tick_order_independent_witness :
  @clientHashDisseminator_tick canonicalRange dissAcked.1.1 dissAcked.2 = @clientHashDisseminator_tick reverseRange dissAcked.1.1 dissAcked.2.
Proof. exact (tick_order_independent canonicalRange reverseRange dissAcked.1.1 dissAcked.2 dissAcked_reached). Defined.

(** The state after this node stored two requests for one number. *)
Definition dissTwo : reqHeap * clientTracker * clientHashDisseminator :=
  match (st ← storedOnce (Some [9]) dissNew; storedOnce (Some [8]) st) with Ok st => st | _ => dissNew end.

Lemma dissTwo_reached : dissReach dissTwo.1.1 dissTwo.2.
Proof.
  destruct (storedOnce (Some [9]) dissNew) as [st1 | |] eqn:H1; [| vm_compute in H1; discriminate ..].
  pose proof (stored_reached _ _ _ dissNew_reached H1) as R1.
  destruct (storedOnce (Some [8]) st1) as [st2 | |] eqn:H2; [| vm_compute in H1; injection H1 as <-; vm_compute in H2; discriminate ..].
  pose proof (stored_reached _ _ _ R1 H2) as R2. unfold dissTwo. rewrite H1. cbn [mbind outcome_bind]. by rewrite H2.
Qed.

(** [n] ticks. *)
Fixpoint ticks (n : nat) (h : reqHeap) (d : clientHashDisseminator) : outcome reqHeap :=
  match n with
  | O => Ok h
  | S n' => '(h, _) ← clientHashDisseminator_tick h d; ticks n' h d
  end.

(** A client that submits two requests for one number crashes the node.
    [applyNewRequest] means to acknowledge the null request once it holds two
    requests for a number, but its test is inverted and it does not; when the
    acknowledgement is due to be repeated, [tick] looks for the null request,
    does not find it and dereferences a nil pointer.  Here two requests for
    request number 0 are stored, twenty ticks pass, and the next one panics. *)
Theorem second_request_crashes_tick :
  dissReach dissTwo.1.1 dissTwo.2
  /\ (st1 ← storedOnce (Some [9]) dissNew; storedOnce (Some [8]) st1) = Ok dissTwo
  /\ (exists h, ticks 20 dissTwo.1.1 dissTwo.2 = Ok h)
  /\ ticks 21 dissTwo.1.1 dissTwo.2 = Panic "nil pointer dereference: null request".
Proof.
  split; [exact dissTwo_reached |]. split; [vm_compute; reflexivity |]. split; [eexists |]; vm_compute; reflexivity.
Qed.
