(* ===== verification/EpochTarget.v ===== *)
(** * Epoch target

    [pkg/statemachine/epoch_target.go]: the state machine of one epoch, from
    the collection of epoch changes over the reliable broadcast of the new
    epoch configuration to the epoch in progress.  The components a target
    points to are shared with the rest of the state machine: they are the
    record [world], passed in and out.

    The order in which Go ranges over the echo and ready maps is a parameter
    ([ConfigRange]), and so is [proto.Equal] of the protobuf library
    ([ProtoEqual]), of which its documentation is assumed: two messages are
    equal iff their fields are, where nil and empty bytes are the same. *)
From stdpp Require Import pretty.
From S2P Require Import Prelude Msgs Actions Stateless EpochChange NewEpochConfig Persisted MsgBuffers ReqHeap CommitState.
From S2P Require Import BatchTracker ClientTracker Outstanding EpochActive Disseminator.

(** ** Parameters *)

(** The fields of a configuration as the wire knows them. *)
Definition configFields (c : NewEpochConfig) : EpochConfig * Z * bytes * list bytes :=
  (nec_Config c, ckp_SeqNo (nec_StartingCheckpoint c), str (ckp_Value (nec_StartingCheckpoint c)), str <$> nec_FinalPreprepares c).

Class ProtoEqual := {
  protoEqual : NewEpochConfig -> NewEpochConfig -> bool;
  protoEqual_spec : forall a b, protoEqual a b = true <-> configFields a = configFields b;
}.

(** The votes for each configuration: Go keys the map by pointers and compares
    the messages, so a configuration has one entry. *)
Abbreviation configVotes := (list (NewEpochConfig * gset Z)).

Class ConfigRange := {
  configRange : configVotes -> configVotes;
  configRange_perm : forall m, configRange m ≡ₚ m;
}.

Class CheckpointRange := {
  checkpointRange : rangeOrder;
  checkpointRange_valid : validOrder checkpointRange;
}.

(** ** Data *)

Inductive epochTargetState :=
| etPrepending | etPending | etVerifying | etFetching | etEchoing | etReadying | etResuming | etReady | etInProgress
| etEnding | etDone.

#[global] Instance epochTargetState_eq_dec : EqDecision epochTargetState.
Proof. solve_decision. Defined.

Definition epochTargetState_iota (s : epochTargetState) : Z :=
  match s with
  | etPrepending => 0 | etPending => 1 | etVerifying => 2 | etFetching => 3 | etEchoing => 4 | etReadying => 5
  | etResuming => 6 | etReady => 7 | etInProgress => 8 | etEnding => 9 | etDone => 10
  end.

(** A change that is strong is a copy of the entry of [changes]: only its sets
    and its message are read through it, and these do not change. *)
Record epochTarget := mkEpochTarget {
  et_state : epochTargetState;
  et_stateTicks : Z;
  et_number : Z;
  et_startingSeqNo : Z;
  et_changes : gmap Z epochChange;
  et_strongChanges : gmap Z parsedEpochChange;
  et_echos : configVotes;
  et_readies : configVotes;
  et_activeEpoch : option activeEpoch;
  et_suspicions : gset Z;
  et_myNewEpoch : option NewEpoch;
  et_myEpochChange : option parsedEpochChange;
  et_myLeaderChoice : list Z;
  et_leaderNewEpoch : option NewEpoch;
  et_networkNewEpoch : option NewEpochConfig;
  et_isLeader : bool;
  et_prestartBuffers : gmap Z msgBuffer;
  et_nodeBuffers : nodeBuffers;
  et_networkConfig : NetworkState_Config;
  et_myConfig : EventInitialParameters;
}.

#[global] Instance eta_epochTarget : Eta epochTarget := mkEta (fun r =>
  mkEpochTarget (et_state r) (et_stateTicks r) (et_number r) (et_startingSeqNo r) (et_changes r) (et_strongChanges r) (et_echos r)
    (et_readies r) (et_activeEpoch r) (et_suspicions r) (et_myNewEpoch r) (et_myEpochChange r) (et_myLeaderChoice r)
    (et_leaderNewEpoch r) (et_networkNewEpoch r) (et_isLeader r) (et_prestartBuffers r) (et_nodeBuffers r) (et_networkConfig r)
    (et_myConfig r)).

(** The components a target shares with the rest of the state machine. *)
Record world := mkWorld {
  w_shared : shared;
  w_batchTracker : batchTracker;
  w_disseminator : clientHashDisseminator;
  w_reqHeap : reqHeap;
}.

#[global] Instance eta_world : Eta world := mkEta (fun r =>
  mkWorld (w_shared r) (w_batchTracker r) (w_disseminator r) (w_reqHeap r)).

Definition w_commitState (w : world) : commitState := sd_commitState (w_shared w).
Definition w_persisted (w : world) : persisted := sd_persisted (w_shared w).
Definition setPersisted (w : world) (p : persisted) : world := w <| w_shared ::= fun sd => sd <| sd_persisted := p |> |>.
Definition setCommitState (w : world) (cs : commitState) : world := w <| w_shared ::= fun sd => sd <| sd_commitState := cs |> |>.

(** ** Creation *)

Definition newEpochTarget (number : Z) (nbs : nodeBuffers) (networkConfig : NetworkState_Config) (myConfig : EventInitialParameters)
    : outcome epochTarget :=
  let prestartBuffers := foldl (fun (m : gmap Z msgBuffer) id =>
      <[id := newMsgBuffer ("epoch-" ++ pretty number ++ "-prestart")%string (nodeBuffers_nodeBuffer nbs id)]> m)
      ∅ (nc_Nodes networkConfig) in
  leader ← umod number (Z.of_nat (length (nc_Nodes networkConfig)));
  Ok (mkEpochTarget etPrepending 0 number 0 ∅ ∅ [] [] None ∅ None None [] None None (leader =? ip_Id myConfig) prestartBuffers nbs
        networkConfig myConfig).

Section Target.

Context `{PE : ProtoEqual} `{CR : ConfigRange} `{KR : CheckpointRange} `{Range : MapRange} `{Size : ProtoSize}.

(** ** Voting on configurations *)

(** The entry of [m] for a message equal to [msg], one of them is created if
    there is none; [source] is added to its votes. *)
Fixpoint addVote (source : Z) (msg : NewEpochConfig) (m : configVotes) : configVotes :=
  match m with
  | [] => [(msg, {[source]})]
  | (config, votes) :: m' =>
    if protoEqual config msg then (config, {[source]} ∪ votes) :: m' else (config, votes) :: addVote source msg m'
  end.

(** The votes for a message. *)
Fixpoint votesFor (msg : NewEpochConfig) (m : configVotes) : gset Z :=
  match m with
  | [] => ∅
  | (config, votes) :: m' => if protoEqual config msg then votes else votesFor msg m'
  end.

(** ** Constructing and verifying the new epoch *)

(** One node of the loop over the strong changes. *)
Definition remoteChange (et : epochTarget) (id : Z) (remoteChanges : list NewEpoch_RemoteEpochChange)
    : outcome (list NewEpoch_RemoteEpochChange) :=
  match et_strongChanges et !! id with
  | None => Ok remoteChanges
  | Some _ =>
    change ← deref (et_changes et !! id) "nil pointer dereference: epochChange";
    Ok (remoteChanges ++ [mkRemoteEpochChange id (ec_strongCert change)])
  end.

(** A parsed epoch change always has its message, so no strong change is
    filtered out. *)
Definition epochTarget_constructNewEpoch (et : epochTarget) (newLeaders : list Z) (nc : NetworkState_Config)
    : outcome (option NewEpoch) :=
  if Z.of_nat (size (et_strongChanges et)) <? intersectionQuorum nc then Ok None
  else
    newConfig ← constructNewEpochConfig nc (et_strongChanges et) checkpointRange newLeaders;
    match newConfig with
    | None => Ok None
    | Some newConfig =>
      remoteChanges ← forRange (remoteChange et) (nc_Nodes (et_networkConfig et)) [];
      Ok (Some (mkNewEpoch newConfig remoteChanges))
    end.

(** The epoch changes the leader's message refers to, if all of them are known
    and acknowledged by a correct node. *)
Fixpoint gatherChanges (et : epochTarget) (remote : list NewEpoch_RemoteEpochChange) (epochChanges : gmap Z parsedEpochChange)
    : option (gmap Z parsedEpochChange) :=
  match remote with
  | [] => Some epochChanges
  | r :: remote' =>
    match epochChanges !! rec_NodeId r with
    | Some _ => None
    | None =>
      match et_changes et !! rec_NodeId r with
      | None => None
      | Some change =>
        match ec_parsedByDigest change !! str (rec_Digest r) with
        | None => None
        | Some parsedChange =>
          if Z.of_nat (size (pec_acks parsedChange)) <? someCorrectQuorum (et_networkConfig et) then None
          else gatherChanges et remote' (<[rec_NodeId r := parsedChange]> epochChanges)
        end
      end
    end
  end.

(** Whether the leader's configuration follows from the epoch changes; the
    call of [advanceState] on success is part of the loop below. *)
Definition verifyNewEpochState (et : epochTarget) : outcome bool :=
  leaderNewEpoch ← deref (et_leaderNewEpoch et) "nil pointer dereference: leaderNewEpoch";
  match gatherChanges et (ne_EpochChanges leaderNewEpoch) ∅ with
  | None => Ok false
  | Some epochChanges =>
    newEpochConfig ← constructNewEpochConfig (et_networkConfig et) epochChanges checkpointRange
        (ec_Leaders (nec_Config (ne_NewConfig leaderNewEpoch)));
    Ok match newEpochConfig with
       | None => false
       | Some newEpochConfig => protoEqual newEpochConfig (ne_NewConfig leaderNewEpoch)
       end
  end.

(** ** Fetching the state of the new epoch *)

(** The nodes whose Q set has a digest for a sequence number. *)
Definition digestSource (et : epochTarget) (seqNo : Z) (digest : slice) (r : NewEpoch_RemoteEpochChange) (sources : list Z)
    : outcome (list Z) :=
  change ← deref (et_changes et !! rec_NodeId r) "nil pointer dereference: epochChange";
  parsedChange ← deref (ec_parsedByDigest change !! str (rec_Digest r)) "nil pointer dereference: parsedEpochChange";
  let views := default ∅ (pec_qSet parsedChange !! seqNo) in
  Ok (if existsb (fun e => bytesEqual e.2 digest) (map_to_list views) then sources ++ [rec_NodeId r] else sources).

(** The acknowledgement of one request by one source. *)
Definition ackFromSource (requestAck : RequestAck) (id : Z) (st : world * ActionList * option loc)
    : outcome (world * ActionList * option loc) :=
  let '(w, actions, _) := st in
  '(h, ct, d, more, l) ← clientHashDisseminator_ack (w_reqHeap w) (sd_clientTracker (w_shared w)) (w_disseminator w) id requestAck;
  Ok (w <| w_reqHeap := h |> <| w_disseminator := d |> <| w_shared ::= fun sd => sd <| sd_clientTracker := ct |> |>,
      ActionList_concat actions more, Some l).

(** One request of a batch that was selected. *)
Definition fetchRequestAck (sources : list Z) (requestAck : RequestAck) (st : world * ActionList * bool)
    : outcome (world * ActionList * bool) :=
  let '(w, actions, fetchPending) := st in
  '(w, actions, cr) ← forRange (ackFromSource requestAck) sources (w, actions, None);
  l ← deref cr "nil pointer dereference: clientRequest";
  data ← loadRequest (w_reqHeap w) l;
  if cr_stored data then Ok (w, actions, fetchPending)
  else
    '(h, more) ← fetchAt (w_reqHeap w) l;
    Ok (w <| w_reqHeap := h |>, ActionList_concat actions more, true).

(** One of the final preprepares. *)
Definition fetchPreprepare (et : epochTarget) (leaderNewEpoch : NewEpoch) (entry : nat * slice) (st : world * ActionList * bool)
    : outcome (world * ActionList * bool) :=
  let '(w, actions, fetchPending) := st in
  let '(i, digest) := entry in
  if (slen digest =? 0)%nat then Ok st
  else
    let seqNo := u64 (Z.of_nat i) +! ckp_SeqNo (nec_StartingCheckpoint (ne_NewConfig leaderNewEpoch)) +! 1 in
    if seqNo <=? cs_highestCommit (w_commitState w) then Ok st
    else
      sources ← forRange (digestSource et seqNo digest) (ne_EpochChanges leaderNewEpoch) [];
      if Z.of_nat (length sources) <? someCorrectQuorum (et_networkConfig et) then Panic "dev only, should never be true"
      else
        match batchTracker_getBatch (w_batchTracker w) digest with
        | None =>
          let '(bt, more) := batchTracker_fetchBatch (w_batchTracker w) seqNo digest sources in
          Ok (w <| w_batchTracker := bt |>, ActionList_concat actions more, true)
        | Some batch =>
          let w := w <| w_batchTracker ::= fun bt => batchTracker_observe bt digest seqNo |> in
          forRange (fetchRequestAck sources) (b_requestAcks batch) (w, actions, fetchPending)
        end.

(** Appends a log entry to the shared log. *)
Definition persistEntry (entry : Persistent) (st : world * ActionList) : outcome (world * ActionList) :=
  let '(w, actions) := st in
  '(p, more) ← persisted_appendLogEntry (w_persisted w) entry;
  Ok (setPersisted w p, ActionList_concat actions more).

(** One of the final preprepares, written to the log. *)
Definition persistPreprepare (et : epochTarget) (newEpochConfig : NewEpochConfig) (entry : nat * slice) (st : world * ActionList)
    : outcome (world * ActionList) :=
  let '(i, digest) := entry in
  let seqNo := u64 (Z.of_nat i) +! ckp_SeqNo (nec_StartingCheckpoint newEpochConfig) +! 1 in
  if (slen digest =? 0)%nat then persistEntry (Persistent_QEntry (mkQEntry seqNo None [])) st
  else
    batch ← deref (batchTracker_getBatch (w_batchTracker st.1) digest) "dev sanity check -- batch was just found above";
    st ← persistEntry (Persistent_QEntry (mkQEntry seqNo digest (b_requestAcks batch))) st;
    r ← umod seqNo (u64 (nc_CheckpointInterval (et_networkConfig et)));
    if (r =? 0) && (seqNo <? cs_stopAtSeqNo (w_commitState st.1))
    then persistEntry (Persistent_NEntry (mkNEntry (seqNo +! 1) (nec_Config newEpochConfig))) st
    else Ok st.

Definition epochTarget_fetchNewEpochState (w : world) (et : epochTarget) : outcome (world * epochTarget * ActionList) :=
  leaderNewEpoch ← deref (et_leaderNewEpoch et) "nil pointer dereference: leaderNewEpoch";
  let newEpochConfig := ne_NewConfig leaderNewEpoch in
  let start := ckp_SeqNo (nec_StartingCheckpoint newEpochConfig) in
  if cs_transferring (w_commitState w) then Ok (w, et, [])
  else if cs_highestCommit (w_commitState w) <? start then
    '(cs, p, actions) ← commitState_transferTo (w_commitState w) (w_persisted w) start (ckp_Value (nec_StartingCheckpoint newEpochConfig));
    Ok (setPersisted (setCommitState w cs) p, et, actions)
  else
    '(w, actions, fetchPending) ← forRange (fetchPreprepare et leaderNewEpoch)
        (imap pair (nec_FinalPreprepares newEpochConfig)) (w, [], false);
    if (fetchPending : bool) then Ok (w, et, actions)
    else if cs_lowWatermark (w_commitState w) <? start then Ok (w, et, actions)
    else
      let et := et <| et_state := etEchoing |> in
      if (start =? cs_stopAtSeqNo (w_commitState w)) && (0 <? length (nec_FinalPreprepares newEpochConfig))%nat
      then Panic "deal with this"
      else
        st ← persistEntry (Persistent_NEntry (mkNEntry (start +! 1) (nec_Config newEpochConfig))) (w, actions);
        '(w, actions) ← forRange (persistPreprepare et newEpochConfig) (imap pair (nec_FinalPreprepares newEpochConfig)) st;
        let et := et <| et_startingSeqNo := start +! u64 (Z.of_nat (length (nec_FinalPreprepares newEpochConfig))) +! 1 |> in
        Ok (w, et, ActionList_Send actions (nc_Nodes (et_networkConfig et)) (Msg_NewEpochEcho newEpochConfig)).

(** ** The broadcast *)

Definition epochTarget_checkEpochQuorum (et : epochTarget) : outcome (epochTarget * ActionList) :=
  if (Z.of_nat (size (et_strongChanges et)) <? intersectionQuorum (et_networkConfig et))
     || bool_decide (et_myEpochChange et = None) then Ok (et, [])
  else
    myNewEpoch ← epochTarget_constructNewEpoch et (et_myLeaderChoice et) (et_networkConfig et);
    let et := et <| et_myNewEpoch := myNewEpoch |> in
    match myNewEpoch with
    | None => Ok (et, [])
    | Some newEpoch =>
      let et := et <| et_stateTicks := 0 |> <| et_state := etPending |> in
      Ok (et, if et_isLeader et then ActionList_Send [] (nc_Nodes (et_networkConfig et)) (Msg_NewEpoch newEpoch) else [])
    end.

(** The first configuration the range finds with a quorum of echos. *)
Fixpoint echoQuorum (nc : NetworkState_Config) (m : configVotes) : option NewEpochConfig :=
  match m with
  | [] => None
  | (config, msgEchos) :: m' =>
    if Z.of_nat (size msgEchos) <? intersectionQuorum nc then echoQuorum nc m' else Some config
  end.

Definition epochTarget_checkNewEpochEchoQuorum (w : world) (et : epochTarget) : outcome (world * epochTarget * ActionList) :=
  match echoQuorum (et_networkConfig et) (configRange (et_echos et)) with
  | None => Ok (w, et, [])
  | Some config =>
    let et := et <| et_state := etReadying |> in
    '(w, actions) ← forRange (fun (entry : nat * slice) (st : world * ActionList) =>
        let seqNo := u64 (Z.of_nat entry.1) +! ckp_SeqNo (nec_StartingCheckpoint config) +! 1 in
        persistEntry (Persistent_PEntry (mkPEntry seqNo entry.2)) st)
      (imap pair (nec_FinalPreprepares config)) (w, []);
    Ok (w, et, ActionList_Send actions (nc_Nodes (et_networkConfig et)) (Msg_NewEpochReady config))
  end.

(** The entries of the current epoch, handed to the commit state; the first
    component is the variable [currentEpoch]. *)
Definition commitIterator (number : Z) : logIterator (bool * commitState) :=
  (emptyIterator (bool * commitState))
    <| onQEntry := fun qEntry st => if negb st.1 then Ok st else cs ← commitState_commit st.2 qEntry; Ok (st.1, cs) |>
    <| onECEntry := fun ecEntry st =>
         if ece_EpochNumber ecEntry <? number then Ok st
         else
           _ ← assertTrue (ece_EpochNumber ecEntry <=? number) "my epoch change entries cannot exceed the current target epoch";
           Ok (true, st.2) |>.

(** One configuration of the loop, which has no early exit. *)
Definition checkReadies (entry : NewEpochConfig * gset Z) (st : world * epochTarget) : outcome (world * epochTarget) :=
  let '(w, et) := st in
  let '(config, msgReadies) := entry in
  if Z.of_nat (size msgReadies) <? intersectionQuorum (et_networkConfig et) then Ok st
  else
    let et := et <| et_state := etResuming |> <| et_networkNewEpoch := Some config |> in
    '(_, cs) ← persisted_iterate (w_persisted w) (commitIterator (ec_Number (nec_Config config))) (false, w_commitState w);
    Ok (setCommitState w cs, et).

Definition epochTarget_checkNewEpochReadyQuorum (w : world) (et : epochTarget) : outcome (world * epochTarget) :=
  forRange checkReadies (configRange (et_readies et)) (w, et).

Definition epochTarget_checkEpochResumed (w : world) (et : epochTarget) : epochTarget :=
  if cs_stopAtSeqNo (w_commitState w) <? et_startingSeqNo et then et
  else if negb (cs_lowWatermark (w_commitState w) +! 1 =? et_startingSeqNo et) then et
  else et <| et_state := etReady |>.

(** ** The loop of [advanceState] *)

(** The body of the case [etReady]. *)
Definition beginEpoch (w : world) (et : epochTarget) : outcome (world * epochTarget * ActionList) :=
  config ← deref (et_networkNewEpoch et) "nil pointer dereference: networkNewEpoch";
  '(sd, ae) ← newActiveEpoch (w_reqHeap w) (w_shared w) (et_nodeBuffers et) (nec_Config config) (et_myConfig et);
  '(sd, ae, actions) ← activeEpoch_advance (w_reqHeap w) sd ae;
  '(sd, ae, actions, buffers) ← forRange
    (fun id (st : shared * activeEpoch * ActionList * gmap Z msgBuffer) =>
      let '(sd, ae, actions, buffers) := st in
      mb ← deref (buffers !! id) "nil pointer dereference: msgBuffer";
      '(mb, (sd, ae, actions)) ← msgBuffer_iterate (fun _ _ _ => Ok current)
          (fun source msg (st : shared * activeEpoch * ActionList) =>
             let '(sd, ae, actions) := st in
             '(sd, ae, more) ← activeEpoch_step (w_reqHeap w) sd ae source msg;
             Ok (sd, ae, ActionList_concat actions more))
          mb (sd, ae, actions);
      Ok (sd, ae, actions, <[id := mb]> buffers))
    (nc_Nodes (et_networkConfig et)) (sd, ae, actions, et_prestartBuffers et);
  '(sd, ae, more) ← activeEpoch_drainBuffers (w_reqHeap w) sd ae;
  Ok (w <| w_shared := sd |>,
      et <| et_activeEpoch := Some ae |> <| et_state := etInProgress |> <| et_prestartBuffers := buffers |>,
      ActionList_concat actions more).

(** The body of the case [etInProgress]. *)
Definition runEpoch (w : world) (et : epochTarget) : outcome (world * epochTarget * ActionList) :=
  ae ← deref (et_activeEpoch et) "nil pointer dereference: activeEpoch";
  let sd := w_shared w in
  '(p, sh, ct, ao, actions) ← allOutstandingReqs_advanceRequests (w_reqHeap w) (sd_persisted sd) (ae_seqHeap ae) (sd_clientTracker sd)
      (ae_outstandingReqs ae);
  let sd := sd <| sd_persisted := p |> <| sd_clientTracker := ct |> in
  let ae := ae <| ae_seqHeap := sh |> <| ae_outstandingReqs := ao |> in
  '(sd, ae, more) ← activeEpoch_advance (w_reqHeap w) sd ae;
  Ok (w <| w_shared := sd |>, et <| et_activeEpoch := Some ae |>, ActionList_concat actions more).

(** The loop; [verifyNewEpochState] calls [advanceState] again, which is the
    nested call. *)
Fixpoint targetLoop (fuel : nat) (w : world) (et : epochTarget) (actions : ActionList) : outcome (world * epochTarget * ActionList) :=
  match fuel with
  | O => OutOfFuel
  | S fuel' =>
    let oldState := et_state et in
    let continue (r : world * epochTarget * ActionList) :=
      let '(w, et, more) := r in
      let actions := ActionList_concat actions more in
      if decide (et_state et = oldState) then Ok (w, et, actions) else targetLoop fuel' w et actions in
    match et_state et with
    | etPrepending => '(et, more) ← epochTarget_checkEpochQuorum et; continue (w, et, more)
    | etPending =>
      match et_leaderNewEpoch et with
      | None => Ok (w, et, actions)
      | Some _ => continue (w, et <| et_state := etVerifying |>, [])
      end
    | etVerifying =>
      verified ← verifyNewEpochState et;
      if (verified : bool) then r ← targetLoop fuel' w (et <| et_state := etFetching |>) []; continue r
      else continue (w, et, [])
    | etFetching => r ← epochTarget_fetchNewEpochState w et; continue r
    | etEchoing => r ← epochTarget_checkNewEpochEchoQuorum w et; continue r
    | etReadying => '(w, et) ← epochTarget_checkNewEpochReadyQuorum w et; continue (w, et, [])
    | etResuming => continue (w, epochTarget_checkEpochResumed w et, [])
    | etReady => r ← beginEpoch w et; continue r
    | etInProgress => r ← runEpoch w et; continue r
    | etDone => continue (w, et, [])
    | etEnding => Panic "dev sanity test"
    end
  end.

(** Every iteration but the last moves to a later one of the states up to
    [etInProgress], so ten iterations are enough ([advanceState_fuel]). *)
Definition epochTarget_advanceState (w : world) (et : epochTarget) : outcome (world * epochTarget * ActionList) :=
  targetLoop 10 w et [].

(** ** Handlers *)

Definition epochTarget_step (w : world) (et : epochTarget) (source : Z) (msg : Msg) : outcome (world * epochTarget * ActionList) :=
  if epochTargetState_iota (et_state et) <? epochTargetState_iota etInProgress then
    mb ← deref (et_prestartBuffers et !! source) "nil pointer dereference: msgBuffer";
    Ok (w, et <| et_prestartBuffers ::= <[source := msgBuffer_store mb msg]> |>, [])
  else if bool_decide (et_state et = etDone) then Ok (w, et, [])
  else
    ae ← deref (et_activeEpoch et) "nil pointer dereference: activeEpoch";
    '(sd, ae, actions) ← activeEpoch_step (w_reqHeap w) (w_shared w) ae source msg;
    Ok (w <| w_shared := sd |>, et <| et_activeEpoch := Some ae |>, actions).

Definition epochTarget_repeatEpochChangeBroadcast (et : epochTarget) : outcome ActionList :=
  change ← deref (et_myEpochChange et) "nil pointer dereference: myEpochChange";
  Ok (ActionList_Send [] (nc_Nodes (et_networkConfig et)) (Msg_EpochChange (pec_underlying change))).

(** A nil [NewEpoch] inside a message is the message without fields. *)
Definition sentNewEpoch (et : epochTarget) : NewEpoch :=
  default (mkNewEpoch (mkNewEpochConfig (mkEpochConfig 0 [] 0) (mkCheckpoint 0 None) []) []) (et_myNewEpoch et).

Definition epochTarget_tickPrepending (et : epochTarget) : outcome ActionList :=
  match et_myNewEpoch et with
  | None =>
    r ← umod (et_stateTicks et) (ip_NewEpochTimeoutTicks (et_myConfig et) / 2);
    if r =? 0 then epochTarget_repeatEpochChangeBroadcast et else Ok []
  | Some newEpoch =>
    Ok (if et_isLeader et then ActionList_Send [] (nc_Nodes (et_networkConfig et)) (Msg_NewEpoch newEpoch) else [])
  end.

Definition epochTarget_tickPending (w : world) (et : epochTarget) : outcome (world * ActionList) :=
  pendingTicks ← umod (et_stateTicks et) (ip_NewEpochTimeoutTicks (et_myConfig et));
  if et_isLeader et then
    Ok (w, if pendingTicks mod 2 =? 0 then ActionList_Send [] (nc_Nodes (et_networkConfig et)) (Msg_NewEpoch (sentNewEpoch et)) else [])
  else if pendingTicks =? 0 then
    newEpoch ← deref (et_myNewEpoch et) "nil pointer dereference: myNewEpoch";
    let suspect := mkSuspect (ec_Number (nec_Config (ne_NewConfig newEpoch))) in
    '(p, more) ← persisted_addSuspect (w_persisted w) suspect;
    Ok (setPersisted w p, ActionList_concat (ActionList_Send [] (nc_Nodes (et_networkConfig et)) (Msg_Suspect suspect)) more)
  else if pendingTicks mod 2 =? 0 then
    actions ← epochTarget_repeatEpochChangeBroadcast et;
    Ok (w, actions)
  else Ok (w, []).

Definition epochTarget_tick (w : world) (et : epochTarget) : outcome (world * epochTarget * ActionList) :=
  let et := et <| et_stateTicks ::= fun n => n +! 1 |> in
  if bool_decide (et_state et = etPrepending) then
    actions ← epochTarget_tickPrepending et;
    Ok (w, et, actions)
  else if epochTargetState_iota (et_state et) <=? epochTargetState_iota etResuming then
    '(w, actions) ← epochTarget_tickPending w et;
    Ok (w, et, actions)
  else if epochTargetState_iota (et_state et) <=? epochTargetState_iota etInProgress then
    ae ← deref (et_activeEpoch et) "nil pointer dereference: activeEpoch";
    '(sd, ae, actions) ← activeEpoch_tick (w_reqHeap w) (w_shared w) ae;
    Ok (w <| w_shared := sd |>, et <| et_activeEpoch := Some ae |>, actions)
  else Ok (w, et, []).

Definition epochTarget_applyEpochChangeAckMsg (et : epochTarget) (source origin : Z) (msg : EpochChange) : ActionList :=
  ActionList_Hash [] (epochChangeHashData msg) (HashOrigin_isEpochChange (mkHashEpochChange source origin msg)).

Definition epochTarget_applyEpochChangeMsg (et : epochTarget) (source : Z) (msg : EpochChange) : ActionList :=
  let actions := if negb (source =? ip_Id (et_myConfig et))
                 then ActionList_Send [] (nc_Nodes (et_networkConfig et)) (Msg_EpochChangeAck (mkEpochChangeAck source msg)) else [] in
  ActionList_concat actions (epochTarget_applyEpochChangeAckMsg et source source msg).

(** A strong certificate names a parsed change ([addMsg_wf]). *)
Definition epochTarget_applyEpochChangeDigest (w : world) (et : epochTarget) (processedChange : HashOrigin_EpochChange) (digest : slice)
    : outcome (world * epochTarget * ActionList) :=
  let originNode := he_Origin processedChange in
  let change := default (mkEpochChangeState (et_networkConfig et) ∅ None) (et_changes et !! originNode) in
  let change := epochChange_addMsg change (he_Source processedChange) (he_EpochChange processedChange) digest in
  let et := et <| et_changes ::= <[originNode := change]> |> in
  if negb (notNil (ec_strongCert change)) then Ok (w, et, [])
  else if bool_decide (is_Some (et_strongChanges et !! originNode)) then Ok (w, et, [])
  else
    parsed ← deref (ec_parsedByDigest change !! str (ec_strongCert change)) "a nil strong change";
    epochTarget_advanceState w (et <| et_strongChanges ::= <[originNode := parsed]> |>).

Definition epochTarget_applyNewEpochMsg (w : world) (et : epochTarget) (msg : NewEpoch) : outcome (world * epochTarget * ActionList) :=
  epochTarget_advanceState w (et <| et_leaderNewEpoch := Some msg |>).

Definition epochTarget_applyNewEpochEchoMsg (w : world) (et : epochTarget) (source : Z) (msg : NewEpochConfig)
    : outcome (world * epochTarget * ActionList) :=
  epochTarget_advanceState w (et <| et_echos ::= addVote source msg |>).

Definition epochTarget_applyNewEpochReadyMsg (w : world) (et : epochTarget) (source : Z) (msg : NewEpochConfig)
    : outcome (world * epochTarget * ActionList) :=
  if epochTargetState_iota etReadying <? epochTargetState_iota (et_state et) then Ok (w, et, [])
  else
    let et := et <| et_readies ::= addVote source msg |> in
    if Z.of_nat (size (votesFor msg (et_readies et))) <? someCorrectQuorum (et_networkConfig et) then Ok (w, et, [])
    else if epochTargetState_iota (et_state et) <? epochTargetState_iota etEchoing then epochTarget_advanceState w et
    else if epochTargetState_iota (et_state et) <? epochTargetState_iota etReadying then
      Ok (w, et <| et_state := etReadying |>, ActionList_Send [] (nc_Nodes (et_networkConfig et)) (Msg_NewEpochReady msg))
    else epochTarget_advanceState w et.

Definition epochTarget_moveLowWatermark (w : world) (et : epochTarget) (seqNo : Z) : outcome (world * epochTarget * ActionList) :=
  if negb (bool_decide (et_state et = etInProgress)) then Ok (w, et, [])
  else
    ae ← deref (et_activeEpoch et) "nil pointer dereference: activeEpoch";
    '(sd, ae, actions, done) ← activeEpoch_moveLowWatermark (w_reqHeap w) (w_shared w) ae seqNo;
    let et := et <| et_activeEpoch := Some ae |> in
    Ok (w <| w_shared := sd |>, if (done : bool) then et <| et_state := etDone |> else et, actions).

Definition epochTarget_applySuspectMsg (et : epochTarget) (source : Z) : epochTarget :=
  let et := et <| et_suspicions ::= fun s => {[source]} ∪ s |> in
  if intersectionQuorum (et_networkConfig et) <=? Z.of_nat (size (et_suspicions et)) then et <| et_state := etDone |> else et.

End Target.

(** ** Specification and lemmas *)

(** The iterations left from a state: those up to [etInProgress]. *)
Definition loopBound (s : epochTargetState) : nat :=
  if decide (epochTargetState_iota s <= 8) then Z.to_nat (9 - epochTargetState_iota s) else 1.

Lemma loopBound_pos (s : epochTargetState) : (1 <= loopBound s)%nat.
Proof. apply (bool_decide_unpack _). by destruct s. Qed.

(** No operation moves a target back. *)
Definition movesOn (et et' : epochTarget) : Prop := epochTargetState_iota (et_state et) <= epochTargetState_iota (et_state et').

Section TargetLemmas.

Context `{PE : ProtoEqual} `{CR : ConfigRange} `{KR : CheckpointRange} `{Range : MapRange} `{Size : ProtoSize}.

Lemma checkEpochQuorum_state (et et' : epochTarget) (acts : ActionList) :
  et_state et = etPrepending -> epochTarget_checkEpochQuorum et = Ok (et', acts) -> et_state et' = etPrepending \/ et_state et' = etPending.
Proof.
  intros Hst H. unfold epochTarget_checkEpochQuorum in H. case_match; [injection H as <- _; by left |].
  apply bind_Ok in H as (ne & _ & H). case_match; injection H as <- _; [by right | by left].
Qed.

Lemma fetchNewEpochState_state (w w' : world) (et et' : epochTarget) (acts : ActionList) :
  et_state et = etFetching -> epochTarget_fetchNewEpochState w et = Ok (w', et', acts) -> et_state et' = etFetching \/ et_state et' = etEchoing.
Proof.
  intros Hst H. unfold epochTarget_fetchNewEpochState in H. apply bind_Ok in H as (ne & _ & H).
  case_match; [injection H as _ <- _; by left |]. case_match.
  { apply bind_Ok in H as ([[cs p] a] & _ & H). injection H as _ <- _. by left. }
  apply bind_Ok in H as ([[w1 a1] fp] & _ & H). case_match; [injection H as _ <- _; by left |]. case_match; [injection H as _ <- _; by left |].
  case_match; [done |]. apply bind_Ok in H as (st & _ & H). apply bind_Ok in H as ([w2 a2] & _ & H). injection H as _ <- _. by right.
Qed.

Lemma checkEcho_state (w w' : world) (et et' : epochTarget) (acts : ActionList) :
  et_state et = etEchoing -> epochTarget_checkNewEpochEchoQuorum w et = Ok (w', et', acts) -> et_state et' = etEchoing \/ et_state et' = etReadying.
Proof.
  intros Hst H. unfold epochTarget_checkNewEpochEchoQuorum in H. case_match; [| injection H as _ <- _; by left].
  apply bind_Ok in H as ([w2 a2] & _ & H). injection H as _ <- _. by right.
Qed.

Lemma checkReady_state (w w' : world) (et et' : epochTarget) :
  et_state et = etReadying -> epochTarget_checkNewEpochReadyQuorum w et = Ok (w', et') -> et_state et' = etReadying \/ et_state et' = etResuming.
Proof.
  intros Hst H. unfold epochTarget_checkNewEpochReadyQuorum in H. change et' with (w', et').2.
  eapply (forRange_inv (fun st : world * epochTarget => et_state st.2 = etReadying \/ et_state st.2 = etResuming)); [| | exact H]; [| by left].
  intros [config votes] [w1 et1] [w2 et2] _ Hs Hb. cbn in Hb, Hs |- *. case_match; [by injection Hb as _ <- |].
  apply bind_Ok in Hb as ([b cs] & _ & Hb). injection Hb as _ <-. by right.
Qed.

Lemma checkResumed_state (w : world) (et : epochTarget) :
  et_state et = etResuming -> et_state (epochTarget_checkEpochResumed w et) = etResuming \/ et_state (epochTarget_checkEpochResumed w et) = etReady.
Proof. intros Hst. unfold epochTarget_checkEpochResumed. case_match; [by left |]. case_match; [by left | by right]. Qed.

Lemma beginEpoch_state (w w' : world) (et et' : epochTarget) (acts : ActionList) :
  beginEpoch w et = Ok (w', et', acts) -> et_state et' = etInProgress.
Proof.
  intros H. unfold beginEpoch in H. apply bind_Ok in H as (c & _ & H). apply bind_Ok in H as ([sd ae] & _ & H).
  apply bind_Ok in H as ([[sd1 ae1] a1] & _ & H). apply bind_Ok in H as ([[[sd2 ae2] a2] b2] & _ & H).
  apply bind_Ok in H as ([[sd3 ae3] a3] & _ & H). by injection H as _ <- _.
Qed.

Lemma runEpoch_state (w w' : world) (et et' : epochTarget) (acts : ActionList) :
  runEpoch w et = Ok (w', et', acts) -> et_state et' = et_state et.
Proof.
  intros H. unfold runEpoch in H. apply bind_Ok in H as (ae & _ & H). apply bind_Ok in H as ([[[[p sh] ct] ao] a] & _ & H).
  apply bind_Ok in H as ([[sd1 ae1] a1] & _ & H). by injection H as _ <- _.
Qed.

(** What one iteration continues with. *)
Definition iteration (again : world -> epochTarget -> ActionList -> outcome (world * epochTarget * ActionList)) (w : world) (et : epochTarget)
    : outcome (option (world * epochTarget * ActionList)) :=
  match et_state et with
  | etPrepending => '(et, more) ← epochTarget_checkEpochQuorum et; Ok (Some (w, et, more))
  | etPending => Ok match et_leaderNewEpoch et with None => None | Some _ => Some (w, et <| et_state := etVerifying |>, []) end
  | etVerifying =>
    verified ← verifyNewEpochState et;
    if (verified : bool) then r ← again w (et <| et_state := etFetching |>) []; Ok (Some r) else Ok (Some (w, et, []))
  | etFetching => r ← epochTarget_fetchNewEpochState w et; Ok (Some r)
  | etEchoing => r ← epochTarget_checkNewEpochEchoQuorum w et; Ok (Some r)
  | etReadying => '(w, et) ← epochTarget_checkNewEpochReadyQuorum w et; Ok (Some (w, et, []))
  | etResuming => Ok (Some (w, epochTarget_checkEpochResumed w et, []))
  | etReady => r ← beginEpoch w et; Ok (Some r)
  | etInProgress => r ← runEpoch w et; Ok (Some r)
  | etDone => Ok (Some (w, et, []))
  | etEnding => Panic "dev sanity test"
  end.

Lemma targetLoop_step (fuel : nat) (w : world) (et : epochTarget) (actions : ActionList) :
  targetLoop (S fuel) w et actions = (
    r ← iteration (targetLoop fuel) w et;
    match r with
    | None => Ok (w, et, actions)
    | Some (w', et', more) =>
      if decide (et_state et' = et_state et) then Ok (w', et', ActionList_concat actions more)
      else targetLoop fuel w' et' (ActionList_concat actions more)
    end).
Proof.
  cbn [targetLoop]. unfold iteration. destruct (et_state et) eqn:Hst.
  - destruct (epochTarget_checkEpochQuorum et) as [[et1 m1] | |]; done.
  - by destruct (et_leaderNewEpoch et).
  - destruct (verifyNewEpochState et) as [[|] | |]; cbn [mbind outcome_bind]; [| by rewrite Hst | done | done].
    destruct (targetLoop fuel w _ []) as [[[w1 et1] m1] | |]; done.
  - destruct (epochTarget_fetchNewEpochState w et) as [[[w1 et1] m1] | |]; done.
  - destruct (epochTarget_checkNewEpochEchoQuorum w et) as [[[w1 et1] m1] | |]; done.
  - destruct (epochTarget_checkNewEpochReadyQuorum w et) as [[w1 et1] | |]; done.
  - done.
  - destruct (beginEpoch w et) as [[[w1 et1] m1] | |]; done.
  - destruct (runEpoch w et) as [[[w1 et1] m1] | |]; done.
  - done.
  - cbn. by rewrite Hst.
Qed.

(** An iteration stays in its state or moves to a later one, at most to
    [etInProgress]. *)
Definition advances (s s' : epochTargetState) : Prop :=
  s' = s \/ (epochTargetState_iota s < epochTargetState_iota s' <= 8).

Lemma iteration_state (again : world -> epochTarget -> ActionList -> outcome (world * epochTarget * ActionList)) (w w' : world)
    (et et' : epochTarget) (more : ActionList) :
  (forall w w' et et' acts acts', et_state et = etFetching -> again w et acts = Ok (w', et', acts') -> advances (et_state et) (et_state et')) ->
  iteration again w et = Ok (Some (w', et', more)) -> advances (et_state et) (et_state et').
Proof.
  intros Hag H. unfold iteration in H. unfold advances. destruct (et_state et) eqn:Hst.
  - apply bind_Ok in H as ([et1 m1] & H1 & [= <- <- <-]). apply checkEpochQuorum_state in H1 as [-> | ->]; auto. right. cbn. lia.
  - injection H as H. case_match; [| done]. injection H as <- <- <-. right. cbn. lia.
  - apply bind_Ok in H as (v & _ & H). destruct v; [| injection H as <- <- <-; by left].
    apply bind_Ok in H as (r & H1 & [= ->]). apply Hag in H1; [| done]. cbn in H1. destruct H1 as [-> | H1]; right; cbn in *; lia.
  - apply bind_Ok in H as (r & H1 & [= ->]). apply fetchNewEpochState_state in H1 as [-> | ->]; auto. right. cbn. lia.
  - apply bind_Ok in H as (r & H1 & [= ->]). apply checkEcho_state in H1 as [-> | ->]; auto. right. cbn. lia.
  - apply bind_Ok in H as ([w1 et1] & H1 & [= <- <- <-]). apply checkReady_state in H1 as [-> | ->]; auto. right. cbn. lia.
  - injection H as <- <- <-. destruct (checkResumed_state w et Hst) as [-> | ->]; auto. right. cbn. lia.
  - apply bind_Ok in H as (r & H1 & [= ->]). apply beginEpoch_state in H1 as ->. right. cbn. lia.
  - apply bind_Ok in H as (r & H1 & [= ->]). apply runEpoch_state in H1 as ->. auto.
  - done.
  - injection H as <- <- <-. by left.
Qed.

Lemma targetLoop_state (fuel : nat) (w w' : world) (et et' : epochTarget) (acts acts' : ActionList) :
  targetLoop fuel w et acts = Ok (w', et', acts') -> advances (et_state et) (et_state et').
Proof.
  revert w et acts w' et' acts'. induction fuel as [|fuel IH]; intros w et acts w' et' acts' H; [done |]. rewrite targetLoop_step in H.
  apply bind_Ok in H as (r & H1 & H). destruct r as [[[w1 et1] m1] |]; [| injection H as _ <- _; by left].
  apply iteration_state in H1; [| by intros; eapply IH]. case_decide as Hd; [injection H as _ <- _; by left |].
  apply IH in H. destruct H1 as [H1 | H1]; [done |]. destruct H as [-> | H]; right; lia.
Qed.

(** The loop ends within its bound: more fuel does not change its result. *)
Lemma targetLoop_fuel (f1 f2 : nat) (w : world) (et : epochTarget) (acts : ActionList) :
  (loopBound (et_state et) <= f1)%nat -> (loopBound (et_state et) <= f2)%nat -> targetLoop f1 w et acts = targetLoop f2 w et acts.
Proof.
  revert f2 w et acts. induction f1 as [|f1 IH]; intros f2 w et acts H1 H2.
  { pose proof (loopBound_pos (et_state et)). lia. }
  destruct f2 as [|f2]; [pose proof (loopBound_pos (et_state et)); lia |].
  rewrite !targetLoop_step.
  assert (Hsame : iteration (targetLoop f1) w et = iteration (targetLoop f2) w et).
  { unfold iteration. destruct (et_state et) eqn:Hst; try done. destruct (verifyNewEpochState et) as [[|] | |]; try done. cbn [mbind outcome_bind].
    change (loopBound etVerifying) with 7%nat in H1, H2.
    rewrite (IH f2); [done | |]; change (6 <= f1)%nat || change (6 <= f2)%nat; lia. }
  rewrite Hsame. destruct (iteration (targetLoop f2) w et) as [[[[w1 et1] m1] |] | |] eqn:Hit; cbn [mbind outcome_bind]; try done.
  case_decide as Hd; [done |]. apply iteration_state in Hit; [| by intros; eapply targetLoop_state].
  destruct Hit as [? | Hit]; [done |].
  assert (Hb : (S (loopBound (et_state et1)) <= loopBound (et_state et))%nat).
  { unfold loopBound. rewrite !decide_True by lia. lia. }
  apply IH; lia.
Qed.

(** *** Verification of the leader's configuration *)

(** The epoch changes a [NewEpoch] refers to, each known here and acknowledged
    by at least one correct node. *)
Record referenced (et : epochTarget) (remote : list NewEpoch_RemoteEpochChange) (changes : gmap Z parsedEpochChange) : Prop := {
  rf_known : forall id pc, changes !! id = Some pc -> exists change r, r ∈ remote /\ rec_NodeId r = id
    /\ et_changes et !! id = Some change /\ ec_parsedByDigest change !! str (rec_Digest r) = Some pc
    /\ someCorrectQuorum (et_networkConfig et) <= Z.of_nat (size (pec_acks pc));
  rf_all : forall r, r ∈ remote -> is_Some (changes !! rec_NodeId r);
}.

Lemma gatherChanges_spec (et : epochTarget) (remote : list NewEpoch_RemoteEpochChange) (acc changes : gmap Z parsedEpochChange) :
  gatherChanges et remote acc = Some changes ->
  (forall id pc, changes !! id = Some pc -> acc !! id = Some pc \/ exists change r, r ∈ remote /\ rec_NodeId r = id
    /\ et_changes et !! id = Some change /\ ec_parsedByDigest change !! str (rec_Digest r) = Some pc
    /\ someCorrectQuorum (et_networkConfig et) <= Z.of_nat (size (pec_acks pc)))
  /\ (forall r, r ∈ remote -> is_Some (changes !! rec_NodeId r)) /\ acc ⊆ changes.
Proof.
  revert acc. induction remote as [|r remote IH]; intros acc H; cbn [gatherChanges] in H.
  { injection H as <-. split; [auto |]. split; [by intros r Hr%elem_of_nil | done]. }
  destruct (acc !! rec_NodeId r) eqn:Hacc; [done |]. destruct (et_changes et !! rec_NodeId r) as [change |] eqn:Hc; [| done].
  destruct (ec_parsedByDigest change !! str (rec_Digest r)) as [pc |] eqn:Hp; [| done].
  destruct (Z.ltb_spec (Z.of_nat (size (pec_acks pc))) (someCorrectQuorum (et_networkConfig et))) as [| Hq]; [done |].
  apply IH in H as (H1 & H2 & H3). pose proof (insert_subseteq _ _ pc Hacc) as Hsub. split; [| split].
  - intros id pc' Hl. destruct (H1 id pc' Hl) as [Hin | (ch & r' & Hr' & Hid & H4)]; [| right; exists ch, r'; split; [by right | done]].
    apply lookup_insert_Some in Hin as [[<- <-] | [_ Hin]]; [| by left]. right. exists change, r. split; [by left | done].
  - intros r' [-> | Hr']%elem_of_cons; [| by apply H2]. exists pc. eapply lookup_weaken; [apply lookup_insert_eq | exact H3].
  - by etransitivity.
Qed.

Lemma verifyNewEpochState_spec (et : epochTarget) (ne : NewEpoch) :
  verifyNewEpochState et = Ok true -> et_leaderNewEpoch et = Some ne ->
  exists changes config, gatherChanges et (ne_EpochChanges ne) ∅ = Some changes /\ referenced et (ne_EpochChanges ne) changes
    /\ constructNewEpochConfig (et_networkConfig et) changes checkpointRange (ec_Leaders (nec_Config (ne_NewConfig ne))) = Ok (Some config)
    /\ configFields config = configFields (ne_NewConfig ne).
Proof.
  intros H Hne. unfold verifyNewEpochState in H. rewrite Hne in H. cbn [deref mbind outcome_bind] in H.
  destruct (gatherChanges et (ne_EpochChanges ne) ∅) as [changes |] eqn:Hg; [| done].
  apply bind_Ok in H as (config & Hc & H). destruct config as [config |]; [| done]. injection H as H. apply protoEqual_spec in H.
  exists changes, config. split; [done |]. split; [| done]. apply gatherChanges_spec in Hg as (H1 & H2 & _). split; [| done].
  intros id pc Hl. by destruct (H1 id pc Hl).
Qed.

(** ** Properties *)


(** C4: a new epoch that passes verification keeps every committed batch.  If
    [verifyNewEpochState] accepts the leader's message, the epoch changes it
    refers to are all known here and each acknowledged by a correct node, and
    any batch that was committed, as those epoch changes report it with at
    most F liars, is assigned to its sequence number by the configuration the
    leader sent, whatever leader sent it. *)
Theorem verified_new_epoch_keeps_committed (et : epochTarget) (ne : NewEpoch) :
  verifyNewEpochState et = Ok true -> et_leaderNewEpoch et = Some ne -> 0 <= nc_CheckpointInterval (et_networkConfig et) < 2 ^ 30 ->
  exists changes, gatherChanges et (ne_EpochChanges ne) ∅ = Some changes /\ referenced et (ne_EpochChanges ne) changes
    /\ forall faulty seqNo epoch digest, committedIn (et_networkConfig et) changes faulty seqNo epoch digest ->
         let start := ckp_SeqNo (nec_StartingCheckpoint (ne_NewConfig ne)) in
         0 <= start < seqNo -> seqNo <= start + 2 * nc_CheckpointInterval (et_networkConfig et) ->
         start + 2 * nc_CheckpointInterval (et_networkConfig et) < 2 ^ 64 ->
         exists d, nec_FinalPreprepares (ne_NewConfig ne) !! Z.to_nat (seqNo - start - 1) = Some d /\ str d = str digest.
Proof.
  intros Hv Hne Hci. destruct (verifyNewEpochState_spec et ne Hv Hne) as (changes & config & Hg & Href & Hcons & Hf). exists changes.
  split; [done |]. split; [done |].
  intros faulty seqNo epoch digest Hcom start H1 H2 H3. unfold configFields in Hf. injection Hf as _ Hs _ Hd.
  destruct (construct_keeps_committed _ changes checkpointRange _ config faulty seqNo epoch digest Hcom Hcons Hci) as (d & Hl & Hdd);
    [rewrite Hs; done .. |]. rewrite Hs in Hl. fold start in Hl.
  pose proof (f_equal (fun l => l !! Z.to_nat (seqNo - start - 1)) Hd) as Hk. cbn in Hk. rewrite !list_lookup_fmap, Hl in Hk. cbn in Hk.
  destruct (nec_FinalPreprepares (ne_NewConfig ne) !! Z.to_nat (seqNo - start - 1)) as [d' |] eqn:Hd'; [| done]. cbn in Hk. injection Hk as Hk.
  exists d'. split; [done |]. congruence.
Qed.

End TargetLemmas.

(** ** Witnesses *)

Definition fieldsEqual : ProtoEqual.
Proof.
  refine {| protoEqual := fun a b => bool_decide (configFields a = configFields b) |}. intros a b. apply bool_decide_eq_true.
Defined.
Definition plainConfigRange : ConfigRange := {| configRange := fun m => m; configRange_perm := fun m => reflexivity m |}.
Definition plainCheckpointRange : CheckpointRange :=
  {| checkpointRange := map_to_list; checkpointRange_valid := fun m => reflexivity (map_to_list m) |}.

(** A target of a follower that knows three epoch changes, each acknowledged
    by two nodes, and has the leader's message. *)
Definition knownPec : parsedEpochChange := survive_pec <| pec_acks := {[0; 1]} |>.
Definition knownChange : epochChange := mkEpochChangeState survive_config {[ [7] := knownPec ]} None.
Definition leaderMsg : NewEpoch :=
  mkNewEpoch survive_nec [mkRemoteEpochChange 0 (Some [7]); mkRemoteEpochChange 1 (Some [7]); mkRemoteEpochChange 2 (Some [7])].
Definition verifyingTarget : epochTarget :=
  mkEpochTarget etVerifying 0 1 0 (<[0 := knownChange]> (<[1 := knownChange]> (<[2 := knownChange]> ∅))) ∅ [] [] None ∅ None None []
    (Some leaderMsg) None false ∅ (newNodeBuffers (mkInitialParameters 3 1 1 1 1 1)) survive_config (mkInitialParameters 3 1 1 1 1 1).

Lemma known_lookup (i : Z) (pc : parsedEpochChange) :
  (<[2 := knownPec]> (<[1 := knownPec]> (<[0 := knownPec]> ∅)) : gmap Z parsedEpochChange) !! i = Some pc -> pc = knownPec.
Proof. rewrite !lookup_insert_Some, lookup_empty. naive_solver. Qed.

Lemma known_committed : committedIn survive_config (<[2 := knownPec]> (<[1 := knownPec]> (<[0 := knownPec]> ∅))) {[3]} 1 0 (Some [9; 9]).
Proof.
  split.
  - done.
  - rewrite size_singleton. done.
  - rewrite !dom_insert_L. cbn. set_solver.
  - exists {[0; 1; 2]}. split; [cbn; set_solver |]. split; [by vm_compute |].
    intros i ec _ _ ->%known_lookup _. eexists. split; [reflexivity | done].
  - intros i ec ep d _ ->%known_lookup. unfold qLookup; cbn.
    rewrite lookup_singleton_eq. cbn. intros [_ <-]%lookup_singleton_Some. done.
Qed.

Lemma verified_new_epoch_keeps_committed_witness :
  exists d, nec_FinalPreprepares (ne_NewConfig leaderMsg) !! 0%nat = Some d /\ str d = [9; 9].
Proof.
  destruct (verified_new_epoch_keeps_committed (PE := fieldsEqual) (KR := plainCheckpointRange) verifyingTarget leaderMsg)
    as (changes & Hg & _ & H); [vm_compute; reflexivity | reflexivity | cbn; lia |].
  assert (changes = <[2 := knownPec]> (<[1 := knownPec]> (<[0 := knownPec]> ∅))) as -> by (injection Hg as <-; reflexivity).
  destruct (H {[3]} 1 0 (Some [9; 9]) known_committed) as (d & Hd & Hs); [cbn; lia | cbn; lia | cbn; lia |].
  exists d. split; [exact Hd | exact Hs].
Defined.
