(* ===== verification/Broadcast.v ===== *)
(** * The broadcast of a new epoch configuration

    What the echo and ready messages of [pkg/statemachine/epoch_target.go]
    achieve together: a node readies at most one configuration for an epoch,
    accepts a configuration only with an intersection quorum of readies, and
    therefore no two nodes accept different configurations. *)
From S2P Require Import Prelude Msgs Actions Stateless EpochChange NewEpochConfig Persisted MsgBuffers ReqHeap Sequence CommitState.
From S2P Require Import BatchTracker ClientTracker Outstanding EpochActive Disseminator EpochTarget.

(** ** Specification *)

(** The configurations a list of actions sends a ready message for. *)
Definition readySent (a : Action) : option NewEpochConfig :=
  match a with Action_Send _ (Msg_NewEpochReady c) => Some c | _ => None end.
Definition readiesSent (acts : ActionList) : list NewEpochConfig := omap readySent acts.

(** Actions that only some components return: ready messages, and what is
    addressed to the application and the log's garbage collection. *)
Definition loud (a : Action) : bool :=
  match a with
  | Action_Send _ (Msg_NewEpochReady _) | Action_Commit _ | Action_Checkpoint _ | Action_TruncateWriteAhead _ => true
  | _ => false
  end.
Definition loudActions (acts : ActionList) : ActionList := omap (fun a => if loud a then Some a else None) acts.

(** Actions without any of them. *)
Definition quiet (acts : ActionList) : Prop := loudActions acts = [].

(** ** Lemmas: code that returns none of the loud actions *)

Lemma readiesSent_app (a b : ActionList) : readiesSent (a ++ b) = readiesSent a ++ readiesSent b.
Proof. apply omap_app. Qed.

Lemma quiet_nil : quiet [].
Proof. done. Qed.

Lemma quiet_concat (a b : ActionList) : quiet a -> quiet b -> quiet (ActionList_concat a b).
Proof. intros Ha Hb. unfold quiet, loudActions, ActionList_concat in *. by rewrite omap_app, Ha, Hb. Qed.

Lemma quiet_readies (acts : ActionList) : quiet acts -> readiesSent acts = [].
Proof.
  unfold quiet. induction acts as [|a acts IH]; [done |]. cbn. destruct (loud a) eqn:Ha; [done |]. intros H.
  destruct a as [t m | | | | | | | | |]; try (by apply IH). destruct m; try (by apply IH). done.
Qed.

Lemma quiet_elem (acts : ActionList) (a : Action) : quiet acts -> a ∈ acts -> loud a = false.
Proof.
  unfold quiet. induction acts as [|b acts IH]; [by intros _ ?%elem_of_nil |]. cbn. destruct (loud b) eqn:Hb; [done |].
  intros H [-> | Hin]%elem_of_cons; [done | by apply IH].
Qed.

Create HintDb quiet.
#[export] Hint Resolve quiet_nil quiet_concat : quiet.

Lemma append_quiet (p p' : persisted) (e : Persistent) (acts : ActionList) : persisted_appendLogEntry p e = Ok (p', acts) -> quiet acts.
Proof. unfold persisted_appendLogEntry. case_match; [done |]. by intros [= _ <-]. Qed.

(** A method of a sequence that is one of its operations. *)
Definition isSeqOp (h : reqHeap) (f : persisted -> sequence -> outcome (persisted * sequence * ActionList)) : Prop :=
  forall p s, exists op, f p s = runSeqOp h p s op.

Lemma prepare_quiet (h : reqHeap) (p p' : persisted) (s s' : sequence) (acts : ActionList) :
  sequence_prepare h p s = Ok (p', s', acts) -> quiet acts.
Proof.
  unfold sequence_prepare. intros H. apply bind_Ok in H as ([p1 a1] & H1 & H). apply append_quiet in H1. case_match.
  - apply bind_Ok in H as (a2 & H2 & [= _ _ <-]). apply quiet_concat; [| done].
    eapply (forRange_inv quiet); [| exact H1 | exact H2]. intros l a a' _ Ha Hb. apply bind_Ok in Hb as (cr & _ & [= <-]). by apply quiet_concat.
  - injection H as _ _ <-. by apply quiet_concat.
Qed.

Lemma advanceOnce_quiet (h : reqHeap) (p p' : persisted) (s s' : sequence) (acts : ActionList) :
  advanceOnce h p s = Ok (p', s', acts) -> quiet acts.
Proof.
  unfold advanceOnce. intros H. destruct (sq_state s); try (by injection H as _ _ <-).
  - case_match; [by eapply prepare_quiet | by injection H as _ _ <-].
  - unfold sequence_checkPrepareQuorum in H. destruct (sequence_nodeChoice s _) as [s1 c]. do 3 (case_match; [by injection H as _ _ <- |]).
    apply bind_Ok in H as ([p1 a1] & Ha & [= _ _ <-]). apply append_quiet in Ha. by apply quiet_concat.
Qed.

Lemma sequence_advance_quiet (h : reqHeap) (p p' : persisted) (s s' : sequence) (acts : ActionList) :
  sequence_advanceState h p s = Ok (p', s', acts) -> quiet acts.
Proof.
  unfold sequence_advanceState. generalize 8%nat. intros fuel. assert (H0 : quiet []) by done. revert H0. generalize (@nil Action).
  revert p s. induction fuel as [|fuel IH]; intros p s a0 Hq H; [done |]. cbn [advanceLoop] in H.
  apply bind_Ok in H as ([[p1 s1] a1] & H1 & H). apply advanceOnce_quiet in H1. pose proof (quiet_concat _ _ Hq H1).
  case_decide; [by injection H as _ _ <- | by eapply IH].
Qed.

Lemma sequence_prepareMsg_quiet (h : reqHeap) (p p' : persisted) (s s' : sequence) (source : Z) (digest : slice) (acts : ActionList) :
  sequence_applyPrepareMsg h p s source digest = Ok (p', s', acts) -> quiet acts.
Proof.
  unfold sequence_applyPrepareMsg. destruct (sequence_nodeChoice s source) as [s1 c]. intros H.
  case_match; [by injection H as _ _ <- | by eapply sequence_advance_quiet].
Qed.

Lemma sequence_allocate_quiet (h : reqHeap) (p p' : persisted) (s s' : sequence) (acks : list RequestAck) (out : gset bytes) (acts : ActionList) :
  sequence_allocate h p s acks out = Ok (p', s', acts) -> quiet acts.
Proof.
  unfold sequence_allocate. intros H. apply bind_Ok in H as (u & _ & H). case_match; [by eapply sequence_prepareMsg_quiet |].
  apply bind_Ok in H as ([[p1 s1] a1] & H1 & [= _ _ <-]). apply sequence_advance_quiet in H1. exact H1.
Qed.

Lemma seqOp_quiet (h : reqHeap) (p p' : persisted) (s s' : sequence) (op : seqOp) (acts : ActionList) :
  runSeqOp h p s op = Ok (p', s', acts) -> quiet acts.
Proof.
  intros H. destruct op; cbn [runSeqOp] in H; try (by eapply sequence_prepareMsg_quiet).
  - by eapply sequence_allocate_quiet.
  - apply bind_Ok in H as (acks & _ & H). by eapply sequence_allocate_quiet.
  - apply bind_Ok in H as (u & _ & H). by eapply sequence_advance_quiet.
  - unfold sequence_applyCommitMsg in H. destruct (sequence_nodeChoice s source) as [s1 c].
    case_match; [by injection H as _ _ <- | by eapply sequence_advance_quiet].
Qed.

Lemma onSequence_quiet (h : reqHeap) (f : persisted -> sequence -> outcome (persisted * sequence * ActionList)) (p p' : persisted)
    (sh sh' : seqHeap) (l : loc) (acts : ActionList) :
  isSeqOp h f -> onSequence f p sh l = Ok (p', sh', acts) -> quiet acts.
Proof.
  intros Hf H. unfold onSequence in H. apply bind_Ok in H as (s & _ & H). apply bind_Ok in H as ([[p1 s1] a1] & H1 & [= _ _ <-]).
  destruct (Hf p s) as [op Hop]. rewrite Hop in H1. by eapply seqOp_quiet.
Qed.

Lemma callSequence_quiet (h : reqHeap) (f : persisted -> sequence -> outcome (persisted * sequence * ActionList)) (sd sd' : shared)
    (e e' : activeEpoch) (l : loc) (acts : ActionList) :
  isSeqOp h f -> callSequence f sd e l = Ok (sd', e', acts) -> quiet acts.
Proof.
  intros Hf H. unfold callSequence in H. apply bind_Ok in H as ([[p sh] a] & H1 & [= _ _ <-]). by eapply onSequence_quiet.
Qed.

Lemma prepare_isSeqOp (h : reqHeap) (source : Z) (digest : slice) : isSeqOp h (fun p s => sequence_applyPrepareMsg h p s source digest).
Proof. intros p s. by exists (OpPrepare source digest). Qed.
Lemma hash_isSeqOp (h : reqHeap) (digest : slice) : isSeqOp h (fun p s => sequence_applyBatchHashResult h p s digest).
Proof. intros p s. by exists (OpHash digest). Qed.
Lemma owner_isSeqOp (h : reqHeap) (reqs : list loc) : isSeqOp h (fun p s => sequence_allocateAsOwner h p s reqs).
Proof. intros p s. by exists (OpAllocateAsOwner reqs). Qed.
Lemma allocate_isSeqOp (h : reqHeap) (acks : list RequestAck) (out : gset bytes) : isSeqOp h (fun p s => sequence_allocate h p s acks out).
Proof. intros p s. by exists (OpAllocate acks out). Qed.
Lemma satisfy_isSeqOp (h : reqHeap) (ack : RequestAck) : isSeqOp h (fun p s => sequence_satisfyOutstanding h p s ack).
Proof. intros p s. by exists (OpSatisfy ack). Qed.

#[export] Hint Resolve prepare_isSeqOp hash_isSeqOp owner_isSeqOp allocate_isSeqOp satisfy_isSeqOp : quiet.
#[export] Hint Resolve append_quiet : quiet.

(** Closes [quiet] goals from the calls in the context. *)
Ltac quieten :=
  match goal with
  | H : onSequence _ _ _ _ = Ok (_, _, ?a) |- quiet ?a => eapply onSequence_quiet; [| exact H]; auto with quiet
  | H : callSequence _ _ _ _ = Ok (_, _, ?a) |- quiet ?a => eapply callSequence_quiet; [| exact H]; auto with quiet
  | |- quiet (ActionList_concat _ _) => apply quiet_concat; quieten
  | |- quiet _ => solve [eauto with quiet]
  end.

Section QuietEpoch.

Context `{Size : ProtoSize} (h : reqHeap).

Lemma applyAcks_quiet (p p' : persisted) (sh sh' : seqHeap) (ao ao' : allOutstandingReqs) (bucket : Z) (l : loc)
    (batch : list RequestAck) (acts : ActionList) :
  allOutstandingReqs_applyAcks h p sh ao bucket l batch = Ok (inr (p', sh', ao', acts)) -> quiet acts.
Proof. unfold allOutstandingReqs_applyAcks. intros H. epoch_runs; [done | quieten]. Qed.

Lemma applyPreprepareMsg_quiet (sd sd' : shared) (e e' : activeEpoch) (source seqNo : Z) (batch : list RequestAck) (acts : ActionList) :
  activeEpoch_applyPreprepareMsg h sd e source seqNo batch = Ok (sd', e', acts) -> quiet acts.
Proof. unfold activeEpoch_applyPreprepareMsg. intros H. epoch_runs; [quieten |]. by eapply applyAcks_quiet. Qed.

Lemma applyPreprepares_quiet (fuel : nat) (sd sd' : shared) (e e' : activeEpoch) (source bucket : Z) (next : option Msg) (a0 acts : ActionList) :
  quiet a0 -> applyPreprepares h fuel sd e source bucket next a0 = Ok (sd', e', acts) -> quiet acts.
Proof.
  revert sd e next a0. induction fuel as [|fuel IH]; intros sd e next a0 Ha H; destruct next as [msg |]; cbn [applyPreprepares] in H; try done.
  1, 3: by injection H as <- <- <-.
  destruct msg; try done. epoch_runs. eapply IH; [| eassumption]. apply quiet_concat; [done |]. by eapply applyPreprepareMsg_quiet.
Qed.

Lemma apply_quiet (sd sd' : shared) (e e' : activeEpoch) (source : Z) (msg : Msg) (acts : ActionList) :
  activeEpoch_apply h sd e source msg = Ok (sd', e', acts) -> quiet acts.
Proof.
  unfold activeEpoch_apply. destruct msg; try done; intros H.
  - epoch_runs. eapply applyPreprepares_quiet; [| eassumption]. done.
  - unfold activeEpoch_applyPrepareMsg in H. epoch_runs. quieten.
  - unfold activeEpoch_applyCommitMsg in H. epoch_runs; done.
Qed.

Lemma step_quiet (sd sd' : shared) (e e' : activeEpoch) (source : Z) (msg : Msg) (acts : ActionList) :
  activeEpoch_step h sd e source msg = Ok (sd', e', acts) -> quiet acts.
Proof.
  unfold activeEpoch_step. intros H. apply bind_Ok in H as (v & _ & H). destruct v; [by injection H as _ _ <- | by eapply apply_quiet | | by injection H as _ _ <-].
  destruct msg; epoch_runs; done.
Qed.

(** A loop over states with actions stays quiet if its body does. *)
Lemma forRange_quiet {A B : Type} (body : A -> shared * B * ActionList -> outcome (shared * B * ActionList)) (l : list A)
    (st st' : shared * B * ActionList) :
  (forall x s s', quiet s.2 -> body x s = Ok s' -> quiet s'.2) -> quiet st.2 -> forRange body l st = Ok st' -> quiet st'.2.
Proof. intros Hb Hq H. eapply (forRange_inv (fun s => quiet s.2)); [| exact Hq | exact H]. intros x s s' _. apply Hb. Qed.

Lemma drainBuffers_quiet (sd sd' : shared) (e e' : activeEpoch) (acts : ActionList) :
  activeEpoch_drainBuffers h sd e = Ok (sd', e', acts) -> quiet acts.
Proof.
  unfold activeEpoch_drainBuffers. intros H. apply bind_Ok in H as (st & H1 & H2). change acts with (sd', e', acts).2.
  eapply forRange_quiet; [| | exact H2].
  - intros id [[sd2 e2] a2] st' Hq Hb. unfold drainOther in Hb. apply bind_Ok in Hb as (mb & _ & Hb).
    apply bind_Ok in Hb as ([mb' [[sd3 e3] a3]] & Hit & [= <-]). cbn.
    apply (iterate_inv (fun st : shared * activeEpoch * ActionList => quiet st.2)) in Hit; [exact Hit | | exact Hq].
    intros src m [[sd4 e4] a4] st' Hq4 Ha. cbn in *. epoch_runs. cbn. apply quiet_concat; [done |]. by eapply apply_quiet.
  - eapply forRange_quiet; [| | exact H1]; [| done].
    intros i [[sd2 e2] a2] st' Hq Hb. unfold drainPreprepares in Hb. epoch_runs; cbn; [| done]. apply quiet_concat; [done |]. by eapply apply_quiet.
Qed.

Lemma extendSequences_quiet (fuel : nat) (sd sd' : shared) (e e' : activeEpoch) (a0 acts : ActionList) :
  quiet a0 -> extendSequences fuel sd e a0 = Ok (sd', e', acts) -> quiet acts.
Proof.
  revert sd e a0. induction fuel as [|fuel IH]; intros sd e a0 Ha H; cbn [extendSequences] in H; [done |]. epoch_runs; [| done].
  eapply IH; [| eassumption]. apply quiet_concat; [done |]. by eapply append_quiet.
Qed.

Lemma proposeBucket_quiet (fuel : nat) (bid : Z) (sd sd' : shared) (e e' : activeEpoch) (a0 acts : ActionList) :
  quiet a0 -> proposeBucket h fuel bid sd e a0 = Ok (sd', e', acts) -> quiet acts.
Proof.
  revert sd e a0. induction fuel as [|fuel IH]; intros sd e a0 Ha H; cbn [proposeBucket] in H; [done |]. epoch_runs; try done.
  eapply IH; [| eassumption]. quieten.
Qed.

Lemma advance_quiet (sd sd' : shared) (e e' : activeEpoch) (acts : ActionList) :
  activeEpoch_advance h sd e = Ok (sd', e', acts) -> quiet acts.
Proof.
  unfold activeEpoch_advance. intros H. apply bind_Ok in H as (high & _ & H). apply bind_Ok in H as (u1 & _ & H).
  apply bind_Ok in H as (u2 & _ & H). apply bind_Ok in H as ([[sd1 e1] a1] & H1 & H). apply bind_Ok in H as ([[sd2 e2] a2] & H2 & H).
  apply bind_Ok in H as ([pr ct] & _ & H). change acts with (sd', e', acts).2. eapply forRange_quiet; [| | exact H].
  - intros b [[sd3 e3] a3] [[sd4 e4] a4] Hq Hb. unfold proposeOwn in Hb. epoch_runs; [done |]. by eapply proposeBucket_quiet.
  - cbn. apply quiet_concat; [by eapply extendSequences_quiet; [| exact H1] | by eapply drainBuffers_quiet].
Qed.

Lemma tick_quiet (sd sd' : shared) (e e' : activeEpoch) (acts : ActionList) :
  activeEpoch_tick h sd e = Ok (sd', e', acts) -> quiet acts.
Proof.
  unfold activeEpoch_tick. intros H. case_match; [by injection H as _ _ <- |]. apply bind_Ok in H as ([sd1 a1] & H1 & H).
  assert (Hq1 : quiet a1).
  { epoch_runs; try done; match goal with H : persisted_addSuspect _ _ = _ |- _ => apply append_quiet in H; exact H end. }
  case_match; [by injection H as _ _ <- |]. change acts with (sd', e', acts).2. eapply forRange_quiet; [| | exact H]; [| done].
  intros b [[sd3 e3] a3] [[sd4 e4] a4] Hq Hb. unfold heartbeat in Hb. epoch_runs; try done; cbn; quieten.
Qed.

Lemma moveLowWatermark_quiet (sd sd' : shared) (e e' : activeEpoch) (seqNo : Z) (acts : ActionList) (done : bool) :
  activeEpoch_moveLowWatermark h sd e seqNo = Ok (sd', e', acts, done) -> quiet acts.
Proof. unfold activeEpoch_moveLowWatermark. intros H. epoch_runs; try apply quiet_nil. by eapply advance_quiet. Qed.

Lemma applyBatchHash_quiet (sd sd' : shared) (e e' : activeEpoch) (seqNo : Z) (digest : slice) (acts : ActionList) :
  activeEpoch_applyBatchHashResult h sd e seqNo digest = Ok (sd', e', acts) -> quiet acts.
Proof. unfold activeEpoch_applyBatchHashResult. intros H. epoch_runs; [done | quieten]. Qed.

Lemma advanceAvailable_quiet (fuel : nat) (p p' : persisted) (sh sh' : seqHeap) (ct ct' : clientTracker)
    (ao ao' : allOutstandingReqs) (a0 acts : ActionList) :
  quiet a0 -> advanceAvailable fuel h p sh ct ao a0 = Ok (p', sh', ct', ao', acts) -> quiet acts.
Proof.
  revert p sh ct ao a0. induction fuel as [|fuel IH]; intros p sh ct ao a0 Ha H; cbn [advanceAvailable] in H; [done |]. epoch_runs.
  - eapply IH; [| eassumption]. quieten.
  - by eapply IH.
  - done.
Qed.

End QuietEpoch.

Section QuietTarget.

Context `{PE : ProtoEqual} `{CR : ConfigRange} `{KR : CheckpointRange} `{Range : MapRange} `{Size : ProtoSize}.

Lemma ack_quiet (h h' : reqHeap) (ct ct' : clientTracker) (d d' : clientHashDisseminator) (source : Z) (ack : RequestAck)
    (acts : ActionList) (l : loc) :
  clientHashDisseminator_ack h ct d source ack = Ok (h', ct', d', acts, l) -> quiet acts.
Proof.
  unfold clientHashDisseminator_ack. intros H. apply bind_Ok in H as (u & _ & H). apply bind_Ok in H as (c & _ & H).
  apply bind_Ok in H as ([[[[h1 ct1] c1] a1] l1] & H1 & [= _ _ _ <- _]). unfold client_ack in H1.
  apply bind_Ok in H1 as (u1 & _ & H1). apply bind_Ok in H1 as (crne & _ & H1). apply bind_Ok in H1 as (crn & _ & H1).
  destruct (clientReqNo_clientReq h crn ack) as [[h2 crn2] l2]. apply bind_Ok in H1 as (cr & _ & H1).
  case_match; [apply bind_Ok in H1 as ([ct3 c3] & _ & H1) |]; injection H1 as _ _ _ <- _; by case_match.
Qed.

Lemma fetchAt_quiet (h h' : reqHeap) (l : loc) (acts : ActionList) : fetchAt h l = Ok (h', acts) -> quiet acts.
Proof.
  unfold fetchAt, clientRequest_fetch. intros H. apply bind_Ok in H as (cr & _ & H). by destruct (cr_fetching cr); injection H as _ <-.
Qed.

Lemma fetchRequestAck_quiet (sources : list Z) (ack : RequestAck) (st st' : world * ActionList * bool) :
  quiet st.1.2 -> fetchRequestAck sources ack st = Ok st' -> quiet st'.1.2.
Proof.
  destruct st as [[w acts] pending]. unfold fetchRequestAck. intros Hq H. apply bind_Ok in H as ([[w1 a1] cr] & H1 & H).
  assert (Hq1 : quiet a1).
  { change a1 with (w1, a1, cr).1.2. eapply (forRange_inv (fun st : world * ActionList * option loc => quiet st.1.2)); [| | exact H1]; [| exact Hq].
    intros id [[w2 a2] cr2] s' _ Hq2 Hb. unfold ackFromSource in Hb. apply bind_Ok in Hb as ([[[[h3 ct3] d3] a3] l3] & Hb & [= <-]).
    apply quiet_concat; [exact Hq2 | by eapply ack_quiet]. }
  apply bind_Ok in H as (l & _ & H). apply bind_Ok in H as (data & _ & H). destruct (cr_stored data); [by injection H as <- |].
  apply bind_Ok in H as ([h3 a3] & H3 & [= <-]). apply quiet_concat; [exact Hq1 | by eapply fetchAt_quiet].
Qed.

Lemma fetchPreprepare_quiet (et : epochTarget) (ne : NewEpoch) (entry : nat * slice) (st st' : world * ActionList * bool) :
  quiet st.1.2 -> fetchPreprepare et ne entry st = Ok st' -> quiet st'.1.2.
Proof.
  destruct st as [[w acts] pending], entry as [i digest]. unfold fetchPreprepare. intros Hq H. case_match; [by injection H as <- |].
  case_match; [by injection H as <- |]. apply bind_Ok in H as (sources & _ & H). case_match; [done |].
  destruct (batchTracker_getBatch (w_batchTracker w) digest) as [batch |].
  - eapply (forRange_inv (fun st : world * ActionList * bool => quiet st.1.2)); [| | exact H]; [| exact Hq].
    intros ack s s' _. apply fetchRequestAck_quiet.
  - unfold batchTracker_fetchBatch in H. case_decide; injection H as <-; (apply quiet_concat; [exact Hq | done]).
Qed.

Lemma persistEntry_quiet (e : Persistent) (st st' : world * ActionList) : quiet st.2 -> persistEntry e st = Ok st' -> quiet st'.2.
Proof.
  destruct st as [w acts]. unfold persistEntry. intros Hq H. apply bind_Ok in H as ([p a] & H1 & [= <-]).
  apply quiet_concat; [exact Hq | by eapply append_quiet].
Qed.

Lemma persistPreprepare_quiet (et : epochTarget) (c : NewEpochConfig) (entry : nat * slice) (st st' : world * ActionList) :
  quiet st.2 -> persistPreprepare et c entry st = Ok st' -> quiet st'.2.
Proof.
  destruct entry as [i digest]. unfold persistPreprepare. intros Hq H. case_match; [by eapply persistEntry_quiet |].
  apply bind_Ok in H as (batch & _ & H). apply bind_Ok in H as (st1 & H1 & H). apply persistEntry_quiet in H1; [| done].
  apply bind_Ok in H as (r & _ & H). case_match; [by eapply persistEntry_quiet | by injection H as <-].
Qed.

Lemma fetchNewEpochState_quiet (w w' : world) (et et' : epochTarget) (acts : ActionList) :
  epochTarget_fetchNewEpochState w et = Ok (w', et', acts) -> quiet acts.
Proof.
  unfold epochTarget_fetchNewEpochState. intros H. apply bind_Ok in H as (ne & _ & H). case_match; [by injection H as _ _ <- |]. case_match.
  { apply bind_Ok in H as ([[cs p] a] & Hr1 & [= _ _ <-]). unfold commitState_transferTo in Hr1.
    apply bind_Ok in Hr1 as (u & _ & Hr1). apply bind_Ok in Hr1 as ([p1 a1] & Hr1 & [= _ _ <-]). apply append_quiet in Hr1. by apply quiet_concat. }
  apply bind_Ok in H as ([[w1 a1] pending] & Hr1 & H).
  assert (Hq : quiet a1).
  { change a1 with (w1, a1, pending).1.2.
    eapply (forRange_inv (fun st : world * ActionList * bool => quiet st.1.2)); [| | exact Hr1]; [| done].
    intros x s s' _. apply fetchPreprepare_quiet. }
  case_match; [by injection H as _ _ <- |]. case_match; [by injection H as _ _ <- |]. case_match; [done |].
  apply bind_Ok in H as (st & Hr2 & H). apply persistEntry_quiet in Hr2; [| exact Hq].
  apply bind_Ok in H as ([w2 a2] & Hr3 & [= _ _ <-]). apply (quiet_concat a2 [Action_Send _ (Msg_NewEpochEcho _)]); [| done].
  change a2 with (w2, a2).2. eapply (forRange_inv (fun st : world * ActionList => quiet st.2)); [| exact Hr2 | exact Hr3].
  intros x s s' _. apply persistPreprepare_quiet.
Qed.

Lemma beginEpoch_quiet (w w' : world) (et et' : epochTarget) (acts : ActionList) : beginEpoch w et = Ok (w', et', acts) -> quiet acts.
Proof.
  intros H. unfold beginEpoch in H. apply bind_Ok in H as (c & _ & H). apply bind_Ok in H as ([sd ae] & _ & H).
  apply bind_Ok in H as ([[sd1 ae1] a1] & H1 & H). apply bind_Ok in H as ([[[sd2 ae2] a2] b2] & H2 & H).
  apply bind_Ok in H as ([[sd3 ae3] a3] & H3 & [= _ _ <-]). apply quiet_concat; [| by eapply drainBuffers_quiet].
  change a2 with (sd2, ae2, a2, b2).1.2.
  eapply (forRange_inv (fun st : shared * activeEpoch * ActionList * gmap Z msgBuffer => quiet st.1.2)); [| | exact H2]; [| by eapply advance_quiet].
  intros id [[[sd4 ae4] a4] b4] st' _ Hq Hb. apply bind_Ok in Hb as (mb & _ & Hb). apply bind_Ok in Hb as ([mb' [[sd5 ae5] a5]] & Hit & [= <-]).
  apply (iterate_inv (fun st : shared * activeEpoch * ActionList => quiet st.2)) in Hit; [exact Hit | | exact Hq].
  intros src m [[sd6 e6] a6] st' Hq6 Ha. cbn in Ha. apply bind_Ok in Ha as ([[sd7 e7] a7] & Ha & [= <-]).
  apply quiet_concat; [exact Hq6 | by eapply step_quiet].
Qed.

Lemma runEpoch_quiet (w w' : world) (et et' : epochTarget) (acts : ActionList) : runEpoch w et = Ok (w', et', acts) -> quiet acts.
Proof.
  intros H. unfold runEpoch in H. apply bind_Ok in H as (ae & _ & H). apply bind_Ok in H as ([[[[p sh] ct] ao] a] & H1 & H).
  apply bind_Ok in H as ([[sd1 ae1] a1] & H2 & [= _ _ <-]). apply quiet_concat; [| by eapply advance_quiet].
  eapply advanceAvailable_quiet; [| exact H1]. done.
Qed.

End QuietTarget.

(** ** One call of a target *)

(** Whether the target is past the state in which it readies. *)
Definition readied (et : epochTarget) : nat := if epochTargetState_iota (et_state et) <? epochTargetState_iota etReadying then 0 else 1.

(** A configuration with a quorum of votes. *)
Definition hasQuorum (nc : NetworkState_Config) (votes : configVotes) (c : NewEpochConfig) : Prop :=
  exists s, (c, s) ∈ votes /\ intersectionQuorum nc <= Z.of_nat (size s).

(** What a call leaves unchanged, which ready messages it sends and which
    configuration it accepts. *)
Record follows (et et' : epochTarget) (acts : ActionList) : Prop := {
  fo_config : et_networkConfig et' = et_networkConfig et;
  fo_number : et_number et' = et_number et;
  fo_readies : et_readies et' = et_readies et;
  fo_sent : (length (readiesSent acts) + readied et <= readied et')%nat;
  fo_accepted : et_networkNewEpoch et' = et_networkNewEpoch et
    \/ exists c, et_networkNewEpoch et' = Some c /\ hasQuorum (et_networkConfig et) (et_readies et) c;
}.

Lemma readied_le (et et' : epochTarget) : epochTargetState_iota (et_state et) <= epochTargetState_iota (et_state et') -> (readied et <= readied et')%nat.
Proof. intros H. unfold readied. repeat case_match; lia. Qed.

Lemma follows_quiet (et et' : epochTarget) (acts : ActionList) :
  quiet acts -> et_networkConfig et' = et_networkConfig et -> et_number et' = et_number et -> et_readies et' = et_readies et ->
  et_networkNewEpoch et' = et_networkNewEpoch et ->
  epochTargetState_iota (et_state et) <= epochTargetState_iota (et_state et') -> follows et et' acts.
Proof. intros Hq Hc Hm Hr Hn Hs. split; auto. rewrite quiet_readies by done. cbn. by apply readied_le. Qed.

Lemma follows_trans (et1 et2 et3 : epochTarget) (a b : ActionList) :
  follows et1 et2 a -> follows et2 et3 b -> follows et1 et3 (ActionList_concat a b).
Proof.
  intros [C1 N1 R1 S1 A1] [C2 N2 R2 S2 A2]. split; [congruence .. | | rewrite C1, R1 in A2; destruct A2 as [-> |]; auto].
  unfold ActionList_concat. rewrite readiesSent_app, length_app. lia.
Qed.

Section Calls.

Context `{PE : ProtoEqual} `{CR : ConfigRange} `{KR : CheckpointRange} `{Range : MapRange} `{Size : ProtoSize}.

Lemma checkEpochQuorum_follows (et et' : epochTarget) (acts : ActionList) :
  et_state et = etPrepending -> epochTarget_checkEpochQuorum et = Ok (et', acts) -> follows et et' acts.
Proof.
  intros Hst H. unfold epochTarget_checkEpochQuorum in H. case_match; [injection H as <- <-; by apply follows_quiet |].
  apply bind_Ok in H as (ne & _ & H). destruct ne; injection H as <- <-; apply follows_quiet; cbn; rewrite ?Hst; try done; by case_match.
Qed.

Lemma fetchNewEpochState_follows (w w' : world) (et et' : epochTarget) (acts : ActionList) :
  et_state et = etFetching -> epochTarget_fetchNewEpochState w et = Ok (w', et', acts) -> follows et et' acts.
Proof.
  intros Hst H. pose proof (fetchNewEpochState_quiet _ _ _ _ _ H) as Hq. unfold epochTarget_fetchNewEpochState in H.
  apply bind_Ok in H as (ne & _ & H). case_match; [injection H as _ <- _; by apply follows_quiet |]. case_match.
  { apply bind_Ok in H as ([[cs p] a] & _ & H). injection H as _ <- _. by apply follows_quiet. }
  apply bind_Ok in H as ([[w1 a1] fp] & _ & H). do 2 (case_match; [injection H as _ <- _; by apply follows_quiet |]).
  case_match; [done |]. apply bind_Ok in H as (st & _ & H). apply bind_Ok in H as ([w2 a2] & _ & H). injection H as _ <- _.
  apply follows_quiet; try done. rewrite Hst. done.
Qed.

Lemma checkEcho_follows (w w' : world) (et et' : epochTarget) (acts : ActionList) :
  et_state et = etEchoing -> epochTarget_checkNewEpochEchoQuorum w et = Ok (w', et', acts) -> follows et et' acts.
Proof.
  intros Hst H. unfold epochTarget_checkNewEpochEchoQuorum in H. destruct (echoQuorum _ _) as [config |]; [| injection H as _ <- <-; by apply follows_quiet].
  apply bind_Ok in H as ([w1 a1] & H1 & [= _ <- <-]). split; try done; [| by left].
  assert (Hq : quiet a1).
  { change a1 with (w1, a1).2. eapply (forRange_inv (fun st : world * ActionList => quiet st.2)); [| | exact H1]; [| done].
    intros x s s' _. apply persistEntry_quiet. }
  unfold readied. rewrite Hst. unfold ActionList_Send, ActionList_PushBack. rewrite readiesSent_app, (quiet_readies a1 Hq). done.
Qed.

Lemma checkReady_follows (w w' : world) (et et' : epochTarget) :
  et_state et = etReadying -> epochTarget_checkNewEpochReadyQuorum w et = Ok (w', et') -> follows et et' [].
Proof.
  intros Hst H. unfold epochTarget_checkNewEpochReadyQuorum in H.
  eapply (forRange_inv (fun st : world * epochTarget => follows et st.2 [] /\ readied st.2 = 1%nat)) in H; [apply H | |].
  2: { split; [by apply follows_quiet | unfold readied; cbn; by rewrite Hst]. }
  intros [config votes] [w1 et1] [w2 et2] Hin [Hf Hr] Hb. cbn in Hb, Hf, Hr |- *.
  destruct (Z.ltb_spec (Z.of_nat (size votes)) (intersectionQuorum (et_networkConfig et1))) as [| Hq]; [by injection Hb as _ <- |].
  apply bind_Ok in Hb as ([b cs] & _ & [= _ <-]). split; [| done]. destruct Hf as [C N R S A]. split; try done.
  { cbn. unfold readied at 1. rewrite Hst. cbn. done. }
  right. exists config. split; [done |]. exists votes. rewrite configRange_perm in Hin. split; [done |]. by rewrite <- C.
Qed.

Lemma iteration_follows (again : world -> epochTarget -> ActionList -> outcome (world * epochTarget * ActionList)) (w w' : world)
    (et et' : epochTarget) (more : ActionList) :
  (forall w w' et et' acts', again w et [] = Ok (w', et', acts') -> follows et et' acts') ->
  iteration again w et = Ok (Some (w', et', more)) -> follows et et' more.
Proof.
  intros Hag H. unfold iteration in H. destruct (et_state et) eqn:Hst.
  - apply bind_Ok in H as ([et1 m1] & H1 & [= <- <- <-]). by apply checkEpochQuorum_follows.
  - injection H as H. case_match; [| done]. injection H as <- <- <-. apply follows_quiet; try done. by rewrite Hst.
  - apply bind_Ok in H as (v & _ & H). destruct v; [| injection H as <- <- <-; by apply follows_quiet].
    apply bind_Ok in H as (r & H1 & [= ->]). apply Hag in H1. change more with (ActionList_concat [] more).
    eapply follows_trans; [| exact H1]. apply follows_quiet; try done. by rewrite Hst.
  - apply bind_Ok in H as (r & H1 & [= ->]). by eapply fetchNewEpochState_follows.
  - apply bind_Ok in H as (r & H1 & [= ->]). by eapply checkEcho_follows.
  - apply bind_Ok in H as ([w1 et1] & H1 & [= <- <- <-]). by eapply checkReady_follows.
  - injection H as <- <- <-. unfold epochTarget_checkEpochResumed. repeat case_match; apply follows_quiet; rewrite ?Hst; done.
  - apply bind_Ok in H as (r & H1 & [= ->]). pose proof (beginEpoch_quiet _ _ _ _ _ H1) as Hq. unfold beginEpoch in H1.
    epoch_runs. apply follows_quiet; try done. by rewrite Hst.
  - apply bind_Ok in H as (r & H1 & [= ->]). pose proof (runEpoch_quiet _ _ _ _ _ H1) as Hq. unfold runEpoch in H1.
    epoch_runs. by apply follows_quiet.
  - done.
  - injection H as <- <- <-. by apply follows_quiet.
Qed.

Lemma targetLoop_follows (fuel : nat) (w w' : world) (et0 et et' : epochTarget) (acts acts' : ActionList) :
  follows et0 et acts -> targetLoop fuel w et acts = Ok (w', et', acts') -> follows et0 et' acts'.
Proof.
  revert w w' et0 et et' acts acts'. induction fuel as [|fuel IH]; intros w w' et0 et et' acts acts' Hf H; [done |]. rewrite targetLoop_step in H.
  apply bind_Ok in H as (r & H1 & H). destruct r as [[[w1 et1] m1] |]; [| by injection H as _ <- <-].
  apply iteration_follows in H1.
  - pose proof (follows_trans _ _ _ _ _ Hf H1) as Hf1. case_decide; [by injection H as _ <- <- | by eapply IH].
  - intros w2 w2' et2 et2' a2 H2. eapply IH; [| exact H2]. by apply follows_quiet.
Qed.

Lemma advanceState_follows (w w' : world) (et et' : epochTarget) (acts : ActionList) :
  epochTarget_advanceState w et = Ok (w', et', acts) -> follows et et' acts.
Proof. apply targetLoop_follows. by apply follows_quiet. Qed.

End Calls.

(** ** Runs *)

(** The calls the epoch tracker makes on a target, and its own writes to it. *)
Inductive targetOp :=
| TAdvance
| TStep (source : Z) (msg : Msg)
| TTick
| TEpochChange (source : Z) (msg : EpochChange)
| TEpochChangeAck (source origin : Z) (msg : EpochChange)
| TEpochChangeDigest (origin : HashOrigin_EpochChange) (digest : slice)
| TNewEpoch (msg : NewEpoch)
| TEcho (source : Z) (msg : NewEpochConfig)
| TReady (source : Z) (msg : NewEpochConfig)
| TMoveLowWatermark (seqNo : Z)
| TSuspect (source : Z)
| TBatchHash (seqNo : Z) (digest : slice)
| TMyEpochChange (change : parsedEpochChange) (leaders : list Z)
| TDone.

(** The ready messages a call delivers. *)
Definition delivered (op : targetOp) : list (Z * NewEpochConfig) := match op with TReady source msg => [(source, msg)] | _ => [] end.

(** The votes a list of ready messages makes for a configuration. *)
Definition votedBy (rs : list (Z * NewEpochConfig)) (c : NewEpochConfig) (s : Z) : Prop :=
  exists c', (s, c') ∈ rs /\ configFields c' = configFields c.

Section Runs.

Context `{PE : ProtoEqual} `{CR : ConfigRange} `{KR : CheckpointRange} `{Range : MapRange} `{Size : ProtoSize}.

(** The digest of a batch, handed to the active epoch of the target. *)
Definition activeBatchHash (w : world) (et : epochTarget) (seqNo : Z) (digest : slice) : outcome (world * epochTarget * ActionList) :=
  ae ← deref (et_activeEpoch et) "nil pointer dereference: activeEpoch";
  '(sd, ae, actions) ← activeEpoch_applyBatchHashResult (w_reqHeap w) (w_shared w) ae seqNo digest;
  Ok (w <| w_shared := sd |>, et <| et_activeEpoch := Some ae |>, actions).

Definition runTargetOp (w : world) (et : epochTarget) (op : targetOp) : outcome (world * epochTarget * ActionList) :=
  match op with
  | TAdvance => epochTarget_advanceState w et
  | TStep source msg => epochTarget_step w et source msg
  | TTick => epochTarget_tick w et
  | TEpochChange source msg => Ok (w, et, epochTarget_applyEpochChangeMsg et source msg)
  | TEpochChangeAck source origin msg => Ok (w, et, epochTarget_applyEpochChangeAckMsg et source origin msg)
  | TEpochChangeDigest origin digest => epochTarget_applyEpochChangeDigest w et origin digest
  | TNewEpoch msg => epochTarget_applyNewEpochMsg w et msg
  | TEcho source msg => epochTarget_applyNewEpochEchoMsg w et source msg
  | TReady source msg => epochTarget_applyNewEpochReadyMsg w et source msg
  | TMoveLowWatermark seqNo => epochTarget_moveLowWatermark w et seqNo
  | TSuspect source => Ok (w, epochTarget_applySuspectMsg et source, [])
  | TBatchHash seqNo digest => activeBatchHash w et seqNo digest
  | TMyEpochChange change leaders => Ok (w, et <| et_myEpochChange := Some change |> <| et_myLeaderChoice := leaders |>, [])
  | TDone => Ok (w, et <| et_state := etDone |>, [])
  end.

(** A run of the target of an epoch from its creation: the actions it returned
    and the ready messages it was given so far.  The components it shares may
    change in any way between two calls. *)
Inductive targetRun (number : Z) (nc : NetworkState_Config) : epochTarget -> ActionList -> list (Z * NewEpochConfig) -> Prop :=
| run_new nbs myConfig et : newEpochTarget number nbs nc myConfig = Ok et -> targetRun number nc et [] []
| run_call et acts rs w op w' et' more : targetRun number nc et acts rs -> runTargetOp w et op = Ok (w', et', more) ->
    targetRun number nc et' (ActionList_concat acts more) (rs ++ delivered op).

Record runInv (nc : NetworkState_Config) (et : epochTarget) (acts : ActionList) (rs : list (Z * NewEpochConfig)) : Prop := {
  ri_config : et_networkConfig et = nc;
  ri_sent : (length (readiesSent acts) <= readied et)%nat;
  ri_votes : forall c votes s, (c, votes) ∈ et_readies et -> s ∈ votes -> votedBy rs c s;
  ri_accepted : forall c, et_networkNewEpoch et = Some c ->
    exists votes : gset Z, intersectionQuorum nc <= Z.of_nat (size votes) /\ forall s, s ∈ votes -> votedBy rs c s;
}.

Lemma votedBy_app (rs rs' : list (Z * NewEpochConfig)) (c : NewEpochConfig) (s : Z) : votedBy rs c s -> votedBy (rs ++ rs') c s.
Proof. intros (c' & Hin & Hf). exists c'. split; [| done]. apply elem_of_app. by left. Qed.

Lemma runInv_follows (nc : NetworkState_Config) (et et' : epochTarget) (acts more : ActionList) (rs : list (Z * NewEpochConfig)) :
  runInv nc et acts rs -> follows et et' more -> runInv nc et' (ActionList_concat acts more) rs.
Proof.
  intros [C S V A] [C' N' R' S' A']. split.
  - congruence.
  - unfold ActionList_concat. rewrite readiesSent_app, length_app. lia.
  - rewrite R'. exact V.
  - intros c Hc. destruct A' as [A' | (c0 & Hc0 & votes & Hin & Hq)]; [apply A; congruence |].
    assert (c0 = c) as -> by congruence. exists votes. rewrite C in Hq. split; [done |]. intros s Hs. by eapply V.
Qed.

(** A vote is added for the message it names. *)
Lemma addVote_in (source : Z) (msg : NewEpochConfig) (m : configVotes) (c : NewEpochConfig) (votes : gset Z) (s : Z) :
  (c, votes) ∈ addVote source msg m -> s ∈ votes ->
  (exists votes', (c, votes') ∈ m /\ s ∈ votes') \/ (s = source /\ configFields msg = configFields c).
Proof.
  induction m as [|[c0 v0] m IH]; cbn; intros Hin Hs.
  - apply list_elem_of_singleton in Hin as [= -> ->]. right. set_solver.
  - destruct (protoEqual c0 msg) eqn:He.
    + apply elem_of_cons in Hin as [[= -> ->] | Hin]; [| left; exists votes; split; [by right | done]].
      apply elem_of_union in Hs as [Hs%elem_of_singleton | Hs]; [right | left; exists v0; split; [by left | done]].
      split; [done |]. by apply protoEqual_spec in He.
    + apply elem_of_cons in Hin as [[= -> ->] | Hin]; [left; exists v0; split; [by left | done] |].
      destruct (IH Hin Hs) as [(v' & Hv & Hs') |]; [left; exists v'; split; [by right | done] | by right].
Qed.

Lemma runInv_vote (nc : NetworkState_Config) (et : epochTarget) (acts : ActionList) (rs : list (Z * NewEpochConfig)) (source : Z) (msg : NewEpochConfig) :
  runInv nc et acts rs -> runInv nc (et <| et_readies ::= addVote source msg |>) acts (rs ++ [(source, msg)]).
Proof.
  intros [C S V A]. split; [done | done | |].
  - intros c votes s Hin Hs. destruct (addVote_in _ _ _ _ _ _ Hin Hs) as [(v' & Hv & Hs') | [-> Hf]].
    + apply votedBy_app. by eapply V.
    + exists msg. split; [| done]. apply elem_of_app. right. by left.
  - intros c Hc. destruct (A c Hc) as (votes & Hq & Hv). exists votes. split; [done |]. intros s Hs. apply votedBy_app. auto.
Qed.

Lemma runInv_more (nc : NetworkState_Config) (et : epochTarget) (acts : ActionList) (rs rs' : list (Z * NewEpochConfig)) :
  runInv nc et acts rs -> runInv nc et acts (rs ++ rs').
Proof.
  intros [C S V A]. split; [done | done | |].
  - intros. apply votedBy_app. by eapply V.
  - intros c Hc. destruct (A c Hc) as (votes & Hq & Hv). exists votes. split; [done |]. intros s Hs. apply votedBy_app. auto.
Qed.

Lemma advanceWith_follows (et et0 et' : epochTarget) (w w' : world) (acts : ActionList) :
  et_networkConfig et0 = et_networkConfig et -> et_number et0 = et_number et -> et_readies et0 = et_readies et -> et_networkNewEpoch et0 = et_networkNewEpoch et ->
  et_state et0 = et_state et -> epochTarget_advanceState w et0 = Ok (w', et', acts) -> follows et et' acts.
Proof.
  intros H1 H2 H3 H4 H5 H. change acts with (ActionList_concat [] acts). eapply follows_trans; [| by eapply advanceState_follows].
  apply follows_quiet; try done. by rewrite H5.
Qed.

Lemma repeat_quiet (et : epochTarget) (acts : ActionList) : epochTarget_repeatEpochChangeBroadcast et = Ok acts -> quiet acts.
Proof. unfold epochTarget_repeatEpochChangeBroadcast. intros H. by apply bind_Ok in H as (c & _ & [= <-]). Qed.

Lemma tick_follows (w w' : world) (et et' : epochTarget) (acts : ActionList) :
  epochTarget_tick w et = Ok (w', et', acts) -> follows et et' acts.
Proof.
  unfold epochTarget_tick. intros H. case_match; [| case_match; [| case_match]].
  - apply bind_Ok in H as (a & Ha & [= _ <- <-]). apply follows_quiet; try done. unfold epochTarget_tickPrepending in Ha.
    case_match; [by injection Ha as <-; case_match |]. apply bind_Ok in Ha as (r & _ & Ha). case_match; [by eapply repeat_quiet | by injection Ha as <-].
  - apply bind_Ok in H as ([w1 a] & Ha & [= _ <- <-]). apply follows_quiet; try done. unfold epochTarget_tickPending in Ha.
    apply bind_Ok in Ha as (r & _ & Ha). case_match; [by injection Ha as _ <-; case_match |]. case_match.
    { apply bind_Ok in Ha as (ne & _ & Ha). apply bind_Ok in Ha as ([p m] & Hp & [= _ <-]). apply append_quiet in Hp. exact Hp. }
    case_match; [| by injection Ha as _ <-]. apply bind_Ok in Ha as (a1 & Hr & [= _ <-]). by eapply repeat_quiet.
  - apply bind_Ok in H as (ae & _ & H). apply bind_Ok in H as ([[sd1 ae1] a1] & Hae & [= _ <- <-]).
    apply follows_quiet; try done. by eapply tick_quiet.
  - injection H as _ <- <-. by apply follows_quiet.
Qed.

Lemma step_follows (w w' : world) (et et' : epochTarget) (source : Z) (msg : Msg) (acts : ActionList) :
  epochTarget_step w et source msg = Ok (w', et', acts) -> follows et et' acts.
Proof.
  unfold epochTarget_step. intros H. case_match; [epoch_runs; by apply follows_quiet |].
  case_match; [injection H as _ <- <-; by apply follows_quiet |].
  apply bind_Ok in H as (ae & _ & H). apply bind_Ok in H as ([[sd1 ae1] a1] & Hae & [= _ <- <-]).
  apply follows_quiet; try done. by eapply step_quiet.
Qed.

Lemma digest_follows (w w' : world) (et et' : epochTarget) (origin : HashOrigin_EpochChange) (digest : slice) (acts : ActionList) :
  epochTarget_applyEpochChangeDigest w et origin digest = Ok (w', et', acts) -> follows et et' acts.
Proof.
  unfold epochTarget_applyEpochChangeDigest. intros H. case_match; [injection H as _ <- <-; by apply follows_quiet |].
  case_match; [injection H as _ <- <-; by apply follows_quiet |]. apply bind_Ok in H as (p & _ & H).
  eapply advanceWith_follows; [| | | | | exact H]; reflexivity.
Qed.

Lemma moveLow_follows (w w' : world) (et et' : epochTarget) (seqNo : Z) (acts : ActionList) :
  epochTarget_moveLowWatermark w et seqNo = Ok (w', et', acts) -> follows et et' acts.
Proof.
  unfold epochTarget_moveLowWatermark. intros H. destruct (negb _) eqn:Hst; [injection H as _ <- <-; by apply follows_quiet |].
  apply bind_Ok in H as (ae & _ & H). apply bind_Ok in H as ([[[sd1 ae1] a1] dn] & H1 & [= _ <- <-]).
  apply moveLowWatermark_quiet in H1. apply negb_false_iff, bool_decide_eq_true in Hst.
  destruct dn; apply follows_quiet; try done. by rewrite Hst.
Qed.

Lemma newEpoch_follows (w w' : world) (et et' : epochTarget) (msg : NewEpoch) (acts : ActionList) :
  epochTarget_applyNewEpochMsg w et msg = Ok (w', et', acts) -> follows et et' acts.
Proof. unfold epochTarget_applyNewEpochMsg. intros H. eapply advanceWith_follows; [| | | | | exact H]; reflexivity. Qed.

Lemma echo_follows (w w' : world) (et et' : epochTarget) (source : Z) (msg : NewEpochConfig) (acts : ActionList) :
  epochTarget_applyNewEpochEchoMsg w et source msg = Ok (w', et', acts) -> follows et et' acts.
Proof. unfold epochTarget_applyNewEpochEchoMsg. intros H. eapply advanceWith_follows; [| | | | | exact H]; reflexivity. Qed.

Lemma batchHash_follows (w w' : world) (et et' : epochTarget) (seqNo : Z) (digest : slice) (acts : ActionList) :
  activeBatchHash w et seqNo digest = Ok (w', et', acts) -> follows et et' acts.
Proof.
  unfold activeBatchHash. intros H. apply bind_Ok in H as (ae & _ & H). apply bind_Ok in H as ([[sd1 ae1] a1] & H1 & [= _ <- <-]).
  apply follows_quiet; try done. by eapply applyBatchHash_quiet.
Qed.

(** Every call but the delivery of a ready message. *)
Lemma op_follows (w w' : world) (et et' : epochTarget) (op : targetOp) (acts : ActionList) :
  delivered op = [] -> runTargetOp w et op = Ok (w', et', acts) -> follows et et' acts.
Proof.
  intros Hd. destruct op; try done; try apply advanceState_follows; try apply step_follows; try apply tick_follows;
    try apply digest_follows; try apply newEpoch_follows; try apply echo_follows; try apply moveLow_follows; try apply batchHash_follows;
    intros [= _ <- <-]; try (by apply follows_quiet).
  - apply follows_quiet; try done. unfold epochTarget_applyEpochChangeMsg. by case_match.
  - unfold epochTarget_applySuspectMsg. case_match; apply follows_quiet; try done. by destruct (et_state et).
  - apply follows_quiet; try done. by destruct (et_state et).
Qed.

End Runs.

(** ** The broadcast across nodes *)

Section Agreement.

Context `{PE : ProtoEqual} `{CR : ConfigRange} `{KR : CheckpointRange} `{Range : MapRange} `{Size : ProtoSize}.

Lemma ready_runInv (nc : NetworkState_Config) (w w' : world) (et et' : epochTarget) (source : Z) (msg : NewEpochConfig)
    (acts more : ActionList) (rs : list (Z * NewEpochConfig)) :
  runInv nc et acts rs -> epochTarget_applyNewEpochReadyMsg w et source msg = Ok (w', et', more) ->
  runInv nc et' (ActionList_concat acts more) (rs ++ [(source, msg)]).
Proof.
  intros Hi H. pose proof (runInv_vote _ _ _ _ source msg Hi) as Hv. unfold epochTarget_applyNewEpochReadyMsg in H. case_match.
  { injection H as _ <- <-. apply runInv_more, (runInv_follows nc et et); [done | by apply follows_quiet]. }
  case_match; [injection H as _ <- <-; eapply runInv_follows; [exact Hv | by apply follows_quiet] |].
  case_match; [eapply runInv_follows; [exact Hv | by eapply advanceState_follows] |]. case_match eqn:Hlt.
  - injection H as _ <- <-. eapply runInv_follows; [exact Hv |]. split; try done; [| by left]. cbn in Hlt. unfold readied. cbn. by rewrite Hlt.
  - eapply runInv_follows; [exact Hv | by eapply advanceState_follows].
Qed.

Lemma ready_number (w w' : world) (et et' : epochTarget) (source : Z) (msg : NewEpochConfig) (acts : ActionList) :
  epochTarget_applyNewEpochReadyMsg w et source msg = Ok (w', et', acts) ->
  et_number et' = et_number et /\ et_networkConfig et' = et_networkConfig et.
Proof.
  unfold epochTarget_applyNewEpochReadyMsg. intros H.
  repeat case_match; try (injection H as _ <- <-; done);
    (apply advanceState_follows in H; destruct H as [C N _ _ _]; split; [exact N | exact C]).
Qed.

(** No call changes the number or the configuration of a target. *)
Lemma op_number (w w' : world) (et et' : epochTarget) (op : targetOp) (acts : ActionList) :
  runTargetOp w et op = Ok (w', et', acts) -> et_number et' = et_number et /\ et_networkConfig et' = et_networkConfig et.
Proof.
  intros H. destruct (decide (delivered op = [])) as [Hd | Hd].
  - apply op_follows in H; [| exact Hd]. destruct H as [C N _ _ _]. split; [exact N | exact C].
  - destruct op; try (exfalso; apply Hd; reflexivity). exact (ready_number _ _ _ _ _ _ _ H).
Qed.

Lemma targetRun_inv (number : Z) (nc : NetworkState_Config) (et : epochTarget) (acts : ActionList) (rs : list (Z * NewEpochConfig)) :
  targetRun number nc et acts rs -> runInv nc et acts rs.
Proof.
  induction 1 as [nbs my et H | et acts rs w op w' et' more Hrun IH H].
  - unfold newEpochTarget in H. apply bind_Ok in H as (l & _ & [= <-]). split; [done | done | | done]. intros c votes s Hin. by apply elem_of_nil in Hin.
  - destruct (decide (delivered op = [])) as [Hd | Hd]; [rewrite Hd, app_nil_r; eapply runInv_follows; [exact IH | by eapply op_follows] |].
    clear Hrun. destruct op as [| | | | | | | | source msg | | | | |]; try (exfalso; apply Hd; reflexivity). exact (ready_runInv _ _ _ _ _ _ _ _ _ _ IH H).
Qed.

(** One epoch of a network: the target of each correct node has a run, and the
    ready messages it received come from nodes of the network, those of
    correct nodes from what their target sent. *)
Record broadcast (number : Z) (nc : NetworkState_Config) (faulty : gset Z) (target : Z -> epochTarget) (sent : Z -> ActionList)
    (received : Z -> list (Z * NewEpochConfig)) : Prop := {
  bc_faulty : 0 <= nc_F nc /\ Z.of_nat (size faulty) <= nc_F nc;
  bc_run : forall n, n ∈ nc_Nodes nc -> n ∉ faulty -> targetRun number nc (target n) (sent n) (received n);
  bc_member : forall n s c, n ∉ faulty -> (s, c) ∈ received n -> s ∈ nc_Nodes nc;
  bc_authentic : forall n s c, n ∉ faulty -> (s, c) ∈ received n -> s ∉ faulty -> c ∈ readiesSent (sent s);
}.

(** C3: no two correct nodes start an epoch with different configurations.
    In a network with at most F faulty nodes and authenticated channels, if
    the targets of two correct nodes, after any sequences of calls from their
    creation, accepted a configuration for the epoch, the two have the same
    fields, whatever the faulty nodes send and in whichever order echos and
    readies arrive. *)
Theorem new_epoch_agreement (number : Z) (nc : NetworkState_Config) (faulty : gset Z) (target : Z -> epochTarget) (sent : Z -> ActionList)
    (received : Z -> list (Z * NewEpochConfig)) (i j : Z) (ci cj : NewEpochConfig) :
  broadcast number nc faulty target sent received -> i ∈ nc_Nodes nc -> j ∈ nc_Nodes nc -> i ∉ faulty -> j ∉ faulty ->
  et_networkNewEpoch (target i) = Some ci -> et_networkNewEpoch (target j) = Some cj -> configFields ci = configFields cj.
Proof.
  intros [[HF Hf] Hrun Hmem Hauth] Hi Hj Hif Hjf Hci Hcj.
  destruct (ri_accepted _ _ _ _ (targetRun_inv _ _ _ _ _ (Hrun i Hi Hif)) ci Hci) as (A & HqA & HA).
  destruct (ri_accepted _ _ _ _ (targetRun_inv _ _ _ _ _ (Hrun j Hj Hjf)) cj Hcj) as (B & HqB & HB).
  assert (HmA : A ⊆ list_to_set (nc_Nodes nc)). { intros s Hs. destruct (HA s Hs) as (c & Hin & _). apply elem_of_list_to_set. by eapply (Hmem i). }
  assert (HmB : B ⊆ list_to_set (nc_Nodes nc)). { intros s Hs. destruct (HB s Hs) as (c & Hin & _). apply elem_of_list_to_set. by eapply (Hmem j). }
  destruct (someCorrect_member nc (A ∩ B) faulty Hf) as (s & Hs & Hsf); [by apply intersectionQuorums_meet |].
  apply elem_of_intersection in Hs as [HsA HsB]. destruct (HA s HsA) as (c1 & Hin1 & <-). destruct (HB s HsB) as (c2 & Hin2 & <-).
  pose proof (Hauth i s c1 Hif Hin1 Hsf) as H1. pose proof (Hauth j s c2 Hjf Hin2 Hsf) as H2.
  assert (Hs : s ∈ nc_Nodes nc) by (apply HmA in HsA; by apply elem_of_list_to_set in HsA).
  pose proof (ri_sent _ _ _ _ (targetRun_inv _ _ _ _ _ (Hrun s Hs Hsf))) as Hlen.
  assert (Hone : (length (readiesSent (sent s)) <= 1)%nat) by (unfold readied in Hlen; case_match; lia).
  destruct (readiesSent (sent s)) as [|c0 [|]]; [by apply elem_of_nil in H1 | | cbn in Hone; lia].
  apply list_elem_of_singleton in H1, H2. by subst.
Qed.

(** A sequence of calls with the same shared components. *)
Fixpoint runOps (w : world) (et : epochTarget) (acts : ActionList) (ops : list targetOp) : outcome (epochTarget * ActionList) :=
  match ops with
  | [] => Ok (et, acts)
  | op :: ops' => '(_, et, more) ← runTargetOp w et op; runOps w et (ActionList_concat acts more) ops'
  end.

Lemma runOps_run (number : Z) (nc : NetworkState_Config) (w : world) (et et' : epochTarget) (acts acts' : ActionList)
    (rs : list (Z * NewEpochConfig)) (ops : list targetOp) :
  targetRun number nc et acts rs -> runOps w et acts ops = Ok (et', acts') -> targetRun number nc et' acts' (rs ++ (ops ≫= delivered)).
Proof.
  revert et acts rs. induction ops as [|op ops IH]; intros et acts rs Hr H; cbn [runOps] in H.
  - injection H as <- <-. cbn. by rewrite app_nil_r.
  - apply bind_Ok in H as ([[w1 et1] m1] & H1 & H). cbn. rewrite app_assoc. eapply IH; [| exact H]. by eapply run_call.
Qed.

End Agreement.

(** ** Witness *)

(** Four nodes change to epoch 1: each collects three epoch changes with three
    acknowledgements, the message of the leader, three echos and three
    readies.  Node 3 is faulty and sends nothing. *)
Definition freshChange : EpochChange := mkEpochChange 1 [mkCheckpoint 0 (Some [1])] [] [].
Definition freshPec : parsedEpochChange := mkParsed freshChange ∅ ∅ 0 ∅.
Definition freshConfig : NewEpochConfig := mkNewEpochConfig (mkEpochConfig 1 [0] 10) (mkCheckpoint 0 (Some [1])) [].
Definition freshNewEpoch : NewEpoch :=
  mkNewEpoch freshConfig [mkRemoteEpochChange 0 (Some [7]); mkRemoteEpochChange 1 (Some [7]); mkRemoteEpochChange 2 (Some [7])].
Definition freshParams (id : Z) : EventInitialParameters := mkInitialParameters id 1 1 1 1 1.
Definition freshWorld (id : Z) : world :=
  mkWorld (mkShared (mkPersisted 2 [(1, Persistent_ECEntry (mkECEntry 1))]) newCommitState newClientTracker) newBatchTracker
    (newClientHashDisseminator (newNodeBuffers (freshParams id)) (freshParams id)) emptyHeap.
Definition freshOps : list targetOp :=
  TMyEpochChange freshPec [0]
  :: ([0; 1; 2] ≫= fun origin => [0; 1; 2] ≫= fun source => [TEpochChangeDigest (mkHashEpochChange source origin freshChange) (Some [7])])
  ++ TNewEpoch freshNewEpoch
  :: ([0; 1; 2] ≫= fun source => [TEcho source freshConfig])
  ++ ([0; 1; 2] ≫= fun source => [TReady source freshConfig]).

#[local] Existing Instance fieldsEqual.
#[local] Existing Instance plainConfigRange.
#[local] Existing Instance plainCheckpointRange.
#[local] Existing Instance canonicalRange.
#[local] Existing Instance unitSize.

Definition freshRun (id : Z) : outcome (epochTarget * ActionList) :=
  et ← newEpochTarget 1 (newNodeBuffers (freshParams id)) survive_config (freshParams id); runOps (freshWorld id) et [] freshOps.
Definition freshTarget (id : Z) : epochTarget := match freshRun id with Ok r => r.1 | _ => verifyingTarget end.
Definition freshSent (id : Z) : ActionList := match freshRun id with Ok r => r.2 | _ => [] end.
Definition freshReceived : list (Z * NewEpochConfig) := [(0, freshConfig); (1, freshConfig); (2, freshConfig)].

Lemma freshRun_runs (id : Z) : id ∈ [0; 1; 2] -> targetRun 1 survive_config (freshTarget id) (freshSent id) freshReceived.
Proof.
  intros Hid. change freshReceived with ([] ++ (freshOps ≫= delivered)).
  destruct (newEpochTarget 1 (newNodeBuffers (freshParams id)) survive_config (freshParams id)) as [et | |] eqn:Hn; [| done | done].
  eapply (runOps_run _ _ (freshWorld id) et _ [] _ []); [by eapply run_new |].
  assert (Hok : match freshRun id with Ok _ => True | _ => False end).
  { repeat (apply elem_of_cons in Hid as [-> | Hid]; [vm_compute; exact I |]). destruct (proj1 (elem_of_nil _) Hid). }
  unfold freshTarget, freshSent. unfold freshRun in *. rewrite Hn in *. cbn [mbind outcome_bind] in *.
  destruct (runOps (freshWorld id) et [] freshOps) as [[et1 a1] | |]; done.
Qed.

Lemma fresh_broadcast : broadcast 1 survive_config {[3]} freshTarget freshSent (fun _ => freshReceived).
Proof.
  split.
  - split; [done | by rewrite size_singleton].
  - intros n Hn Hf. apply freshRun_runs. unfold survive_config in Hn. cbn in Hn. set_solver.
  - intros n s c _ Hin. cbn. unfold freshReceived in Hin. set_solver.
  - intros n s c _ Hin _. assert (Hs : c = freshConfig /\ s ∈ [0; 1; 2]) by (unfold freshReceived in Hin; set_solver). destruct Hs as [-> Hs].
    assert (Hr : readiesSent (freshSent s) = [freshConfig]).
    { repeat (apply elem_of_cons in Hs as [-> | Hs]; [by vm_compute |]). destruct (proj1 (elem_of_nil _) Hs). }
    rewrite Hr. by left.
Qed.

Lemma new_epoch_agreement_witness : et_networkNewEpoch (freshTarget 0) = Some freshConfig /\ configFields freshConfig = configFields freshConfig.
Proof.
  split; [by vm_compute |].
  refine (new_epoch_agreement 1 survive_config {[3]} freshTarget freshSent (fun _ => freshReceived) 0 1 freshConfig freshConfig
    fresh_broadcast _ _ _ _ _ _); [cbn; set_solver | cbn; set_solver | set_solver | set_solver | by vm_compute | by vm_compute].
Defined.
