(* ===== verification/EpochTracker.v ===== *)
(** * Epoch tracker

    [pkg/statemachine/epoch_tracker.go]: the epoch a node is in or changes to,
    the messages of later epochs it keeps for them, and the epochs the other
    nodes claim to be in.  The current target is a value of the tracker; the
    components it shares with the rest of the state machine are the [world] of
    [EpochTarget].  The map [targets] of the source is never written and the
    logger has no effect, so neither is part of the state.

    The order in which Go ranges over the claimed epochs is a parameter
    ([EpochRange]). *)
From S2P Require Import Prelude Msgs Actions Stateless EpochChange NewEpochConfig Persisted MsgBuffers ReqHeap Sequence CommitState.
From S2P Require Import BatchTracker ClientTracker Outstanding EpochActive Disseminator EpochTarget Broadcast.

Class EpochRange := {
  epochRange : gmap Z Z -> list (Z * Z);
  epochRange_perm : forall m, epochRange m ≡ₚ map_to_list m;
}.

(** ** Data *)

Record epochTracker := mkEpochTracker {
  etr_currentEpoch : option epochTarget;
  etr_nodeBuffers : nodeBuffers;
  etr_networkConfig : NetworkState_Config;
  etr_myConfig : EventInitialParameters;
  etr_futureMsgs : gmap Z msgBuffer;
  etr_needsStateTransfer : bool;
  etr_maxEpochs : gmap Z Z;
  etr_maxCorrectEpoch : Z;
  etr_ticksOutOfCorrectEpoch : Z;
}.

#[global] Instance eta_epochTracker : Eta epochTracker := mkEta (fun r =>
  mkEpochTracker (etr_currentEpoch r) (etr_nodeBuffers r) (etr_networkConfig r) (etr_myConfig r) (etr_futureMsgs r)
    (etr_needsStateTransfer r) (etr_maxEpochs r) (etr_maxCorrectEpoch r) (etr_ticksOutOfCorrectEpoch r)).

(** The network configuration is nil until [reinitialize]. *)
Definition newEpochTracker (nbs : nodeBuffers) (myConfig : EventInitialParameters) : epochTracker :=
  mkEpochTracker None nbs (mkConfig [] 0 0 0 0) myConfig ∅ false ∅ 0 0.

(** What [reinitialize] reads from the log. *)
Record logSummary := mkLogSummary {
  ls_lastNEntry : option NEntry;
  ls_lastECEntry : option ECEntry;
  ls_lastFEntry : option FEntry;
  ls_highestPreprepared : Z;
}.

#[global] Instance eta_logSummary : Eta logSummary := mkEta (fun r =>
  mkLogSummary (ls_lastNEntry r) (ls_lastECEntry r) (ls_lastFEntry r) (ls_highestPreprepared r)).

Definition summaryIterator : logIterator logSummary :=
  (emptyIterator logSummary)
    <| onNEntry := fun nEntry s => Ok (s <| ls_lastNEntry := Some nEntry |>) |>
    <| onFEntry := fun fEntry s => Ok (s <| ls_lastFEntry := Some fEntry |>) |>
    <| onECEntry := fun ecEntry s => Ok (s <| ls_lastECEntry := Some ecEntry |>) |>
    <| onQEntry := fun qEntry s => Ok (if ls_highestPreprepared s <? q_SeqNo qEntry then s <| ls_highestPreprepared := q_SeqNo qEntry |> else s) |>
    <| onCEntry := fun cEntry s => Ok (if ls_highestPreprepared s <? c_SeqNo cEntry then s <| ls_highestPreprepared := c_SeqNo cEntry |> else s) |>.

(** [epochForMsg]. *)
Definition epochForMsg (msg : Msg) : outcome Z :=
  match msg with
  | Msg_Preprepare m => Ok (pp_Epoch m)
  | Msg_Prepare m => Ok (prep_Epoch m)
  | Msg_Commit m => Ok (com_Epoch m)
  | Msg_Suspect m => Ok (sus_Epoch m)
  | Msg_EpochChange m => Ok (ech_NewEpoch m)
  | Msg_EpochChangeAck m => Ok (ech_NewEpoch (eca_EpochChange m))
  | Msg_NewEpoch m => Ok (ec_Number (nec_Config (ne_NewConfig m)))
  | Msg_NewEpochEcho m => Ok (ec_Number (nec_Config m))
  | Msg_NewEpochReady m => Ok (ec_Number (nec_Config m))
  | _ => Panic "unexpected bad epoch message type"
  end.

(** [et.currentEpoch], dereferenced. *)
Definition currentTarget (tr : epochTracker) : outcome epochTarget :=
  deref (etr_currentEpoch tr) "nil pointer dereference: currentEpoch".

Definition epochTracker_filter (tr : epochTracker) (msg : Msg) : outcome applyable :=
  epochNumber ← epochForMsg msg;
  et ← currentTarget tr;
  Ok (if epochNumber <? et_number et then past else if et_number et <? epochNumber then future else current).

Section Tracker.

Context `{PE : ProtoEqual} `{CR : ConfigRange} `{KR : CheckpointRange} `{Range : MapRange} `{Size : ProtoSize} `{ER : EpochRange}.

(** A call on the current target. *)
Definition onTarget (f : world -> epochTarget -> outcome (world * epochTarget * ActionList)) (w : world) (tr : epochTracker)
    : outcome (world * epochTracker * ActionList) :=
  et ← currentTarget tr;
  '(w, et, actions) ← f w et;
  Ok (w, tr <| etr_currentEpoch := Some et |>, actions).

Definition epochTracker_applyMsg (w : world) (tr : epochTracker) (source : Z) (msg : Msg) : outcome (world * epochTracker * ActionList) :=
  match msg with
  | Msg_Preprepare _ | Msg_Prepare _ | Msg_Commit _ => onTarget (fun w et => epochTarget_step w et source msg) w tr
  | Msg_Suspect _ => onTarget (fun w et => Ok (w, epochTarget_applySuspectMsg et source, [])) w tr
  | Msg_EpochChange m => onTarget (fun w et => Ok (w, et, epochTarget_applyEpochChangeMsg et source m)) w tr
  | Msg_EpochChangeAck m =>
    onTarget (fun w et => Ok (w, et, epochTarget_applyEpochChangeAckMsg et source (eca_Originator m) (eca_EpochChange m))) w tr
  | Msg_NewEpoch m =>
    leader ← umod (ec_Number (nec_Config (ne_NewConfig m))) (Z.of_nat (length (nc_Nodes (etr_networkConfig tr))));
    if negb (leader =? source) then Ok (w, tr, []) else onTarget (fun w et => epochTarget_applyNewEpochMsg w et m) w tr
  | Msg_NewEpochEcho m => onTarget (fun w et => epochTarget_applyNewEpochEchoMsg w et source m) w tr
  | Msg_NewEpochReady m => onTarget (fun w et => epochTarget_applyNewEpochReadyMsg w et source m) w tr
  | _ => Panic "unexpected bad epoch message type"
  end.

(** One node of the loops that apply the messages kept for the new epoch. *)
Definition replayNode (id : Z) (st : world * epochTracker * ActionList) : outcome (world * epochTracker * ActionList) :=
  mb ← deref (etr_futureMsgs st.1.2 !! id) "nil pointer dereference: msgBuffer";
  '(mb, (w, tr, actions)) ← msgBuffer_iterate
    (fun (st : world * epochTracker * ActionList) _ msg => epochTracker_filter st.1.2 msg)
    (fun source msg (st : world * epochTracker * ActionList) =>
       let '(w, tr, actions) := st in
       '(w, tr, more) ← epochTracker_applyMsg w tr source msg;
       Ok (w, tr, ActionList_concat actions more))
    mb st;
  Ok (w, tr <| etr_futureMsgs ::= <[id := mb]> |>, actions).

Definition replayFuture (w : world) (tr : epochTracker) (actions : ActionList) : outcome (world * epochTracker * ActionList) :=
  forRange replayNode (nc_Nodes (etr_networkConfig tr)) (w, tr, actions).

(** The loop that moves the start to the first sequence number after a
    checkpoint; the second component is whether it moved. *)
Fixpoint alignStart (fuel : nat) (ci startingSeqNo : Z) (moved : bool) : outcome (Z * bool) :=
  match fuel with
  | O => OutOfFuel
  | S fuel' =>
    r ← umod startingSeqNo ci;
    if r =? 1 then Ok (startingSeqNo, moved) else alignStart fuel' ci (startingSeqNo +! 1) true
  end.

(** A restart in an epoch that was in progress. *)
Definition resumeEpoch (w : world) (tr : epochTracker) (nEntry : NEntry) (highestPreprepared : Z)
    : outcome (world * epochTracker * ActionList) :=
  let number := ec_Number (n_EpochConfig nEntry) in
  et ← newEpochTarget number (etr_nodeBuffers tr) (etr_networkConfig tr) (etr_myConfig tr);
  let ci := u64 (nc_CheckpointInterval (etr_networkConfig tr)) in
  '(startingSeqNo, moved) ← alignStart (S (Z.to_nat ci)) ci (highestPreprepared +! 1) false;
  let et := et <| et_startingSeqNo := startingSeqNo |> <| et_state := etResuming |> in
  let tr := tr <| etr_currentEpoch := Some et |> <| etr_needsStateTransfer ::= orb moved |> in
  '(p, actions) ← persisted_addSuspect (w_persisted w) (mkSuspect number);
  Ok (setPersisted w p, tr, ActionList_Send actions (nc_Nodes (etr_networkConfig tr)) (Msg_Suspect (mkSuspect number))).

(** The target of an epoch this node sends its epoch change for; the second
    component is that epoch change. *)
Definition changeTarget (w : world) (tr : epochTracker) (number : Z) (leaders : list Z) : outcome (epochTarget * EpochChange) :=
  epochChange ← persisted_constructEpochChange (w_persisted w) number;
  match newParsedEpochChange epochChange with
  | inl _ => Panic "could not parse epoch change we generated"
  | inr parsed =>
    et ← newEpochTarget (ech_NewEpoch epochChange) (etr_nodeBuffers tr) (etr_networkConfig tr) (etr_myConfig tr);
    Ok (et <| et_myEpochChange := Some parsed |> <| et_myLeaderChoice := leaders |>, epochChange)
  end.

(** A restart after the epoch change for an epoch was logged; the boolean is
    the early return of an epoch change that is under way. *)
Definition rejoinChange (w : world) (tr : epochTracker) (number : Z) (actions : ActionList)
    : outcome (world * epochTracker * ActionList * bool) :=
  match etr_currentEpoch tr with
  | Some et =>
    if et_number et =? number then
      '(w, et, more) ← epochTarget_advanceState w et;
      Ok (w, tr <| etr_currentEpoch := Some et |>, ActionList_concat actions more, true)
    else
      '(et, _) ← changeTarget w tr number (nc_Nodes (etr_networkConfig tr));
      Ok (w, tr <| etr_currentEpoch := Some et |>, actions, false)
  | None =>
    '(et, _) ← changeTarget w tr number (nc_Nodes (etr_networkConfig tr));
    Ok (w, tr <| etr_currentEpoch := Some et |>, actions, false)
  end.

(** The buffers of the nodes of the configuration, the old ones where there
    are any. *)
Definition renewFutureMsgs (tr : epochTracker) : gmap Z msgBuffer :=
  foldl (fun (m : gmap Z msgBuffer) id =>
      <[id := default (newMsgBuffer "future-epochs" (nodeBuffers_nodeBuffer (etr_nodeBuffers tr) id)) (etr_futureMsgs tr !! id)]> m)
    ∅ (nc_Nodes (etr_networkConfig tr)).

(** The first switch, which checks the log. *)
Definition checkLog (s : logSummary) : outcome unit :=
  match ls_lastNEntry s, ls_lastFEntry s with
  | Some n, Some f =>
    assertTrue (ec_Number (f_EndsEpochConfig f) <? ec_Number (n_EpochConfig n)) "new epoch number must not be less than last terminated epoch"
  | None, None => Panic "no active epoch and no last epoch in log"
  | _, _ => Ok tt
  end.

(** Whether the last epoch change is absent or not above an epoch. *)
Definition notChanged (s : logSummary) (number : Z) : bool :=
  match ls_lastECEntry s with None => true | Some ec => ece_EpochNumber ec <=? number end.

(** The second switch. *)
Definition restartEpoch (w : world) (tr : epochTracker) (s : logSummary) : outcome (world * epochTracker * ActionList * bool) :=
  let afterChange (w : world) (actions : ActionList) (lastECEntry : option ECEntry) :=
    match lastECEntry with
    | Some ec => rejoinChange w tr (ece_EpochNumber ec) actions
    | None => Panic "no recorded active epoch, ended epoch, or epoch change in log"
    end in
  let afterEnd :=
    match ls_lastFEntry s with
    | Some f =>
      if notChanged s (ec_Number (f_EndsEpochConfig f)) then
        let ecEntry := mkECEntry (ec_Number (f_EndsEpochConfig f) +! 1) in
        '(p, actions) ← persisted_addECEntry (w_persisted w) ecEntry;
        afterChange (setPersisted w p) actions (Some ecEntry)
      else afterChange w [] (ls_lastECEntry s)
    | None => afterChange w [] (ls_lastECEntry s)
    end in
  match ls_lastNEntry s with
  | Some n =>
    if notChanged s (ec_Number (n_EpochConfig n)) then
      '(w, tr, actions) ← resumeEpoch w tr n (ls_highestPreprepared s);
      Ok (w, tr, actions, false)
    else afterEnd
  | None => afterEnd
  end.

Definition epochTracker_reinitialize (w : world) (tr : epochTracker) : outcome (world * epochTracker * ActionList) :=
  let tr := tr <| etr_networkConfig := ns_Config (cs_activeState (w_commitState w)) |> in
  let tr := tr <| etr_futureMsgs := renewFutureMsgs tr |> in
  s ← persisted_iterate (w_persisted w) summaryIterator (mkLogSummary None None None 0);
  _ ← checkLog s;
  '(w, tr, actions, return_) ← restartEpoch w tr s;
  if (return_ : bool) then Ok (w, tr, actions) else replayFuture w tr actions.

(** The epoch after one that is done. *)
Definition nextEpoch (tr : epochTracker) (et : epochTarget) : Z :=
  let newEpochNumber := et_number et +! 1 in
  if newEpochNumber <? etr_maxCorrectEpoch tr then etr_maxCorrectEpoch tr else newEpochNumber.

Definition epochTracker_advanceState (w : world) (tr : epochTracker) : outcome (world * epochTracker * ActionList) :=
  et ← currentTarget tr;
  if epochTargetState_iota (et_state et) <? epochTargetState_iota etDone then onTarget epochTarget_advanceState w tr
  else if cs_checkpointPending (w_commitState w) then Ok (w, tr, [])
  else
    let newEpochNumber := nextEpoch tr et in
    '(et, epochChange) ← changeTarget w tr newEpochNumber [ip_Id (etr_myConfig tr)];
    let tr := tr <| etr_currentEpoch := Some et |> in
    '(p, actions) ← persisted_addECEntry (w_persisted w) (mkECEntry newEpochNumber);
    replayFuture (setPersisted w p) tr (ActionList_Send actions (nc_Nodes (etr_networkConfig tr)) (Msg_EpochChange epochChange)).

Definition epochTracker_step (w : world) (tr : epochTracker) (source : Z) (msg : Msg) : outcome (world * epochTracker * ActionList) :=
  epochNumber ← epochForMsg msg;
  et ← currentTarget tr;
  if epochNumber <? et_number et then Ok (w, tr, [])
  else if et_number et <? epochNumber then
    let maxEpoch := default 0 (etr_maxEpochs tr !! source) in
    let tr := if maxEpoch <? epochNumber then tr <| etr_maxEpochs ::= <[source := epochNumber]> |> else tr in
    mb ← deref (etr_futureMsgs tr !! source) "nil pointer dereference: msgBuffer";
    Ok (w, tr <| etr_futureMsgs ::= <[source := msgBuffer_store mb msg]> |>, [])
  else epochTracker_applyMsg w tr source msg.

Definition epochTracker_applyBatchHashResult (w : world) (tr : epochTracker) (epoch seqNo : Z) (digest : slice)
    : outcome (world * epochTracker * ActionList) :=
  et ← currentTarget tr;
  if negb (epoch =? et_number et) || negb (bool_decide (et_state et = etInProgress)) then Ok (w, tr, [])
  else
    onTarget (fun w et => activeBatchHash w et seqNo digest) w tr.

(** One claim of the outer loop of [tick]. *)
Definition considerEpoch (nc : NetworkState_Config) (maxEpochs : gmap Z Z) (maxCorrectEpoch maxEpoch : Z) : Z :=
  if maxEpoch <=? maxCorrectEpoch then maxCorrectEpoch
  else
    let matches := 1 + Z.of_nat (length (filter (fun claim : Z * Z => maxEpoch <= claim.2) (epochRange maxEpochs))) in
    if matches <? someCorrectQuorum nc then maxCorrectEpoch else maxEpoch.

Definition epochTracker_tick (w : world) (tr : epochTracker) : outcome (world * epochTracker * ActionList) :=
  let tr := tr <| etr_maxCorrectEpoch := foldl (considerEpoch (etr_networkConfig tr) (etr_maxEpochs tr)) (etr_maxCorrectEpoch tr)
                    (epochRange (etr_maxEpochs tr)).*2 |> in
  et ← currentTarget tr;
  let tr :=
    if et_number et <? etr_maxCorrectEpoch tr then
      let tr := tr <| etr_ticksOutOfCorrectEpoch ::= fun n => s64 (n + 1) |> in
      if 10 <? etr_ticksOutOfCorrectEpoch tr then tr <| etr_currentEpoch := Some (et <| et_state := etDone |>) |> else tr
    else tr in
  onTarget epochTarget_tick w tr.

Definition epochTracker_moveLowWatermark (w : world) (tr : epochTracker) (seqNo : Z) : outcome (world * epochTracker * ActionList) :=
  onTarget (fun w et => epochTarget_moveLowWatermark w et seqNo) w tr.

Definition epochTracker_applyEpochChangeDigest (w : world) (tr : epochTracker) (origin : HashOrigin_EpochChange) (digest : slice)
    : outcome (world * epochTracker * ActionList) :=
  let targetNumber := ech_NewEpoch (he_EpochChange origin) in
  et ← currentTarget tr;
  if targetNumber <? et_number et then Ok (w, tr, [])
  else if et_number et <? targetNumber then Panic "got an epoch change digest for epoch we are processing"
  else onTarget (fun w et => epochTarget_applyEpochChangeDigest w et origin digest) w tr.

End Tracker.

(** ** Specification *)

(** The calls the state machine makes on a tracker between two
    reinitializations. *)
Inductive trackerOp :=
| EAdvance
| EStep (source : Z) (msg : Msg)
| ETick
| EBatchHash (epoch seqNo : Z) (digest : slice)
| EMoveLowWatermark (seqNo : Z)
| EEpochChangeDigest (origin : HashOrigin_EpochChange) (digest : slice).

(** The claims that count as those of a correct node. *)
Definition supported (nc : NetworkState_Config) (maxEpochs : gmap Z Z) (epoch : Z) : Prop :=
  someCorrectQuorum nc <= 1 + Z.of_nat (length (filter (fun claim : Z * Z => epoch <= claim.2) (map_to_list maxEpochs))).

(** The logged start of an epoch change and its broadcast. *)
Definition announces (number : Z) (nodes : list Z) (acts : ActionList) : Prop :=
  exists index epochChange rest, acts = Action_AppendWriteAhead index (Persistent_ECEntry (mkECEntry number))
    :: Action_Send nodes (Msg_EpochChange epochChange) :: rest /\ ech_NewEpoch epochChange = number.

(** ** Lemmas *)

Section TrackerLemmas.

Context `{PE : ProtoEqual} `{CR : ConfigRange} `{KR : CheckpointRange} `{Range : MapRange} `{Size : ProtoSize} `{ER : EpochRange}.

Definition runTrackerOp (w : world) (tr : epochTracker) (op : trackerOp) : outcome (world * epochTracker * ActionList) :=
  match op with
  | EAdvance => epochTracker_advanceState w tr
  | EStep source msg => epochTracker_step w tr source msg
  | ETick => epochTracker_tick w tr
  | EBatchHash epoch seqNo digest => epochTracker_applyBatchHashResult w tr epoch seqNo digest
  | EMoveLowWatermark seqNo => epochTracker_moveLowWatermark w tr seqNo
  | EEpochChangeDigest origin digest => epochTracker_applyEpochChangeDigest w tr origin digest
  end.

(** The current target of a tracker moved by calls on it, and nothing else of
    the tracker that its handlers rely on changed. *)
Inductive targetSteps : epochTarget -> epochTarget -> ActionList -> list (Z * NewEpochConfig) -> Prop :=
| steps_nil et : targetSteps et et [] []
| steps_call et et1 et2 acts rs w op w' more : targetSteps et et1 acts rs -> runTargetOp w et1 op = Ok (w', et2, more) ->
    targetSteps et et2 (ActionList_concat acts more) (rs ++ delivered op).

Lemma targetSteps_run (number : Z) (nc : NetworkState_Config) (et et' : epochTarget) (acts0 acts : ActionList) (rs0 rs : list (Z * NewEpochConfig)) :
  targetRun number nc et acts0 rs0 -> targetSteps et et' acts rs -> targetRun number nc et' (acts0 ++ acts) (rs0 ++ rs).
Proof.
  intros Hr Hs. induction Hs as [et | et et1 et2 acts rs w op w' more Hs IH H]; [by rewrite !app_nil_r |].
  rewrite app_assoc. unfold ActionList_concat. rewrite app_assoc. eapply run_call; [by apply IH | exact H].
Qed.

Lemma targetSteps_number (et et' : epochTarget) (acts : ActionList) (rs : list (Z * NewEpochConfig)) :
  targetSteps et et' acts rs -> et_number et' = et_number et /\ et_networkConfig et' = et_networkConfig et.
Proof. induction 1 as [et | et et1 et2 acts rs w op w' more Hs [N C] H]; [done |]. apply op_number in H as [-> ->]. done. Qed.

Lemma targetSteps_one (w w' : world) (et et' : epochTarget) (op : targetOp) (acts : ActionList) :
  runTargetOp w et op = Ok (w', et', acts) -> targetSteps et et' acts (delivered op).
Proof. intros H. exact (steps_call et et et' [] [] w op w' acts (steps_nil et) H). Qed.

Lemma targetSteps_trans (et1 et2 et3 : epochTarget) (a b : ActionList) (r s : list (Z * NewEpochConfig)) :
  targetSteps et1 et2 a r -> targetSteps et2 et3 b s -> targetSteps et1 et3 (a ++ b) (r ++ s).
Proof.
  intros H1 H2. induction H2 as [et | et et2 et3 acts rs w op w' more Hs IH H]; [by rewrite !app_nil_r |].
  unfold ActionList_concat. rewrite !app_assoc. eapply steps_call; [by apply IH | exact H].
Qed.

(** What a call on the tracker may change: the current target, by its own
    calls; the claims and the buffered messages. *)
Record trackerMoves (tr tr' : epochTracker) (et et' : epochTarget) (acts : ActionList) : Prop := {
  tm_current : etr_currentEpoch tr' = Some et';
  tm_steps : exists rs, targetSteps et et' acts rs;
  tm_config : etr_networkConfig tr' = etr_networkConfig tr;
  tm_maxCorrect : etr_maxCorrectEpoch tr <= etr_maxCorrectEpoch tr';
}.

Lemma onTarget_moves (f : world -> epochTarget -> outcome (world * epochTarget * ActionList)) (op : targetOp) (w w' : world)
    (tr tr' : epochTracker) (et : epochTarget) (acts : ActionList) :
  (forall w et, f w et = runTargetOp w et op) -> etr_currentEpoch tr = Some et -> onTarget f w tr = Ok (w', tr', acts) ->
  exists et', trackerMoves tr tr' et et' acts.
Proof.
  intros Hf Hc H. unfold onTarget, currentTarget in H. rewrite Hc in H. cbn [deref mbind outcome_bind] in H.
  apply bind_Ok in H as ([[w1 et1] a1] & H1 & [= _ <- <-]). rewrite Hf in H1. exists et1. split; [done | | done | done].
  eexists. by eapply targetSteps_one.
Qed.

Lemma trackerMoves_refl (tr : epochTracker) (et : epochTarget) : etr_currentEpoch tr = Some et -> trackerMoves tr tr et et [].
Proof. intros H. split; [done | | done | done]. eexists. constructor. Qed.

Lemma trackerMoves_trans (tr1 tr2 tr3 : epochTracker) (et1 et2 et3 : epochTarget) (a b : ActionList) :
  trackerMoves tr1 tr2 et1 et2 a -> trackerMoves tr2 tr3 et2 et3 b -> trackerMoves tr1 tr3 et1 et3 (a ++ b).
Proof.
  intros [C1 [r1 S1] N1 M1] [C2 [r2 S2] N2 M2]. split; [done | | congruence | lia]. eexists. by eapply targetSteps_trans.
Qed.

Lemma applyMsg_moves (w w' : world) (tr tr' : epochTracker) (et : epochTarget) (source : Z) (msg : Msg) (acts : ActionList) :
  etr_currentEpoch tr = Some et -> epochTracker_applyMsg w tr source msg = Ok (w', tr', acts) -> exists et', trackerMoves tr tr' et et' acts.
Proof.
  intros Hc H. unfold epochTracker_applyMsg in H. destruct msg; try discriminate H.
  1, 2, 3: exact (onTarget_moves _ (TStep source _) w w' tr tr' et acts (fun _ _ => eq_refl) Hc H).
  - exact (onTarget_moves _ (TSuspect source) w w' tr tr' et acts (fun _ _ => eq_refl) Hc H).
  - exact (onTarget_moves _ (TEpochChange source m) w w' tr tr' et acts (fun _ _ => eq_refl) Hc H).
  - exact (onTarget_moves _ (TEpochChangeAck source _ _) w w' tr tr' et acts (fun _ _ => eq_refl) Hc H).
  - apply bind_Ok in H as (leader & _ & H). case_match; [injection H as _ <- <-; exists et; by apply trackerMoves_refl |].
    exact (onTarget_moves _ (TNewEpoch m) w w' tr tr' et acts (fun _ _ => eq_refl) Hc H).
  - exact (onTarget_moves _ (TEcho source m) w w' tr tr' et acts (fun _ _ => eq_refl) Hc H).
  - exact (onTarget_moves _ (TReady source m) w w' tr tr' et acts (fun _ _ => eq_refl) Hc H).
Qed.

(** The messages applied from the buffers are calls on the new target. *)
Lemma replayFuture_moves (w w' : world) (tr tr' : epochTracker) (et : epochTarget) (acts0 acts : ActionList) :
  etr_currentEpoch tr = Some et -> replayFuture w tr acts0 = Ok (w', tr', acts) ->
  exists et' more, acts = acts0 ++ more /\ trackerMoves tr tr' et et' more.
Proof.
  intros Hc H. unfold replayFuture in H.
  set (P := fun st : world * epochTracker * ActionList => exists et' more, st.2 = acts0 ++ more /\ trackerMoves tr st.1.2 et et' more).
  change (P (w', tr', acts)). eapply (forRange_inv P); [| | exact H].
  - intros id [[w1 tr1] a1] st' _ HP Hb. unfold replayNode in Hb. apply bind_Ok in Hb as (mb & _ & Hb).
    apply bind_Ok in Hb as ([mb' [[w2 tr2] a2]] & Hit & [= <-]).
    apply (iterate_inv P) in Hit; [| | exact HP].
    + destruct Hit as (et2 & more & He & [C S N M]). exists et2, more. split; [exact He |]. split; [exact C | exact S | exact N | exact M].
    + intros src m [[w3 tr3] a3] st' (et3 & m3 & He & Hm) Ha. cbn in He, Hm. apply bind_Ok in Ha as ([[w4 tr4] a4] & Ha & [= <-]).
      eapply applyMsg_moves in Ha; [| apply Hm]. destruct Ha as (et4 & Hm4). exists et4, (m3 ++ a4). split.
      * cbn. unfold ActionList_concat. rewrite He. by rewrite app_assoc.
      * cbn. by eapply trackerMoves_trans.
  - exists et, []. split; [by rewrite app_nil_r | by apply trackerMoves_refl].
Qed.

Lemma considerEpoch_mono (nc : NetworkState_Config) (maxEpochs : gmap Z Z) (l : list Z) (m : Z) :
  m <= foldl (considerEpoch nc maxEpochs) m l.
Proof.
  revert m. induction l as [|e l IH]; intros m; cbn; [done |]. etransitivity; [| apply IH].
  unfold considerEpoch. repeat case_match; lia.
Qed.

Lemma tick_moves (w w' : world) (tr tr' : epochTracker) (et : epochTarget) (acts : ActionList) :
  etr_currentEpoch tr = Some et -> epochTracker_tick w tr = Ok (w', tr', acts) -> exists et', trackerMoves tr tr' et et' acts.
Proof.
  intros Hc H. unfold epochTracker_tick in H. set (m := foldl _ _ _) in H.
  assert (Hm : etr_maxCorrectEpoch tr <= m) by apply considerEpoch_mono. clearbody m.
  unfold currentTarget at 1 in H. change (etr_currentEpoch tr <| etr_maxCorrectEpoch := m |>) with (etr_currentEpoch tr) in H.
  rewrite Hc in H. cbn [deref mbind outcome_bind] in H. match type of H with onTarget _ _ ?t = _ => set (tr1 := t) in H end.
  assert (H1 : exists et1, trackerMoves tr tr1 et et1 []).
  { unfold tr1. repeat case_match; [exists (et <| et_state := etDone |>) | exists et | exists et]; (split; [done | | done | done]);
      [exists []; exact (targetSteps_one w w et _ TDone [] eq_refl) | exists []; constructor ..]. }
  clearbody tr1. destruct H1 as (et1 & H1).
  eapply (onTarget_moves _ TTick) in H; [| intros; reflexivity | apply H1]. destruct H as (et2 & H2). exists et2.
  exact (trackerMoves_trans _ _ _ _ _ _ _ _ H1 H2).
Qed.

(** The target of an epoch change is a new one. *)
Lemma changeTarget_new (w : world) (tr : epochTracker) (number : Z) (leaders : list Z) (et : epochTarget) (ec : EpochChange) :
  changeTarget w tr number leaders = Ok (et, ec) ->
  et_number et = number /\ ech_NewEpoch ec = number /\ targetRun number (etr_networkConfig tr) et [] [].
Proof.
  unfold changeTarget. intros H. apply bind_Ok in H as (e & He & H). apply constructEpochChange_epoch in He.
  destruct (newParsedEpochChange e) as [err | parsed]; [discriminate H |]. apply bind_Ok in H as (et0 & H0 & [= <- <-]). rewrite He in H0.
  split; [| split; [done |]].
  - unfold newEpochTarget in H0. by apply bind_Ok in H0 as (l & _ & [= <-]).
  - apply (run_call _ _ et0 [] [] w (TMyEpochChange parsed leaders) w _ []); [by eapply run_new | reflexivity].
Qed.

(** What one call does to the current epoch: it works on the current target,
    or the target was done and the tracker changes to a later epoch. *)
Lemma op_moves (w w' : world) (tr tr' : epochTracker) (et : epochTarget) (op : trackerOp) (acts : ActionList) :
  etr_currentEpoch tr = Some et -> runTrackerOp w tr op = Ok (w', tr', acts) ->
  (exists et', trackerMoves tr tr' et et' acts)
  \/ (op = EAdvance /\ et_state et = etDone /\ cs_checkpointPending (w_commitState w) = false
      /\ announces (nextEpoch tr et) (nc_Nodes (etr_networkConfig tr)) acts
      /\ exists et0 et' more rs, targetRun (nextEpoch tr et) (etr_networkConfig tr) et0 [] [] /\ targetSteps et0 et' more rs
           /\ etr_currentEpoch tr' = Some et' /\ etr_networkConfig tr' = etr_networkConfig tr /\ et_number et0 = nextEpoch tr et
           /\ etr_maxCorrectEpoch tr <= etr_maxCorrectEpoch tr').
Proof.
  intros Hc H. destruct op; cbn [runTrackerOp] in H.
  - unfold epochTracker_advanceState, currentTarget in H. rewrite Hc in H. cbn [deref mbind outcome_bind] in H.
    destruct (epochTargetState_iota (et_state et) <? epochTargetState_iota etDone) eqn:Hst.
    { left. exact (onTarget_moves _ TAdvance w w' tr tr' et acts (fun _ _ => eq_refl) Hc H). }
    destruct (cs_checkpointPending (w_commitState w)) eqn:Hp; [left; injection H as _ <- <-; exists et; by apply trackerMoves_refl |].
    right. apply bind_Ok in H as ([et0 ec] & H0 & H). apply changeTarget_new in H0 as (Hn & He & Hrun).
    apply bind_Ok in H as ([p a] & Ha & H). unfold persisted_addECEntry, persisted_appendLogEntry in Ha.
    destruct (pst_log (w_persisted w)); [discriminate Ha |]. injection Ha as _ <-.
    eapply replayFuture_moves in H; [| reflexivity]. destruct H as (et' & more & -> & [C [rs S] N M]).
    split; [done |]. split; [destruct (et_state et); (reflexivity || discriminate Hst) |]. split; [done |]. split; [by eexists _, ec, more |].
    by exists et0, et', more, rs.
  - left. unfold epochTracker_step in H. apply bind_Ok in H as (n & _ & H). unfold currentTarget in H. rewrite Hc in H.
    cbn [deref mbind outcome_bind] in H. destruct (n <? et_number et); [injection H as _ <- <-; exists et; by apply trackerMoves_refl |].
    destruct (et_number et <? n); [| by eapply applyMsg_moves].
    apply bind_Ok in H as (mb & _ & [= _ <- <-]). exists et. case_match; (split; [done | exists []; constructor | done | done]).
  - left. by eapply tick_moves.
  - left. unfold epochTracker_applyBatchHashResult, currentTarget in H. rewrite Hc in H. cbn [deref mbind outcome_bind] in H.
    case_match; [injection H as _ <- <-; exists et; by apply trackerMoves_refl |].
    exact (onTarget_moves _ (TBatchHash seqNo digest) w w' tr tr' et acts (fun _ _ => eq_refl) Hc H).
  - left. exact (onTarget_moves _ (TMoveLowWatermark seqNo) w w' tr tr' et acts (fun _ _ => eq_refl) Hc H).
  - left. unfold epochTracker_applyEpochChangeDigest, currentTarget in H. rewrite Hc in H. cbn [deref mbind outcome_bind] in H.
    case_match; [injection H as _ <- <-; exists et; by apply trackerMoves_refl |]. case_match; [discriminate H |].
    exact (onTarget_moves _ (TEpochChangeDigest origin digest) w w' tr tr' et acts (fun _ _ => eq_refl) Hc H).
Qed.

Lemma nextEpoch_max (tr : epochTracker) (et : epochTarget) :
  0 <= et_number et -> et_number et + 1 < 2 ^ 64 -> nextEpoch tr et = Z.max (et_number et + 1) (etr_maxCorrectEpoch tr).
Proof. intros H0 H. unfold nextEpoch. rewrite add64_small by lia. case_match; lia. Qed.

(** The current target has a run of the broadcast protocol behind it. *)
Definition onProtocol (tr : epochTracker) : Prop :=
  exists et acts rs, etr_currentEpoch tr = Some et /\ targetRun (et_number et) (etr_networkConfig tr) et acts rs.

Lemma moves_onProtocol (tr tr' : epochTracker) (et et' : epochTarget) (acts acts0 : ActionList) (rs0 : list (Z * NewEpochConfig)) :
  targetRun (et_number et) (etr_networkConfig tr) et acts0 rs0 -> trackerMoves tr tr' et et' acts -> onProtocol tr'.
Proof.
  intros Hr [C [rs S] N _]. destruct (targetSteps_number _ _ _ _ S) as [Hn _]. eexists et', _, _. split; [exact C |]. rewrite N, Hn.
  by eapply targetSteps_run.
Qed.

(** The log of a node that has sent an epoch change since its last epoch
    began, or whose last epoch has ended. *)
Definition logChanging (p : persisted) : Prop :=
  exists s, persisted_iterate p summaryIterator (mkLogSummary None None None 0) = Ok s
    /\ match ls_lastNEntry s with Some n => notChanged s (ec_Number (n_EpochConfig n)) = false | None => True end.

(** The trackers of a node that starts with such a log. *)
Inductive trackerReach : epochTracker -> Prop :=
| reach_start w nbs my w' tr acts : logChanging (w_persisted w) -> epochTracker_reinitialize w (newEpochTracker nbs my) = Ok (w', tr, acts) ->
    trackerReach tr
| reach_op w tr op w' tr' acts : trackerReach tr -> runTrackerOp w tr op = Ok (w', tr', acts) -> trackerReach tr'.

Lemma rejoin_onProtocol (w w' : world) (tr tr' : epochTracker) (number : Z) (acts0 acts : ActionList) (ret : bool) :
  etr_currentEpoch tr = None -> rejoinChange w tr number acts0 = Ok (w', tr', acts, ret) -> ret = false /\ onProtocol tr'.
Proof.
  intros Hn H. unfold rejoinChange in H. rewrite Hn in H. apply bind_Ok in H as ([et ec] & H1 & [= _ <- _ <-]). split; [done |].
  apply changeTarget_new in H1 as (Hm & _ & Hr). exists et, [], []. split; [done |]. by rewrite Hm.
Qed.

Lemma restart_onProtocol (w w' : world) (tr tr' : epochTracker) (s : logSummary) (acts : ActionList) (ret : bool) :
  match ls_lastNEntry s with Some n => notChanged s (ec_Number (n_EpochConfig n)) = false | None => True end ->
  etr_currentEpoch tr = None -> restartEpoch w tr s = Ok (w', tr', acts, ret) -> ret = false /\ onProtocol tr'.
Proof.
  intros Hn Hc H. unfold restartEpoch in H.
  assert (Hend : (match ls_lastFEntry s with
      | Some f =>
        if notChanged s (ec_Number (f_EndsEpochConfig f)) then
          '(p, actions) ← persisted_addECEntry (w_persisted w) (mkECEntry (ec_Number (f_EndsEpochConfig f) +! 1));
          rejoinChange (setPersisted w p) tr (ece_EpochNumber (mkECEntry (ec_Number (f_EndsEpochConfig f) +! 1))) actions
        else match ls_lastECEntry s with Some ec => rejoinChange w tr (ece_EpochNumber ec) [] | None => Panic "no recorded active epoch, ended epoch, or epoch change in log" end
      | None => match ls_lastECEntry s with Some ec => rejoinChange w tr (ece_EpochNumber ec) [] | None => Panic "no recorded active epoch, ended epoch, or epoch change in log" end
      end) = Ok (w', tr', acts, ret)).
  { destruct (ls_lastNEntry s) as [n |]; [| exact H]. rewrite Hn in H. exact H. }
  clear H. destruct (ls_lastFEntry s) as [f |]; [destruct (notChanged s _) |].
  - apply bind_Ok in Hend as ([p a] & _ & Hend). eapply rejoin_onProtocol; [exact Hc | exact Hend].
  - destruct (ls_lastECEntry s); [| discriminate Hend]. eapply rejoin_onProtocol; [exact Hc | exact Hend].
  - destruct (ls_lastECEntry s); [| discriminate Hend]. eapply rejoin_onProtocol; [exact Hc | exact Hend].
Qed.

Lemma reinitialize_onProtocol (w w' : world) (nbs : nodeBuffers) (my : EventInitialParameters) (tr : epochTracker) (acts : ActionList) :
  logChanging (w_persisted w) -> epochTracker_reinitialize w (newEpochTracker nbs my) = Ok (w', tr, acts) -> onProtocol tr.
Proof.
  intros (s & Hs & Hn) H. unfold epochTracker_reinitialize in H. rewrite Hs in H. cbn [mbind outcome_bind] in H.
  apply bind_Ok in H as (u & _ & H). apply bind_Ok in H as ([[[w1 tr1] a1] ret] & H1 & H).
  apply restart_onProtocol in H1 as [-> (et & a0 & r0 & Hc & Hr)]; [| exact Hn | reflexivity].
  eapply replayFuture_moves in H; [| exact Hc]. destruct H as (et' & more & _ & Hm). by eapply moves_onProtocol.
Qed.

(** The epoch the claims support most. *)
Lemma considerEpoch_spec (nc : NetworkState_Config) (maxEpochs : gmap Z Z) (l : list Z) (m : Z) :
  let m' := foldl (considerEpoch nc maxEpochs) m l in
  (m' = m \/ (m' ∈ l /\ supported nc maxEpochs m')) /\ forall e, e ∈ l -> supported nc maxEpochs e -> e <= m'.
Proof.
  revert m. induction l as [|e l IH]; intros m; cbn; [split; [by left | by intros e ?%elem_of_nil] |].
  assert (Hc : (considerEpoch nc maxEpochs m e = m \/ (considerEpoch nc maxEpochs m e = e /\ supported nc maxEpochs e))
    /\ (supported nc maxEpochs e -> e <= considerEpoch nc maxEpochs m e)).
  { unfold considerEpoch, supported. rewrite epochRange_perm. destruct (Z.leb_spec e m); [split; [by left | lia] |].
    case_match eqn:Hlt; [apply Z.ltb_lt in Hlt; split; [by left | lia] | apply Z.ltb_ge in Hlt; split; [by right | lia]]. }
  destruct Hc as [Hc Hge]. destruct (IH (considerEpoch nc maxEpochs m e)) as [H1 H2]. split.
  - destruct H1 as [-> | [Hin Hs]]; [| right; split; [by right | done]]. destruct Hc as [-> | [-> Hs]]; [by left | right; split; [by left | done]].
  - intros e' [-> | Hin]%elem_of_cons Hs; [| by apply H2]. etransitivity; [by apply Hge | apply considerEpoch_mono].
Qed.

Lemma alignStart_spec (ci x : Z) (moved : bool) (k fuel : nat) :
  1 < ci -> 0 <= x -> (x + Z.of_nat k) mod ci = 1 -> (forall j, (j < k)%nat -> (x + Z.of_nat j) mod ci <> 1) -> (k < fuel)%nat ->
  x + Z.of_nat k < 2 ^ 64 -> alignStart fuel ci x moved = Ok (x + Z.of_nat k, moved || negb (k =? 0)%nat).
Proof.
  revert x moved fuel. induction k as [|k IH]; intros x moved fuel Hci Hx Hm Hj Hf Ho; (destruct fuel as [|fuel]; [lia |]); cbn [alignStart];
    rewrite umod_pos by lia; cbn [mbind outcome_bind].
  - rewrite Z.add_0_r in *. rewrite Hm. cbn. by rewrite orb_false_r.
  - pose proof (Hj 0%nat ltac:(lia)) as H0. rewrite Z.add_0_r in H0. destruct (Z.eqb_spec (x mod ci) 1); [done |].
    rewrite add64_small by lia. rewrite (IH (x + 1)); [| lia | lia | rewrite <- Hm; f_equal; lia | | lia | lia].
    + f_equal. f_equal; [lia |]. by rewrite orb_true_r.
    + intros j Hlt. replace (x + 1 + Z.of_nat j) with (x + Z.of_nat (S j)) by lia. apply Hj. lia.
Qed.

(** A resumed target without a configuration cannot begin its epoch. *)
Lemma resuming_crashes (w : world) (et : epochTarget) :
  et_state et = etResuming -> et_networkNewEpoch et = None -> cs_lowWatermark (w_commitState w) +! 1 = et_startingSeqNo et ->
  et_startingSeqNo et <= cs_stopAtSeqNo (w_commitState w) ->
  epochTarget_advanceState w et = Panic "nil pointer dereference: networkNewEpoch".
Proof.
  intros Hst Hn Hlow Hstop. unfold epochTarget_advanceState. change 10%nat with (S (S 8)). rewrite targetLoop_step. unfold iteration.
  rewrite Hst. cbn [mbind outcome_bind]. unfold epochTarget_checkEpochResumed. rewrite Hlow, Z.eqb_refl. cbn [negb].
  destruct (Z.ltb_spec (cs_stopAtSeqNo (w_commitState w)) (et_startingSeqNo et)); [lia |]. rewrite decide_False by done.
  rewrite targetLoop_step. unfold iteration. change (et_state et <| et_state := etReady |>) with etReady. cbv iota.
  unfold beginEpoch. change (et_networkNewEpoch et <| et_state := etReady |>) with (et_networkNewEpoch et). by rewrite Hn.
Qed.

Lemma advance_crashes (w : world) (tr : epochTracker) (et : epochTarget) (why : string) :
  etr_currentEpoch tr = Some et -> et_state et = etResuming -> epochTarget_advanceState w et = Panic why ->
  epochTracker_advanceState w tr = Panic why.
Proof.
  intros Hc Hst H. assert (Hct : currentTarget tr = Ok et) by (unfold currentTarget; by rewrite Hc).
  assert (Hlt : (epochTargetState_iota (et_state et) <? epochTargetState_iota etDone) = true) by (by rewrite Hst).
  unfold epochTracker_advanceState. rewrite Hct, bind_ok, Hlt. unfold onTarget. rewrite Hct, bind_ok, H. reflexivity.
Qed.

Lemma resuming_tick_crashes (w : world) (et : epochTarget) :
  let timeout := ip_NewEpochTimeoutTicks (et_myConfig et) in
  et_state et = etResuming -> et_myNewEpoch et = None -> et_isLeader et = false -> 0 < timeout < 2 ^ 32 ->
  epochTarget_tick w (et <| et_stateTicks := timeout - 1 |>) = Panic "nil pointer dereference: myNewEpoch".
Proof.
  destruct et. cbn. intros -> -> -> Ht. unfold epochTarget_tick, epochTarget_tickPending. cbn.
  rewrite bool_decide_false by done. rewrite add64_small, Z.sub_add, umod_pos by lia. rewrite Z_mod_same_full. reflexivity.
Qed.

(** The target a restart in an active epoch creates. *)
Lemma resume_target (w w' : world) (tr tr' : epochTracker) (nEntry : NEntry) (highest : Z) (acts : ActionList) (et : epochTarget) :
  resumeEpoch w tr nEntry highest = Ok (w', tr', acts) -> etr_currentEpoch tr' = Some et ->
  et_state et = etResuming /\ et_networkNewEpoch et = None /\ et_myNewEpoch et = None /\ et_myConfig et = etr_myConfig tr.
Proof.
  intros H Hc. unfold resumeEpoch in H. apply bind_Ok in H as (et0 & H0 & H). apply bind_Ok in H as ([start moved] & _ & H).
  apply bind_Ok in H as ([p a] & _ & [= _ <- _]). injection Hc as <-. unfold newEpochTarget in H0. apply bind_Ok in H0 as (l & _ & [= <-]). done.
Qed.

(** The number of steps to the next multiple plus one. *)
Lemma align_distance (ci x : Z) : 1 < ci -> 0 <= x ->
  exists k : nat, Z.of_nat k < ci /\ (x + Z.of_nat k) mod ci = 1 /\ forall j, (j < k)%nat -> (x + Z.of_nat j) mod ci <> 1.
Proof.
  intros Hci Hx. exists (Z.to_nat ((1 - x) mod ci)). pose proof (Z.mod_pos_bound (1 - x) ci ltac:(lia)) as Hb. rewrite Z2Nat.id by lia.
  split; [lia |]. split.
  - rewrite Zplus_mod_idemp_r. replace (x + (1 - x)) with 1 by lia. apply Z.mod_small. lia.
  - intros j Hj Hm. assert (Hj' : Z.of_nat j < (1 - x) mod ci) by lia.
    assert (Heq : (1 - x) mod ci = Z.of_nat j).
    { replace (1 - x) with (Z.of_nat j + (1 - (x + Z.of_nat j))) by lia. rewrite Zplus_mod, Zminus_mod, Hm.
      rewrite (Z.mod_small 1) by lia. cbn. rewrite Z.mod_0_l, Z.add_0_r by lia. rewrite Z.mod_mod by lia. apply Z.mod_small. lia. }
    lia.
Qed.

(** ** Properties *)

(** C22: a node changes epochs only when it is done with the current one, and
    only forward.  Whatever call is made on the tracker, the current epoch
    keeps its number, or the call was [advanceState] with the current target
    done and no checkpoint pending; then the new number is the larger of the
    next one and of the highest epoch attributed to a correct node, and the
    tracker logs the start of the change and sends its epoch change for
    exactly that epoch to all nodes. *)
Theorem epoch_changes_only_when_done (w w' : world) (tr tr' : epochTracker) (et : epochTarget) (op : trackerOp) (acts : ActionList) :
  etr_currentEpoch tr = Some et -> 0 <= et_number et -> et_number et + 1 < 2 ^ 64 -> runTrackerOp w tr op = Ok (w', tr', acts) ->
  exists et', etr_currentEpoch tr' = Some et' /\ etr_maxCorrectEpoch tr <= etr_maxCorrectEpoch tr'
    /\ (et_number et' = et_number et
        \/ (op = EAdvance /\ et_state et = etDone /\ cs_checkpointPending (w_commitState w) = false
            /\ et_number et' = Z.max (et_number et + 1) (etr_maxCorrectEpoch tr)
            /\ announces (et_number et') (nc_Nodes (etr_networkConfig tr)) acts)).
Proof.
  intros Hc H0 H1 H. destruct (op_moves w w' tr tr' et op acts Hc H) as [(et' & [C [rs S] N M]) | (-> & Hd & Hp & Ha & Hnew)].
  - exists et'. destruct (targetSteps_number _ _ _ _ S) as [Hn _]. auto.
  - destruct Hnew as (et0 & et' & more & rs & _ & S & C & _ & Hn0 & M). destruct (targetSteps_number _ _ _ _ S) as [Hn _].
    exists et'. split; [done |]. split; [done |]. right. rewrite Hn, Hn0, nextEpoch_max in * by done. auto.
Qed.


(** A tick attributes to the correct nodes the highest epoch that enough
    nodes claim, in whichever order Go ranges over the claims: the result is
    the old one or a supported claim, not below the old one and not below any
    supported claim, where a claim is supported if the count of the nodes that
    claim that epoch or a later one, plus one, reaches F+1. *)
Theorem tick_adopts_supported_epoch (w w' : world) (tr tr' : epochTracker) (acts : ActionList) :
  epochTracker_tick w tr = Ok (w', tr', acts) ->
  let old := etr_maxCorrectEpoch tr in
  let new := etr_maxCorrectEpoch tr' in
  let claim e := exists n, etr_maxEpochs tr !! n = Some e /\ supported (etr_networkConfig tr) (etr_maxEpochs tr) e in
  old <= new /\ (new = old \/ claim new) /\ forall e, claim e -> e <= new.
Proof.
  intros H. cbv zeta. unfold epochTracker_tick in H. destruct (considerEpoch_spec (etr_networkConfig tr) (etr_maxEpochs tr)
    (epochRange (etr_maxEpochs tr)).*2 (etr_maxCorrectEpoch tr)) as [Hs Hmax].
  pose proof (considerEpoch_mono (etr_networkConfig tr) (etr_maxEpochs tr) (epochRange (etr_maxEpochs tr)).*2 (etr_maxCorrectEpoch tr)) as Hge.
  set (m := foldl _ _ _) in *. apply bind_Ok in H as (et & _ & H).
  assert (Hm : etr_maxCorrectEpoch tr' = m).
  { unfold onTarget in H. apply bind_Ok in H as (et1 & _ & H). apply bind_Ok in H as ([[w1 et2] a1] & _ & [= _ <- _]). by repeat case_match. }
  rewrite Hm. split; [done |].
  assert (Hin : forall e, e ∈ (epochRange (etr_maxEpochs tr)).*2 <-> exists n, etr_maxEpochs tr !! n = Some e).
  { intros e. rewrite epochRange_perm, list_elem_of_fmap. split.
    - intros ([n e'] & -> & Hn%elem_of_map_to_list). by exists n.
    - intros (n & Hn). exists (n, e). split; [done |]. by apply elem_of_map_to_list. }
  split.
  - destruct Hs as [-> | [Hi Hs]]; [by left | right]. apply Hin in Hi as [n Hi]. by exists n.
  - intros e (n & Hn & He). apply Hmax; [| done]. apply Hin. by exists n.
Qed.

(** In a network that tolerates one fault, a single faulty node takes
    every other node out of its epoch: a claim of one node for a later epoch
    counts as that of a correct node, and the tick after the ten of grace
    ends the current epoch, without a message of any other node. *)
Theorem lone_claim_ends_epoch (w : world) (tr : epochTracker) (et : epochTarget) (liar claimed : Z) :
  etr_currentEpoch tr = Some et -> nc_F (etr_networkConfig tr) = 1 -> etr_maxEpochs tr = {[liar := claimed]} ->
  etr_maxCorrectEpoch tr <= claimed -> et_number et < claimed -> etr_ticksOutOfCorrectEpoch tr = 10 ->
  exists tr' et', epochTracker_tick w tr = Ok (w, tr', []) /\ etr_currentEpoch tr' = Some et' /\ et_state et' = etDone
    /\ etr_maxCorrectEpoch tr' = claimed.
Proof.
  intros Hc HF Hm Hmax Hn Ht.
  assert (Hfold : foldl (considerEpoch (etr_networkConfig tr) (etr_maxEpochs tr)) (etr_maxCorrectEpoch tr) (epochRange (etr_maxEpochs tr)).*2 = claimed).
  { rewrite Hm. assert (Hp : epochRange {[liar := claimed]} = [(liar, claimed)]).
    { apply Permutation_singleton_r. by rewrite epochRange_perm, map_to_list_singleton. }
    rewrite Hp. cbn. unfold considerEpoch. rewrite Hp. destruct (Z.leb_spec claimed (etr_maxCorrectEpoch tr)); [lia |].
    rewrite filter_cons_True by done. unfold someCorrectQuorum. rewrite HF. done. }
  unfold epochTracker_tick. rewrite Hfold. unfold currentTarget at 1. cbn. rewrite Hc. cbn [deref mbind outcome_bind].
  destruct (Z.ltb_spec (et_number et) claimed); [| lia]. rewrite Ht. change (s64 (10 + 1)) with 11. cbn.
  eexists _, _. split; [reflexivity |]. done.
Qed.

(** On a restart in an active epoch the loop that looks for the starting
    sequence number ends, if the checkpoint interval is at least two: it finds
    the least number not below the one after the highest preprepared that
    follows a multiple of the interval, within the fuel, and asks for a state
    transfer exactly if it had to move. *)
Theorem restart_alignment_terminates (ci highestPreprepared : Z) :
  1 < ci -> 0 <= highestPreprepared -> highestPreprepared + 1 + ci < 2 ^ 64 ->
  exists start, alignStart (S (Z.to_nat ci)) ci (highestPreprepared +! 1) false = Ok (start, negb (start =? highestPreprepared + 1))
    /\ highestPreprepared < start <= highestPreprepared + ci /\ start mod ci = 1
    /\ forall x, highestPreprepared < x < start -> x mod ci <> 1.
Proof.
  intros Hci Hh Ho. destruct (align_distance ci (highestPreprepared + 1) Hci ltac:(lia)) as (k & Hk & Hm & Hj).
  exists (highestPreprepared + 1 + Z.of_nat k). rewrite add64_small by lia. split; [| split; [lia | split; [done |]]].
  - rewrite (alignStart_spec ci _ false k) by (done || lia). do 2 f_equal. cbn [orb]. f_equal.
    destruct (Z.eqb_spec (highestPreprepared + 1 + Z.of_nat k) (highestPreprepared + 1)), (Nat.eqb_spec k 0); lia || done.
  - intros x Hx. replace x with (highestPreprepared + 1 + Z.of_nat (Z.to_nat (x - highestPreprepared - 1))) by lia. apply Hj. lia.
Qed.

(** With a checkpoint interval of one the same loop never ends: no number
    is one modulo one, so every bound on its iterations is exceeded. *)
Theorem restart_hangs_with_interval_one (fuel : nat) (start : Z) (moved : bool) : alignStart fuel 1 start moved = OutOfFuel.
Proof.
  revert start moved. induction fuel as [|fuel IH]; intros start moved; cbn [alignStart]; [done |]. rewrite umod_pos by lia.
  cbn [mbind outcome_bind]. rewrite Z.mod_1_r. apply IH.
Qed.

(** A node that restarts in an active epoch crashes.  The target it
    resumes has no configuration of the epoch and no new epoch of its own: as
    soon as its starting sequence number follows the low watermark and is not
    above the stop, [advanceState] dereferences the nil configuration; and if
    it is not the leader, the tick that completes the timeout dereferences the
    nil new epoch. *)
Theorem resumed_epoch_crashes (w w' : world) (tr tr' : epochTracker) (nEntry : NEntry) (highest : Z) (acts : ActionList) (et : epochTarget) :
  resumeEpoch w tr nEntry highest = Ok (w', tr', acts) -> etr_currentEpoch tr' = Some et ->
  (forall w1, cs_lowWatermark (w_commitState w1) +! 1 = et_startingSeqNo et -> et_startingSeqNo et <= cs_stopAtSeqNo (w_commitState w1) ->
     epochTracker_advanceState w1 tr' = Panic "nil pointer dereference: networkNewEpoch")
  /\ (forall w1, let timeout := ip_NewEpochTimeoutTicks (etr_myConfig tr) in et_isLeader et = false -> 0 < timeout < 2 ^ 32 ->
     epochTarget_tick w1 (et <| et_stateTicks := timeout - 1 |>) = Panic "nil pointer dereference: myNewEpoch").
Proof.
  intros H Hc. destruct (resume_target _ _ _ _ _ _ _ _ H Hc) as (Hst & Hn & Hm & Hmy). split.
  - intros w1 Hlow Hstop. eapply advance_crashes; [exact Hc | exact Hst | by apply resuming_crashes].
  - intros w1 timeout Hl Ht. unfold timeout in *. rewrite <- Hmy in *. by apply resuming_tick_crashes.
Qed.

End TrackerLemmas.

(** ** Witnesses *)

#[local] Existing Instance fieldsEqual.
#[local] Existing Instance plainConfigRange.
#[local] Existing Instance plainCheckpointRange.
#[local] Existing Instance canonicalRange.
#[local] Existing Instance unitSize.

Definition plainEpochRange : EpochRange := {| epochRange := map_to_list; epochRange_perm := fun m => reflexivity _ |}.
#[local] Existing Instance plainEpochRange.

(** Node 2 of four starts from a log. *)
Definition restartConfig : NetworkState_Config := mkConfig [0; 1; 2; 3] 5 100 4 1.
Definition restartParams : EventInitialParameters := mkInitialParameters 2 1 4 4 8 1000.
Definition restartState : NetworkState := mkNetworkState restartConfig [] [] false.
Definition restartWorld (log : list (Z * Persistent)) : world :=
  let p := mkPersisted (Z.of_nat (length log)) log in
  let cs := match commitState_reinitialize newCommitState p with Ok (cs, _) => cs | _ => newCommitState end in
  mkWorld (mkShared p cs newClientTracker) newBatchTracker (newClientHashDisseminator (newNodeBuffers restartParams) restartParams) emptyHeap.
Definition restartTracker : epochTracker := newEpochTracker (newNodeBuffers restartParams) restartParams.

(** The log at the start of a network, and one in which epoch 1 has begun. *)
Definition genesisLog : list (Z * Persistent) :=
  [ (0, Persistent_CEntry (mkCEntry 0 (Some [1]) restartState)); (1, Persistent_FEntry (mkFEntry (mkEpochConfig 0 [0; 1; 2; 3] 0))) ].
Definition activeLog : list (Z * Persistent) :=
  [ (0, Persistent_CEntry (mkCEntry 0 (Some [1]) restartState)); (1, Persistent_FEntry (mkFEntry (mkEpochConfig 0 [0; 1; 2; 3] 0)));
    (2, Persistent_ECEntry (mkECEntry 1)); (3, Persistent_NEntry (mkNEntry 1 (mkEpochConfig 1 [0; 1; 2; 3] 100))) ].

Definition startedBy (log : list (Z * Persistent)) : outcome (world * epochTracker * ActionList) :=
  epochTracker_reinitialize (restartWorld log) restartTracker.
Definition trackerOf (r : outcome (world * epochTracker * ActionList)) : epochTracker := match r with Ok (_, tr, _) => tr | _ => restartTracker end.
Definition worldOf (r : outcome (world * epochTracker * ActionList)) : world := match r with Ok (w, _, _) => w | _ => restartWorld [] end.

Definition currentOf (tr : epochTracker) : epochTarget := default verifyingTarget (etr_currentEpoch tr).

Lemma started_reached : trackerReach (trackerOf (startedBy genesisLog)).
Proof.
  apply (reach_start (restartWorld genesisLog) (newNodeBuffers restartParams) restartParams (worldOf (startedBy genesisLog)) _
    (match startedBy genesisLog with Ok (_, _, acts) => acts | _ => [] end)).
  - eexists. split; [vm_compute; reflexivity | exact I].
  - vm_compute. reflexivity.
Qed.


(** The target of epoch 1 is done: the tracker moves to epoch 2. *)
Definition doneTracker : epochTracker :=
  let tr := trackerOf (startedBy genesisLog) in tr <| etr_currentEpoch := Some ((currentOf tr) <| et_state := etDone |>) |>.
Definition movedOn : outcome (world * epochTracker * ActionList) := epochTracker_advanceState (worldOf (startedBy genesisLog)) doneTracker.

Lemma epoch_changes_only_when_done_witness : exists et', etr_currentEpoch (trackerOf movedOn) = Some et' /\ et_number et' <> 1.
Proof.
  assert (Hrun : runTrackerOp (worldOf (startedBy genesisLog)) doneTracker EAdvance
      = Ok (worldOf movedOn, trackerOf movedOn, match movedOn with Ok (_, _, acts) => acts | _ => [] end)) by (vm_compute; reflexivity).
  assert (Hd : etr_currentEpoch doneTracker = Some (currentOf doneTracker)) by (vm_compute; reflexivity).
  assert (Hn : et_number <$> etr_currentEpoch (trackerOf movedOn) = Some 2) by (vm_compute; reflexivity).
  assert (H0 : 0 <= et_number (currentOf doneTracker)) by (vm_compute; discriminate).
  assert (H1 : et_number (currentOf doneTracker) + 1 < 2 ^ 64) by (vm_compute; reflexivity).
  destruct (epoch_changes_only_when_done (worldOf (startedBy genesisLog)) _ doneTracker _ (currentOf doneTracker) EAdvance _ Hd H0 H1 Hrun) as (et' & Hc & _).
  exists et'. split; [exact Hc |]. rewrite Hc in Hn. injection Hn as ->. discriminate.
Defined.

(** Node 3 claims epoch 90. *)
Definition claimedTracker : epochTracker :=
  (trackerOf (startedBy genesisLog)) <| etr_maxEpochs := {[3 := 90]} |> <| etr_ticksOutOfCorrectEpoch := 10 |>.

Lemma lone_claim_ends_epoch_witness :
  exists tr' et', epochTracker_tick (restartWorld genesisLog) claimedTracker = Ok (restartWorld genesisLog, tr', [])
    /\ etr_currentEpoch tr' = Some et' /\ et_state et' = etDone /\ etr_maxCorrectEpoch tr' = 90.
Proof.
  apply (lone_claim_ends_epoch (restartWorld genesisLog) claimedTracker (currentOf claimedTracker) 3 90);
    [vm_compute; reflexivity | reflexivity | reflexivity | vm_compute; discriminate | vm_compute; reflexivity | reflexivity].
Defined.

Lemma tick_adopts_supported_epoch_witness : 90 <= etr_maxCorrectEpoch (trackerOf (epochTracker_tick (restartWorld genesisLog) claimedTracker)).
Proof.
  assert (Hrun : exists w acts, epochTracker_tick (restartWorld genesisLog) claimedTracker
      = Ok (w, trackerOf (epochTracker_tick (restartWorld genesisLog) claimedTracker), acts)).
  { eexists _, _. vm_compute. reflexivity. }
  destruct Hrun as (w & acts & Hrun). destruct (tick_adopts_supported_epoch _ _ _ _ _ Hrun) as (_ & _ & H). apply H.
  exists 3. split; [reflexivity | vm_compute; discriminate].
Defined.

Lemma restart_alignment_terminates_witness : exists start, alignStart 6 5 (7 +! 1) false = Ok (start, negb (start =? 8)) /\ start mod 5 = 1.
Proof.
  destruct (restart_alignment_terminates 5 7) as (start & H & _ & Hm & _); [lia .. |]. exists start. split; [exact H | exact Hm].
Defined.

Lemma resumed_epoch_crashes_witness :
  epochTracker_advanceState (worldOf (startedBy activeLog)) (trackerOf (resumeEpoch (restartWorld activeLog)
      (restartTracker <| etr_networkConfig := restartConfig |>) (mkNEntry 1 (mkEpochConfig 1 [0; 1; 2; 3] 100)) 0))
  = Panic "nil pointer dereference: networkNewEpoch".
Proof.
  set (r := resumeEpoch _ _ _ _).
  assert (Hrun : r = Ok (worldOf r, trackerOf r, match r with Ok (_, _, acts) => acts | _ => [] end)) by (vm_compute; reflexivity).
  assert (Hc : etr_currentEpoch (trackerOf r) = Some (currentOf (trackerOf r))) by (vm_compute; reflexivity).
  apply (resumed_epoch_crashes _ _ _ _ _ _ _ _ Hrun Hc); vm_compute; (reflexivity || discriminate).
Defined.
