(* ===== verification/Commits.v ===== *)
(** * What the protocol does to the commit state

    The epoch code ([epoch_active.go], [epoch_target.go], [epoch_tracker.go])
    only hands batches over to the commit state ([commitstate.go]) or asks it
    for a state transfer; it does not deliver batches, request checkpoints or
    truncate the log.  These are the frame lemmas the state machine's delivery
    order rests on. *)
From S2P Require Import Prelude Msgs Actions Stateless EpochChange NewEpochConfig Persisted MsgBuffers ReqHeap Sequence CommitState.
From S2P Require Import BatchTracker ClientTracker Outstanding EpochActive Disseminator EpochTarget Broadcast EpochTracker.

(** ** Specification *)

(** Batches handed over and a state transfer requested. *)
Inductive commitsOnly : commitState -> commitState -> Prop :=
| co_refl cs : commitsOnly cs cs
| co_commit cs q cs1 cs2 : commitState_commit cs q = Ok cs1 -> commitsOnly cs1 cs2 -> commitsOnly cs cs2
| co_transfer cs cs2 : commitsOnly (cs <| cs_transferring := true |>) cs2 -> commitsOnly cs cs2.

(** Actions for the application and the log's garbage collection. *)
Definition outward (a : Action) : bool :=
  match a with Action_Commit _ | Action_Checkpoint _ | Action_TruncateWriteAhead _ => true | _ => false end.
Definition inward (acts : ActionList) : Prop := omap (fun a => if outward a then Some a else None) acts = [].

(** ** Lemmas *)

Lemma commitsOnly_trans (a b c : commitState) : commitsOnly a b -> commitsOnly b c -> commitsOnly a c.
Proof.
  induction 1 as [| cs q cs1 cs2 H _ IH | cs cs2 _ IH]; intros H2; [done | by eapply co_commit; [exact H | apply IH] | by apply co_transfer, IH].
Qed.

#[global] Instance commitsOnly_preorder : PreOrder commitsOnly.
Proof. split; [intros cs; constructor | intros a b c; apply commitsOnly_trans]. Qed.

Lemma commitsOnly_eq (a b : commitState) : b = a -> commitsOnly a b.
Proof. by intros ->. Qed.

Lemma inward_app (a b : ActionList) : inward (a ++ b) <-> inward a /\ inward b.
Proof. unfold inward. rewrite omap_app. split; [apply app_nil | by intros [-> ->]]. Qed.

Lemma quiet_inward (acts : ActionList) : quiet acts -> inward acts.
Proof.
  unfold quiet, inward. induction acts as [|a acts IH]; [done |]. cbn. destruct (loud a) eqn:Ha; [done |]. intros H.
  destruct a; try done; by apply IH.
Qed.

Lemma inward_deliveries (acts : ActionList) : inward acts -> deliveries acts = [].
Proof. unfold inward. induction acts as [|a acts IH]; [done |]. cbn. by destruct a. Qed.

Lemma inward_truncate (acts : ActionList) (index : Z) : inward acts -> Action_TruncateWriteAhead index ∉ acts.
Proof.
  unfold inward. induction acts as [|a acts IH]; [by intros _ ?%elem_of_nil |]. cbn. destruct (outward a) eqn:Ha; [done |].
  intros H [<- | Hin]%elem_of_cons; [done | by apply IH].
Qed.

Section CommitsEpoch.

Context `{Size : ProtoSize} (h : reqHeap).

Lemma callSequence_cs (f : persisted -> sequence -> outcome (persisted * sequence * ActionList)) (sd sd' : shared) (e e' : activeEpoch)
    (l : loc) (acts : ActionList) :
  callSequence f sd e l = Ok (sd', e', acts) -> sd_commitState sd' = sd_commitState sd.
Proof. unfold callSequence. intros H. by apply bind_Ok in H as ([[p sh] a] & _ & [= <- _ _]). Qed.

(** Closes goals on the commit state from the calls in the context. *)
Ltac same_cs :=
  repeat match goal with H : callSequence _ _ _ _ = Ok _ |- _ => apply callSequence_cs in H end;
  first [done | cbn in *; congruence].

Lemma applyPreprepareMsg_cs (sd sd' : shared) (e e' : activeEpoch) (source seqNo : Z) (batch : list RequestAck) (acts : ActionList) :
  activeEpoch_applyPreprepareMsg h sd e source seqNo batch = Ok (sd', e', acts) -> sd_commitState sd' = sd_commitState sd.
Proof. unfold activeEpoch_applyPreprepareMsg. intros H. epoch_runs; same_cs. Qed.

Lemma applyPreprepares_cs (fuel : nat) (sd sd' : shared) (e e' : activeEpoch) (source bucket : Z) (next : option Msg) (a0 acts : ActionList) :
  applyPreprepares h fuel sd e source bucket next a0 = Ok (sd', e', acts) -> sd_commitState sd' = sd_commitState sd.
Proof.
  revert sd e next a0. induction fuel as [|fuel IH]; intros sd e next a0 H; destruct next as [msg |]; cbn [applyPreprepares] in H; try done.
  1, 3: by injection H as <- <- <-.
  destruct msg; try done. epoch_runs. match goal with H : applyPreprepares _ _ _ _ _ _ _ _ = Ok _ |- _ => apply IH in H; rewrite H end.
  by eapply applyPreprepareMsg_cs.
Qed.

Lemma commitLoop_commits (fuel : nat) (cs cs' : commitState) (e e' : activeEpoch) :
  commitLoop fuel cs e = Ok (cs', e') -> commitsOnly cs cs'.
Proof.
  revert cs e. induction fuel as [|fuel IH]; intros cs e H; cbn [commitLoop] in H; [done |]. epoch_runs; try reflexivity.
  eapply co_commit; [eassumption | by eapply IH].
Qed.

Lemma apply_commits (sd sd' : shared) (e e' : activeEpoch) (source : Z) (msg : Msg) (acts : ActionList) :
  activeEpoch_apply h sd e source msg = Ok (sd', e', acts) -> commitsOnly (sd_commitState sd) (sd_commitState sd').
Proof.
  unfold activeEpoch_apply. destruct msg; try done; intros H.
  - epoch_runs. apply commitsOnly_eq. by eapply applyPreprepares_cs.
  - unfold activeEpoch_applyPrepareMsg in H. epoch_runs. apply commitsOnly_eq. same_cs.
  - unfold activeEpoch_applyCommitMsg in H. apply bind_Ok in H as (l & _ & H). apply bind_Ok in H as ([[sd1 e1] a1] & H1 & H).
    apply callSequence_cs in H1. apply bind_Ok in H as (seq & _ & H). case_match; [injection H as <- _ _; by apply commitsOnly_eq |].
    apply bind_Ok in H as ([cs e2] & H2 & [= <- _ _]). apply commitLoop_commits in H2. cbn. by rewrite <- H1.
Qed.

Lemma step_commits (sd sd' : shared) (e e' : activeEpoch) (source : Z) (msg : Msg) (acts : ActionList) :
  activeEpoch_step h sd e source msg = Ok (sd', e', acts) -> commitsOnly (sd_commitState sd) (sd_commitState sd').
Proof.
  unfold activeEpoch_step. intros H. apply bind_Ok in H as (v & _ & H). destruct v; [by injection H as <- _ _ | by eapply apply_commits | | by injection H as <- _ _].
  destruct msg; epoch_runs; reflexivity.
Qed.

(** A loop hands over what its iterations do. *)
Lemma forRange_commits {A B : Type} (body : A -> shared * B * ActionList -> outcome (shared * B * ActionList)) (l : list A)
    (st st' : shared * B * ActionList) :
  (forall x s s', body x s = Ok s' -> commitsOnly (sd_commitState s.1.1) (sd_commitState s'.1.1)) -> forRange body l st = Ok st' ->
  commitsOnly (sd_commitState st.1.1) (sd_commitState st'.1.1).
Proof.
  intros Hb H. eapply (forRange_inv (fun s => commitsOnly (sd_commitState st.1.1) (sd_commitState s.1.1))); [| reflexivity | exact H].
  intros x s s' _ Hs Hx. etransitivity; [exact Hs | by eapply Hb].
Qed.

Lemma drainBuffers_commits (sd sd' : shared) (e e' : activeEpoch) (acts : ActionList) :
  activeEpoch_drainBuffers h sd e = Ok (sd', e', acts) -> commitsOnly (sd_commitState sd) (sd_commitState sd').
Proof.
  unfold activeEpoch_drainBuffers. intros H. apply bind_Ok in H as (st & H1 & H2).
  transitivity (sd_commitState st.1.1).
  - change (sd_commitState sd) with (sd_commitState (sd, e, [] : ActionList).1.1). eapply forRange_commits; [| exact H1].
    intros i [[sd2 e2] a2] st' Hb. unfold drainPreprepares in Hb. epoch_runs; cbn; [by eapply apply_commits | reflexivity].
  - change (sd_commitState sd') with (sd_commitState (sd', e', acts).1.1). eapply forRange_commits; [| exact H2].
    intros id [[sd2 e2] a2] st' Hb. unfold drainOther in Hb. apply bind_Ok in Hb as (mb & _ & Hb).
    apply bind_Ok in Hb as ([mb' [[sd3 e3] a3]] & Hit & [= <-]). cbn.
    apply (iterate_inv (fun st : shared * activeEpoch * ActionList => commitsOnly (sd_commitState sd2) (sd_commitState st.1.1))) in Hit;
      [exact Hit | | reflexivity].
    intros src m [[sd4 e4] a4] st' Hq4 Ha. cbn in *. apply bind_Ok in Ha as ([[sd5 e5] a5] & Ha & [= <-]). cbn.
    etransitivity; [exact Hq4 | by eapply apply_commits].
Qed.

Lemma extendSequences_cs (fuel : nat) (sd sd' : shared) (e e' : activeEpoch) (a0 acts : ActionList) :
  extendSequences fuel sd e a0 = Ok (sd', e', acts) -> sd_commitState sd' = sd_commitState sd.
Proof.
  revert sd e a0. induction fuel as [|fuel IH]; intros sd e a0 H; cbn [extendSequences] in H; [done |]. epoch_runs; [| done].
  match goal with H : extendSequences _ _ _ _ = Ok _ |- _ => apply IH in H; by rewrite H end.
Qed.

Lemma proposeBucket_cs (fuel : nat) (bid : Z) (sd sd' : shared) (e e' : activeEpoch) (a0 acts : ActionList) :
  proposeBucket h fuel bid sd e a0 = Ok (sd', e', acts) -> sd_commitState sd' = sd_commitState sd.
Proof.
  revert sd e a0. induction fuel as [|fuel IH]; intros sd e a0 H; cbn [proposeBucket] in H; [done |]. epoch_runs; try done.
  match goal with H : proposeBucket _ _ _ _ _ _ = Ok _ |- _ => apply IH in H; rewrite H end. same_cs.
Qed.

Lemma advance_commits (sd sd' : shared) (e e' : activeEpoch) (acts : ActionList) :
  activeEpoch_advance h sd e = Ok (sd', e', acts) -> commitsOnly (sd_commitState sd) (sd_commitState sd').
Proof.
  unfold activeEpoch_advance. intros H. apply bind_Ok in H as (high & _ & H). apply bind_Ok in H as (u1 & _ & H).
  apply bind_Ok in H as (u2 & _ & H). apply bind_Ok in H as ([[sd1 e1] a1] & H1 & H). apply bind_Ok in H as ([[sd2 e2] a2] & H2 & H).
  apply bind_Ok in H as ([pr ct] & _ & H). apply extendSequences_cs in H1. apply drainBuffers_commits in H2. rewrite H1 in H2.
  etransitivity; [exact H2 |]. eapply forRange_commits in H; [exact H |].
  intros b [[sd3 e3] a3] [[sd4 e4] a4] Hb. apply commitsOnly_eq. unfold proposeOwn in Hb. epoch_runs; [done |]. by eapply proposeBucket_cs.
Qed.

Lemma tick_commits (sd sd' : shared) (e e' : activeEpoch) (acts : ActionList) :
  activeEpoch_tick h sd e = Ok (sd', e', acts) -> commitsOnly (sd_commitState sd) (sd_commitState sd').
Proof.
  unfold activeEpoch_tick. intros H. case_match; [by injection H as <- _ _ |]. apply bind_Ok in H as ([sd1 a1] & H1 & H).
  assert (Hc : sd_commitState sd1 = sd_commitState sd) by (by epoch_runs).
  rewrite <- Hc. case_match; [by injection H as <- _ _ |]. eapply forRange_commits in H; [exact H |].
  intros b [[sd3 e3] a3] [[sd4 e4] a4] Hb. apply commitsOnly_eq. unfold heartbeat in Hb. epoch_runs; same_cs.
Qed.

Lemma moveLowWatermark_commits (sd sd' : shared) (e e' : activeEpoch) (seqNo : Z) (acts : ActionList) (dn : bool) :
  activeEpoch_moveLowWatermark h sd e seqNo = Ok (sd', e', acts, dn) -> commitsOnly (sd_commitState sd) (sd_commitState sd').
Proof. unfold activeEpoch_moveLowWatermark. intros H. epoch_runs; try reflexivity. by eapply advance_commits. Qed.

Lemma applyBatchHash_cs (sd sd' : shared) (e e' : activeEpoch) (seqNo : Z) (digest : slice) (acts : ActionList) :
  activeEpoch_applyBatchHashResult h sd e seqNo digest = Ok (sd', e', acts) -> sd_commitState sd' = sd_commitState sd.
Proof. unfold activeEpoch_applyBatchHashResult. intros H. epoch_runs; same_cs. Qed.

End CommitsEpoch.

(** ** Targets and trackers *)

Record keepsCommits (w w' : world) (acts : ActionList) : Prop := {
  kc_actions : inward acts;
  kc_commits : commitsOnly (w_commitState w) (w_commitState w');
}.

Lemma keeps_quiet (w w' : world) (acts : ActionList) : quiet acts -> w_commitState w' = w_commitState w -> keepsCommits w w' acts.
Proof. intros Hq Hc. split; [by apply quiet_inward | by apply commitsOnly_eq]. Qed.

Lemma keepsCommits_trans (w1 w2 w3 : world) (a b : ActionList) : keepsCommits w1 w2 a -> keepsCommits w2 w3 b -> keepsCommits w1 w3 (ActionList_concat a b).
Proof. intros [A1 C1] [A2 C2]. split; [by apply inward_app | by etransitivity]. Qed.

Section CommitsTarget.

Context `{PE : ProtoEqual} `{CR : ConfigRange} `{KR : CheckpointRange} `{Range : MapRange} `{Size : ProtoSize} `{ER : EpochRange}.

Lemma fetchRequestAck_cs (sources : list Z) (ack : RequestAck) (st st' : world * ActionList * bool) :
  fetchRequestAck sources ack st = Ok st' -> w_commitState st'.1.1 = w_commitState st.1.1.
Proof.
  destruct st as [[w acts] pending]. unfold fetchRequestAck. intros H. apply bind_Ok in H as ([[w1 a1] cr] & H1 & H).
  assert (Hc : w_commitState w1 = w_commitState w).
  { change w1 with (w1, a1, cr).1.1. eapply (forRange_inv (fun st : world * ActionList * option loc => w_commitState st.1.1 = w_commitState w)); [| | exact H1]; [| done].
    intros id [[w2 a2] cr2] s' _ Hq2 Hb. unfold ackFromSource in Hb. by apply bind_Ok in Hb as ([[[[h3 ct3] d3] a3] l3] & _ & [= <-]). }
  apply bind_Ok in H as (l & _ & H). apply bind_Ok in H as (data & _ & H). destruct (cr_stored data); [by injection H as <- |].
  by apply bind_Ok in H as ([h3 a3] & _ & [= <-]).
Qed.

Lemma fetchPreprepare_cs (et : epochTarget) (ne : NewEpoch) (entry : nat * slice) (st st' : world * ActionList * bool) :
  fetchPreprepare et ne entry st = Ok st' -> w_commitState st'.1.1 = w_commitState st.1.1.
Proof.
  destruct st as [[w acts] pending], entry as [i digest]. unfold fetchPreprepare. intros H. case_match; [by injection H as <- |].
  case_match; [by injection H as <- |]. apply bind_Ok in H as (sources & _ & H). case_match; [done |].
  destruct (batchTracker_getBatch (w_batchTracker w) digest) as [batch |].
  - eapply (forRange_inv (fun st : world * ActionList * bool => w_commitState st.1.1 = w_commitState w)); [| | exact H]; [| done].
    intros a s s' _ Hs Hb. by rewrite (fetchRequestAck_cs _ _ _ _ Hb).
  - unfold batchTracker_fetchBatch in H. by case_decide; injection H as <-.
Qed.

Lemma persistEntry_cs (e : Persistent) (st st' : world * ActionList) : persistEntry e st = Ok st' -> w_commitState st'.1 = w_commitState st.1.
Proof. destruct st as [w acts]. unfold persistEntry. intros H. by apply bind_Ok in H as ([p a] & _ & [= <-]). Qed.

Lemma persistPreprepare_cs (et : epochTarget) (c : NewEpochConfig) (entry : nat * slice) (st st' : world * ActionList) :
  persistPreprepare et c entry st = Ok st' -> w_commitState st'.1 = w_commitState st.1.
Proof.
  destruct entry as [i digest]. unfold persistPreprepare. intros H. case_match; [by eapply persistEntry_cs |].
  apply bind_Ok in H as (batch & _ & H). apply bind_Ok in H as (st1 & H1 & H). apply persistEntry_cs in H1.
  apply bind_Ok in H as (r & _ & H). case_match; [apply persistEntry_cs in H; congruence | by injection H as <-].
Qed.

(** A loop over the world that leaves the commit state alone. *)
Lemma forRange_cs {A B : Type} (get : B -> world) (body : A -> B -> outcome B) (l : list A) (st st' : B) :
  (forall x s s', body x s = Ok s' -> w_commitState (get s') = w_commitState (get s)) -> forRange body l st = Ok st' ->
  w_commitState (get st') = w_commitState (get st).
Proof.
  intros Hb H. eapply (forRange_inv (fun s => w_commitState (get s) = w_commitState (get st))); [| | exact H]; [| done].
  intros x s s' _ Hs Hx. apply Hb in Hx. congruence.
Qed.

Lemma fetchNewEpochState_keeps (w w' : world) (et et' : epochTarget) (acts : ActionList) :
  epochTarget_fetchNewEpochState w et = Ok (w', et', acts) -> keepsCommits w w' acts.
Proof.
  intros H. pose proof (quiet_inward _ (fetchNewEpochState_quiet _ _ _ _ _ H)) as Hi. split; [exact Hi |]. clear Hi.
  unfold epochTarget_fetchNewEpochState in H. apply bind_Ok in H as (ne & _ & H). case_match; [by injection H as <- _ _ |]. case_match.
  { apply bind_Ok in H as ([[cs p] a] & Ht & [= <- _ _]). unfold commitState_transferTo in Ht. apply bind_Ok in Ht as (u & _ & Ht).
    apply bind_Ok in Ht as ([p1 a1] & _ & [= <- _ _]). by apply co_transfer. }
  apply bind_Ok in H as ([[w1 a1] pending] & Hf & H).
  apply (forRange_cs (fun st : world * ActionList * bool => st.1.1)) in Hf; [| intros; by eapply fetchPreprepare_cs]. cbn in Hf.
  apply commitsOnly_eq. case_match; [by injection H as <- _ _ |]. case_match; [by injection H as <- _ _ |]. case_match; [done |].
  apply bind_Ok in H as (st & Hp & H). apply persistEntry_cs in Hp. apply bind_Ok in H as ([w2 a2] & Hl & [= <- _ _]).
  apply (forRange_cs (fun st : world * ActionList => st.1)) in Hl; [| intros; by eapply persistPreprepare_cs]. cbn in *. congruence.
Qed.

Lemma checkEcho_keeps (w w' : world) (et et' : epochTarget) (acts : ActionList) :
  epochTarget_checkNewEpochEchoQuorum w et = Ok (w', et', acts) -> keepsCommits w w' acts.
Proof.
  unfold epochTarget_checkNewEpochEchoQuorum. intros H. case_match; [| injection H as <- _ <-; by apply keeps_quiet].
  apply bind_Ok in H as ([w1 a1] & H1 & [= <- _ <-]).
  assert (Hq : quiet a1).
  { change a1 with (w1, a1).2. eapply (forRange_inv (fun st : world * ActionList => quiet st.2)); [| | exact H1]; [| done].
    intros x s s' _. apply persistEntry_quiet. }
  split; [apply inward_app; split; [by apply quiet_inward | done] |].
  apply (forRange_cs (fun st : world * ActionList => st.1)) in H1; [| intros; by eapply persistEntry_cs]. by apply commitsOnly_eq.
Qed.

Lemma commitIterator_commits (number : Z) (log : list (Z * Persistent)) (st st' : bool * commitState) :
  iterateEntries (commitIterator number) log st = Ok st' -> commitsOnly st.2 st'.2.
Proof.
  intros H. eapply (iterateEntries_inv (fun s : bool * commitState => commitsOnly st.2 s.2)); [| | exact H]; [| reflexivity].
  intros e s s' Hs Hd. destruct e; cbn in Hd; try (by injection Hd as <-); try done.
  - destruct (negb s.1); [by injection Hd as <- |]. apply bind_Ok in Hd as (cs & Hc & [= <-]). cbn.
    etransitivity; [exact Hs |]. eapply co_commit; [exact Hc | constructor].
  - case_match; [by injection Hd as <- |]. by apply bind_Ok in Hd as (u & _ & [= <-]).
Qed.

Lemma checkReady_keeps (w w' : world) (et et' : epochTarget) :
  epochTarget_checkNewEpochReadyQuorum w et = Ok (w', et') -> keepsCommits w w' [].
Proof.
  unfold epochTarget_checkNewEpochReadyQuorum. intros H. split; [done |].
  eapply (forRange_inv (fun st : world * epochTarget => commitsOnly (w_commitState w) (w_commitState st.1))) in H; [exact H | | reflexivity].
  intros [config votes] [w1 et1] [w2 et2] _ Hs Hb. cbn in Hb, Hs |- *. case_match; [by injection Hb as <- _ |].
  apply bind_Ok in Hb as ([b cs] & Hi & [= <- _]). etransitivity; [exact Hs |]. exact (commitIterator_commits _ _ _ _ Hi).
Qed.

Lemma beginEpoch_keeps (w w' : world) (et et' : epochTarget) (acts : ActionList) : beginEpoch w et = Ok (w', et', acts) -> keepsCommits w w' acts.
Proof.
  intros H. split; [by eapply quiet_inward, beginEpoch_quiet |]. unfold beginEpoch in H. apply bind_Ok in H as (c & _ & H).
  apply bind_Ok in H as ([sd ae] & Hn & H). apply bind_Ok in H as ([[sd1 ae1] a1] & H1 & H). apply bind_Ok in H as ([[[sd2 ae2] a2] b2] & H2 & H).
  apply bind_Ok in H as ([[sd3 ae3] a3] & H3 & [= <- _ _]).
  assert (Hc : sd_commitState sd = w_commitState w) by (unfold newActiveEpoch in Hn; by epoch_runs).
  rewrite <- Hc. etransitivity; [by eapply advance_commits |]. etransitivity; [| by eapply drainBuffers_commits; exact H3].
  change (sd_commitState sd2) with (sd_commitState (sd2, ae2, a2, b2).1.1.1).
  eapply (forRange_inv (fun st : shared * activeEpoch * ActionList * gmap Z msgBuffer => commitsOnly (sd_commitState sd1) (sd_commitState st.1.1.1))) in H2;
    [exact H2 | | reflexivity].
  intros id [[[sd4 ae4] a4] b4] st' _ Hq Hb. apply bind_Ok in Hb as (mb & _ & Hb). apply bind_Ok in Hb as ([mb' [[sd5 ae5] a5]] & Hit & [= <-]).
  apply (iterate_inv (fun st : shared * activeEpoch * ActionList => commitsOnly (sd_commitState sd1) (sd_commitState st.1.1))) in Hit;
    [exact Hit | | exact Hq].
  intros src m [[sd6 e6] a6] st' Hq6 Ha. cbn in Ha. apply bind_Ok in Ha as ([[sd7 e7] a7] & Ha & [= <-]).
  etransitivity; [exact Hq6 | by eapply step_commits].
Qed.

Lemma runEpoch_keeps (w w' : world) (et et' : epochTarget) (acts : ActionList) : runEpoch w et = Ok (w', et', acts) -> keepsCommits w w' acts.
Proof.
  intros H. split; [by eapply quiet_inward, runEpoch_quiet |]. unfold runEpoch in H. apply bind_Ok in H as (ae & _ & H).
  apply bind_Ok in H as ([[[[p sh] ct] ao] a] & H1 & H). apply bind_Ok in H as ([[sd1 ae1] a1] & H2 & [= <- _ _]).
  apply advance_commits in H2. exact H2.
Qed.

Lemma iteration_keeps (again : world -> epochTarget -> ActionList -> outcome (world * epochTarget * ActionList)) (w w' : world)
    (et et' : epochTarget) (more : ActionList) :
  (forall w w' et et' acts', again w et [] = Ok (w', et', acts') -> keepsCommits w w' acts') ->
  iteration again w et = Ok (Some (w', et', more)) -> keepsCommits w w' more.
Proof.
  intros Hag H. unfold iteration in H. destruct (et_state et) eqn:Hst.
  - apply bind_Ok in H as ([et1 m1] & H1 & [= <- <- <-]). apply keeps_quiet; [| done]. unfold epochTarget_checkEpochQuorum in H1.
    case_match; [by injection H1 as _ <- |]. apply bind_Ok in H1 as (ne & _ & H1). destruct ne; injection H1 as _ <-; [by case_match | done].
  - injection H as H. case_match; [| done]. injection H as <- <- <-. by apply keeps_quiet.
  - apply bind_Ok in H as (v & _ & H). destruct v; [| injection H as <- <- <-; by apply keeps_quiet].
    apply bind_Ok in H as (r & H1 & [= ->]). by eapply Hag.
  - apply bind_Ok in H as (r & H1 & [= ->]). by eapply fetchNewEpochState_keeps.
  - apply bind_Ok in H as (r & H1 & [= ->]). by eapply checkEcho_keeps.
  - apply bind_Ok in H as ([w1 et1] & H1 & [= <- <- <-]). by eapply checkReady_keeps.
  - injection H as <- <- <-. by apply keeps_quiet.
  - apply bind_Ok in H as (r & H1 & [= ->]). by eapply beginEpoch_keeps.
  - apply bind_Ok in H as (r & H1 & [= ->]). by eapply runEpoch_keeps.
  - done.
  - injection H as <- <- <-. by apply keeps_quiet.
Qed.

Lemma targetLoop_keeps (fuel : nat) (w0 w w' : world) (et et' : epochTarget) (acts acts' : ActionList) :
  keepsCommits w0 w acts -> targetLoop fuel w et acts = Ok (w', et', acts') -> keepsCommits w0 w' acts'.
Proof.
  revert w0 w w' et et' acts acts'. induction fuel as [|fuel IH]; intros w0 w w' et et' acts acts' Hf H; [done |]. rewrite targetLoop_step in H.
  apply bind_Ok in H as (r & H1 & H). destruct r as [[[w1 et1] m1] |]; [| by injection H as <- _ <-].
  apply iteration_keeps in H1.
  - pose proof (keepsCommits_trans _ _ _ _ _ Hf H1) as Hf1. case_decide; [by injection H as <- _ <- | by eapply IH].
  - intros w2 w2' et2 et2' a2 H2. eapply IH; [| exact H2]. by apply keeps_quiet.
Qed.

Lemma targetAdvance_keeps (w w' : world) (et et' : epochTarget) (acts : ActionList) :
  epochTarget_advanceState w et = Ok (w', et', acts) -> keepsCommits w w' acts.
Proof. apply targetLoop_keeps. by apply keeps_quiet. Qed.

Lemma targetTick_keeps (w w' : world) (et et' : epochTarget) (acts : ActionList) :
  epochTarget_tick w et = Ok (w', et', acts) -> keepsCommits w w' acts.
Proof.
  unfold epochTarget_tick. intros H. case_match; [| case_match; [| case_match]].
  - apply bind_Ok in H as (a & Ha & [= <- _ <-]). apply keeps_quiet; [| done]. unfold epochTarget_tickPrepending in Ha.
    case_match; [by injection Ha as <-; case_match |]. apply bind_Ok in Ha as (r & _ & Ha). case_match; [by eapply repeat_quiet | by injection Ha as <-].
  - apply bind_Ok in H as ([w1 a] & Ha & [= <- _ <-]). unfold epochTarget_tickPending in Ha.
    apply bind_Ok in Ha as (r & _ & Ha). case_match; [injection Ha as <- <-; apply keeps_quiet; [by case_match | done] |]. case_match.
    { apply bind_Ok in Ha as (ne & _ & Ha). apply bind_Ok in Ha as ([p m] & Hp & [= <- <-]). apply append_quiet in Hp. by apply keeps_quiet. }
    case_match; [| injection Ha as <- <-; by apply keeps_quiet]. apply bind_Ok in Ha as (a1 & Hr & [= <- <-]).
    apply keeps_quiet; [by eapply repeat_quiet | done].
  - apply bind_Ok in H as (ae & _ & H). apply bind_Ok in H as ([[sd1 ae1] a1] & Hae & [= <- _ <-]).
    split; [by eapply quiet_inward, tick_quiet | by eapply tick_commits; exact Hae].
  - injection H as <- _ <-. by apply keeps_quiet.
Qed.

Lemma targetStep_keeps (w w' : world) (et et' : epochTarget) (source : Z) (msg : Msg) (acts : ActionList) :
  epochTarget_step w et source msg = Ok (w', et', acts) -> keepsCommits w w' acts.
Proof.
  unfold epochTarget_step. intros H. case_match; [epoch_runs; by apply keeps_quiet |].
  case_match; [injection H as <- _ <-; by apply keeps_quiet |].
  apply bind_Ok in H as (ae & _ & H). apply bind_Ok in H as ([[sd1 ae1] a1] & Hae & [= <- _ <-]).
  split; [by eapply quiet_inward, step_quiet | by eapply step_commits; exact Hae].
Qed.

Lemma targetDigest_keeps (w w' : world) (et et' : epochTarget) (origin : HashOrigin_EpochChange) (digest : slice) (acts : ActionList) :
  epochTarget_applyEpochChangeDigest w et origin digest = Ok (w', et', acts) -> keepsCommits w w' acts.
Proof.
  unfold epochTarget_applyEpochChangeDigest. intros H. case_match; [injection H as <- _ <-; by apply keeps_quiet |].
  case_match; [injection H as <- _ <-; by apply keeps_quiet |]. apply bind_Ok in H as (p & _ & H). by eapply targetAdvance_keeps.
Qed.

Lemma targetMove_keeps (w w' : world) (et et' : epochTarget) (seqNo : Z) (acts : ActionList) :
  epochTarget_moveLowWatermark w et seqNo = Ok (w', et', acts) -> keepsCommits w w' acts.
Proof.
  unfold epochTarget_moveLowWatermark. intros H. case_match; [injection H as <- _ <-; by apply keeps_quiet |].
  apply bind_Ok in H as (ae & _ & H). apply bind_Ok in H as ([[[sd1 ae1] a1] dn] & Hm & [= <- _ <-]).
  split; [by eapply quiet_inward, moveLowWatermark_quiet | by eapply moveLowWatermark_commits; exact Hm].
Qed.

Lemma batchHash_keeps (w w' : world) (et et' : epochTarget) (seqNo : Z) (digest : slice) (acts : ActionList) :
  activeBatchHash w et seqNo digest = Ok (w', et', acts) -> keepsCommits w w' acts.
Proof.
  unfold activeBatchHash. intros H. apply bind_Ok in H as (ae & _ & H). apply bind_Ok in H as ([[sd1 ae1] a1] & Hb & [= <- _ <-]).
  split; [by eapply quiet_inward, applyBatchHash_quiet | apply commitsOnly_eq; by eapply applyBatchHash_cs; exact Hb].
Qed.

Lemma targetReady_keeps (w w' : world) (et et' : epochTarget) (source : Z) (msg : NewEpochConfig) (acts : ActionList) :
  epochTarget_applyNewEpochReadyMsg w et source msg = Ok (w', et', acts) -> keepsCommits w w' acts.
Proof.
  unfold epochTarget_applyNewEpochReadyMsg. intros H.
  repeat case_match; try (by eapply targetAdvance_keeps); injection H as <- _ <-; (split; [done | reflexivity]).
Qed.

Lemma targetNewEpoch_keeps (w w' : world) (et et' : epochTarget) (msg : NewEpoch) (acts : ActionList) :
  epochTarget_applyNewEpochMsg w et msg = Ok (w', et', acts) -> keepsCommits w w' acts.
Proof. unfold epochTarget_applyNewEpochMsg. apply targetAdvance_keeps. Qed.

Lemma targetEcho_keeps (w w' : world) (et et' : epochTarget) (source : Z) (msg : NewEpochConfig) (acts : ActionList) :
  epochTarget_applyNewEpochEchoMsg w et source msg = Ok (w', et', acts) -> keepsCommits w w' acts.
Proof. unfold epochTarget_applyNewEpochEchoMsg. apply targetAdvance_keeps. Qed.

(** A call on the target of a tracker. *)
Lemma onTarget_keeps (f : world -> epochTarget -> outcome (world * epochTarget * ActionList)) (w w' : world) (tr tr' : epochTracker) (acts : ActionList) :
  (forall w et w' et' acts, f w et = Ok (w', et', acts) -> keepsCommits w w' acts) ->
  onTarget f w tr = Ok (w', tr', acts) -> keepsCommits w w' acts.
Proof.
  intros Hf H. unfold onTarget in H. apply bind_Ok in H as (et & _ & H). apply bind_Ok in H as ([[w1 et1] a1] & H1 & [= <- _ <-]). by eapply Hf.
Qed.

Lemma trackerMsg_keeps (w w' : world) (tr tr' : epochTracker) (source : Z) (msg : Msg) (acts : ActionList) :
  epochTracker_applyMsg w tr source msg = Ok (w', tr', acts) -> keepsCommits w w' acts.
Proof.
  intros H. unfold epochTracker_applyMsg in H. destruct msg; try discriminate H; try (eapply onTarget_keeps; [| exact H]; intros ?????);
    [by eapply targetStep_keeps .. | | | | | |].
  - intros [= <- _ <-]. by apply keeps_quiet.
  - intros [= <- _ <-]. apply keeps_quiet; [| done]. unfold epochTarget_applyEpochChangeMsg. by case_match.
  - intros [= <- _ <-]. by apply keeps_quiet.
  - apply bind_Ok in H as (leader & _ & H). case_match; [injection H as <- _ <-; by apply keeps_quiet |].
    eapply onTarget_keeps; [| exact H]. intros ?????. apply targetNewEpoch_keeps.
  - apply targetEcho_keeps.
  - apply targetReady_keeps.
Qed.

Lemma replayFuture_keeps (w0 w w' : world) (tr tr' : epochTracker) (acts0 acts : ActionList) :
  keepsCommits w0 w acts0 -> replayFuture w tr acts0 = Ok (w', tr', acts) -> keepsCommits w0 w' acts.
Proof.
  intros H0 H. unfold replayFuture in H. set (P := fun st : world * epochTracker * ActionList => keepsCommits w0 st.1.1 st.2).
  change (P (w', tr', acts)). eapply (forRange_inv P); [| | exact H]; [| exact H0].
  intros id [[w1 tr1] a1] st' _ HP Hb. unfold replayNode in Hb. apply bind_Ok in Hb as (mb & _ & Hb).
  apply bind_Ok in Hb as ([mb' [[w2 tr2] a2]] & Hit & [= <-]). apply (iterate_inv P) in Hit; [exact Hit | | exact HP].
  intros src m [[w3 tr3] a3] st' Hm Ha. cbn in Ha. apply bind_Ok in Ha as ([[w4 tr4] a4] & Ha & [= <-]).
  apply trackerMsg_keeps in Ha. exact (keepsCommits_trans _ _ _ _ _ Hm Ha).
Qed.

(** Every call on the tracker between two reinitializations. *)
Lemma trackerOp_keeps (w w' : world) (tr tr' : epochTracker) (op : trackerOp) (acts : ActionList) :
  runTrackerOp w tr op = Ok (w', tr', acts) -> keepsCommits w w' acts.
Proof.
  intros H. destruct op; cbn [runTrackerOp] in H.
  - unfold epochTracker_advanceState in H. apply bind_Ok in H as (et & _ & H).
    case_match; [eapply onTarget_keeps; [| exact H]; intros ?????; by eapply targetAdvance_keeps |].
    case_match; [injection H as <- _ <-; by apply keeps_quiet |]. apply bind_Ok in H as ([et0 ec] & _ & H).
    apply bind_Ok in H as ([p a] & Ha & H). apply append_quiet in Ha. eapply replayFuture_keeps; [| exact H].
    apply keeps_quiet; [by apply quiet_concat | done].
  - unfold epochTracker_step in H. apply bind_Ok in H as (n & _ & H). apply bind_Ok in H as (et & _ & H).
    case_match; [injection H as <- _ <-; by apply keeps_quiet |]. case_match; [| by eapply trackerMsg_keeps].
    apply bind_Ok in H as (mb & _ & [= <- _ <-]). by apply keeps_quiet.
  - unfold epochTracker_tick in H. apply bind_Ok in H as (et & _ & H). eapply onTarget_keeps; [| exact H]. intros ?????. by eapply targetTick_keeps.
  - unfold epochTracker_applyBatchHashResult in H. apply bind_Ok in H as (et & _ & H). case_match; [injection H as <- _ <-; by apply keeps_quiet |].
    eapply onTarget_keeps; [| exact H]. intros ?????. by eapply batchHash_keeps.
  - eapply onTarget_keeps; [| exact H]. intros ?????. by eapply targetMove_keeps.
  - unfold epochTracker_applyEpochChangeDigest in H. apply bind_Ok in H as (et & _ & H).
    case_match; [injection H as <- _ <-; by apply keeps_quiet |]. case_match; [discriminate H |].
    eapply onTarget_keeps; [| exact H]. intros ?????. by eapply targetDigest_keeps.
Qed.

End CommitsTarget.

(** ** The invariant of the commit state *)

(** Well-formed, not to stop beyond the window, and a pending checkpoint is
    one whose batches were all applied. *)
Record csInv (cs : commitState) : Prop := {
  ci_wf : commitState_wf cs;
  ci_highest : 0 <= cs_highestCommit cs;
  ci_stop : cs_stopAtSeqNo cs <= windowEnd cs;
  ci_pending : cs_checkpointPending cs = true -> cs_lowWatermark cs + ciOf (cs_activeState cs) <= cs_lastAppliedCommit cs;
}.

(** Handing a batch over. *)
Lemma commit_inv (cs cs' : commitState) (q : QEntry) :
  csInv cs -> commitState_commit cs q = Ok cs' -> csInv cs' /\ cs_lastAppliedCommit cs' = cs_lastAppliedCommit cs.
Proof.
  intros [Hwf Hh Hstop Hp] H. pose proof H as H'. unfold commitState_commit in H'.
  apply bind_Ok in H' as (u1 & Ht & H'). apply assertTrue_Ok, negb_true_iff in Ht.
  apply bind_Ok in H' as (u2 & Hs & H'). apply assertTrue_Ok, negb_true_iff, Z.ltb_ge in Hs.
  destruct (Z.leb_spec (q_SeqNo q) (cs_lowWatermark cs)) as [| Hlow]; [by injection H' as <- |]. apply bind_Ok in H' as (cs0 & H0 & _).
  assert (Hnext : q_SeqNo q <= cs_highestCommit cs + 1).
  { destruct (Z.ltb_spec (cs_highestCommit cs) (q_SeqNo q)); [| lia]. apply bind_Ok in H0 as (u3 & Ha & _).
    apply assertTrue_Ok, Z.eqb_eq in Ha. pose proof (csw_range _ Hwf). rewrite add64_small in Ha by lia. lia. }
  destruct (commit_slot cs q Hwf Ht Hs ltac:(lia) Hh Hnext) as (up & off & cs1 & -> & Hoff & Heq & Hc).
  pose proof (commit_records_entry cs q Hwf Ht Hs ltac:(lia) Hh Hnext) as Hrec. rewrite Hc in H, Hrec.
  destruct (slotAt cs (q_SeqNo q)) as [old |].
  - apply bind_Ok in H as (u & _ & [= <-]). split; [| done]. split; [by destruct Hwf; split | cbn; lia | exact Hstop | exact Hp].
  - destruct Hrec as (cs2 & Hr & Hwf2 & _). rewrite H in Hr. injection Hr as <-.
    destruct up; injection H as <-; (split; [| done]); (split; [exact Hwf2 | cbn; lia | exact Hstop | exact Hp]).
Qed.

Lemma commitsOnly_inv (cs cs' : commitState) :
  commitsOnly cs cs' -> csInv cs -> csInv cs' /\ cs_lastAppliedCommit cs' = cs_lastAppliedCommit cs.
Proof.
  induction 1 as [| cs q cs1 cs2 H _ IH | cs cs2 _ IH]; intros Hi; [done | |].
  - apply commit_inv in H as [Hi1 <-]; [| done]. by apply IH.
  - destruct IH as [Hi1 Hl]; [| by split]. destruct Hi as [Hwf Hh Hs Hp]. split; [by destruct Hwf; split | done ..].
Qed.

Lemma drain_inv (cs cs' : commitState) (acts : ActionList) :
  csInv cs -> commitState_drain cs = Ok (cs', acts) ->
  csInv cs' /\ cs_lastAppliedCommit cs <= cs_lastAppliedCommit cs'
  /\ q_SeqNo <$> deliveries acts = seqZ (cs_lastAppliedCommit cs + 1) (cs_lastAppliedCommit cs' - cs_lastAppliedCommit cs).
Proof.
  intros [Hwf Hh Hs Hp] H. apply (proj2 (drain_spec cs Hwf)) in H as [Hw Ha Ho _ _ Hpend Hcp]. split; [| by split; [lia |]].
  pose proof (csw_applied _ Hwf) as Happ. pose proof (csw_pending _ Hwf) as Hpe.
  assert (Hpend' : (cs_lowWatermark cs + ciOf (cs_activeState cs) < cs_lastAppliedCommit cs' -> cs_checkpointPending cs' = true)
    /\ (cs_checkpointPending cs' = true -> cs_lowWatermark cs + ciOf (cs_activeState cs) <= cs_lastAppliedCommit cs')).
  { destruct (cs_checkpointPending cs); [destruct Hpend as [_ ->]; [done |]; split; [done | intros _; specialize (Hp eq_refl); lia] |].
    destruct (Hcp eq_refl) as [(Hlt & _ & ->) | (Hge & -> & _)]; split; (lia || done). }
  destruct Hpend' as [Hp1 Hp2]. pose proof Hw as (W1 & W2 & W3 & W4 & W5 & W6 & W7). split.
  - apply (wf_sameWindow cs); (done || lia).
  - by rewrite W5.
  - rewrite W6, (sameWindow_end _ _ Hw). done.
  - by rewrite W1, W2.
Qed.

Lemma checkpointResult_inv (cs cs' : commitState) (p p' : persisted) (result : EventCheckpointResult) (acts : ActionList) :
  csInv cs -> (cs_transferring cs = false -> cs_checkpointPending cs = true /\ ciOf (ckr_NetworkState result) = ciOf (cs_activeState cs)
    /\ windowEnd cs + ciOf (cs_activeState cs) + 1 < 2 ^ 64) ->
  commitState_applyCheckpointResult cs p result = Ok (cs', p', acts) ->
  csInv cs' /\ cs_lastAppliedCommit cs' = cs_lastAppliedCommit cs /\ inward acts.
Proof.
  intros Hi Hv H. destruct (cs_transferring cs) eqn:Ht.
  { unfold commitState_applyCheckpointResult in H. rewrite Ht in H. by injection H as <- _ <-. }
  destruct (Hv eq_refl) as (Hpend & Hci & Hov). pose proof Hi as [Hwf Hh Hs Hp]. pose proof (csw_low _ Hwf). pose proof (csw_ci _ Hwf).
  assert (Hseq : ckr_SeqNo result = cs_lowWatermark cs + ciOf (cs_activeState cs) /\ pst_log p <> []).
  { unfold commitState_applyCheckpointResult in H. rewrite Ht in H. destruct (Z.eqb_spec (ckr_SeqNo result) (cs_lowWatermark cs +! ciOf (cs_activeState cs))) as [He |]; [| done].
    cbn [negb] in H. unfold windowEnd in Hov. rewrite add64_small in He by lia. split; [done |]. apply bind_Ok in H as (up & _ & H).
    apply bind_Ok in H as ([p1 a1] & Ha & _). unfold persisted_addCEntry, persisted_appendLogEntry in Ha. by destruct (pst_log p). }
  destruct Hseq as [Hseq Hlog]. specialize (Hp Hpend).
  destruct (checkpointResult_slides cs p result Hwf Ht Hlog Hseq Hci ltac:(lia) Hov) as (cs2 & p2 & Heq & Hwf2 & Hlow2 & Hpend2 & _ & Hstop2).
  assert (Hkeep : cs_lastAppliedCommit cs2 = cs_lastAppliedCommit cs /\ cs_highestCommit cs2 = cs_highestCommit cs /\ cs_activeState cs2 = ckr_NetworkState result).
  { unfold commitState_applyCheckpointResult in Heq. rewrite Ht in Heq. clear -Heq.
    destruct (negb _); [done |]. apply bind_Ok in Heq as (up & _ & Heq). apply bind_Ok in Heq as ([p1 a1] & _ & [= <- _ _]). by case_match. }
  destruct Hkeep as (Hla & Hhi & Hst). rewrite Heq in H. injection H as <- _ <-. split; [| done]. split.
  - done.
  - by rewrite Hhi.
  - rewrite Hstop2. destruct (ns_PendingReconfigurations (ckr_NetworkState result)); [done |].
    unfold windowEnd in *. rewrite Hlow2, Hst, Hci, Hseq. lia.
  - by rewrite Hpend2.
Qed.

(** ** The disseminator *)

Section CommitsDisseminator.

Context `{Range : MapRange} `{Size : ProtoSize}.

Lemma newRequest_quiet (h h' : reqHeap) (d : clientHashDisseminator) (ack : RequestAck) (acts : ActionList) :
  clientHashDisseminator_applyNewRequest h d ack = Ok (h', acts) -> quiet acts.
Proof.
  unfold clientHashDisseminator_applyNewRequest. intros H. case_match; [| by injection H as _ <-]. case_match; [by injection H as _ <- |].
  apply bind_Ok in H as (l & _ & H). apply bind_Ok in H as (crn & _ & H). apply bind_Ok in H as ([[h1 crn1] a1] & Hr1 & [= _ <-]).
  unfold clientReqNo_applyNewRequest in Hr1. case_match; [by injection Hr1 as _ _ <- |]. apply bind_Ok in Hr1 as ([h2 crn2] & _ & Hr1).
  case_match; [by injection Hr1 as _ _ <- |]. case_match; [| by injection Hr1 as _ _ <-].
  by apply bind_Ok in Hr1 as ([[h3 crn3] na] & _ & [= _ _ <-]).
Qed.

Lemma tickFetchCorrect_quiet (h h' : reqHeap) (crn : clientReqNo) (acts : ActionList) : tickFetchCorrect h crn = Ok (h', acts) -> quiet acts.
Proof.
  unfold tickFetchCorrect. intros H. case_match; [by injection H as _ <- |]. destruct (mapRange _) as [|[k l] ?]; [by injection H as _ <- |].
  apply bind_Ok in H as (cr & _ & H). case_match; [by injection H as _ <- |]. case_match; [by injection H as _ <- | by eapply fetchAt_quiet].
Qed.

Lemma tickResend_quiet (h : reqHeap) (crn crn' : clientReqNo) (acts : ActionList) : tickResend h crn = Ok (crn', acts) -> quiet acts.
Proof.
  unfold tickResend. intros H. case_match; [by injection H as _ <- |]. case_match; [by injection H as _ <- |].
  apply bind_Ok in H as (l & _ & H). by apply bind_Ok in H as (cr & _ & [= _ <-]).
Qed.

Lemma reqNoTick_quiet (h h' : reqHeap) (crn crn' : clientReqNo) (acts : ActionList) : clientReqNo_tick h crn = Ok (h', crn', acts) -> quiet acts.
Proof.
  unfold clientReqNo_tick. intros H. case_match; [by injection H as _ _ <- |]. apply bind_Ok in H as ([[h1 crn1] a1] & Hr1 & H).
  assert (Hq1 : quiet a1). { case_match; [by apply bind_Ok in Hr1 as ([[h3 crn3] na] & _ & [= _ _ <-]) | by injection Hr1 as _ _ <-]. }
  apply bind_Ok in H as ([h2 a2] & Hr2 & H). apply tickFetchCorrect_quiet in Hr2. apply bind_Ok in H as ([h3 fetch] & _ & H).
  apply bind_Ok in H as ([h4 a4] & Hr4 & H). apply bind_Ok in H as ([crn5 a5] & Hr5 & [= _ _ <-]). apply tickResend_quiet in Hr5.
  apply quiet_concat; [| done]. change a4 with (h4, a4).2.
  eapply (forRange_inv (fun st : reqHeap * ActionList => quiet st.2)); [| | exact Hr4]; [| by apply quiet_concat].
  intros x [h6 a6] s' _ Hs Hb. apply bind_Ok in Hb as ([h7 a7] & Hf & [= <-]). apply quiet_concat; [exact Hs | by eapply fetchAt_quiet].
Qed.

Lemma disseminatorTick_quiet (h h' : reqHeap) (d : clientHashDisseminator) (acts : ActionList) :
  clientHashDisseminator_tick h d = Ok (h', acts) -> quiet acts.
Proof.
  unfold clientHashDisseminator_tick. intros H. change acts with (h', acts).2.
  eapply (forRange_inv (fun st : reqHeap * ActionList => quiet st.2)); [| | exact H]; [| done].
  intros x [h1 a1] s' _ Hs Hb. unfold tickClient in Hb. apply bind_Ok in Hb as (c & _ & Hb). apply bind_Ok in Hb as ([h2 a2] & Hc & [= <-]).
  apply quiet_concat; [exact Hs |]. unfold client_tick in Hc. change a2 with (h2, a2).2.
  eapply (forRange_inv (fun st : reqHeap * ActionList => quiet st.2)); [| | exact Hc]; [| done].
  intros l [h3 a3] s' _ Hs3 Hl. unfold tickReqNo in Hl. apply bind_Ok in Hl as (crn & _ & Hl). apply bind_Ok in Hl as ([[h4 crn4] a4] & Ht & [= <-]).
  apply quiet_concat; [exact Hs3 | by eapply reqNoTick_quiet].
Qed.

Lemma disseminatorMsg_quiet (h h' : reqHeap) (ct ct' : clientTracker) (d d' : clientHashDisseminator) (source : Z) (msg : Msg) (acts : ActionList) :
  clientHashDisseminator_applyMsg h ct d source msg = Ok (h', ct', d', acts) -> quiet acts.
Proof.
  unfold clientHashDisseminator_applyMsg. destruct msg; try done; intros H.
  - apply bind_Ok in H as (a & Ha & [= _ _ _ <-]). unfold clientHashDisseminator_replyFetchRequest in Ha.
    case_match; [| by injection Ha as <-]. case_match; [by injection Ha as <- |]. apply bind_Ok in Ha as (l & _ & Ha).
    apply bind_Ok in Ha as (crn & _ & Ha). case_match; [| by injection Ha as <-]. apply bind_Ok in Ha as (cr & _ & Ha). case_match; by injection Ha as <-.
  - apply bind_Ok in H as ([[[[h1 ct1] d1] a1] l1] & Hr1 & [= _ _ _ <-]). by eapply ack_quiet.
Qed.

Lemma disseminatorStep_quiet (h h' : reqHeap) (ct ct' : clientTracker) (d d' : clientHashDisseminator) (source : Z) (msg : Msg) (acts : ActionList) :
  clientHashDisseminator_step h ct d source msg = Ok (h', ct', d', acts) -> quiet acts.
Proof.
  unfold clientHashDisseminator_step. intros H. apply bind_Ok in H as (v & _ & H).
  destruct v; [by injection H as _ _ _ <- | by eapply disseminatorMsg_quiet | by apply bind_Ok in H as (mb & _ & [= _ _ _ <-]) | by eapply disseminatorMsg_quiet].
Qed.

Lemma clientAllocate_quiet (h h' : reqHeap) (ct ct' : clientTracker) (c c' : client) (seqNo : Z) (state : NetworkState_Client) (rec : bool)
    (acts : ActionList) :
  client_allocate h ct c seqNo state rec = Ok (h', ct', c', acts) -> quiet acts.
Proof.
  unfold client_allocate. intros H. apply bind_Ok in H as (u & _ & H). apply bind_Ok in H as ([els m] & _ & H). apply bind_Ok in H as (h1 & _ & H).
  apply bind_Ok in H as ([[h2 c2] a2] & Hr2 & H). apply bind_Ok in H as ([ct3 c3] & _ & [= _ _ _ <-]).
  change a2 with (h2, c2, a2).2. unfold forUpTo in Hr2. case_match; [done |].
  eapply (forRange_inv (fun st : reqHeap * client * ActionList => quiet st.2)); [| | exact Hr2]; [| done].
  intros i [[h4 c4] a4] s' _ Hs Hb. unfold addReqNo in Hb. destruct (allocReqNo _ _) as [h5 l5]. injection Hb as <-. by apply quiet_concat.
Qed.

Lemma disseminatorAllocate_quiet (h h' : reqHeap) (ct ct' : clientTracker) (d d' : clientHashDisseminator) (seqNo : Z) (ns : NetworkState)
    (acts : ActionList) :
  clientHashDisseminator_allocate h ct d seqNo ns = Ok (h', ct', d', acts) -> quiet acts.
Proof.
  unfold clientHashDisseminator_allocate. intros H. apply bind_Ok in H as (u & _ & H). apply bind_Ok in H as (st & Hr1 & H).
  set (P := fun st : reqHeap * clientTracker * clientHashDisseminator * ActionList => quiet st.2). change (P (h', ct', d', acts)).
  eapply (forRange_inv P); [| | exact H].
  - intros id [[[h2 ct2] d2] a2] s' _ Hs Hb. unfold drainClientMsgs in Hb. apply bind_Ok in Hb as (mb & _ & Hb).
    apply bind_Ok in Hb as ([mb' [[[h3 ct3] d3] a3]] & Hit & [= <-]). apply (iterate_inv P) in Hit; [exact Hit | | exact Hs].
    intros src m [[[h4 ct4] d4] a4] s' Hs4 Ha. apply bind_Ok in Ha as ([[[h5 ct5] d5] a5] & Ha & [= <-]).
    apply quiet_concat; [exact Hs4 | by eapply disseminatorMsg_quiet].
  - eapply (forRange_inv P); [| | exact Hr1]; [| done].
    intros cl [[[h2 ct2] d2] a2] s' _ Hs Hb. apply bind_Ok in Hb as (c & _ & Hb). apply bind_Ok in Hb as ([[[h3 ct3] c3] a3] & Hc & [= <-]).
    apply quiet_concat; [exact Hs | by eapply clientAllocate_quiet].
Qed.

End CommitsDisseminator.
