(* ===== verification/StateMachine.v ===== *)
(** * State machine

    [pkg/statemachine/state_machine.go]: the composition of the components
    into one deterministic processor of events.  The components that share
    pointers are the [world] of [EpochTarget] (log, commit state, client
    tracker, batch tracker, disseminator, requests); the checkpoint tracker and
    the epoch tracker work on it.  Before [initialize] all of them are nil.

    The last loop of [applyEvent] runs as long as the epoch tracker returns
    actions; the model takes a bound on its iterations and a run that exceeds
    it is [OutOfFuel], so a run that returns is the run of the code for every
    bound ([applyEvent_fuel]). *)
From S2P Require Import Prelude Msgs Actions Stateless EpochChange NewEpochConfig Persisted MsgBuffers ReqHeap Sequence CommitState.
From S2P Require Import BatchTracker ClientTracker Checkpoints Outstanding EpochActive Disseminator EpochTarget Broadcast EpochTracker Commits.

(** ** Data *)

Inductive stateMachineState := smUninitialized | smLoadingPersisted | smInitialized.

#[global] Instance stateMachineState_eq_dec : EqDecision stateMachineState.
Proof. solve_decision. Defined.

(** The components, which exist once the machine is initialized. *)
Record parts := mkParts {
  pt_myConfig : EventInitialParameters;
  pt_world : world;
  pt_nodeBuffers : nodeBuffers;
  pt_checkpointTracker : checkpointTracker;
  pt_epochTracker : epochTracker;
}.

#[global] Instance eta_parts : Eta parts := mkEta (fun r =>
  mkParts (pt_myConfig r) (pt_world r) (pt_nodeBuffers r) (pt_checkpointTracker r) (pt_epochTracker r)).

Record StateMachine := mkStateMachine {
  sm_state : stateMachineState;
  sm_parts : option parts;
}.

#[global] Instance eta_StateMachine : Eta StateMachine := mkEta (fun r => mkStateMachine (sm_state r) (sm_parts r)).

(** The zero value. *)
Definition emptyStateMachine : StateMachine := mkStateMachine smUninitialized None.

Definition partsOf (sm : StateMachine) : outcome parts := deref (sm_parts sm) "nil pointer dereference".

(** ** Starting *)

(** The dummy network state of the source is replaced by [reinitialize] before
    a component reads it. *)
Definition StateMachine_initialize (sm : StateMachine) (parameters : EventInitialParameters) : outcome StateMachine :=
  _ ← assertTrue (bool_decide (sm_state sm = smUninitialized)) "state machine has already been initialized";
  let nbs := newNodeBuffers parameters in
  let w := mkWorld (mkShared newPersisted newCommitState newClientTracker) newBatchTracker (newClientHashDisseminator nbs parameters) emptyHeap in
  Ok (mkStateMachine smLoadingPersisted
        (Some (mkParts parameters w nbs (newCheckpointTracker nbs parameters) (newEpochTracker nbs parameters)))).

Definition StateMachine_applyPersisted (sm : StateMachine) (index : Z) (data : Persistent) : outcome StateMachine :=
  _ ← assertTrue (bool_decide (sm_state sm = smLoadingPersisted)) "state machine has already finished loading persisted data";
  pt ← partsOf sm;
  p ← persisted_appendInitialLoad (w_persisted (pt_world pt)) index data;
  Ok (sm <| sm_parts := Some (pt <| pt_world ::= fun w => setPersisted w p |>) |>).

(** The iterator of [recoverLog]: the last checkpoint, the log and the actions
    of its truncations.  The log is truncated while it is iterated over, which
    drops entries before the current one only.  The assertions compare typed
    nil pointers to nil and never fail; without a checkpoint the entry is
    dereferenced. *)
Definition recoverIterator : logIterator (option CEntry * persisted * ActionList) :=
  (emptyIterator (option CEntry * persisted * ActionList))
    <| onCEntry := fun cEntry st => Ok (Some cEntry, st.1.2, st.2) |>
    <| onFEntry := fun _ st =>
         c ← deref st.1.1 "nil pointer dereference: lastCEntry";
         let '(p, more) := persisted_truncate st.1.2 (c_SeqNo c) in
         Ok (Some c, p, ActionList_concat st.2 more) |>.

Definition StateMachine_recoverLog (p : persisted) : outcome (persisted * ActionList) :=
  '(_, p, actions) ← persisted_iterate p recoverIterator (None, p, []);
  Ok (p, actions).

Section Machine.

Context `{PE : ProtoEqual} `{CR : ConfigRange} `{KR : CheckpointRange} `{Range : MapRange} `{Size : ProtoSize} `{ER : EpochRange}.
Context `{Orders : CheckpointOrders}.

Definition StateMachine_reinitialize (pt : parts) : outcome (parts * ActionList) :=
  let w := pt_world pt in
  '(p, actions) ← StateMachine_recoverLog (w_persisted w);
  '(cs, more) ← commitState_reinitialize (w_commitState w) p;
  let actions := ActionList_concat actions more in
  let ct := clientTracker_reinitialize (sd_clientTracker (w_shared w)) (cs_activeState cs) in
  '(h, ct, d, more) ← clientHashDisseminator_reinitialize (w_reqHeap w) ct (w_disseminator w) (cs_lowWatermark cs) (cs_activeState cs);
  let actions := ActionList_concat actions more in
  cpt ← checkpointTracker_reinitialize (pt_checkpointTracker pt) p;
  bt ← batchTracker_reinitialize (w_batchTracker w) p;
  '(w, tr, more) ← epochTracker_reinitialize (mkWorld (mkShared p cs ct) bt d h) (pt_epochTracker pt);
  Ok (pt <| pt_world := w |> <| pt_checkpointTracker := cpt |> <| pt_epochTracker := tr |>, ActionList_concat actions more).

Definition StateMachine_completeInitialization (sm : StateMachine) : outcome (StateMachine * ActionList) :=
  _ ← assertTrue (bool_decide (sm_state sm = smLoadingPersisted)) "state machine has already finished loading persisted data";
  pt ← partsOf sm;
  '(pt, actions) ← StateMachine_reinitialize pt;
  Ok (mkStateMachine smInitialized (Some pt), actions).

(** ** Steps *)

(** A call on the epoch tracker. *)
Definition onEpochTracker (f : world -> epochTracker -> outcome (world * epochTracker * ActionList)) (pt : parts)
    : outcome (parts * ActionList) :=
  '(w, tr, actions) ← f (pt_world pt) (pt_epochTracker pt);
  Ok (pt <| pt_world := w |> <| pt_epochTracker := tr |>, actions).

(** The parts after a call on the disseminator. *)
Definition setDisseminator (pt : parts) (h : reqHeap) (ct : clientTracker) (d : clientHashDisseminator) : parts :=
  pt <| pt_world ::= fun w => w <| w_reqHeap := h |> <| w_disseminator := d |> <| w_shared ::= fun sd => sd <| sd_clientTracker := ct |> |> |>.

Definition StateMachine_step (pt : parts) (source : Z) (msg : Msg) : outcome (parts * ActionList) :=
  let w := pt_world pt in
  match msg with
  | Msg_RequestAck _ | Msg_FetchRequest _ | Msg_ForwardRequest _ =>
    '(h, ct, d, actions) ← clientHashDisseminator_step (w_reqHeap w) (sd_clientTracker (w_shared w)) (w_disseminator w) source msg;
    Ok (setDisseminator pt h ct d, actions)
  | Msg_Checkpoint _ =>
    cpt ← checkpointTracker_step (pt_checkpointTracker pt) source msg;
    Ok (pt <| pt_checkpointTracker := cpt |>, [])
  | Msg_FetchBatch _ | Msg_ForwardBatch _ =>
    actions ← batchTracker_step (w_batchTracker w) source msg;
    Ok (pt, actions)
  | Msg_Suspect _ | Msg_EpochChange _ | Msg_EpochChangeAck _ | Msg_NewEpoch _ | Msg_NewEpochEcho _ | Msg_NewEpochReady _
  | Msg_Preprepare _ | Msg_Prepare _ | Msg_Commit _ => onEpochTracker (fun w tr => epochTracker_step w tr source msg) pt
  | Msg_unset => Panic "unexpected bad message type"
  end.

Definition StateMachine_processHashResult (pt : parts) (digest : slice) (origin : HashOrigin) : outcome (parts * ActionList) :=
  match origin with
  | HashOrigin_isBatch batch =>
    let pt := pt <| pt_world ::= fun w => w <| w_batchTracker ::= fun bt => batchTracker_addBatch bt (hb_SeqNo batch) digest (hb_RequestAcks batch) |> |> in
    onEpochTracker (fun w tr => epochTracker_applyBatchHashResult w tr (hb_Epoch batch) (hb_SeqNo batch) digest) pt
  | HashOrigin_isEpochChange epochChange =>
    onEpochTracker (fun w tr => epochTracker_applyEpochChangeDigest w tr epochChange digest) pt
  | HashOrigin_isVerifyBatch verifyBatch =>
    bt ← batchTracker_applyVerifyBatchHashResult (w_batchTracker (pt_world pt)) digest verifyBatch;
    let pt := pt <| pt_world ::= fun w => w <| w_batchTracker := bt |> |> in
    if batchTracker_hasFetchInFlight bt then Ok (pt, [])
    else
      et ← currentTarget (pt_epochTracker pt);
      if bool_decide (et_state et = etFetching) then onEpochTracker (onTarget epochTarget_fetchNewEpochState) pt else Ok (pt, [])
  | HashOrigin_unset => Panic "no hash result type set"
  end.

(** The configuration of the active epoch the source passes on is not read by
    [applyCheckpointResult]. *)
Definition StateMachine_processCheckpointResult (pt : parts) (result : EventCheckpointResult) : outcome (parts * ActionList) :=
  let w := pt_world pt in
  let cs := w_commitState w in
  if ckr_SeqNo result <? cs_lowWatermark cs then Ok (pt, [])
  else
    let expectedSeqNo := cs_lowWatermark cs +! ciOf (cs_activeState cs) in
    _ ← assertTrue (expectedSeqNo =? ckr_SeqNo result) "new checkpoint results muts be exactly one checkpoint interval after the last";
    _ ← currentTarget (pt_epochTracker pt);
    let prevStopAtSeqNo := cs_stopAtSeqNo cs in
    '(cs, p, actions) ← commitState_applyCheckpointResult cs (w_persisted w) result;
    let w := setPersisted (setCommitState w cs) p in
    let pt := pt <| pt_world := w |> in
    if prevStopAtSeqNo <? cs_stopAtSeqNo cs then
      ct ← clientTracker_allocate (w_reqHeap w) (sd_clientTracker (w_shared w)) (ckr_NetworkState result);
      '(h, ct, d, more) ← clientHashDisseminator_allocate (w_reqHeap w) ct (w_disseminator w) (ckr_SeqNo result) (ckr_NetworkState result);
      Ok (setDisseminator pt h ct d, ActionList_concat actions more)
    else Ok (pt, actions).

(** [clientHashDisseminator.tick] and [epochTracker.tick]. *)
Definition tickElapsed (pt : parts) : outcome (parts * ActionList) :=
  '(h, actions) ← clientHashDisseminator_tick (w_reqHeap (pt_world pt)) (w_disseminator (pt_world pt));
  let pt := pt <| pt_world ::= fun w => w <| w_reqHeap := h |> |> in
  '(pt, more) ← onEpochTracker epochTracker_tick pt;
  Ok (pt, ActionList_concat actions more).

Definition requestPersisted (pt : parts) (ack : RequestAck) : outcome (parts * ActionList) :=
  '(h, actions) ← clientHashDisseminator_applyNewRequest (w_reqHeap (pt_world pt)) (w_disseminator (pt_world pt)) ack;
  Ok (pt <| pt_world ::= fun w => w <| w_reqHeap := h |> |>, actions).

Definition stateTransferComplete (pt : parts) (seqNo : Z) (value : slice) (networkState : NetworkState) : outcome (parts * ActionList) :=
  _ ← assertTrue (cs_transferring (w_commitState (pt_world pt)))
        "state transfer event received but the state machine did not request transfer";
  '(p, actions) ← persisted_addCEntry (w_persisted (pt_world pt)) (mkCEntry seqNo value networkState);
  '(pt, more) ← StateMachine_reinitialize (pt <| pt_world ::= fun w => setPersisted w p |>);
  Ok (pt, ActionList_concat actions more).

(** ** The end of [applyEvent] *)

(** The watermark movement.  The actions of [persisted.truncate] are not
    collected. *)
Definition collectGarbage (pt : parts) (actions : ActionList) : outcome (parts * ActionList) :=
  if negb (bool_decide (cpt_state (pt_checkpointTracker pt) = cpsGarbageCollectable)) then Ok (pt, actions)
  else
    '(cpt, newLow) ← checkpointTracker_garbageCollect (pt_checkpointTracker pt);
    let pt := pt <| pt_checkpointTracker := cpt |> <| pt_world ::= fun w => setPersisted w (persisted_truncate (w_persisted w) newLow).1 |> in
    nc ← deref (cpt_networkConfig cpt) "nil pointer dereference: networkConfig";
    let ci := u64 (nc_CheckpointInterval nc) in
    let pt := if ci <? newLow then pt <| pt_world ::= fun w => w <| w_batchTracker ::= fun bt => batchTracker_truncate bt (newLow -! ci) |> |> else pt in
    '(pt, more) ← onEpochTracker (fun w tr => epochTracker_moveLowWatermark w tr newLow) pt;
    Ok (pt, ActionList_concat actions more).

(** The loop that drains the commits and advances the epoch. *)
Fixpoint advanceEvent (fuel : nat) (pt : parts) (actions : ActionList) : outcome (parts * ActionList) :=
  match fuel with
  | O => OutOfFuel
  | S fuel' =>
    '(cs, more) ← commitState_drain (w_commitState (pt_world pt));
    let pt := pt <| pt_world ::= fun w => setCommitState w cs |> in
    let actions := ActionList_concat actions more in
    '(pt, loopActions) ← onEpochTracker epochTracker_advanceState pt;
    match loopActions with
    | [] => Ok (pt, actions)
    | _ :: _ => advanceEvent fuel' pt (ActionList_concat actions loopActions)
    end
  end.

(** What follows the switch. *)
Definition finishEvent (fuel : nat) (r : parts * ActionList) : outcome (StateMachine * ActionList) :=
  '(pt, actions) ← collectGarbage r.1 r.2;
  '(pt, actions) ← advanceEvent fuel pt actions;
  Ok (mkStateMachine smInitialized (Some pt), actions).

(** The cases that assert that the machine is initialized. *)
Definition initialized (sm : StateMachine) : outcome parts :=
  _ ← assertTrue (bool_decide (sm_state sm = smInitialized)) "cannot apply events to an uninitialized state machine";
  partsOf sm.

(** A state transfer is requested, hence completed, by an initialized machine
    only: [commitState] is nil before [initialize] and does not transfer
    before [completeInitialization]. *)
Definition StateMachine_applyEvent (fuel : nat) (sm : StateMachine) (stateEvent : Event) : outcome (StateMachine * ActionList) :=
  match stateEvent with
  | Event_Initialize parameters => sm ← StateMachine_initialize sm parameters; Ok (sm, [])
  | Event_LoadPersistedEntry index entry => sm ← StateMachine_applyPersisted sm index entry; Ok (sm, [])
  | Event_CompleteInitialization => StateMachine_completeInitialization sm
  | Event_TickElapsed => pt ← initialized sm; r ← tickElapsed pt; finishEvent fuel r
  | Event_Step source msg => pt ← initialized sm; r ← StateMachine_step pt source msg; finishEvent fuel r
  | Event_HashResult digest origin => pt ← initialized sm; r ← StateMachine_processHashResult pt digest origin; finishEvent fuel r
  | Event_CheckpointResult result => pt ← initialized sm; r ← StateMachine_processCheckpointResult pt result; finishEvent fuel r
  | Event_RequestPersisted ack => pt ← initialized sm; r ← requestPersisted pt ack; finishEvent fuel r
  | Event_StateTransferFailed _ _ => Panic "XXX handle state transfer failure"
  | Event_StateTransferComplete seqNo value networkState =>
    pt ← partsOf sm;
    '(pt, actions) ← stateTransferComplete pt seqNo value networkState;
    '(sm', actions) ← finishEvent fuel (pt, actions);
    Ok (sm' <| sm_state := sm_state sm |>, actions)
  | Event_ActionsReceived => Ok (sm, [])
  | Event_unset => Panic "unknown state event type"
  end.

End Machine.

(** ** Specification *)

(** Where an event is accepted, and the state it leaves the machine in. *)
Definition lifecycle (s : stateMachineState) (e : Event) : option stateMachineState :=
  match e, s with
  | Event_ActionsReceived, s => Some s
  | Event_Initialize _, smUninitialized => Some smLoadingPersisted
  | Event_LoadPersistedEntry _ _, smLoadingPersisted => Some smLoadingPersisted
  | Event_CompleteInitialization, smLoadingPersisted => Some smInitialized
  | (Event_TickElapsed | Event_Step _ _ | Event_HashResult _ _ | Event_CheckpointResult _ | Event_RequestPersisted _
    | Event_StateTransferComplete _ _ _), smInitialized => Some smInitialized
  | _, _ => None
  end.

(** The components exist from [initialize] on, and no transfer is under way
    before the log is loaded. *)
Definition sm_wf (sm : StateMachine) : Prop :=
  match sm_state sm with
  | smUninitialized => sm_parts sm = None
  | smLoadingPersisted => exists pt, sm_parts sm = Some pt /\ cs_transferring (w_commitState (pt_world pt)) = false
  | smInitialized => is_Some (sm_parts sm)
  end.

(** The deliveries continue the sequence of applied batches. *)
Definition continues (cs cs' : commitState) (acts : ActionList) : Prop :=
  csInv cs -> csInv cs' /\ cs_lastAppliedCommit cs <= cs_lastAppliedCommit cs'
    /\ q_SeqNo <$> deliveries acts = seqZ (cs_lastAppliedCommit cs + 1) (cs_lastAppliedCommit cs' - cs_lastAppliedCommit cs).

(** No action tells the consumer to truncate its log. *)
Definition keepsWal (acts : ActionList) : Prop := forall index, Action_TruncateWriteAhead index ∉ acts.

Record progress (cs cs' : commitState) (acts : ActionList) : Prop := {
  pg_wal : keepsWal acts;
  pg_order : continues cs cs' acts;
}.

Definition csOf (pt : parts) : commitState := w_commitState (pt_world pt).

(** What the deliveries rely on: a result for the checkpoint that is pending,
    with the interval the state has, and sequence numbers that do not run out;
    and no new start of the components in between. *)
Definition validEvent (pt : parts) (e : Event) : Prop :=
  let cs := csOf pt in
  match e with
  | Event_CheckpointResult result => cs_lowWatermark cs <= ckr_SeqNo result -> cs_transferring cs = false ->
      cs_checkpointPending cs = true /\ ciOf (ckr_NetworkState result) = ciOf (cs_activeState cs)
      /\ windowEnd cs + ciOf (cs_activeState cs) + 1 < 2 ^ 64
  | Event_StateTransferComplete _ _ _ => False
  | _ => True
  end.

(** ** Lemmas *)

Lemma inward_keepsWal (acts : ActionList) : inward acts -> keepsWal acts.
Proof. intros H index. by apply inward_truncate. Qed.

Lemma keepsWal_app (a b : ActionList) : keepsWal a -> keepsWal b -> keepsWal (a ++ b).
Proof. intros Ha Hb index [H | H]%elem_of_app; [by apply (Ha index) | by apply (Hb index)]. Qed.

Lemma progress_refl (cs : commitState) (acts : ActionList) : inward acts -> progress cs cs acts.
Proof.
  intros Ha. split; [by apply inward_keepsWal |]. intros Hi. split; [done |]. split; [done |].
  rewrite inward_deliveries by done. by rewrite Z.sub_diag.
Qed.

Lemma progress_trans (cs1 cs2 cs3 : commitState) (a b : ActionList) :
  progress cs1 cs2 a -> progress cs2 cs3 b -> progress cs1 cs3 (ActionList_concat a b).
Proof.
  intros [W1 H1] [W2 H2]. split; [by apply keepsWal_app |]. intros Hi.
  destruct (H1 Hi) as (Hi2 & Hle & Hd). destruct (H2 Hi2) as (Hi3 & Hle2 & Hd2). split; [done |]. split; [lia |].
  unfold ActionList_concat. rewrite deliveries_app, fmap_app, Hd, Hd2.
  replace (cs_lastAppliedCommit cs3 - cs_lastAppliedCommit cs1)
    with ((cs_lastAppliedCommit cs2 - cs_lastAppliedCommit cs1) + (cs_lastAppliedCommit cs3 - cs_lastAppliedCommit cs2)) by lia.
  rewrite seqZ_app by lia. do 2 f_equal. lia.
Qed.

Lemma progress_keeps (w w' : world) (acts : ActionList) : keepsCommits w w' acts -> progress (w_commitState w) (w_commitState w') acts.
Proof.
  intros [Ha Hc]. split; [by apply inward_keepsWal |]. intros Hi. destruct (commitsOnly_inv _ _ Hc Hi) as [Hi' Hl]. split; [done |]. split; [lia |].
  by rewrite Hl, Z.sub_diag, inward_deliveries.
Qed.

(** Draining commits and requests checkpoints only. *)
Lemma drain_keepsWal (cs cs' : commitState) (acts : ActionList) : commitState_drain cs = Ok (cs', acts) -> keepsWal acts.
Proof.
  unfold commitState_drain. generalize (S (Z.to_nat ((cs_lowWatermark cs +! mul64 2 (ciOf (cs_activeState cs))) - cs_lastAppliedCommit cs))). intros fuel.
  assert (H0 : keepsWal []) by (intros index ?%elem_of_nil; done). revert H0. generalize (@nil Action). revert cs.
  induction fuel as [|fuel IH]; intros cs a0 H0 H; cbn [drainLoop] in H; [done |]. case_match; [by injection H as _ <- |].
  apply bind_Ok in H as ([cs1 a1] & Hr1 & H). assert (Hk : keepsWal a1).
  { unfold drainCheckpoint in Hr1. case_match; [| by injection Hr1 as _ <-]. apply bind_Ok in Hr1 as ([ccs [nc cls]] & _ & [= _ <-]).
    apply keepsWal_app; [done |].
    intros index [Hin | Hin]%elem_of_cons; [done | by apply elem_of_nil in Hin]. }
  apply bind_Ok in H as ([up off] & _ & H). apply bind_Ok in H as (commit & _ & H). destruct commit as [q |]; [| by injection H as _ <-].
  apply bind_Ok in H as (u & _ & H). apply bind_Ok in H as (ccs & _ & H). eapply IH; [| exact H]. apply keepsWal_app; [done |].
  intros index [Hin | Hin]%elem_of_cons; [done | by apply elem_of_nil in Hin].
Qed.

Lemma progress_drain (cs cs' : commitState) (acts : ActionList) : commitState_drain cs = Ok (cs', acts) -> progress cs cs' acts.
Proof. intros H. split; [by eapply drain_keepsWal |]. intros Hi. by eapply drain_inv. Qed.

Lemma progress_quiet (cs cs' : commitState) (acts : ActionList) : quiet acts -> cs' = cs -> progress cs cs' acts.
Proof. intros Hq ->. by apply progress_refl, quiet_inward. Qed.

Section MachineLemmas.

Context `{PE : ProtoEqual} `{CR : ConfigRange} `{KR : CheckpointRange} `{Range : MapRange} `{Size : ProtoSize} `{ER : EpochRange}.
Context `{Orders : CheckpointOrders}.

Lemma onEpochTracker_progress (f : world -> epochTracker -> outcome (world * epochTracker * ActionList)) (pt pt' : parts) (acts : ActionList) :
  (forall w tr w' tr' acts, f w tr = Ok (w', tr', acts) -> keepsCommits w w' acts) ->
  onEpochTracker f pt = Ok (pt', acts) -> progress (csOf pt) (csOf pt') acts.
Proof.
  intros Hf H. unfold onEpochTracker in H. apply bind_Ok in H as ([[w tr] a] & H1 & [= <- <-]). by eapply progress_keeps, Hf.
Qed.

Lemma step_progress (pt pt' : parts) (source : Z) (msg : Msg) (acts : ActionList) :
  StateMachine_step pt source msg = Ok (pt', acts) -> progress (csOf pt) (csOf pt') acts.
Proof.
  intros H. unfold StateMachine_step in H.
  destruct msg; try (eapply onEpochTracker_progress; [| exact H]; intros w tr w' tr' a; exact (trackerOp_keeps w w' tr tr' (EStep source _) a));
    try discriminate H.
  - apply bind_Ok in H as (cpt & _ & [= <- <-]). by apply progress_quiet.
  - apply bind_Ok in H as (a & Ha & [= <- <-]). apply progress_quiet; [| done]. injection Ha as <-. unfold batchTracker_replyFetchBatch. by case_match.
  - apply bind_Ok in H as (a & Ha & [= <- <-]). apply progress_quiet; [| done]. injection Ha as <-. unfold batchTracker_applyForwardBatchMsg. by case_match.
  - apply bind_Ok in H as ([[[h ct] d] a] & Ha & [= <- <-]). apply progress_quiet; [by eapply disseminatorStep_quiet | done].
  - apply bind_Ok in H as ([[[h ct] d] a] & Ha & [= <- <-]). apply progress_quiet; [by eapply disseminatorStep_quiet | done].
Qed.

Lemma hash_progress (pt pt' : parts) (digest : slice) (origin : HashOrigin) (acts : ActionList) :
  StateMachine_processHashResult pt digest origin = Ok (pt', acts) -> progress (csOf pt) (csOf pt') acts.
Proof.
  intros H. unfold StateMachine_processHashResult in H. destruct origin as [b | ec | vb |]; [| | | discriminate H].
  - eapply onEpochTracker_progress in H; [exact H |]. intros w tr w' tr' a. exact (trackerOp_keeps w w' tr tr' (EBatchHash _ _ _) a).
  - eapply onEpochTracker_progress in H; [exact H |]. intros w tr w' tr' a. exact (trackerOp_keeps w w' tr tr' (EEpochChangeDigest _ _) a).
  - apply bind_Ok in H as (bt & _ & H). case_match; [injection H as <- <-; by apply progress_quiet |].
    apply bind_Ok in H as (et & _ & H). case_match; [| injection H as <- <-; by apply progress_quiet].
    eapply onEpochTracker_progress in H; [exact H |]. intros w tr w' tr' a Ha. eapply onTarget_keeps; [| exact Ha].
    intros ?????. apply fetchNewEpochState_keeps.
Qed.

Lemma checkpoint_progress (pt pt' : parts) (result : EventCheckpointResult) (acts : ActionList) :
  validEvent pt (Event_CheckpointResult result) -> StateMachine_processCheckpointResult pt result = Ok (pt', acts) ->
  progress (csOf pt) (csOf pt') acts.
Proof.
  intros Hv H. unfold StateMachine_processCheckpointResult in H. cbn in Hv. unfold csOf in *.
  destruct (Z.ltb_spec (ckr_SeqNo result) (cs_lowWatermark (w_commitState (pt_world pt)))); [injection H as <- <-; by apply progress_quiet |].
  apply bind_Ok in H as (u & _ & H). apply bind_Ok in H as (et & _ & H). apply bind_Ok in H as ([[cs p] a] & Ha & H).
  assert (Hmore : exists more, quiet more /\ acts = a ++ more /\ w_commitState (pt_world pt') = cs).
  { case_match; [| injection H as <- <-; exists []; by rewrite app_nil_r]. apply bind_Ok in H as (ct & _ & H).
    apply bind_Ok in H as ([[[h ct1] d] m] & Hm & [= <- <-]). exists m. split; [by eapply disseminatorAllocate_quiet | done]. }
  destruct Hmore as (more & Hq & -> & ->). apply quiet_inward in Hq. split.
  { apply keepsWal_app; [| by apply inward_keepsWal]. apply inward_keepsWal. unfold commitState_applyCheckpointResult in Ha.
    destruct (cs_transferring _); [by injection Ha as _ _ <- |]. destruct (negb _); [discriminate Ha |]. apply bind_Ok in Ha as (up & _ & Ha).
    apply bind_Ok in Ha as ([p1 a1] & Ha & [= _ _ <-]). apply append_quiet, quiet_inward in Ha. by apply inward_app. }
  intros Hi. destruct (checkpointResult_inv _ _ _ _ _ _ Hi (Hv ltac:(lia)) Ha) as (Hi' & Hl & Hin). split; [done |]. split; [lia |].
  rewrite Hl, Z.sub_diag, deliveries_app, !inward_deliveries by done. done.
Qed.

Lemma tick_progress (pt pt' : parts) (acts : ActionList) : tickElapsed pt = Ok (pt', acts) -> progress (csOf pt) (csOf pt') acts.
Proof.
  unfold tickElapsed. intros H. apply bind_Ok in H as ([h a] & Ha & H). apply bind_Ok in H as ([pt1 more] & Hm & [= <- <-]).
  apply disseminatorTick_quiet in Ha. eapply onEpochTracker_progress in Hm; [| intros w tr w' tr' b; exact (trackerOp_keeps w w' tr tr' ETick b)].
  eapply progress_trans; [| exact Hm]. by apply progress_quiet.
Qed.

Lemma garbage_progress (cs : commitState) (pt pt' : parts) (acts0 acts : ActionList) :
  progress cs (csOf pt) acts0 -> collectGarbage pt acts0 = Ok (pt', acts) -> progress cs (csOf pt') acts.
Proof.
  intros H0 H. unfold collectGarbage in H. case_match; [by injection H as <- <- |]. apply bind_Ok in H as ([cpt low] & _ & H).
  apply bind_Ok in H as (nc & _ & H). apply bind_Ok in H as ([pt1 more] & Hm & [= <- <-]).
  eapply onEpochTracker_progress in Hm; [| intros w tr w' tr' b; exact (trackerOp_keeps w w' tr tr' (EMoveLowWatermark _) b)].
  eapply progress_trans; [exact H0 |]. by case_match.
Qed.

Lemma advance_progress (fuel : nat) (cs : commitState) (pt pt' : parts) (acts0 acts : ActionList) :
  progress cs (csOf pt) acts0 -> advanceEvent fuel pt acts0 = Ok (pt', acts) -> progress cs (csOf pt') acts.
Proof.
  revert pt acts0. induction fuel as [|fuel IH]; intros pt acts0 H0 H; cbn [advanceEvent] in H; [done |].
  apply bind_Ok in H as ([cs1 a1] & H1 & H). apply bind_Ok in H as ([pt2 a2] & H2 & H).
  eapply onEpochTracker_progress in H2; [| intros w tr w' tr' b; exact (trackerOp_keeps w w' tr tr' EAdvance b)].
  apply progress_drain in H1. rename H1 into Hd.
  pose proof (progress_trans _ _ _ _ _ H0 Hd) as Hp. pose proof (progress_trans _ _ _ _ _ Hp H2) as Hp2.
  destruct a2 as [|x a2]; [| by eapply IH]. injection H as <- <-. unfold ActionList_concat in *. by rewrite app_nil_r in Hp2.
Qed.

Lemma finish_progress (fuel : nat) (cs : commitState) (r : parts * ActionList) (sm' : StateMachine) (acts : ActionList) :
  progress cs (csOf r.1) r.2 -> finishEvent fuel r = Ok (sm', acts) ->
  exists pt', sm' = mkStateMachine smInitialized (Some pt') /\ progress cs (csOf pt') acts.
Proof.
  intros H0 H. unfold finishEvent in H. apply bind_Ok in H as ([pt1 a1] & H1 & H). apply bind_Ok in H as ([pt2 a2] & H2 & [= <- <-]).
  exists pt2. split; [done |]. eapply advance_progress; [| exact H2]. by eapply garbage_progress.
Qed.

(** One event. *)
Lemma event_progress (fuel : nat) (pt : parts) (e : Event) (sm' : StateMachine) (acts : ActionList) :
  validEvent pt e -> StateMachine_applyEvent fuel (mkStateMachine smInitialized (Some pt)) e = Ok (sm', acts) ->
  exists pt', sm' = mkStateMachine smInitialized (Some pt') /\ progress (csOf pt) (csOf pt') acts.
Proof.
  intros Hv H. destruct e; cbn [StateMachine_applyEvent] in H; try discriminate H.
  - apply bind_Ok in H as (pt1 & [= <-] & H). apply bind_Ok in H as ([pt2 a2] & H2 & H). eapply finish_progress; [| exact H]. by eapply hash_progress.
  - apply bind_Ok in H as (pt1 & [= <-] & H). apply bind_Ok in H as ([pt2 a2] & H2 & H). eapply finish_progress; [| exact H]. by eapply checkpoint_progress.
  - apply bind_Ok in H as (pt1 & [= <-] & H). apply bind_Ok in H as ([pt2 a2] & H2 & H). eapply finish_progress; [| exact H].
    unfold requestPersisted in H2. apply bind_Ok in H2 as ([h a] & Ha & [= <- <-]). apply progress_quiet; [by eapply newRequest_quiet | done].
  - done.
  - apply bind_Ok in H as (pt1 & [= <-] & H). apply bind_Ok in H as ([pt2 a2] & H2 & H). eapply finish_progress; [| exact H]. by eapply step_progress.
  - apply bind_Ok in H as (pt1 & [= <-] & H). apply bind_Ok in H as ([pt2 a2] & H2 & H). eapply finish_progress; [| exact H]. by eapply tick_progress.
  - injection H as <- <-. exists pt. split; [done | by apply progress_quiet].
Qed.

(** More iterations do not change the result of an event. *)
Lemma advanceEvent_fuel (f1 f2 : nat) (pt : parts) (acts : ActionList) (r : parts * ActionList) :
  (f1 <= f2)%nat -> advanceEvent f1 pt acts = Ok r -> advanceEvent f2 pt acts = Ok r.
Proof.
  revert f2 pt acts. induction f1 as [|f1 IH]; intros f2 pt acts Hle H; [done |]. destruct f2 as [|f2]; [lia |]. cbn [advanceEvent] in *.
  apply bind_Ok in H as ([cs1 a1] & Hr1 & H). rewrite Hr1, bind_ok. apply bind_Ok in H as ([pt2 a2] & Hr2 & H). rewrite Hr2, bind_ok.
  destruct a2 as [|x a2]; [done |]. apply IH; [lia | done].
Qed.

Lemma finishEvent_fuel (f1 f2 : nat) (x : parts * ActionList) (r : StateMachine * ActionList) :
  (f1 <= f2)%nat -> finishEvent f1 x = Ok r -> finishEvent f2 x = Ok r.
Proof.
  intros Hle H. unfold finishEvent in *. apply bind_Ok in H as ([pt a] & Hr1 & H). rewrite Hr1, bind_ok.
  apply bind_Ok in H as (y & Hr2 & H). by rewrite (advanceEvent_fuel f1 f2 pt a y Hle Hr2), bind_ok.
Qed.

(** A run that returned within a bound is the run for every larger one. *)
Lemma applyEvent_fuel (f1 f2 : nat) (sm : StateMachine) (e : Event) (r : StateMachine * ActionList) :
  (f1 <= f2)%nat -> StateMachine_applyEvent f1 sm e = Ok r -> StateMachine_applyEvent f2 sm e = Ok r.
Proof.
  intros Hle H. destruct e; cbn [StateMachine_applyEvent] in *; try exact H.
  1, 2, 3, 5, 6: apply bind_Ok in H as (pt & Hr1 & H); rewrite Hr1, bind_ok; apply bind_Ok in H as (x & Hr2 & H); rewrite Hr2, bind_ok;
    by apply (finishEvent_fuel f1).
  apply bind_Ok in H as (pt & Hr1 & H). rewrite Hr1, bind_ok. apply bind_Ok in H as ([pt1 a1] & Hr2 & H). rewrite Hr2, bind_ok.
  apply bind_Ok in H as (x & Hr3 & H). by rewrite (finishEvent_fuel f1 f2 _ _ Hle Hr3), bind_ok.
Qed.

(** A sequence of events. *)
Fixpoint runEvents (fuel : nat) (sm : StateMachine) (events : list Event) : outcome (StateMachine * ActionList) :=
  match events with
  | [] => Ok (sm, [])
  | e :: events' =>
    '(sm, acts) ← StateMachine_applyEvent fuel sm e;
    '(sm, more) ← runEvents fuel sm events';
    Ok (sm, ActionList_concat acts more)
  end.

(** Every event is valid where it is applied. *)
Fixpoint validRun (fuel : nat) (sm : StateMachine) (events : list Event) : Prop :=
  match events with
  | [] => True
  | e :: events' =>
    (forall pt, sm_parts sm = Some pt -> validEvent pt e)
    /\ forall sm' acts, StateMachine_applyEvent fuel sm e = Ok (sm', acts) -> validRun fuel sm' events'
  end.

Lemma runEvents_progress (fuel : nat) (pt : parts) (events : list Event) (sm' : StateMachine) (acts : ActionList) :
  let sm := mkStateMachine smInitialized (Some pt) in
  validRun fuel sm events -> runEvents fuel sm events = Ok (sm', acts) ->
  exists pt', sm' = mkStateMachine smInitialized (Some pt') /\ progress (csOf pt) (csOf pt') acts.
Proof.
  cbv zeta. revert pt acts. induction events as [|e events IH]; intros pt acts Hv H; cbn [runEvents] in H.
  - injection H as <- <-. exists pt. split; [done | by apply progress_quiet].
  - destruct Hv as [Hv Hvs]. apply bind_Ok in H as ([sm1 a1] & Hr1 & H). apply bind_Ok in H as ([sm2 a2] & Hr2 & [= <- <-]).
    specialize (Hvs sm1 a1 Hr1). apply event_progress in Hr1 as (pt1 & -> & Hp1); [| by apply Hv].
    destruct (IH pt1 a2 Hvs Hr2) as (pt2 & -> & Hp2). exists pt2. split; [done | by eapply progress_trans].
Qed.

(** ** Properties *)

(** C1: the state machine delivers batches in order, without gaps and without
    repetition.  Over any sequence of events that an initialized machine
    handles, as long as checkpoint results answer pending requests and no
    state transfer completes, the batches it hands to the application have
    exactly the consecutive sequence numbers from the one after the last
    applied batch on, whatever messages arrive, in whichever order, and
    through epoch changes; and the state this rests on is kept. *)
Theorem batches_delivered_in_order (fuel : nat) (pt : parts) (events : list Event) (sm' : StateMachine) (acts : ActionList) :
  let sm := mkStateMachine smInitialized (Some pt) in
  csInv (csOf pt) -> validRun fuel sm events -> runEvents fuel sm events = Ok (sm', acts) ->
  exists pt', sm_parts sm' = Some pt' /\ csInv (csOf pt')
    /\ q_SeqNo <$> deliveries acts
       = seqZ (cs_lastAppliedCommit (csOf pt) + 1) (cs_lastAppliedCommit (csOf pt') - cs_lastAppliedCommit (csOf pt)).
Proof.
  intros sm Hi Hv H. destruct (runEvents_progress _ _ _ _ _ Hv H) as (pt' & -> & [_ Hp]). destruct (Hp Hi) as (Hi' & _ & Hd). by exists pt'.
Qed.

(** Every event against the order of the life cycle. *)
Lemma applyEvent_order (fuel : nat) (sm : StateMachine) (e : Event) :
  sm_wf sm ->
  match lifecycle (sm_state sm) e with
  | None => exists why, StateMachine_applyEvent fuel sm e = Panic why
  | Some s => forall sm' acts, StateMachine_applyEvent fuel sm e = Ok (sm', acts) -> sm_state sm' = s /\ sm_wf sm'
  end.
Proof.
  destruct sm as [s pts]. unfold sm_wf. cbn [sm_state sm_parts]. intros Hwf.
  assert (Hfin : forall r sm' acts, finishEvent fuel r = Ok (sm', acts) -> sm_state sm' = smInitialized /\ is_Some (sm_parts sm')).
  { intros r sm' acts H. unfold finishEvent in H. apply bind_Ok in H as ([pt1 a1] & _ & H). apply bind_Ok in H as ([pt2 a2] & _ & [= <- _]). by split; [| eexists]. }
  destruct s.
  - rewrite Hwf. destruct e; cbn; try (by eexists).
    + by intros sm' acts [= <- <-]; split; [| eexists].
    + by intros sm' acts [= <- <-].
  - destruct Hwf as (pt & -> & Ht). destruct e; cbn [lifecycle StateMachine_applyEvent]; try (by eexists).
    + intros sm' acts H. apply bind_Ok in H as (sm1 & H & [= <- _]). unfold StateMachine_applyPersisted in H.
      apply bind_Ok in H as (u & _ & H). apply bind_Ok in H as (pt1 & [= <-] & H). apply bind_Ok in H as (p & _ & [= <-]). by split; [| eexists].
    + intros sm' acts H. unfold StateMachine_completeInitialization in H. apply bind_Ok in H as (u & _ & H).
      apply bind_Ok in H as (pt1 & _ & H). apply bind_Ok in H as ([pt2 a2] & _ & [= <- _]). by split; [| eexists].
    + unfold partsOf. cbn [sm_parts deref]. rewrite bind_ok. unfold stateTransferComplete. rewrite Ht. by eexists.
    + by intros sm' acts [= <- <-]; split; [| exists pt].
  - destruct e; cbn [lifecycle StateMachine_applyEvent]; try (by eexists).
    1, 2, 3, 5, 6: intros sm' acts H; apply bind_Ok in H as (pt & _ & H); apply bind_Ok in H as (x & _ & H);
      apply Hfin in H as [Hs Hp]; split; [exact Hs | by rewrite Hs].
    + intros sm' acts H. apply bind_Ok in H as (pt & _ & H). apply bind_Ok in H as ([pt1 a1] & _ & H).
      apply bind_Ok in H as ([sm1 a2] & Hf & [= <- _]). apply Hfin in Hf as [_ Hp]. destruct sm1. by split.
    + by intros sm' acts [= <- <-].
Qed.


(** The write-ahead log is never truncated while the machine runs: no
    event of an initialized machine, but the completion of a state transfer,
    returns the action that truncates it, although the watermark movement
    truncates the log in memory. *)
Theorem running_machine_never_truncates_wal (fuel : nat) (pt : parts) (e : Event) (sm' : StateMachine) (acts : ActionList) (index : Z) :
  validEvent pt e -> StateMachine_applyEvent fuel (mkStateMachine smInitialized (Some pt)) e = Ok (sm', acts) ->
  Action_TruncateWriteAhead index ∉ acts.
Proof. intros Hv H. destruct (event_progress _ _ _ _ _ Hv H) as (pt' & _ & [Hk _]). apply Hk. Qed.

(** One message of any node crashes the machine: a forwarded request is
    routed to the disseminator, whose filter panics on it, in every state. *)
Theorem forwarded_request_crashes (fuel : nat) (pt : parts) (source : Z) (msg : ForwardRequest) :
  exists why, StateMachine_applyEvent fuel (mkStateMachine smInitialized (Some pt)) (Event_Step source (Msg_ForwardRequest msg)) = Panic why.
Proof. by eexists. Qed.

End MachineLemmas.

(** ** Witnesses *)

#[local] Existing Instance fieldsEqual.
#[local] Existing Instance plainConfigRange.
#[local] Existing Instance plainCheckpointRange.
#[local] Existing Instance canonicalRange.
#[local] Existing Instance unitSize.
#[local] Existing Instance plainEpochRange.

Definition plainOrders : CheckpointOrders := {| checkpointOrder := map_to_list; valueOrder := map_to_list |}.
#[local] Existing Instance plainOrders.

(** A machine of node 2 that loaded the log of a new network. *)
Definition startEvents : list Event :=
  [ Event_Initialize restartParams;
    Event_LoadPersistedEntry 0 (Persistent_CEntry (mkCEntry 0 (Some [1]) restartState));
    Event_LoadPersistedEntry 1 (Persistent_FEntry (mkFEntry (mkEpochConfig 0 [0; 1; 2; 3] 0)));
    Event_CompleteInitialization ].
Definition noParts : parts :=
  mkParts restartParams (restartWorld []) (newNodeBuffers restartParams) (newCheckpointTracker (newNodeBuffers restartParams) restartParams) restartTracker.
Definition partsAfter (r : outcome (StateMachine * ActionList)) : parts :=
  match r with Ok (sm, _) => default noParts (sm_parts sm) | _ => noParts end.
Definition actionsAfter (r : outcome (StateMachine * ActionList)) : ActionList := match r with Ok (_, acts) => acts | _ => [] end.
Definition startParts : parts := partsAfter (runEvents 10 emptyStateMachine startEvents).

(** The machine once the first two batches are committed. *)
Definition batchNo (n : Z) : QEntry := mkQEntry n (Some [n]) [].
Definition committedState : outcome commitState := cs ← commitState_commit (csOf startParts) (batchNo 1); commitState_commit cs (batchNo 2).
Definition committedParts : parts :=
  startParts <| pt_world ::= fun w => setCommitState w (match committedState with Ok cs => cs | _ => newCommitState end) |>.
Definition someEvents : list Event := [Event_TickElapsed; Event_RequestPersisted (mkAck 9 0 (Some [4])); Event_Step 1 (Msg_Suspect (mkSuspect 1))].
Definition ran : outcome (StateMachine * ActionList) := runEvents 10 (mkStateMachine smInitialized (Some committedParts)) someEvents.

(** An empty window. *)
Lemma emptyWindow_inv (ns : NetworkState) (low : Z) :
  let ci := ciOf ns in 0 < ci -> 0 <= low -> low + 2 * ci + 1 < 2 ^ 64 ->
  csInv (mkCommitState ∅ low low low (low + 2 * ci) ns (replicate (Z.to_nat ci) None) (replicate (Z.to_nat ci) None) false false).
Proof.
  intros ci Hci Hlow Hov. split; [split | | |]; cbn; fold ci; unfold windowEnd; cbn; fold ci; rewrite ?length_replicate; try lia; try done.
  intros s q _. unfold slotAt. cbn. fold ci. intros H. destruct (ci <=? s - low - 1).
  - destruct (replicate (Z.to_nat ci) None !! Z.to_nat (s - low - 1 - ci)) as [x |] eqn:E; [| done]. by apply lookup_replicate in E as [-> _].
  - destruct (replicate (Z.to_nat ci) None !! Z.to_nat (s - low - 1)) as [x |] eqn:E; [| done]. by apply lookup_replicate in E as [-> _].
Qed.

Lemma startParts_inv : csInv (csOf startParts).
Proof.
  assert (Hcs : csOf startParts = mkCommitState ∅ 0 0 0 10 restartState (replicate 5 None) (replicate 5 None) false false) by (vm_compute; reflexivity).
  rewrite Hcs. apply (emptyWindow_inv restartState 0); vm_compute; (reflexivity || discriminate).
Qed.

Definition committedOnce : commitState := match commitState_commit (csOf startParts) (batchNo 1) with Ok cs => cs | _ => newCommitState end.

Lemma committedParts_inv : csInv (csOf committedParts).
Proof.
  assert (H1 : commitState_commit (csOf startParts) (batchNo 1) = Ok committedOnce) by (vm_compute; reflexivity).
  assert (H2 : commitState_commit committedOnce (batchNo 2) = Ok (csOf committedParts)) by (vm_compute; reflexivity).
  exact (proj1 (commit_inv _ _ _ (proj1 (commit_inv _ _ _ startParts_inv H1)) H2)).
Qed.

Lemma batches_delivered_in_order_witness :
  q_SeqNo <$> deliveries (actionsAfter ran) = [1; 2] /\ csInv (csOf (partsAfter ran)).
Proof.
  assert (Hrun : runEvents 10 (mkStateMachine smInitialized (Some committedParts)) someEvents
      = Ok (mkStateMachine smInitialized (Some (partsAfter ran)), actionsAfter ran)) by (vm_compute; reflexivity).
  assert (Hv : validRun 10 (mkStateMachine smInitialized (Some committedParts)) someEvents) by (repeat split).
  assert (Hlast : cs_lastAppliedCommit (csOf committedParts) = 0 /\ cs_lastAppliedCommit (csOf (partsAfter ran)) = 2) by (vm_compute; split; reflexivity).
  pose proof committedParts_inv as Hinv. revert Hrun Hv Hinv Hlast. generalize (partsAfter ran) (actionsAfter ran) committedParts. intros p acts c Hrun Hv Hinv [H0 H2].
  destruct (batches_delivered_in_order 10 c someEvents _ _ Hinv Hv Hrun) as (pt' & Hp & Hi & Hd).
  injection Hp as <-. split; [| exact Hi]. rewrite Hd, H0, H2. reflexivity.
Defined.


Lemma running_machine_never_truncates_wal_witness :
  Action_TruncateWriteAhead 0 ∉ actionsAfter (StateMachine_applyEvent 10 (mkStateMachine smInitialized (Some startParts)) Event_TickElapsed).
Proof.
  set (r := StateMachine_applyEvent _ _ _).
  assert (Hrun : r = Ok (mkStateMachine smInitialized (Some (partsAfter r)), actionsAfter r)) by (vm_compute; reflexivity).
  exact (running_machine_never_truncates_wal 10 startParts Event_TickElapsed _ _ 0 I Hrun).
Defined.
