(* ===== verification/ReqStore.v ===== *)
(** * Request store

    [pkg/reqstore/reqstore.go] and the [RequestStore] interface of
    [client_processor.go] it implements.  The key-value database (badger) is
    not part of the repository: it is a [KVStore], whose documented behaviour
    (a transaction takes effect or fails without one) is [KVLaws]. *)
From stdpp Require Import pretty.
From S2P Require Import Prelude Msgs.

(** ** The database *)

Inductive getResult :=
| Found (value : slice)     (* [txn.Get] and [item.ValueCopy(nil)] *)
| ErrKeyNotFound
| GetFailed (error : string).

(** A transaction returns the database after it and its error. *)
Class KVStore (DB : Type) := mkKVStore {
  kv_get : DB -> string -> getResult;
  kv_set : DB -> string -> slice -> DB * option string;
  kv_delete : DB -> string -> DB * option string;
  kv_sync : DB -> DB * option string;
}.

(** What the database holds under a key. *)
Class KVLaws (DB : Type) `{KVStore DB} := mkKVLaws {
  kv_at : DB -> string -> option bytes;
  kv_get_found : forall db k v, kv_get db k = Found v -> kv_at db k = Some (str v);
  kv_get_missing : forall db k, kv_get db k = ErrKeyNotFound -> kv_at db k = None;
  kv_set_done : forall db k v db', kv_set db k v = (db', None) ->
    forall k', kv_at db' k' = if decide (k' = k) then Some (str v) else kv_at db k';
  kv_set_failed : forall db k v db' error, kv_set db k v = (db', Some error) -> forall k', kv_at db' k' = kv_at db k';
  kv_delete_done : forall db k db', kv_delete db k = (db', None) ->
    forall k', kv_at db' k' = if decide (k' = k) then None else kv_at db k';
  kv_delete_failed : forall db k db' error, kv_delete db k = (db', Some error) -> forall k', kv_at db' k' = kv_at db k';
  kv_sync_keeps : forall db k', kv_at (kv_sync db).1 k' = kv_at db k';
}.

(** ** Keys *)

(** The verb [%x] of a byte slice. *)
Definition hexDigit (d : Z) : Ascii.ascii := default Ascii.zero (String.get (Z.to_nat d) "0123456789abcdef").
Fixpoint hex (b : bytes) : string :=
  match b with
  | [] => ""
  | x :: b' => String (hexDigit (x / 16)) (String (hexDigit (x mod 16)) (hex b'))
  end.

Definition reqKey (ack : RequestAck) : string :=
  "req-" +:+ pretty (ra_ClientId ack) +:+ "." +:+ pretty (ra_ReqNo ack) +:+ "." +:+ hex (str (ra_Digest ack)).
Definition allocKey (clientID reqNo : Z) : string := "alloc-" +:+ pretty clientID +:+ "." +:+ pretty reqNo.

(** ** Operations *)

Section Store.

Context `{KVStore DB}.

Definition Store_PutAllocation (db : DB) (clientID reqNo : Z) (digest : slice) : DB * option string :=
  kv_set db (allocKey clientID reqNo) digest.

(** A key that is not there is the nil slice, without an error. *)
Definition Store_GetAllocation (db : DB) (clientID reqNo : Z) : fallible slice :=
  match kv_get db (allocKey clientID reqNo) with
  | Found value => Returned value
  | ErrKeyNotFound => Returned None
  | GetFailed error => Failed error
  end.

Definition Store_PutRequest (db : DB) (requestAck : RequestAck) (data : slice) : DB * option string :=
  kv_set db (reqKey requestAck) data.

Definition Store_GetRequest (db : DB) (requestAck : RequestAck) : fallible slice :=
  match kv_get db (reqKey requestAck) with
  | Found value => Returned value
  | ErrKeyNotFound => Returned None
  | GetFailed error => Failed error
  end.

Definition Store_Commit (db : DB) (ack : RequestAck) : DB * option string := kv_delete db (reqKey ack).

Definition Store_Sync (db : DB) : DB * option string := kv_sync db.

End Store.

(** ** Specification *)

Definition isByte (x : Z) : Prop := 0 <= x < 256.
(** A digest is a sequence of bytes. *)
Definition goodAck (ack : RequestAck) : Prop := Forall isByte (str (ra_Digest ack)).
Definition ackKey (ack : RequestAck) : Z * Z * bytes := (ra_ClientId ack, ra_ReqNo ack, str (ra_Digest ack)).

(** Two maps: the digest allocated to a request number, and the data of a request. *)
Record storeMaps := mkStoreMaps {
  sm_allocations : gmap (Z * Z) bytes;
  sm_requests : gmap (Z * Z * bytes) bytes;
}.

Inductive storeOp :=
| PutAllocation (clientID reqNo : Z) (digest : slice)
| PutRequest (ack : RequestAck) (data : slice)
| CommitRequest (ack : RequestAck)
| SyncStore.

Definition runStoreOp `{KVStore DB} (db : DB) (op : storeOp) : DB * option string :=
  match op with
  | PutAllocation c r d => Store_PutAllocation db c r d
  | PutRequest ack data => Store_PutRequest db ack data
  | CommitRequest ack => Store_Commit db ack
  | SyncStore => Store_Sync db
  end.

(** An operation on the maps, which have no errors. *)
Definition specStoreOp (m : storeMaps) (op : storeOp) : storeMaps :=
  match op with
  | PutAllocation c r d => mkStoreMaps (<[(c, r) := str d]> (sm_allocations m)) (sm_requests m)
  | PutRequest ack data => mkStoreMaps (sm_allocations m) (<[ackKey ack := str data]> (sm_requests m))
  | CommitRequest ack => mkStoreMaps (sm_allocations m) (delete (ackKey ack) (sm_requests m))
  | SyncStore => m
  end.

Definition goodOp (op : storeOp) : Prop :=
  match op with PutRequest ack _ | CommitRequest ack => goodAck ack | _ => True end.

(** A sequence of operations: one that fails has no effect. *)
Fixpoint runStore `{KVStore DB} (db : DB) (m : storeMaps) (ops : list storeOp) : DB * storeMaps :=
  match ops with
  | [] => (db, m)
  | op :: ops' =>
    match runStoreOp db op with
    | (db, None) => runStore db (specStoreOp m op) ops'
    | (db, Some _) => runStore db m ops'
    end
  end.

Definition represents `{KVLaws DB} (db : DB) (m : storeMaps) : Prop :=
  (forall c r, kv_at db (allocKey c r) = sm_allocations m !! (c, r))
  /\ (forall ack, goodAck ack -> kv_at db (reqKey ack) = sm_requests m !! ackKey ack).

(** ** Lemmas *)

(** *** Keys *)

Fixpoint allChars (ok : Ascii.ascii -> bool) (s : string) : bool :=
  match s with "" => true | String c s' => ok c && allChars ok s' end.

Lemma allChars_app (ok : Ascii.ascii -> bool) (s t : string) : allChars ok s = true -> allChars ok t = true -> allChars ok (s +:+ t) = true.
Proof.
  induction s as [|c s IH]; intros Hs Ht; [done |]. change (String c s +:+ t) with (String c (s +:+ t)). cbn [allChars] in *.
  apply andb_true_iff in Hs as [-> Hs]. by apply IH.
Qed.

Lemma pretty_go_allChars (ok : Ascii.ascii -> bool) (x : N) (s : string) :
  allChars ok "0123456789" = true -> allChars ok s = true -> allChars ok (pretty_N_go x s) = true.
Proof.
  intros Hd. revert s. induction (N.lt_wf_0 x) as [x _ IH]; intros s Hs. assert (x = 0 \/ 0 < x)%N as [-> | Hx] by lia; [by rewrite pretty_N_go_0 |].
  rewrite pretty_N_go_step by done. apply IH; [apply N.div_lt; lia |]. cbn [allChars]. rewrite Hs, andb_true_r.
  cbn [allChars] in Hd. rewrite !andb_true_iff in Hd. unfold pretty_N_char. repeat case_match; tauto.
Qed.

Lemma pretty_allChars (ok : Ascii.ascii -> bool) (x : Z) : allChars ok "0123456789-" = true -> allChars ok (pretty x) = true.
Proof.
  intros Hd. assert (Hd' : allChars ok "0123456789" = true) by (cbn [allChars] in *; rewrite !andb_true_iff in *; tauto).
  assert (HN : forall n : N, allChars ok (pretty n) = true).
  { intros n. unfold pretty, pretty_N. case_decide; [| by apply pretty_go_allChars]. cbn [allChars] in *. rewrite !andb_true_iff in *. tauto. }
  destruct x as [|p|p]; [apply (HN 0%N) | apply (HN (Npos p)) |]. apply (allChars_app ok "-" _); [| apply (HN (Npos p))].
  cbn [allChars] in *. rewrite !andb_true_iff in *. tauto.
Qed.

Lemma hex_allChars (ok : Ascii.ascii -> bool) (b : bytes) : ok Ascii.zero = true -> allChars ok "0123456789abcdef" = true -> allChars ok (hex b) = true.
Proof.
  intros Hz Hd. assert (Hh : forall d, ok (hexDigit d) = true).
  { intros d. unfold hexDigit. generalize (Z.to_nat d). intros n. cbn [allChars] in Hd. rewrite !andb_true_iff in Hd.
    do 16 (destruct n as [|n]; [cbn; tauto |]). destruct n; exact Hz. }
  induction b as [|x b IH]; [done |]. cbn [hex allChars]. by rewrite !Hh, IH.
Qed.

Definition noDot (s : string) : bool := allChars (fun c => negb (bool_decide (c = Ascii.ascii_of_N 46))) s.

Lemma pretty_noDot (x : Z) : noDot (pretty x) = true.
Proof. by apply pretty_allChars. Qed.

Lemma dot_split (a1 a2 b1 b2 : string) :
  noDot a1 = true -> noDot a2 = true -> a1 +:+ "." +:+ b1 = a2 +:+ "." +:+ b2 -> a1 = a2 /\ b1 = b2.
Proof.
  revert a2. induction a1 as [|c a1 IH]; intros a2 H1 H2 H; destruct a2 as [|c2 a2].
  - by injection H.
  - injection H as <- _. discriminate H2.
  - injection H as -> _. discriminate H1.
  - injection H as <- H. unfold noDot in *. cbn [allChars] in *. apply andb_true_iff in H1 as [_ H1]. apply andb_true_iff in H2 as [_ H2]. destruct (IH a2 H1 H2) as [-> ->]; [done | done].
Qed.

Lemma hexDigit_inj (a b : Z) : 0 <= a < 16 -> 0 <= b < 16 -> hexDigit a = hexDigit b -> a = b.
Proof.
  intros Ha Hb.
  assert (H : forallb (fun x => forallb (fun y => implb (bool_decide (hexDigit x = hexDigit y)) (x =? y)) (seqZ 0 16)) (seqZ 0 16) = true)
    by (vm_compute; reflexivity).
  rewrite forallb_forall in H. specialize (H a). rewrite forallb_forall in H. intros He.
  assert (Hin : forall z, 0 <= z < 16 -> In z (seqZ 0 16)) by (intros z Hz; apply list_elem_of_In, elem_of_seqZ; lia).
  specialize (H (Hin a Ha) b (Hin b Hb)). rewrite bool_decide_true in H by done. by apply Z.eqb_eq.
Qed.

Lemma hex_inj (a b : bytes) : Forall isByte a -> Forall isByte b -> hex a = hex b -> a = b.
Proof.
  intros Ha. revert b. induction Ha as [|x a Hx _ IH]; intros b Hb H; destruct Hb as [|y b Hy Hb]; cbn in H; [done | done | done |].
  unfold isByte in *. injection H as H1 H2 H3. apply IH in H3 as ->; [| done]. f_equal.
  apply hexDigit_inj in H1; [| split; [apply Z.div_pos | apply Z.div_lt_upper_bound]; lia ..].
  apply hexDigit_inj in H2; [| apply Z.mod_pos_bound; lia ..]. rewrite (Z.div_mod x 16), (Z.div_mod y 16) by lia. lia.
Qed.

Lemma append_inj (p a b : string) : p +:+ a = p +:+ b -> a = b.
Proof. induction p as [|c p IH]; intros H; [done |]. injection H as H. by apply IH. Qed.

Lemma allocKey_inj (c1 r1 c2 r2 : Z) : allocKey c1 r1 = allocKey c2 r2 -> (c1, r1) = (c2, r2).
Proof.
  unfold allocKey. intros H%append_inj. apply dot_split in H as [H1%(inj pretty) H2%(inj pretty)]; [by subst | apply pretty_noDot ..].
Qed.

Lemma reqKey_inj (a1 a2 : RequestAck) : goodAck a1 -> goodAck a2 -> reqKey a1 = reqKey a2 -> ackKey a1 = ackKey a2.
Proof.
  unfold reqKey, ackKey. intros G1 G2 H%append_inj. apply dot_split in H as [H1%(inj pretty) H]; [| apply pretty_noDot ..].
  apply dot_split in H as [H2%(inj pretty) H3]; [| apply pretty_noDot ..]. apply hex_inj in H3; [| done | done]. by rewrite H1, H2, H3.
Qed.

Lemma ackKey_reqKey (a1 a2 : RequestAck) : ackKey a1 = ackKey a2 -> reqKey a1 = reqKey a2.
Proof. unfold ackKey, reqKey. by intros [= -> -> ->]. Qed.

Lemma keys_disjoint (ack : RequestAck) (c r : Z) : reqKey ack <> allocKey c r.
Proof. discriminate. Qed.

(** *** Refinement *)

Section StoreLemmas.

Context {DB : Type} {K : KVStore DB} {L : KVLaws DB}.

Lemma runStoreOp_represents (db db' : DB) (m : storeMaps) (op : storeOp) (error : option string) :
  goodOp op -> represents db m -> runStoreOp db op = (db', error) ->
  represents db' (if error then m else specStoreOp m op).
Proof.
  intros Hg [Ha Hr] H. destruct op as [c r d | ack data | ack |]; cbn in Hg, H; [| | |].
  - unfold Store_PutAllocation in H. destruct error as [e |]; [pose proof (kv_set_failed _ _ _ _ _ H) as Hv | pose proof (kv_set_done _ _ _ _ H) as Hv]; cbn.
    { split; [intros c' r' | intros ack']; rewrite Hv; auto. }
    split; cbn.
    + intros c' r'. rewrite Hv, lookup_insert. destruct (decide ((c, r) = (c', r'))) as [[= -> ->] | Hne]; [by rewrite decide_True |].
      rewrite decide_False; [apply Ha |]. intros Hk. by apply Hne, allocKey_inj.
    + intros ack' Hg'. rewrite Hv, decide_False by apply keys_disjoint. by apply Hr.
  - unfold Store_PutRequest in H. destruct error as [e |]; [pose proof (kv_set_failed _ _ _ _ _ H) as Hv | pose proof (kv_set_done _ _ _ _ H) as Hv]; cbn.
    { split; [intros c' r' | intros ack']; rewrite Hv; auto. }
    split; cbn.
    + intros c' r'. rewrite Hv, decide_False by (intros Hk; by apply (keys_disjoint ack c' r')). apply Ha.
    + intros ack' Hg'. rewrite Hv, lookup_insert. destruct (decide (ackKey ack = ackKey ack')) as [He | Hne].
      * rewrite decide_True; [done |]. by apply ackKey_reqKey.
      * rewrite decide_False; [by apply Hr |]. intros Hk. apply Hne. symmetry. by apply reqKey_inj.
  - unfold Store_Commit in H. destruct error as [e |]; [pose proof (kv_delete_failed _ _ _ _ H) as Hv | pose proof (kv_delete_done _ _ _ H) as Hv]; cbn.
    { split; [intros c' r' | intros ack']; rewrite Hv; auto. }
    split; cbn.
    + intros c' r'. rewrite Hv, decide_False by (intros Hk; by apply (keys_disjoint ack c' r')). apply Ha.
    + intros ack' Hg'. rewrite Hv, lookup_delete. destruct (decide (ackKey ack = ackKey ack')) as [He | Hne].
      * rewrite decide_True; [done |]. by apply ackKey_reqKey.
      * rewrite decide_False; [by apply Hr |]. intros Hk. apply Hne. symmetry. by apply reqKey_inj.
  - unfold Store_Sync in H. assert (Hs : forall k, kv_at db' k = kv_at db k) by (intros k; rewrite <- (kv_sync_keeps db k), H; done).
    destruct error; cbn; (split; [intros c' r' | intros ack']; rewrite Hs; auto).
Qed.

Lemma runStore_represents (ops : list storeOp) (db : DB) (m : storeMaps) :
  Forall goodOp ops -> represents db m -> represents (runStore db m ops).1 (runStore db m ops).2.
Proof.
  intros Hg. revert db m. induction Hg as [|op ops Hop _ IH]; intros db m Hr; cbn; [done |].
  destruct (runStoreOp db op) as [db' [e |]] eqn:H; apply IH; by apply (runStoreOp_represents _ _ _ _ _ Hop Hr) in H.
Qed.

(** ** Properties *)

(** C26: the request store is two maps.  After any sequence of its
    operations, whichever of them failed, a lookup that succeeds returns the
    digest last allocated to exactly that client and request number, or the
    data last stored for exactly that request and not since committed, and
    nil when there is none: no two entries share a key. *)
Theorem store_refines_maps (ops : list storeOp) (db db' : DB) (m m' : storeMaps) :
  Forall goodOp ops -> represents db m -> runStore db m ops = (db', m') ->
  (forall c r d, Store_GetAllocation db' c r = Returned d -> str d = default [] (sm_allocations m' !! (c, r))
     /\ (d <> None -> sm_allocations m' !! (c, r) <> None))
  /\ (forall ack d, goodAck ack -> Store_GetRequest db' ack = Returned d -> str d = default [] (sm_requests m' !! ackKey ack)
     /\ (d <> None -> sm_requests m' !! ackKey ack <> None)).
Proof.
  intros Hg Hr Hrun. pose proof (runStore_represents ops db m Hg Hr) as [Ha Hq]. rewrite Hrun in Ha, Hq. cbn in Ha, Hq. split.
  - intros c r d. unfold Store_GetAllocation. rewrite <- Ha. destruct (kv_get db' (allocKey c r)) as [v | | e] eqn:Hk; intros [= <-].
    + by rewrite (kv_get_found _ _ _ Hk).
    + by rewrite (kv_get_missing _ _ Hk).
  - intros ack d Hack. unfold Store_GetRequest. rewrite <- Hq by done. destruct (kv_get db' (reqKey ack)) as [v | | e] eqn:Hk; intros [= <-].
    + by rewrite (kv_get_found _ _ _ Hk).
    + by rewrite (kv_get_missing _ _ Hk).
Qed.

End StoreLemmas.

(** ** The interface of the client processor *)

Class RequestStore (S : Type) := mkRequestStore {
  GetAllocation : S -> Z -> Z -> fallible slice;
  rs_PutAllocation : S -> Z -> Z -> slice -> S * option string;
  GetRequest : S -> RequestAck -> fallible slice;
  rs_PutRequest : S -> RequestAck -> slice -> S * option string;
  rs_Sync : S -> S * option string;
}.

(** What the client processor relies on, in terms of the contents. *)
Class RequestStoreLaws (S : Type) `{RequestStore S} := mkRequestStoreLaws {
  allocated : S -> Z -> Z -> option bytes;
  stored : S -> RequestAck -> option bytes;
  allocation_read : forall s c r d, GetAllocation s c r = Returned (Some d) -> allocated s c r = Some d;
  request_read : forall s ack d, GetRequest s ack = Returned d -> stored s ack <> None -> stored s ack = Some (str d);
  allocation_put : forall s c r d s' error, rs_PutAllocation s c r d = (s', error) ->
    (forall c' r', allocated s' c' r' = if error then allocated s c' r' else if decide ((c', r') = (c, r)) then Some (str d) else allocated s c' r')
    /\ (forall ack, stored s' ack = stored s ack);
  request_put : forall s ack d s' error, goodAck ack -> rs_PutRequest s ack d = (s', error) ->
    (forall c' r', allocated s' c' r' = allocated s c' r')
    /\ (forall ack', goodAck ack' ->
          stored s' ack' = if error then stored s ack' else if decide (ackKey ack' = ackKey ack) then Some (str d) else stored s ack');
  sync_keeps : forall s, (forall c r, allocated (rs_Sync s).1 c r = allocated s c r) /\ (forall ack, stored (rs_Sync s).1 ack = stored s ack);
}.

#[export] Instance Store_RequestStore `{KVStore DB} : RequestStore DB := {|
  GetAllocation := Store_GetAllocation;
  rs_PutAllocation := Store_PutAllocation;
  GetRequest := Store_GetRequest;
  rs_PutRequest := Store_PutRequest;
  rs_Sync := Store_Sync;
|}.

(** The store keeps the promises of the interface. *)
#[export] Program Instance Store_laws `{KVLaws DB} : RequestStoreLaws DB := {|
  allocated := fun db c r => kv_at db (allocKey c r);
  stored := fun db ack => kv_at db (reqKey ack);
|}.
Next Obligation.
  intros DB K L db c r d. cbn. unfold Store_GetAllocation. destruct (kv_get _ _) eqn:Hk; intros [= ->]. by rewrite (kv_get_found _ _ _ Hk).
Qed.
Next Obligation.
  intros DB K L db ack d. cbn. unfold Store_GetRequest. destruct (kv_get _ _) eqn:Hk; intros [= <-] Hs.
  - by rewrite (kv_get_found _ _ _ Hk).
  - by rewrite (kv_get_missing _ _ Hk) in Hs.
Qed.
Next Obligation.
  intros DB K L db c r d db' [e |] H; cbn in *; unfold Store_PutAllocation in H.
  - pose proof (kv_set_failed _ _ _ _ _ H) as Hv. split; [intros c' r' | intros ack']; apply Hv.
  - pose proof (kv_set_done _ _ _ _ H) as Hv. split; [intros c' r' | intros ack']; rewrite Hv.
    + destruct (decide ((c', r') = (c, r))) as [[= -> ->] | Hne]; [by rewrite decide_True |].
      rewrite decide_False; [done |]. intros Hk. by apply Hne, allocKey_inj.
    + by rewrite decide_False by apply keys_disjoint.
Qed.
Next Obligation.
  intros DB K L db ack d db' [e |] Hg H; cbn in *; unfold Store_PutRequest in H.
  - pose proof (kv_set_failed _ _ _ _ _ H) as Hv. split; [intros c' r' | intros ack' _]; apply Hv.
  - pose proof (kv_set_done _ _ _ _ H) as Hv. split; [intros c' r' | intros ack' Hg']; rewrite Hv.
    + by rewrite decide_False by (intros Hk; by apply (keys_disjoint ack c' r')).
    + destruct (decide (ackKey ack' = ackKey ack)) as [He | Hne]; [by rewrite decide_True by (by apply ackKey_reqKey) |].
      rewrite decide_False; [done |]. intros Hk. by apply Hne, reqKey_inj.
Qed.
Next Obligation. intros DB K L db. cbn. unfold Store_Sync. split; intros; apply kv_sync_keeps. Qed.

(** ** Witnesses *)

(** A database in memory without errors. *)
#[export] Instance memoryKV : KVStore (gmap string bytes) := {|
  kv_get := fun db k => match db !! k with Some v => Found (Some v) | None => ErrKeyNotFound end;
  kv_set := fun db k v => (<[k := str v]> db, None);
  kv_delete := fun db k => (delete k db, None);
  kv_sync := fun db => (db, None);
|}.

#[export] Program Instance memoryKV_laws : KVLaws (gmap string bytes) := {| kv_at := fun db k => db !! k |}.
Next Obligation. intros db k v. cbn. destruct (db !! k); by intros [= <-]. Qed.
Next Obligation. intros db k. cbn. by destruct (db !! k). Qed.
Next Obligation. intros db k v db' [= <-] k'. rewrite lookup_insert. repeat case_decide; by subst. Qed.
Next Obligation. done. Qed.
Next Obligation. intros db k db' [= <-] k'. rewrite lookup_delete. repeat case_decide; by subst. Qed.
Next Obligation. done. Qed.
Next Obligation. done. Qed.

Definition someAck : RequestAck := mkAck 1 23 (Some [171]).
Definition someOps : list storeOp := [PutAllocation 12 3 (Some [1]); PutRequest someAck (Some [9]); PutAllocation 1 23 (Some [171])].

Lemma store_refines_maps_witness :
  Store_GetAllocation (runStore (∅ : gmap string bytes) (mkStoreMaps ∅ ∅) someOps).1 1 23 = Returned (Some [171])
  /\ [171] = default [] (sm_allocations (runStore (∅ : gmap string bytes) (mkStoreMaps ∅ ∅) someOps).2 !! (1, 23)).
Proof.
  split; [vm_compute; reflexivity |].
  destruct (runStore (∅ : gmap string bytes) (mkStoreMaps ∅ ∅) someOps) as [db m] eqn:Hrun.
  refine (proj1 (proj1 (store_refines_maps someOps ∅ db (mkStoreMaps ∅ ∅) m _ _ Hrun) 1 23 (Some [171]) _)).
  - repeat constructor; cbn; lia.
  - split; [intros c r | intros ack _]; cbn [kv_at memoryKV_laws sm_allocations sm_requests]; by rewrite !lookup_empty.
  - injection Hrun as <- _. vm_compute. reflexivity.
Defined.
