(* ===== verification/Status.v ===== *)
(** * Status reports

    [pkg/status/status.go] and the [status] methods of the components: the
    report a consumer requests from a running node, and the text [Pretty]
    makes of it.  The report is computed by the goroutine of the state
    machine, so a panic in it stops the node.

    Every loop over a Go map ends in a sort by a key that distinguishes the
    entries, or by the whole value; the sorted list does not depend on the
    order of the range, and the model sorts the entries of its own maps. *)
From stdpp Require Import pretty sorting.
From S2P Require Import Prelude Msgs Stateless EpochChange MsgBuffers ReqHeap Sequence CommitState ClientTracker Checkpoints Outstanding.
From S2P Require Import EpochActive Disseminator EpochTarget EpochTracker StateMachine ReqStore.

(** ** Data *)

(** The constants of the package, which the components convert their own
    states to. *)
Definition EpochPrepending : Z := 0.
Definition EpochPending : Z := 1.
Definition EpochVerifying : Z := 2.
Definition EpochFetching : Z := 3.
Definition EpochEchoing : Z := 4.
Definition EpochReadying : Z := 5.
Definition EpochReady : Z := 6.
Definition EpochInProgress : Z := 7.
Definition EpochDone : Z := 8.

Definition SequenceUninitialized : Z := 0.
Definition SequenceAllocated : Z := 1.
Definition SequencePendingRequests : Z := 2.
Definition SequenceReady : Z := 3.
Definition SequencePreprepared : Z := 4.
Definition SequencePrepared : Z := 5.
Definition SequenceCommitted : Z := 6.

Record BucketStatus := mkBucketStatus {
  bks_ID : Z;
  bks_Leader : bool;
  bks_Sequences : list Z;
}.

#[global] Instance eta_BucketStatus : Eta BucketStatus := mkEta (fun r => mkBucketStatus (bks_ID r) (bks_Leader r) (bks_Sequences r)).

Record CheckpointStatus := mkCheckpointStatus {
  cks_SeqNo : Z;
  cks_MaxAgreements : Z;
  cks_NetQuorum : bool;
  cks_LocalDecision : bool;
}.

Record EpochChangeMsgStatus := mkEpochChangeMsgStatus {
  ems_Digest : bytes;
  ems_Acks : list Z;
}.

Record EpochChangeStatus := mkEpochChangeStatus {
  ecs_Source : Z;
  ecs_Msgs : list EpochChangeMsgStatus;
}.

Record EpochTargetStatus := mkEpochTargetStatus {
  ets_Number : Z;
  ets_EpochChanges : list EpochChangeStatus;
  ets_Echos : list Z;
  ets_Readies : list Z;
  ets_Suspicions : list Z;
}.

Record EpochTrackerStatus := mkEpochTrackerStatus {
  eks_State : Z;
  eks_LastActiveEpoch : Z;
  eks_EpochTargets : list EpochTargetStatus;
}.

Record MsgBufferStatus := mkMsgBufferStatus {
  mbs_Component : string;
  mbs_Size : Z;
  mbs_Msgs : Z;
}.

Record NodeBufferStatus := mkNodeBufferStatus {
  nbs_ID : Z;
  nbs_Size : Z;
  nbs_Msgs : Z;
  nbs_MsgBuffers : list MsgBufferStatus;
}.

Record ClientTrackerStatus := mkClientTrackerStatus {
  cts_ClientID : Z;
  cts_LowWatermark : Z;
  cts_HighWatermark : Z;
  cts_Allocated : list Z;
}.

Record StateMachineStatus := mkStateMachineStatus {
  sms_NodeID : Z;
  sms_LowWatermark : Z;
  sms_HighWatermark : Z;
  sms_EpochTracker : option EpochTrackerStatus;
  sms_NodeBuffers : list NodeBufferStatus;
  sms_Buckets : list BucketStatus;
  sms_Checkpoints : list CheckpointStatus;
  sms_ClientWindows : list ClientTrackerStatus;
}.

(** ** Sorting *)

(** [sort.Slice] by a number. *)
Definition keyLe {A : Type} (key : A -> Z) (x y : A) : Prop := key x <= key y.
#[global] Instance keyLe_dec {A : Type} (key : A -> Z) : RelDecision (keyLe key).
Proof. intros x y. unfold keyLe. apply _. Defined.
Definition sortByKey {A : Type} (key : A -> Z) (l : list A) : list A := merge_sort (keyLe key) l.

(** By digest, as strings are compared. *)
Definition digestLe (x y : EpochChangeMsgStatus) : Prop := bytesCompare (ems_Digest x) (ems_Digest y) <> Gt.
#[global] Instance digestLe_dec : RelDecision digestLe.
Proof. intros x y. unfold digestLe. destruct (bytesCompare _ _); (right + left); congruence. Defined.

(** [Compare] of message buffers; the differences are machine integers. *)
Definition MsgBufferStatus_Compare (mb other : MsgBufferStatus) : Z :=
  if negb (mbs_Size mb =? mbs_Size other) then s64 (mbs_Size mb - mbs_Size other)
  else if negb (mbs_Msgs mb =? mbs_Msgs other) then s64 (mbs_Msgs mb - mbs_Msgs other)
  else match String.compare (mbs_Component mb) (mbs_Component other) with Lt => -1 | Eq => 0 | Gt => 1 end.

Definition bufferLe (x y : MsgBufferStatus) : Prop := MsgBufferStatus_Compare x y <= 0.
#[global] Instance bufferLe_dec : RelDecision bufferLe.
Proof. intros x y. unfold bufferLe. apply _. Defined.

(** ** Message buffers *)

Section Buffers.

Context `{Size : ProtoSize}.

Definition msgBuffer_status (mb : msgBuffer) : MsgBufferStatus :=
  mkMsgBufferStatus (mb_component mb) (foldl (fun n msg => s64 (n + protoSize msg)) 0 (mb_buffer mb)) (Z.of_nat (length (mb_buffer mb))).

(** The registered buffers are passed: the model keeps a node buffer inside
    the message buffer that uses it. *)
Definition nodeBuffer_status (nb : nodeBuffer) (msgBufs : list msgBuffer) : NodeBufferStatus :=
  let statuses := msgBuffer_status <$> msgBufs in
  mkNodeBufferStatus (nb_id nb) (nb_totalSize nb) (foldl (fun n mbs => n + mbs_Msgs mbs) 0 statuses) (merge_sort bufferLe statuses).

Definition nodeBuffers_status (registered : nodeBuffer -> list msgBuffer) (nbs : nodeBuffers) : list NodeBufferStatus :=
  sortByKey nbs_ID ((fun e => nodeBuffer_status e.2 (registered e.2)) <$> map_to_list (nbs_nodeMap nbs)).

End Buffers.

(** ** Checkpoints *)

Definition checkpoint_status (cw : checkpoint) : CheckpointStatus :=
  mkCheckpointStatus (cp_seqNo cw)
    (foldl (fun maxAgreements e => if maxAgreements <? Z.of_nat (length e.2) then Z.of_nat (length e.2) else maxAgreements) 0
       (map_to_list (cp_values cw)))
    (notNil (cp_committedValue cw)) (notNil (cp_myValue cw)).

Definition checkpointTracker_status (ct : checkpointTracker) : outcome (list CheckpointStatus) :=
  result ← forRange (fun (e : Z * Z) result =>
      cw ← loadCheckpoint ct e.2;
      Ok (result ++ [checkpoint_status cw]))
    (map_to_list (cpt_checkpointMap ct)) [];
  Ok (sortByKey cks_SeqNo result).

(** ** Epoch changes, targets and the tracker *)

Definition epochChange_status (ec : epochChange) (source : Z) : EpochChangeStatus :=
  mkEpochChangeStatus source (merge_sort digestLe
    ((fun e => mkEpochChangeMsgStatus e.1 (sortByKey id (elements (pec_acks e.2)))) <$> map_to_list (ec_parsedByDigest ec))).

Definition votersOf (m : configVotes) : list Z := sortByKey id (concat ((fun e => elements e.2) <$> m)).

(** The number is set by the caller. *)
Definition epochTarget_status (et : epochTarget) : EpochTargetStatus :=
  mkEpochTargetStatus 0
    (sortByKey ecs_Source ((fun e => epochChange_status e.2 e.1) <$> map_to_list (et_changes et)))
    (votersOf (et_echos et)) (votersOf (et_readies et)) (sortByKey id (elements (et_suspicions et))).

(** The targets are those of the map [targets], which is never written. *)
Definition epochTracker_status (targets : gmap Z epochTarget) (etr : epochTracker) : outcome EpochTrackerStatus :=
  et ← deref (etr_currentEpoch etr) "nil pointer dereference: currentEpoch";
  Ok (mkEpochTrackerStatus (epochTargetState_iota (et_state et)) (et_number et)
        (sortByKey ets_Number ((fun e => let ts := epochTarget_status e.2 in
             mkEpochTargetStatus e.1 (ets_EpochChanges ts) (ets_Echos ts) (ets_Readies ts) (ets_Suspicions ts)) <$> map_to_list targets))).

(** ** Client windows *)

(** The loop over the request numbers: [allocated] and [lastNonZero]. *)
Fixpoint clientSlots (h : reqHeap) (els : list loc) (i lastNonZero : nat) (allocated : list Z) : outcome (list Z * nat) :=
  match els with
  | [] => Ok (allocated, lastNonZero)
  | el :: els' =>
    crn ← loadReqNo h el;
    if crn_committed crn then clientSlots h els' (S i) i (allocated ++ [2])
    else if bool_decide (crn_requests crn <> ∅) then clientSlots h els' (S i) i (allocated ++ [1])
    else clientSlots h els' (S i) lastNonZero (allocated ++ [0])
  end.

Definition client_status (h : reqHeap) (c : client) : outcome ClientTrackerStatus :=
  '(allocated, lastNonZero) ← clientSlots h (c_reqNoList c) 0 0 [];
  Ok (mkClientTrackerStatus (cl_Id (c_clientState c)) (cl_LowWatermark (c_clientState c)) (c_highWatermark c)
        (take lastNonZero allocated)).

(** ** Buckets *)

(** [buckets[bucket].Sequences[index] = state]. *)
Definition setSlot (buckets : list BucketStatus) (bucket index state : Z) : outcome (list BucketStatus) :=
  b ← sliceGet buckets bucket;
  sequences ← sliceSet (bks_Sequences b) index state;
  sliceSet buckets bucket (b <| bks_Sequences := sequences |>).

(** The values of a loop variable from [low] to [high], below the largest
    number of the type. *)
Definition upTo (low high : Z) : list Z := seqZ low (high - low + 1).

Definition sequenceSlot (e : activeEpoch) (low seqNo : Z) (buckets : list BucketStatus) : outcome (list BucketStatus) :=
  l ← activeEpoch_sequence e seqNo;
  seq ← loadSequence (ae_seqHeap e) l;
  bucket ← seqToBucket seqNo (ae_networkConfig e);
  if numBuckets e =? 0 then Panic "integer divide by zero"
  else setSlot buckets bucket (Z.quot (s64 (seqNo -! low)) (numBuckets e)) (Z.of_nat (sequenceState_iota (sq_state seq))).

Definition activeEpoch_status (cs : commitState) (e : activeEpoch) : outcome (list BucketStatus) :=
  match ae_sequences e with
  | [] => Ok []
  | first :: _ =>
    let buckets := (fun i => mkBucketStatus i (bucketOwner e i =? ip_Id (ae_myConfig e))
        (replicate (Z.to_nat (Z.of_nat (length (ae_sequences e)) * Z.of_nat (length first) / numBuckets e)) SequenceUninitialized))
      <$> seqZ 0 (numBuckets e) in
    low ← activeEpoch_lowWatermark e;
    high ← activeEpoch_highWatermark cs e;
    forRange (sequenceSlot e low) (upTo low high) buckets
  end.

(** The closure [setStatus] of [bucketStatus]. *)
Definition setStatus (nc : NetworkState_Config) (low state seqNo : Z) (bucketStatus : list BucketStatus) : outcome (list BucketStatus) :=
  bucket ← seqToBucket seqNo nc;
  let n := Z.of_nat (length bucketStatus) in
  if n =? 0 then Panic "integer divide by zero"
  else
    let column := Z.quot (s64 (seqNo -! low)) n in
    b ← sliceGet bucketStatus bucket;
    if Z.of_nat (length (bks_Sequences b)) <=? column then Ok bucketStatus
    else setSlot bucketStatus bucket column state.

(** The watermarks of a target without an active epoch. *)
Definition targetWatermarks (et : epochTarget) : Z * Z :=
  let width := u64 (s32 (2 * nc_CheckpointInterval (et_networkConfig et))) in
  match (if epochTargetState_iota (et_state et) <=? epochTargetState_iota etFetching then None else et_leaderNewEpoch et) with
  | None =>
    match et_myEpochChange et with
    | Some ec => let low := pec_lowWatermark ec +! 1 in (low, low +! width -! 1)
    | None => (0, 0)
    end
  | Some ne => let low := ckp_SeqNo (nec_StartingCheckpoint (ne_NewConfig ne)) +! 1 in (low, low +! width -! 1)
  end.

(** The state shown for a sequence number of a target that is past fetching. *)
Definition targetSlot (cs : commitState) (et : epochTarget) (seqNo : Z) : Z :=
  if (seqNo <=? cs_highestCommit cs) || bool_decide (et_state et = etReady) then SequenceCommitted
  else match et_state et with
       | etReadying => SequencePrepared
       | etEchoing => SequencePreprepared
       | _ => SequenceUninitialized
       end.

Definition emptyBuckets (nc : NetworkState_Config) (low high : Z) : outcome (list BucketStatus) :=
  bucketStatus ← makeSlice (nc_NumberOfBuckets nc) ();
  forRange (fun i buckets =>
      sequences ← makeSlice (Z.quot (s64 (high -! low)) (nc_NumberOfBuckets nc) + 1) SequenceUninitialized;
      Ok (buckets ++ [mkBucketStatus i false sequences]))
    (seqZ 0 (Z.of_nat (length bucketStatus))) [].

Definition epochTarget_bucketStatus (cs : commitState) (et : epochTarget) : outcome (Z * Z * list BucketStatus) :=
  match (e ← et_activeEpoch et; if bool_decide (ae_sequences e = []) then None else Some e) with
  | Some e =>
    buckets ← activeEpoch_status cs e;
    low ← activeEpoch_lowWatermark e;
    high ← activeEpoch_highWatermark cs e;
    Ok (low, high, buckets)
  | None =>
    let nc := et_networkConfig et in
    let '(low, high) := targetWatermarks et in
    buckets ← emptyBuckets nc low high;
    if epochTargetState_iota (et_state et) <=? epochTargetState_iota etFetching then
      ec ← deref (et_myEpochChange et) "nil pointer dereference: myEpochChange";
      buckets ← forRange (setStatus nc low SequencePreprepared)
        (filter (fun seqNo => low <= seqNo) (map_to_list (pec_qSet ec)).*1) buckets;
      buckets ← forRange (setStatus nc low SequencePrepared)
        (filter (fun seqNo => low <= seqNo) (map_to_list (pec_pSet ec)).*1) buckets;
      buckets ← forRange (setStatus nc low SequenceCommitted) (upTo low (cs_highestCommit cs)) buckets;
      Ok (low, high, buckets)
    else
      buckets ← forRange (fun seqNo => setStatus nc low (targetSlot cs et seqNo) seqNo) (upTo low high) buckets;
      Ok (low, high, buckets)
  end.

(** ** The state machine *)

Definition emptyStatus : StateMachineStatus := mkStateMachineStatus 0 0 0 None [] [] [] [].

(** [nodeMap] is never written, so no node buffer is reported and no buffer is
    registered with one. *)
Definition StateMachine_Status `{ProtoSize} (sm : StateMachine) : outcome StateMachineStatus :=
  if negb (bool_decide (sm_state sm = smInitialized)) then Ok emptyStatus
  else
    pt ← partsOf sm;
    let w := pt_world pt in
    windows ← forRange (fun (cl : NetworkState_Client) windows =>
        c ← deref (chd_clients (w_disseminator w) !! cl_Id cl) "nil pointer dereference: client";
        window ← client_status (w_reqHeap w) c;
        Ok (windows ++ [window]))
      (ct_clientStates (sd_clientTracker (w_shared w))) [];
    et ← deref (etr_currentEpoch (pt_epochTracker pt)) "nil pointer dereference: currentEpoch";
    '(low, high, buckets) ← epochTarget_bucketStatus (w_commitState w) et;
    checkpoints ← checkpointTracker_status (pt_checkpointTracker pt);
    tracker ← epochTracker_status ∅ (pt_epochTracker pt);
    Ok (mkStateMachineStatus (ip_Id (pt_myConfig pt)) low high (Some tracker)
          (nodeBuffers_status (fun _ => []) (pt_nodeBuffers pt)) buckets checkpoints windows).

(** ** Display *)

Definition newline : string := String (Ascii.ascii_of_nat 10) EmptyString.
Definition concatText (l : list string) : string := foldr String.append EmptyString l.

(** The verbs [%v] of a slice of numbers, [%x] of a number, and [%nd] and
    [%-nd] with a width. *)
Definition numbersText (l : list Z) : string :=
  "[" +:+ String.concat " " (pretty <$> l) +:+ "]".
Fixpoint hexNumberLoop (fuel : nat) (x : Z) (acc : string) : string :=
  match fuel with
  | O => acc
  | S fuel' =>
    let acc := String (hexDigit (x mod 16)) acc in
    if x <? 16 then acc else hexNumberLoop fuel' (x / 16) acc
  end.
Definition hexNumber (x : Z) : string := hexNumberLoop 16 x EmptyString.
Definition spaces (n : nat) : string := concatText (replicate n " "%string).
Definition padLeft (width : nat) (s : string) : string := spaces (width - String.length s) +:+ s.
Definition padRight (width : nat) (s : string) : string := s +:+ spaces (width - String.length s).

(** The values of [seqNo] in the loops over the columns.  The window has at
    most 10001 numbers; a step of zero never ends. *)
Fixpoint columnsLoop (fuel : nat) (seqNo high step : Z) : outcome (list Z) :=
  match fuel with
  | O => OutOfFuel
  | S fuel' =>
    if high <? seqNo then Ok []
    else rest ← columnsLoop fuel' (seqNo +! step) high step; Ok (seqNo :: rest)
  end.
Definition columns (s : StateMachineStatus) : outcome (list Z) :=
  columnsLoop 10002 (sms_LowWatermark s) (sms_HighWatermark s) (Z.of_nat (length (sms_Buckets s))).

Definition sequenceText (state : Z) : string :=
  if state =? SequenceUninitialized then "| "
  else if state =? SequenceAllocated then "|A"
  else if state =? SequencePendingRequests then "|F"
  else if state =? SequenceReady then "|R"
  else if state =? SequencePreprepared then "|Q"
  else if state =? SequencePrepared then "|P"
  else if state =? SequenceCommitted then "|C"
  else "".

Definition bucketText (b : BucketStatus) : string :=
  concatText (sequenceText <$> bks_Sequences b) +:+ "| Bucket=" +:+ pretty (bks_ID b)
  +:+ (if bks_Leader b then " (LocalLeader)" else "") +:+ newline.

(** A row of checkpoints: [column] is where a checkpoint belongs, [cell] what is shown there. *)
Fixpoint checkpointRow (column : CheckpointStatus -> outcome Z) (cell : CheckpointStatus -> string) (cols : list Z) (checkpoints : list CheckpointStatus)
    : outcome string :=
  match cols with
  | [] => Ok EmptyString
  | seqNo :: cols' =>
    match checkpoints with
    | [] => rest ← checkpointRow column cell cols' []; Ok ("| " +:+ rest)
    | checkpoint :: checkpoints' =>
      at_ ← column checkpoint;
      if seqNo =? at_ then rest ← checkpointRow column cell cols' checkpoints'; Ok (cell checkpoint +:+ rest)
      else rest ← checkpointRow column cell cols' checkpoints; Ok ("| " +:+ rest)
    end
  end.

Definition decisionText (c : CheckpointStatus) : string :=
  match cks_NetQuorum c, cks_LocalDecision c with
  | true, false => "|N"
  | true, true => "|G"
  | false, true => "|M"
  | false, false => "|P"
  end.

Definition targetText (et : EpochTargetStatus) : string :=
  "Target Epoch " +:+ pretty (ets_Number et) +:+ ":" +:+ newline +:+ "  EpochChanges:" +:+ newline
  +:+ concatText ((fun ec => concatText ((fun ecm =>
        "    Source=" +:+ pretty (ecs_Source ec) +:+ " Digest=" +:+ hex (take 4 (ems_Digest ecm)) +:+ " Acks=" +:+ numbersText (ems_Acks ecm)
        +:+ newline) <$> ecs_Msgs ec)) <$> ets_EpochChanges et)
  +:+ "  Echos: " +:+ numbersText (ets_Echos et) +:+ newline
  +:+ "  Readies: " +:+ numbersText (ets_Readies et) +:+ newline
  +:+ "  Suspicions: " +:+ numbersText (ets_Suspicions et) +:+ newline.

(** The head of the report, up to the watermarks. *)
Definition headText (s : StateMachineStatus) (tracker : EpochTrackerStatus) : string :=
  "===========================================" +:+ newline
  +:+ "NodeID=" +:+ pretty (sms_NodeID s) +:+ ", LowWatermark=" +:+ pretty (sms_LowWatermark s)
  +:+ ", HighWatermark=" +:+ pretty (sms_HighWatermark s) +:+ ", Epoch=" +:+ pretty (eks_LastActiveEpoch tracker) +:+ newline
  +:+ "===========================================" +:+ newline +:+ newline
  +:+ "=== Epoch Changer ===" +:+ newline
  +:+ "Change is in state: " +:+ pretty (eks_State tracker) +:+ ", last active epoch " +:+ pretty (eks_LastActiveEpoch tracker) +:+ newline
  +:+ concatText (targetText <$> eks_EpochTargets tracker)
  +:+ newline +:+ "=====================" +:+ newline +:+ newline.

(** One row of digits for each decimal place of the highest number. *)
Definition digitRow (cols : list Z) (i : nat) : string :=
  concatText ((fun seqNo => " " +:+ pretty (seqNo / 10 ^ (Z.of_nat i - 1) mod 10)) <$> cols) +:+ newline.

(** The table of buckets and checkpoints. *)
Definition tableText (s : StateMachineStatus) (cols : list Z) (hRule : string) : outcome string :=
  agreements ← checkpointRow (fun c => Ok (cks_SeqNo c)) (fun c => "|" +:+ pretty (cks_MaxAgreements c)) cols (sms_Checkpoints s);
  decisions ← checkpointRow (fun c => udiv (cks_SeqNo c) (Z.of_nat (length (sms_Buckets s)))) decisionText cols (sms_Checkpoints s);
  Ok (concatText (digitRow cols <$> reverse (seq 1 (String.length (pretty (sms_HighWatermark s)))))
      +:+ hRule +:+ "- === Buckets ===" +:+ newline
      +:+ concatText (bucketText <$> sms_Buckets s)
      +:+ hRule +:+ "- === Checkpoints ===" +:+ newline
      +:+ agreements +:+ "| Max Agreements" +:+ newline
      +:+ decisions +:+ "| Status" +:+ newline).

Definition nodeBufferText (nb : NodeBufferStatus) : string :=
  "- === Node " +:+ padLeft 3 (pretty (nbs_ID nb)) +:+ " buffers === " +:+ newline
  +:+ "  Bytes=" +:+ padRight 8 (pretty (nbs_Size nb)) +:+ ", Messages=" +:+ padRight 5 (pretty (nbs_Msgs nb)) +:+ newline
  +:+ concatText ((fun mb => "  -  Bytes=" +:+ padRight 8 (pretty (mbs_Size mb)) +:+ " Messages=" +:+ padRight 5 (pretty (mbs_Msgs mb))
        +:+ " Component=" +:+ mbs_Component mb) <$> nbs_MsgBuffers nb).

Definition StateMachineStatus_Pretty (s : StateMachineStatus) : outcome string :=
  tracker ← deref (sms_EpochTracker s) "nil pointer dereference: EpochTracker";
  let head := headText s tracker in
  if negb (sms_LowWatermark s =? sms_HighWatermark s) && (10000 <? sms_HighWatermark s -! sms_LowWatermark s) then
    Ok (head +:+ "=== Suspiciously wide watermarks [" +:+ pretty (sms_LowWatermark s) +:+ ", " +:+ pretty (sms_HighWatermark s) +:+ "] ===" +:+ newline)
  else
    cols ← columns s;
    let hRule := concatText ((fun _ => "--"%string) <$> cols) in
    table ← (if sms_LowWatermark s =? sms_HighWatermark s then Ok ("=== Empty Watermarks ===" +:+ newline) else tableText s cols hRule);
    Ok (head +:+ table
        +:+ hRule +:+ "-" +:+ newline
        +:+ newline +:+ newline +:+ " Request Windows" +:+ newline
        +:+ hRule
        +:+ concatText ((fun rws => newline +:+ "Client " +:+ hexNumber (cts_ClientID rws) +:+ " L/H " +:+ pretty (cts_LowWatermark rws) +:+ "/"
              +:+ pretty (cts_HighWatermark rws) +:+ " : " +:+ numbersText (cts_Allocated rws) +:+ newline +:+ hRule) <$> sms_ClientWindows s)
        +:+ newline +:+ newline +:+ " Message Buffers" +:+ newline
        +:+ hRule
        +:+ concatText (nodeBufferText <$> sms_NodeBuffers s)).

(** ** Lemmas: slots *)

Definition slotOf (buckets : list BucketStatus) (bucket index : nat) : option Z :=
  b ← buckets !! bucket; bks_Sequences b !! index.

(** The table of an epoch: one row for each bucket, all of the same width. *)
Definition tableOf (leader : Z -> bool) (n width : nat) (buckets : list BucketStatus) : Prop :=
  length buckets = n
  /\ forall i b, buckets !! i = Some b -> bks_ID b = Z.of_nat i /\ bks_Leader b = leader (Z.of_nat i) /\ length (bks_Sequences b) = width.

Lemma sliceSet_ok {A : Type} (l : list A) (i : Z) (x : A) : 0 <= i < Z.of_nat (length l) -> sliceSet l i x = Ok (<[Z.to_nat i := x]> l).
Proof. intros Hi. unfold sliceSet. destruct (Z.leb_spec 0 i); [| lia]. by destruct (Z.ltb_spec i (Z.of_nat (length l))); [| lia]. Qed.

Lemma setSlot_ok (leader : Z -> bool) (n width : nat) (buckets : list BucketStatus) (bucket index state : Z) :
  tableOf leader n width buckets -> 0 <= bucket < Z.of_nat n -> 0 <= index < Z.of_nat width ->
  exists buckets', setSlot buckets bucket index state = Ok buckets' /\ tableOf leader n width buckets'
    /\ slotOf buckets' (Z.to_nat bucket) (Z.to_nat index) = Some state
    /\ forall i j, (i, j) <> (Z.to_nat bucket, Z.to_nat index) -> slotOf buckets' i j = slotOf buckets i j.
Proof.
  intros [Hn Ht] Hb Hi. destruct (buckets !! Z.to_nat bucket) as [b |] eqn:Hl; [| apply lookup_ge_None in Hl; lia].
  destruct (Ht _ _ Hl) as (Hid & Hld & Hw). unfold setSlot.
  rewrite (proj2 (sliceGet_lookup _ _ b)), bind_ok by (split; [lia | done]).
  rewrite sliceSet_ok, bind_ok, sliceSet_ok by lia. eexists. split; [reflexivity |].
  assert (Hbl : (Z.to_nat bucket < length buckets)%nat) by lia. split; [split; [by rewrite length_insert |] |].
  - intros i b' Hi'. destruct (decide (i = Z.to_nat bucket)) as [-> | Hne].
    + rewrite list_lookup_insert_eq in Hi' by done. injection Hi' as <-. cbn. rewrite length_insert. auto.
    + rewrite list_lookup_insert_ne in Hi' by done. by apply Ht.
  - unfold slotOf. split; [rewrite list_lookup_insert_eq by done; cbn; rewrite list_lookup_insert_eq by lia; done |].
    intros i j Hne. destruct (decide (i = Z.to_nat bucket)) as [-> | Hne'].
    + rewrite list_lookup_insert_eq, Hl by done. cbn. rewrite list_lookup_insert_ne; [done |]. congruence.
    + by rewrite list_lookup_insert_ne by done.
Qed.

Lemma setSlot_outside (buckets : list BucketStatus) (bucket index state : Z) :
  (forall b, buckets !! Z.to_nat bucket = Some b -> Z.of_nat (length (bks_Sequences b)) <= index) ->
  0 <= bucket < Z.of_nat (length buckets) -> setSlot buckets bucket index state = Panic "index out of range".
Proof.
  intros Hw Hb. destruct (buckets !! Z.to_nat bucket) as [b |] eqn:Hl; [| apply lookup_ge_None in Hl; lia].
  unfold setSlot. rewrite (proj2 (sliceGet_lookup _ _ b)), bind_ok by (split; [lia | done]). specialize (Hw b eq_refl).
  unfold sliceSet. destruct (Z.ltb_spec index (Z.of_nat (length (bks_Sequences b)))); [lia |]. by rewrite andb_false_r.
Qed.

(** A loop over consecutive numbers. *)
Lemma forRange_seqZ {St : Type} (P : nat -> St -> Prop) (body : Z -> St -> outcome St) (low : Z) (n : nat) (st : St) :
  P 0%nat st -> (forall k st, (k < n)%nat -> P k st -> exists st', body (low + Z.of_nat k) st = Ok st' /\ P (S k) st') ->
  exists st', forRange body (seqZ low (Z.of_nat n)) st = Ok st' /\ P n st'.
Proof.
  intros H0 Hs. assert (Hm : forall m, (m <= n)%nat -> exists st', forRange body (seqZ low (Z.of_nat m)) st = Ok st' /\ P m st').
  { induction m as [|m IH]; intros Hm; [by exists st |]. destruct (IH ltac:(lia)) as (s1 & H1 & P1).
    rewrite seqZ_S, forRange_app, H1, bind_ok. cbn [forRange]. destruct (Hs m s1 ltac:(lia) P1) as (s2 & H2 & P2).
    exists s2. by rewrite H2, bind_ok. }
  by apply Hm.
Qed.

(** ** Lemmas: the buckets of an active epoch *)

Section ActiveEpoch.

Context (cs : commitState) (low : Z) (e : activeEpoch) (Hwf : sequences_wf low e).
Context (Hne : ae_sequences e <> []) (Hbuckets : numBuckets e = nc_NumberOfBuckets (ae_networkConfig e)).

Let n : nat := Z.to_nat (nc_NumberOfBuckets (ae_networkConfig e)).
Let total : nat := length (seqLocs e).
Let width : nat := (total / n)%nat.
Let leader (i : Z) : bool := bucketOwner e i =? ip_Id (ae_myConfig e).

(** The row and the column of the [k]-th sequence. *)
Definition rowOf (k : nat) : nat := Z.to_nat ((low + Z.of_nat k) mod nc_NumberOfBuckets (ae_networkConfig e)).
Definition columnOf (k : nat) : nat := (k / n)%nat.
Definition stateOf (k : nat) : option Z :=
  l ← seqLocs e !! k; s ← sh_seqs (ae_seqHeap e) !! l; Some (Z.of_nat (sequenceState_iota (sq_state s))).

Lemma total_pos : (0 < total)%nat.
Proof using Hwf Hne.
  unfold total. rewrite (seqLocs_length low e Hwf). pose proof (sw_ci _ _ Hwf). destruct (ae_sequences e); [done | cbn; nia].
Qed.

Lemma slots_distinct (j k : nat) : (rowOf j, columnOf j) = (rowOf k, columnOf k) -> j = k.
Proof using Hwf.
  pose proof (sw_buckets _ _ Hwf) as Hn. pose proof (sw_low _ _ Hwf) as Hl. unfold rowOf, columnOf, n. intros [= Hr Hc].
  set (N := nc_NumberOfBuckets (ae_networkConfig e)) in *.
  pose proof (Z.mod_pos_bound (low + Z.of_nat j) N ltac:(lia)). pose proof (Z.mod_pos_bound (low + Z.of_nat k) N ltac:(lia)).
  assert (Hm : (low + Z.of_nat j) mod N = (low + Z.of_nat k) mod N) by lia.
  assert (Hd : Z.of_nat j / N = Z.of_nat k / N).
  { rewrite <- (Z2Nat.id N) by lia. rewrite <- !Nat2Z.inj_div. by rewrite Hc. }
  assert (Hz : (Z.of_nat j - Z.of_nat k) mod N = 0).
  { replace (Z.of_nat j - Z.of_nat k) with ((low + Z.of_nat j) - (low + Z.of_nat k)) by lia.
    rewrite Zminus_mod, Hm, Z.sub_diag. apply Z.mod_0_l. lia. }
  apply Z.mod_divide in Hz as [q Hq]; [| lia].
  pose proof (Z.div_mod (Z.of_nat j) N ltac:(lia)) as Hj. pose proof (Z.div_mod (Z.of_nat k) N ltac:(lia)) as Hk.
  pose proof (Z.mod_pos_bound (Z.of_nat j) N ltac:(lia)). pose proof (Z.mod_pos_bound (Z.of_nat k) N ltac:(lia)).
  rewrite Hd in Hj. assert (q = 0) by nia. nia.
Qed.

Lemma rowOf_bound (k : nat) : 0 <= (low + Z.of_nat k) mod nc_NumberOfBuckets (ae_networkConfig e) < Z.of_nat n.
Proof using Hwf.
  pose proof (sw_buckets _ _ Hwf). unfold n. rewrite Z2Nat.id by lia. apply Z.mod_pos_bound. lia.
Qed.

(** One iteration is one write. *)
Lemma sequenceSlot_write (k : nat) (buckets : list BucketStatus) : (k < total)%nat ->
  exists state, stateOf k = Some state
    /\ sequenceSlot e low (low + Z.of_nat k) buckets
       = setSlot buckets ((low + Z.of_nat k) mod nc_NumberOfBuckets (ae_networkConfig e)) (Z.of_nat (columnOf k)) state.
Proof using Hwf Hbuckets.
  intros Hk. unfold total in Hk. pose proof (sw_buckets _ _ Hwf) as Hn. pose proof (sw_range _ _ Hwf). pose proof (sw_low _ _ Hwf).
  destruct (sequence_wf_lookup low e Hwf (low + Z.of_nat k) ltac:(lia)) as (l & Hl & Hloc).
  replace (Z.to_nat (low + Z.of_nat k - low)) with k in Hloc by lia. destruct (sw_seqs _ _ Hwf _ _ Hloc) as (s & Hs & _).
  assert (Hst : stateOf k = Some (Z.of_nat (sequenceState_iota (sq_state s)))) by (unfold stateOf; rewrite Hloc; cbn; by rewrite Hs).
  eexists. split; [exact Hst |].
  unfold sequenceSlot. rewrite Hl, bind_ok. unfold loadSequence. rewrite Hs. cbn [deref mbind outcome_bind].
  unfold seqToBucket. rewrite u64_small by lia. rewrite umod_pos, bind_ok by lia. rewrite Hbuckets.
  destruct (Z.eqb_spec (nc_NumberOfBuckets (ae_networkConfig e)) 0); [lia |]. f_equal. nowrap.
  replace (low + Z.of_nat k - low) with (Z.of_nat k) by lia.
  assert (Hs64 : s64 (Z.of_nat k) = Z.of_nat k) by (unfold s64; nowrap; destruct (Z.ltb_spec (Z.of_nat k) (2 ^ 63)); lia).
  rewrite Hs64, Z.quot_div_nonneg by lia. unfold columnOf, n. rewrite Nat2Z.inj_div. f_equal. lia.
Qed.

Definition startTable : list BucketStatus :=
  (fun i => mkBucketStatus i (leader i) (replicate width SequenceUninitialized)) <$> seqZ 0 (numBuckets e).

Lemma startTable_ok : tableOf leader n width startTable.
Proof using Hbuckets.
  unfold startTable. rewrite Hbuckets. split; [by rewrite length_fmap, length_seqZ |].
  intros i b Hi. rewrite list_lookup_fmap in Hi. destruct (seqZ 0 _ !! i) as [x |] eqn:Hx; [| done]. injection Hi as <-.
  apply lookup_seqZ in Hx as [-> _]. cbn. by rewrite length_replicate.
Qed.

(** The first iterations fill their slots, as long as the rows are long enough. *)
Lemma firstSlots (m : nat) : (m <= total)%nat -> (m <= width * n)%nat ->
  exists buckets, forRange (sequenceSlot e low) (seqZ low (Z.of_nat m)) startTable = Ok buckets /\ tableOf leader n width buckets
    /\ forall k, (k < m)%nat -> slotOf buckets (rowOf k) (columnOf k) = stateOf k.
Proof using Hwf Hbuckets.
  intros Hm Hr. pose proof (sw_buckets _ _ Hwf) as Hn.
  apply (forRange_seqZ (fun m buckets => tableOf leader n width buckets /\ forall k, (k < m)%nat -> slotOf buckets (rowOf k) (columnOf k) = stateOf k));
    [split; [exact startTable_ok | lia] |].
  intros k buckets Hk [Ht Hb]. destruct (sequenceSlot_write k buckets ltac:(lia)) as (state & Hst & ->).
  assert (Hc : (columnOf k < width)%nat) by (apply Nat.Div0.div_lt_upper_bound; nia).
  destruct (setSlot_ok leader n width buckets _ (Z.of_nat (columnOf k)) state Ht (rowOf_bound k) ltac:(lia)) as (buckets' & Hs & Ht' & Hw & Hk').
  exists buckets'. split; [done |]. split; [done |]. rewrite Nat2Z.id in Hw, Hk'. fold (rowOf k) in Hw, Hk'.
  intros j Hj. destruct (decide (j = k)) as [-> | Hjk]; [by rewrite Hw, Hst |].
  rewrite Hk'; [apply Hb; lia |]. intros E. by apply Hjk, slots_distinct.
Qed.

Lemma activeEpoch_status_loop : activeEpoch_status cs e = forRange (sequenceSlot e low) (seqZ low (Z.of_nat total)) startTable.
Proof using Hwf Hne Hbuckets.
  pose proof total_pos as Hp. assert (Hl : seqLocs e <> []) by (unfold total in Hp; by destruct (seqLocs e); [cbn in Hp; lia |]).
  pose proof (lowWatermark_wf low e Hwf Hl) as Hlow. pose proof (highWatermark_wf low e Hwf cs Hl) as Hhigh.
  pose proof (seqLocs_length low e Hwf) as Hlen. pose proof (intervals_length low e Hwf) as Hint. pose proof (sw_buckets _ _ Hwf) as Hn.
  unfold activeEpoch_status. destruct (ae_sequences e) as [|first rest] eqn:Hs; [done |]. rewrite Hlow, bind_ok, Hhigh, bind_ok.
  inversion Hint as [|? ? Hf _]; subst. unfold upTo, startTable, width. fold total in Hlen |- *.
  replace (low + Z.of_nat total - 1 - low + 1) with (Z.of_nat total) by lia. f_equal. apply list_fmap_ext. intros _ i _. f_equal. f_equal.
  rewrite Hf, <- Nat2Z.inj_mul, <- Hlen, Hbuckets. unfold n. rewrite <- (Z2Nat.id (nc_NumberOfBuckets _)) at 1 by lia.
  by rewrite <- Nat2Z.inj_div, Nat2Z.id.
Qed.

Lemma activeEpoch_status_ok : (total mod n = 0)%nat ->
  exists buckets, activeEpoch_status cs e = Ok buckets /\ tableOf leader n width buckets
    /\ forall k, (k < total)%nat -> slotOf buckets (rowOf k) (columnOf k) = stateOf k.
Proof using Hwf Hne Hbuckets.
  intros Hd. rewrite activeEpoch_status_loop. apply firstSlots; [done |]. pose proof (Nat.div_mod_eq total n). unfold width. nia.
Qed.

(** With rows of uneven length the write of the last column is out of range. *)
Lemma activeEpoch_status_uneven : (total mod n <> 0)%nat -> activeEpoch_status cs e = Panic "index out of range".
Proof using Hwf Hne Hbuckets.
  intros Hd. pose proof (sw_buckets _ _ Hwf) as Hn. pose proof (Nat.div_mod_eq total n) as Hdm. fold width in Hdm.
  assert (Hn0 : (0 < n)%nat) by (unfold n; lia).
  set (k := (width * n)%nat). assert (Hk : (k < total)%nat) by (unfold k; nia).
  destruct (firstSlots k ltac:(lia) ltac:(done)) as (buckets & Hf & Ht & _). rewrite activeEpoch_status_loop.
  replace (Z.of_nat total) with (Z.of_nat k + (1 + (Z.of_nat total - Z.of_nat k - 1))) by lia.
  rewrite seqZ_app, seqZ_app by lia. rewrite forRange_app, Hf, bind_ok. change (seqZ (low + Z.of_nat k) 1) with [low + Z.of_nat k].
  cbn [app forRange]. destruct (sequenceSlot_write k buckets Hk) as (state & _ & ->).
  rewrite setSlot_outside; [done | | rewrite (proj1 Ht); apply rowOf_bound].
  intros b Hb. rewrite (proj2 (proj2 (proj2 Ht _ _ Hb))). unfold columnOf, k. by rewrite Nat.div_mul by lia.
Qed.

End ActiveEpoch.

(** ** Lemmas: the buckets of a target *)

Lemma seqToBucket_range (nc : NetworkState_Config) (seqNo : Z) : 0 < nc_NumberOfBuckets nc < 2 ^ 31 ->
  seqToBucket seqNo nc = Ok (seqNo mod nc_NumberOfBuckets nc).
Proof. intros Hn. unfold seqToBucket. rewrite u64_small by lia. apply umod_pos. lia. Qed.

Lemma s64_small (x : Z) : 0 <= x < 2 ^ 63 -> s64 x = x.
Proof. intros Hx. unfold s64. nowrap. destruct (Z.ltb_spec x (2 ^ 63)); lia. Qed.

Lemma makeSlice_ok {A : Type} (n : Z) (x : A) : 0 <= n -> makeSlice n x = Ok (replicate (Z.to_nat n) x).
Proof. intros Hn. unfold makeSlice. by destruct (Z.ltb_spec n 0); [lia |]. Qed.

Section Target.

Context (nc : NetworkState_Config) (Hn : 0 < nc_NumberOfBuckets nc < 2 ^ 31).

Let n : nat := Z.to_nat (nc_NumberOfBuckets nc).
Let noLeader (i : Z) : bool := false.

Lemma emptyBuckets_ok (low high : Z) : 0 <= low <= high -> high < 2 ^ 63 ->
  exists width buckets, emptyBuckets nc low high = Ok buckets /\ tableOf noLeader n width buckets.
Proof using Hn.
  intros Hl Hh. unfold emptyBuckets. rewrite (makeSlice_ok (nc_NumberOfBuckets nc)), bind_ok, length_replicate by lia.
  set (width := Z.quot (s64 (high -! low)) (nc_NumberOfBuckets nc) + 1).
  assert (Hw : 0 <= width). { unfold width. rewrite sub64_small by lia. rewrite s64_small by lia. rewrite Z.quot_div_nonneg by lia. pose proof (Z.div_pos (high - low) (nc_NumberOfBuckets nc) ltac:(lia) ltac:(lia)). lia. }
  exists (Z.to_nat width). fold n. apply (forRange_seqZ (fun m buckets => tableOf noLeader m (Z.to_nat width) buckets)); [by split |].
  intros k buckets Hk [Hlen Ht]. rewrite makeSlice_ok, bind_ok by done. eexists. split; [reflexivity |].
  split; [rewrite length_app; cbn; lia |]. intros i b Hi. apply lookup_app_Some in Hi as [Hi | [Hge Hi]]; [by apply Ht |].
  apply list_lookup_singleton_Some in Hi as [Hi <-]. cbn. rewrite length_replicate. unfold noLeader. split_and!; [lia | done | done].
Qed.

Lemma setStatus_ok (width : nat) (low state seqNo : Z) (buckets : list BucketStatus) :
  tableOf noLeader n width buckets -> 0 <= low <= seqNo -> seqNo < 2 ^ 63 ->
  exists buckets', setStatus nc low state seqNo buckets = Ok buckets' /\ tableOf noLeader n width buckets'.
Proof using Hn.
  intros Ht Hl Hs. unfold setStatus. rewrite seqToBucket_range, bind_ok, (proj1 Ht) by done.
  destruct (Z.eqb_spec (Z.of_nat n) 0); [unfold n in *; lia |]. nowrap. rewrite s64_small by lia.
  set (b := seqNo mod nc_NumberOfBuckets nc). assert (Hb : 0 <= b < Z.of_nat n).
  { unfold n. rewrite Z2Nat.id by lia. apply Z.mod_pos_bound. lia. }
  destruct (buckets !! Z.to_nat b) as [row |] eqn:Hrow; [| apply lookup_ge_None in Hrow; rewrite (proj1 Ht) in Hrow; lia].
  rewrite (proj2 (sliceGet_lookup _ _ row)), bind_ok by (split; [lia | done]). rewrite (proj2 (proj2 (proj2 Ht _ _ Hrow))).
  pose proof (Z.quot_pos (seqNo - low) (Z.of_nat n) ltac:(lia) ltac:(lia)).
  destruct (Z.leb_spec (Z.of_nat width) (Z.quot (seqNo - low) (Z.of_nat n))); [by exists buckets |].
  destruct (setSlot_ok noLeader n width buckets b (Z.quot (seqNo - low) (Z.of_nat n)) state Ht Hb ltac:(lia)) as (buckets' & H1 & H2 & _). by exists buckets'.
Qed.

Lemma setStatus_all (width : nat) (low : Z) (state : Z -> Z) (seqNos : list Z) (buckets : list BucketStatus) :
  tableOf noLeader n width buckets -> 0 <= low -> Forall (fun seqNo => low <= seqNo < 2 ^ 63) seqNos ->
  exists buckets', forRange (fun seqNo => setStatus nc low (state seqNo) seqNo) seqNos buckets = Ok buckets' /\ tableOf noLeader n width buckets'.
Proof using Hn.
  intros Ht Hl Hs. revert buckets Ht. induction Hs as [|seqNo seqNos Hr _ IH]; intros buckets Ht; [by exists buckets |]. cbn [forRange].
  destruct (setStatus_ok width low (state seqNo) seqNo buckets Ht ltac:(lia) ltac:(lia)) as (b1 & -> & H1). rewrite bind_ok. by apply IH.
Qed.

Lemma setStatus_same (width : nat) (low state : Z) (seqNos : list Z) (buckets : list BucketStatus) :
  tableOf noLeader n width buckets -> 0 <= low -> Forall (fun seqNo => low <= seqNo < 2 ^ 63) seqNos ->
  exists buckets', forRange (setStatus nc low state) seqNos buckets = Ok buckets' /\ tableOf noLeader n width buckets'.
Proof using Hn. apply (setStatus_all width low (fun _ => state)). Qed.

End Target.

(** What a report relies on in the current epoch target. *)
Record target_reportable (cs : commitState) (et : epochTarget) : Prop := {
  tr_buckets : 0 < nc_NumberOfBuckets (et_networkConfig et) < 2 ^ 31;
  tr_ci : 0 < nc_CheckpointInterval (et_networkConfig et) < 2 ^ 30;
  tr_change : epochTargetState_iota (et_state et) <= epochTargetState_iota etFetching -> et_myEpochChange et <> None;
  tr_changeRange : forall ec, et_myEpochChange et = Some ec -> 0 <= pec_lowWatermark ec < 2 ^ 62
    /\ forall seqNo, is_Some (pec_qSet ec !! seqNo) \/ is_Some (pec_pSet ec !! seqNo) -> seqNo < 2 ^ 62;
  tr_leader : forall ne, et_leaderNewEpoch et = Some ne -> 0 <= ckp_SeqNo (nec_StartingCheckpoint (ne_NewConfig ne)) < 2 ^ 62;
  tr_commit : cs_highestCommit cs < 2 ^ 62;
  tr_epoch : forall e, et_activeEpoch et = Some e -> ae_sequences e <> [] ->
    exists low, sequences_wf low e /\ numBuckets e = nc_NumberOfBuckets (ae_networkConfig e)
      /\ (nc_NumberOfBuckets (ae_networkConfig e) | Z.of_nat (length (seqLocs e)));
}.

Lemma targetWatermarks_range (cs : commitState) (et : epochTarget) : target_reportable cs et ->
  0 <= (targetWatermarks et).1 <= (targetWatermarks et).2 /\ (targetWatermarks et).2 < 2 ^ 62 + 2 ^ 32.
Proof.
  intros []. unfold targetWatermarks.
  assert (Hw : u64 (s32 (2 * nc_CheckpointInterval (et_networkConfig et))) = 2 * nc_CheckpointInterval (et_networkConfig et)).
  { unfold s32, u32. rewrite Z.mod_small by lia. destruct (Z.ltb_spec (2 * nc_CheckpointInterval (et_networkConfig et)) (2 ^ 31)); [| lia]. by nowrap. }
  rewrite Hw.
  assert (Hc : forall start, 0 <= start < 2 ^ 62 ->
    0 <= start +! 1 <= start +! 1 +! 2 * nc_CheckpointInterval (et_networkConfig et) -! 1 /\
    start +! 1 +! 2 * nc_CheckpointInterval (et_networkConfig et) -! 1 < 2 ^ 62 + 2 ^ 32) by (intros start Hs; nowrap; lia).
  destruct (_ <=? _); [| destruct (et_leaderNewEpoch et) as [ne |]; [apply Hc, (tr_leader0 ne eq_refl) |]];
    (destruct (et_myEpochChange et) as [ec |]; [apply Hc, (tr_changeRange0 ec eq_refl) | cbn; lia]).
Qed.

Lemma epochTarget_bucketStatus_ok (cs : commitState) (et : epochTarget) : target_reportable cs et ->
  exists low high buckets, epochTarget_bucketStatus cs et = Ok (low, high, buckets)
    /\ 0 <= low <= high /\ high < 2 ^ 63 /\ buckets <> [] /\ Z.of_nat (length buckets) < 2 ^ 31.
Proof.
  intros Hr. pose proof (targetWatermarks_range cs et Hr) as Hw. destruct Hr as [Hn _ Hec Hrange _ Hcom Hep]. unfold epochTarget_bucketStatus.
  destruct (et_activeEpoch et ≫= _) as [e |] eqn:He.
  - destruct (et_activeEpoch et) as [e' |] eqn:Hact; [| done]. cbn in He. case_bool_decide as Hne; [done |]. injection He as ->.
    destruct (Hep e eq_refl Hne) as (low & Hwf & Hbk & [q Hq]). pose proof (total_pos low e Hwf Hne) as Htot.
    pose proof (sw_buckets _ _ Hwf) as Hnb. pose proof (sw_ci _ _ Hwf) as Hci. pose proof (sw_low _ _ Hwf). pose proof (sw_range _ _ Hwf).
    assert (Hl : seqLocs e <> []) by (by destruct (seqLocs e); [cbn in Htot; lia |]).
    destruct (activeEpoch_status_ok cs low e Hwf Hne Hbk) as (buckets & Hst & [Hlen _] & _).
    { apply Nat.Lcm0.mod_divide. exists (Z.to_nat q). nia. }
    rewrite Hst, bind_ok, (lowWatermark_wf low e Hwf Hl), bind_ok, (highWatermark_wf low e Hwf cs Hl), bind_ok.
    eexists _, _, _. split; [reflexivity |]. split_and!; [lia | lia | lia | | lia]. intros ->. cbn in Hlen. lia.
  - destruct (targetWatermarks et) as [low high]. cbn in Hw. destruct Hw as [Hlh Hh].
    destruct (emptyBuckets_ok _ Hn low high Hlh ltac:(lia)) as (width & b0 & -> & Ht0). rewrite bind_ok.
    assert (Hend : forall buckets, tableOf (fun _ => false) (Z.to_nat (nc_NumberOfBuckets (et_networkConfig et))) width buckets ->
      buckets <> [] /\ Z.of_nat (length buckets) < 2 ^ 31) by (intros buckets [Hlen _]; split; [intros -> ; cbn in Hlen |]; lia).
    assert (Hup : forall top, top < 2 ^ 63 -> Forall (fun seqNo => low <= seqNo < 2 ^ 63) (upTo low top)).
    { intros top Ht. apply Forall_forall. intros x Hx. apply elem_of_seqZ in Hx. lia. }
    destruct (Z.leb_spec (epochTargetState_iota (et_state et)) (epochTargetState_iota etFetching)) as [Hle | _].
    + destruct (et_myEpochChange et) as [ec |]; [| by destruct (Hec Hle)]. cbn [deref mbind outcome_bind].
      destruct (Hrange ec eq_refl) as [_ Hk].
      assert (Hkeys : forall l, (forall x, x ∈ l -> x < 2 ^ 62) -> Forall (fun seqNo => low <= seqNo < 2 ^ 63) (filter (fun seqNo => low <= seqNo) l)).
      { intros l Hx. apply Forall_forall. intros x Hin. apply list_elem_of_filter in Hin as [Hlo Hin]. specialize (Hx x Hin). lia. }
      destruct (setStatus_same _ Hn width low SequencePreprepared (filter (fun seqNo => low <= seqNo) (map_to_list (pec_qSet ec)).*1) b0 Ht0)
        as (b1 & -> & Ht1); [lia | apply Hkeys; intros x Hx; apply list_elem_of_fmap in Hx as ([k v] & -> & Hx); apply elem_of_map_to_list in Hx; apply Hk; cbn; rewrite Hx; eauto |]. rewrite bind_ok.
      destruct (setStatus_same _ Hn width low SequencePrepared (filter (fun seqNo => low <= seqNo) (map_to_list (pec_pSet ec)).*1) b1 Ht1)
        as (b2 & -> & Ht2); [lia | apply Hkeys; intros x Hx; apply list_elem_of_fmap in Hx as ([k v] & -> & Hx); apply elem_of_map_to_list in Hx; apply Hk; cbn; rewrite Hx; eauto |]. rewrite bind_ok.
      destruct (setStatus_same _ Hn width low SequenceCommitted (upTo low (cs_highestCommit cs)) b2 Ht2) as (b3 & -> & Ht3);
        [lia | apply Hup; lia |]. rewrite bind_ok. eexists _, _, _. split; [reflexivity |]. destruct (Hend b3 Ht3). auto with lia.
    + destruct (setStatus_all _ Hn width low (targetSlot cs et) (upTo low high) b0 Ht0) as (b1 & -> & Ht1); [lia | apply Hup; lia |].
      rewrite bind_ok. eexists _, _, _. split; [reflexivity |]. destruct (Hend b1 Ht1). auto with lia.
Qed.

(** ** Lemmas: clients and checkpoints *)

(** What is shown for a request number. *)
Definition slotText (crn : clientReqNo) : Z :=
  if crn_committed crn then 2 else if bool_decide (crn_requests crn <> ∅) then 1 else 0.

(** The last index of a list with a non-zero value, [d] if there is none. *)
Fixpoint lastNonZeroFrom (i d : nat) (l : list Z) : nat :=
  match l with
  | [] => d
  | x :: l' => lastNonZeroFrom (S i) (if x =? 0 then d else i) l'
  end.

Lemma lastNonZeroFrom_zeros (l : list Z) (i d : nat) : (forall k x, l !! k = Some x -> x = 0) -> lastNonZeroFrom i d l = d.
Proof.
  revert i. induction l as [|x l IH]; intros i Hz; [done |]. cbn [lastNonZeroFrom]. rewrite (Hz 0%nat x eq_refl). cbn. apply IH. intros k y Hk. by apply (Hz (S k) y).
Qed.

Lemma lastNonZeroFrom_shift (j : nat) (l : list Z) (x : Z) (i d : nat) :
  l !! j = Some x -> x <> 0 -> (forall k y, (j < k)%nat -> l !! k = Some y -> y = 0) -> lastNonZeroFrom i d l = (i + j)%nat.
Proof.
  revert l i d. induction j as [|j IH]; intros [|y l] i d Hj Hx Hz; try done; cbn [lastNonZeroFrom].
  - injection Hj as ->. destruct (Z.eqb_spec x 0); [done |]. rewrite lastNonZeroFrom_zeros; [lia |]. intros k z Hk. apply (Hz (S k)); [lia | done].
  - cbn in Hj. rewrite (IH l (S i)); [lia | done | done |]. intros k z Hk Hl. apply (Hz (S k)); [lia | done].
Qed.

Lemma lastNonZeroFrom_spec (j : nat) (l : list Z) (x : Z) :
  l !! j = Some x -> x <> 0 -> (forall k y, (j < k)%nat -> l !! k = Some y -> y = 0) -> lastNonZeroFrom 0 0 l = j.
Proof. apply lastNonZeroFrom_shift. Qed.

Lemma clientSlots_spec (h : reqHeap) (els : list loc) (crns : list clientReqNo) (i d : nat) (acc : list Z) :
  Forall2 (fun l crn => hp_reqNos h !! l = Some crn) els crns ->
  clientSlots h els i d acc = Ok (acc ++ (slotText <$> crns), lastNonZeroFrom i d (slotText <$> crns)).
Proof.
  intros Hf. revert i d acc. induction Hf as [|l crn els crns Hl _ IH]; intros i d acc; cbn [clientSlots fmap list_fmap lastNonZeroFrom]; [by rewrite app_nil_r |].
  unfold loadReqNo. rewrite Hl. cbn [deref mbind outcome_bind]. unfold slotText at 1 3.
  destruct (crn_committed crn); [| case_bool_decide]; rewrite IH, <- app_assoc; done.
Qed.

Lemma client_window (h : reqHeap) (id : Z) (nc : NetworkState_Config) (c : client) : client_wf h id nc c ->
  exists crns, Forall2 (fun l crn => hp_reqNos h !! l = Some crn) (c_reqNoList c) crns.
Proof.
  intros Hc. pose proof (cl_window _ _ _ _ Hc) as Hw. pose proof (cl_list _ _ _ _ Hc) as Hl.
  induction Hl as [|r l rs ls Hr _ (crns & IH)]; [by exists [] |]. destruct (proj2 (Hw r l Hr)) as (crn & Hcrn & _). exists (crn :: crns). by constructor.
Qed.

Lemma client_status_spec (h : reqHeap) (c : client) (crns : list clientReqNo) :
  Forall2 (fun l crn => hp_reqNos h !! l = Some crn) (c_reqNoList c) crns ->
  client_status h c = Ok (mkClientTrackerStatus (cl_Id (c_clientState c)) (cl_LowWatermark (c_clientState c)) (c_highWatermark c)
    (take (lastNonZeroFrom 0 0 (slotText <$> crns)) (slotText <$> crns))).
Proof. intros Hf. unfold client_status. by rewrite (clientSlots_spec h _ crns 0 0 [] Hf), bind_ok. Qed.

Lemma checkpointTracker_status_ok (ct : checkpointTracker) :
  (forall seqNo l, cpt_checkpointMap ct !! seqNo = Some l -> is_Some (cpt_heap ct !! l)) ->
  exists checkpoints, checkpointTracker_status ct = Ok checkpoints.
Proof.
  intros Hm. unfold checkpointTracker_status.
  destruct (forRange_total (fun (e : Z * Z) result => cw ← loadCheckpoint ct e.2; Ok (result ++ [checkpoint_status cw]))
    (fun e => is_Some (cpt_heap ct !! e.2)) (map_to_list (cpt_checkpointMap ct)) []) as (result & ->).
  - intros e st [cw Hcw]. unfold loadCheckpoint. rewrite Hcw. cbn. eauto.
  - apply Forall_forall. intros [s l] Hin. apply elem_of_map_to_list in Hin. exact (Hm s l Hin).
  - rewrite bind_ok. eauto.
Qed.

(** ** Lemmas: display *)

Lemma columnsLoop_ok (fuel : nat) (seqNo high step : Z) :
  0 < step < 2 ^ 31 -> 0 <= seqNo -> high < 2 ^ 63 -> seqNo <= high + step -> high - seqNo < (Z.of_nat fuel - 1) * step ->
  exists cols, columnsLoop fuel seqNo high step = Ok cols /\ Forall (fun c => seqNo <= c) cols.
Proof.
  intros Hstep. revert seqNo. induction fuel as [|fuel IH]; intros seqNo H0 Hh Hs Hf; [nia |]. cbn [columnsLoop].
  destruct (Z.ltb_spec high seqNo); [by exists [] |]. rewrite add64_small by lia.
  destruct (IH (seqNo + step)) as (cols & -> & Hc); [lia .. | nia |]. rewrite bind_ok. eexists. split; [reflexivity |].
  constructor; [lia |]. eapply Forall_impl; [exact Hc |]. cbn. lia.
Qed.

(** The window of a report: bounded, with at least one bucket. *)
Definition windowOk (s : StateMachineStatus) : Prop :=
  0 <= sms_LowWatermark s <= sms_HighWatermark s /\ sms_HighWatermark s < 2 ^ 63 /\ 0 < Z.of_nat (length (sms_Buckets s)) < 2 ^ 31.

Lemma columns_ok (s : StateMachineStatus) : windowOk s -> sms_HighWatermark s - sms_LowWatermark s <= 10000 ->
  exists cols, columns s = Ok cols /\ Forall (fun c => sms_LowWatermark s <= c) cols.
Proof. intros (Hl & Hh & Hn) Hw. apply columnsLoop_ok; try lia. change (Z.of_nat 10002 - 1) with 10001. nia. Qed.

Lemma narrow_window (s : StateMachineStatus) : windowOk s ->
  negb (sms_LowWatermark s =? sms_HighWatermark s) && (10000 <? sms_HighWatermark s -! sms_LowWatermark s) = false ->
  sms_HighWatermark s - sms_LowWatermark s <= 10000.
Proof.
  intros (Hl & Hh & _) Hwide. rewrite sub64_small in Hwide by lia.
  destruct (Z.eqb_spec (sms_LowWatermark s) (sms_HighWatermark s)); [lia |]. cbn in Hwide. apply Z.ltb_ge in Hwide. lia.
Qed.

Lemma checkpointRow_ok (column : CheckpointStatus -> outcome Z) (cell : CheckpointStatus -> string) (cols : list Z) (checkpoints : list CheckpointStatus) :
  (forall c, exists z, column c = Ok z) -> exists text, checkpointRow column cell cols checkpoints = Ok text.
Proof.
  intros Hc. revert checkpoints. induction cols as [|seqNo cols IH]; intros checkpoints; cbn [checkpointRow]; [eauto |].
  destruct checkpoints as [|c checkpoints]; [destruct (IH []) as [text ->]; cbn; eauto |]. destruct (Hc c) as [z ->]. rewrite bind_ok.
  destruct (seqNo =? z); [destruct (IH checkpoints) as [text ->] | destruct (IH (c :: checkpoints)) as [text ->]]; cbn; eauto.
Qed.

(** A first checkpoint that belongs to no column hides the others. *)
Lemma checkpointRow_stuck (column : CheckpointStatus -> outcome Z) (cell : CheckpointStatus -> string) (cols : list Z) (c : CheckpointStatus)
    (checkpoints : list CheckpointStatus) (z : Z) :
  column c = Ok z -> Forall (fun seqNo => z < seqNo) cols -> checkpointRow column cell cols (c :: checkpoints) = checkpointRow column cell cols [].
Proof.
  intros Hc Hf. induction Hf as [|seqNo cols Hlt _ IH]; [done |]. cbn [checkpointRow]. rewrite Hc, bind_ok.
  destruct (Z.eqb_spec seqNo z); [lia |]. by rewrite IH.
Qed.

Lemma tableText_ok (s : StateMachineStatus) (cols : list Z) (hRule : string) : windowOk s -> exists text, tableText s cols hRule = Ok text.
Proof.
  intros (_ & _ & Hn). unfold tableText.
  destruct (checkpointRow_ok (fun c => Ok (cks_SeqNo c)) (fun c => "|" +:+ pretty (cks_MaxAgreements c)) cols (sms_Checkpoints s)) as [t1 ->]; [eauto |].
  rewrite bind_ok.
  destruct (checkpointRow_ok (fun c => udiv (cks_SeqNo c) (Z.of_nat (length (sms_Buckets s)))) decisionText cols (sms_Checkpoints s)) as [t2 ->].
  - intros c. unfold udiv. destruct (Z.eqb_spec (Z.of_nat (length (sms_Buckets s))) 0); [lia | eauto].
  - rewrite bind_ok. eauto.
Qed.

Lemma Pretty_ok (s : StateMachineStatus) (tracker : EpochTrackerStatus) : sms_EpochTracker s = Some tracker -> windowOk s ->
  exists text, StateMachineStatus_Pretty s = Ok text.
Proof.
  intros Ht Hw. unfold StateMachineStatus_Pretty. rewrite Ht. cbn [deref]. rewrite bind_ok. destruct (_ && _) eqn:Hwide; [eauto |].
  destruct (columns_ok s Hw (narrow_window s Hw Hwide)) as (cols & -> & _).
  rewrite bind_ok. destruct (_ =? _).
  - rewrite bind_ok. eauto.
  - destruct (tableText_ok s cols (concatText ((fun _ => "--"%string) <$> cols)) Hw) as [table ->]. rewrite bind_ok. eauto.
Qed.

(** ** Properties *)

(** C36: the table of buckets shows every sequence of the active epoch.  If the
    number of buckets divides the number of sequences, as it does when the
    checkpoint interval is a multiple of it, the report has one row for each
    bucket, marked if this node leads it, and the state of the sequence with
    number [low + k] is in the row of its bucket and the column [k / buckets].
    If it does not, the write of the last column is out of range: the report
    panics, and with it the goroutine of the state machine. *)
Theorem bucket_report_shows_sequences (cs : commitState) (low : Z) (e : activeEpoch) :
  sequences_wf low e -> ae_sequences e <> [] -> numBuckets e = nc_NumberOfBuckets (ae_networkConfig e) ->
  ((nc_NumberOfBuckets (ae_networkConfig e) | Z.of_nat (length (seqLocs e))) ->
   exists buckets, activeEpoch_status cs e = Ok buckets
     /\ Z.of_nat (length buckets) = numBuckets e
     /\ (forall i b, buckets !! i = Some b -> bks_ID b = Z.of_nat i /\ bks_Leader b = (bucketOwner e (Z.of_nat i) =? ip_Id (ae_myConfig e)))
     /\ forall k l s, seqLocs e !! k = Some l -> sh_seqs (ae_seqHeap e) !! l = Some s ->
          slotOf buckets (Z.to_nat ((low + Z.of_nat k) mod numBuckets e)) (Z.to_nat (Z.of_nat k / numBuckets e))
          = Some (Z.of_nat (sequenceState_iota (sq_state s))))
  /\ (~ (nc_NumberOfBuckets (ae_networkConfig e) | Z.of_nat (length (seqLocs e))) -> activeEpoch_status cs e = Panic "index out of range").
Proof.
  intros Hwf Hne Hb. pose proof (sw_buckets _ _ Hwf) as Hn. split.
  - intros [q Hq]. rewrite Hb.
    destruct (activeEpoch_status_ok cs low e Hwf Hne Hb) as (buckets & Hst & [Hlen Ht] & Hs).
    { apply Nat.Lcm0.mod_divide. exists (Z.to_nat q). nia. }
    exists buckets. split_and!; [done | lia | intros i b Hi; split; apply (Ht i b Hi) |].
    intros k l s Hl Hs'. specialize (Hs k ltac:(by apply lookup_lt_Some in Hl)). unfold rowOf, columnOf, stateOf in Hs. rewrite Hl in Hs. cbn in Hs.
    rewrite Hs' in Hs. cbn in Hs. rewrite <- Hs. f_equal. rewrite Z2Nat.inj_div, Nat2Z.id by lia. done.
  - intros Hd. apply (activeEpoch_status_uneven cs low e Hwf Hne Hb). intros Hm. apply Hd. apply Nat.Lcm0.mod_divide in Hm as [q Hq].
    exists (Z.of_nat q). lia.
Qed.

(** What a report relies on in the components. *)
Record reportable (pt : parts) : Prop := {
  rp_disseminator : disseminator_wf (w_reqHeap (pt_world pt)) (w_disseminator (pt_world pt));
  rp_clients : forall cl, cl ∈ ct_clientStates (sd_clientTracker (w_shared (pt_world pt))) ->
    is_Some (chd_clients (w_disseminator (pt_world pt)) !! cl_Id cl);
  rp_checkpoints : forall seqNo l, cpt_checkpointMap (pt_checkpointTracker pt) !! seqNo = Some l -> is_Some (cpt_heap (pt_checkpointTracker pt) !! l);
  rp_current : exists et, etr_currentEpoch (pt_epochTracker pt) = Some et /\ target_reportable (w_commitState (pt_world pt)) et;
}.


(** The display never shows a checkpoint.  The first checkpoint of the
    report is the one the window starts after, and both rows look for it in the
    columns of the window before they turn to the next: whatever the
    checkpoints, the text is that of a report without any. *)
Theorem checkpoints_never_displayed (s : StateMachineStatus) (c : CheckpointStatus) (checkpoints : list CheckpointStatus) :
  windowOk s -> sms_Checkpoints s = c :: checkpoints -> 0 <= cks_SeqNo c < sms_LowWatermark s ->
  StateMachineStatus_Pretty s
  = StateMachineStatus_Pretty (mkStateMachineStatus (sms_NodeID s) (sms_LowWatermark s) (sms_HighWatermark s) (sms_EpochTracker s) (sms_NodeBuffers s)
      (sms_Buckets s) [] (sms_ClientWindows s)).
Proof.
  intros Hw Hc Hlow. unfold StateMachineStatus_Pretty. cbn [sms_EpochTracker sms_LowWatermark sms_HighWatermark sms_ClientWindows sms_NodeBuffers].
  destruct (sms_EpochTracker s) as [tracker |]; [| done]. cbn [deref]. rewrite !bind_ok. destruct (_ && _) eqn:Hwide; [done |].
  destruct (columns_ok s Hw (narrow_window s Hw Hwide)) as (cols & Hcols & Hge).
  replace (columns (mkStateMachineStatus _ _ _ _ _ _ _ _)) with (columns s) by done. rewrite Hcols, !bind_ok. destruct (_ =? _); [done |].
  unfold tableText. cbn [sms_Checkpoints sms_Buckets sms_HighWatermark]. rewrite Hc. destruct Hw as (_ & _ & Hn).
  rewrite (checkpointRow_stuck (fun c => Ok (cks_SeqNo c)) _ cols c checkpoints (cks_SeqNo c)); [| done | eapply Forall_impl; [exact Hge |]; cbn; lia].
  rewrite (checkpointRow_stuck (fun c => udiv (cks_SeqNo c) (Z.of_nat (length (sms_Buckets s)))) _ cols c checkpoints
    (cks_SeqNo c / Z.of_nat (length (sms_Buckets s)))); [done | |].
  - unfold udiv. destruct (Z.eqb_spec (Z.of_nat (length (sms_Buckets s))) 0); [lia | done].
  - eapply Forall_impl; [exact Hge |]. cbn. intros x Hx. pose proof (Z.div_le_upper_bound (cks_SeqNo c) (Z.of_nat (length (sms_Buckets s))) (cks_SeqNo c)). nia.
Qed.

(** The report of a client leaves out its last request.  The entry for the
    last request number that is allocated or committed is cut off: the list
    ends right before it. *)
Theorem client_report_misses_last (h : reqHeap) (id : Z) (nc : NetworkState_Config) (c : client) (j : nat) (l : loc) (crn : clientReqNo) :
  client_wf h id nc c ->
  c_reqNoList c !! j = Some l -> hp_reqNos h !! l = Some crn -> crn_requests crn <> ∅ ->
  (forall k l' crn', (j < k)%nat -> c_reqNoList c !! k = Some l' -> hp_reqNos h !! l' = Some crn' -> crn_requests crn' = ∅ /\ crn_committed crn' = false) ->
  exists w, client_status h c = Ok w /\ length (cts_Allocated w) = j.
Proof.
  intros Hwf Hj Hl Hreq Hlater. destruct (client_window h id nc c Hwf) as (crns & Hf).
  rewrite (client_status_spec h c crns Hf). eexists. split; [reflexivity |]. cbn.
  destruct (Forall2_lookup_l _ _ _ _ _ Hf Hj) as (crn' & Hj' & Hl'). rewrite Hl in Hl'. injection Hl' as <-.
  rewrite (lastNonZeroFrom_spec j (slotText <$> crns) (slotText crn)).
  - rewrite length_take, length_fmap. apply lookup_lt_Some in Hj'. lia.
  - by rewrite list_lookup_fmap, Hj'.
  - unfold slotText. destruct (crn_committed crn); [done |]. by rewrite bool_decide_true.
  - intros k x Hk Hx. rewrite list_lookup_fmap in Hx. destruct (crns !! k) as [crnk |] eqn:Hck; [| done]. injection Hx as <-.
    destruct (Forall2_lookup_r _ _ _ _ _ Hf Hck) as (lk & Hlk & Hlk'). destruct (Hlater k lk crnk Hk Hlk Hlk') as [Hr Hc]. unfold slotText.
    rewrite Hc. by rewrite bool_decide_false by auto.
Qed.

(** The states from [etResuming] on are reported as the constant after next:
    the package has no constant for it and the numbers are converted as they
    are. *)
Lemma epoch_state_misreported (targets : gmap Z epochTarget) (etr : epochTracker) (et : epochTarget) :
  etr_currentEpoch etr = Some et ->
  exists s, epochTracker_status targets etr = Ok s
    /\ (et_state et = etResuming -> eks_State s = EpochReady)
    /\ (et_state et = etReady -> eks_State s = EpochInProgress)
    /\ (et_state et = etInProgress -> eks_State s = EpochDone).
Proof. intros He. unfold epochTracker_status. rewrite He. cbn [deref]. rewrite bind_ok. eexists. split; [reflexivity |]. cbn. by split_and!; intros ->. Qed.

(** The report of a machine that is still loading cannot be displayed. *)
Lemma early_status_crashes_display `{ProtoSize} (sm : StateMachine) : sm_state sm <> smInitialized ->
  exists s why, StateMachine_Status sm = Ok s /\ StateMachineStatus_Pretty s = Panic why.
Proof. intros Hs. unfold StateMachine_Status. rewrite bool_decide_false by done. eexists _, _. by split. Qed.

(** ** Witnesses *)

Definition nthLoc (k : nat) : loc := default 0 (seqLocs votedEpoch.2 !! k).
Definition nthSeq (k : nat) : sequence := default sampleSequence (sh_seqs (ae_seqHeap votedEpoch.2) !! nthLoc k).

Lemma bucket_report_shows_sequences_witness :
  exists buckets, activeEpoch_status newCommitState votedEpoch.2 = Ok buckets
    /\ slotOf buckets 1 0 = Some SequencePrepared /\ slotOf buckets 0 0 = Some SequenceUninitialized.
Proof.
  destruct (bucket_report_shows_sequences newCommitState 1 votedEpoch.2 votedEpoch_wf) as [H _]; [vm_compute; discriminate | vm_compute; reflexivity |].
  destruct H as (buckets & Hst & _ & _ & Hs); [exists 5; vm_compute; reflexivity |]. exists buckets. split; [exact Hst |].
  assert (Hn : numBuckets votedEpoch.2 = 2) by (vm_compute; reflexivity). rewrite Hn in Hs. split.
  - etransitivity; [refine (Hs 0%nat (nthLoc 0) (nthSeq 0) _ _); vm_compute; reflexivity | vm_compute; reflexivity].
  - etransitivity; [refine (Hs 1%nat (nthLoc 1) (nthSeq 1) _ _); vm_compute; reflexivity | vm_compute; reflexivity].
Defined.

Lemma startParts_target : exists et, etr_currentEpoch (pt_epochTracker startParts) = Some et /\ target_reportable (w_commitState (pt_world startParts)) et.
Proof.
  destruct (etr_currentEpoch (pt_epochTracker startParts)) as [et |] eqn:He; [| vm_compute in He; discriminate].
  exists et. split; [done |]. vm_compute in He. injection He as <-. split.
  - cbn. lia.
  - cbn. lia.
  - cbn. discriminate.
  - cbn. intros ec [= <-]. cbn. split; [lia |]. intros seqNo [[? H] | [? H]]; vm_compute in H; by destruct seqNo.
  - cbn. discriminate.
  - vm_compute. reflexivity.
  - cbn. discriminate.
Qed.

Lemma startParts_reportable : reportable startParts.
Proof.
  assert (Hh : w_reqHeap (pt_world startParts) = emptyHeap) by (vm_compute; reflexivity).
  assert (Hc : chd_clients (w_disseminator (pt_world startParts)) = ∅) by (vm_compute; reflexivity).
  assert (Hs : ct_clientStates (sd_clientTracker (w_shared (pt_world startParts))) = []) by (vm_compute; reflexivity).
  split; [| | | exact startParts_target].
  - unfold disseminator_wf. rewrite Hh, Hc. split; [intros l _; split; apply lookup_empty |]. intros id c Hid. by rewrite lookup_empty in Hid.
  - rewrite Hs. intros cl Hin. exfalso. exact (not_elem_of_nil _ Hin).
  - assert (Hm : map_Forall (fun _ l => is_Some (cpt_heap (pt_checkpointTracker startParts) !! l)) (cpt_checkpointMap (pt_checkpointTracker startParts)))
      by (apply (bool_decide_unpack _); vm_compute; reflexivity). exact Hm.
Qed.

Definition startMachine : StateMachine := mkStateMachine smInitialized (Some startParts).
Definition startStatus : StateMachineStatus := match StateMachine_Status (H := unitSize) startMachine with Ok s => s | _ => emptyStatus end.


Lemma checkpoints_never_displayed_witness :
  length (sms_Checkpoints startStatus) = 3%nat
  /\ StateMachineStatus_Pretty startStatus
     = StateMachineStatus_Pretty (mkStateMachineStatus (sms_NodeID startStatus) (sms_LowWatermark startStatus) (sms_HighWatermark startStatus)
         (sms_EpochTracker startStatus) (sms_NodeBuffers startStatus) (sms_Buckets startStatus) [] (sms_ClientWindows startStatus)).
Proof.
  split; [vm_compute; reflexivity |].
  apply (checkpoints_never_displayed startStatus (mkCheckpointStatus 0 1 false true)
    [mkCheckpointStatus 5 0 false false; mkCheckpointStatus 10 0 false false]).
  - vm_compute. repeat split; discriminate || reflexivity.
  - vm_compute. reflexivity.
  - vm_compute. split; discriminate || reflexivity.
Defined.

Definition ackedLoc : loc := default 0 (c_reqNoList dissClient !! 0%nat).
Definition ackedReqNo : clientReqNo := default (mkClientReqNo dissParams (mkConfig [] 0 0 0 0) 0 0 0 ∅ ∅ ∅ ∅ ∅ false 0 0) (hp_reqNos dissAcked.1.1 !! ackedLoc).

Lemma dissClient_others : Forall (fun l => match hp_reqNos dissAcked.1.1 !! l with
    | Some crn => crn_requests crn = ∅ /\ crn_committed crn = false | None => True end) (drop 1 (c_reqNoList dissClient)).
Proof. apply Forall_fold_right. vm_compute. repeat split. Qed.

Lemma client_report_misses_last_witness :
  crn_requests ackedReqNo !! [9] <> None /\ exists w, client_status dissAcked.1.1 dissClient = Ok w /\ length (cts_Allocated w) = 0%nat.
Proof.
  split; [vm_compute; discriminate |].
  apply (client_report_misses_last dissAcked.1.1 7 (chd_networkConfig dissAcked.2) dissClient 0 ackedLoc ackedReqNo).
  - apply (dissReach_wf _ _ dissAcked_reached). vm_compute. reflexivity.
  - vm_compute. reflexivity.
  - vm_compute. reflexivity.
  - vm_compute. discriminate.
  - intros k l crn Hk Hl Hcrn. pose proof (proj1 (Forall_lookup _ _) dissClient_others (k - 1)%nat l) as Ho. rewrite lookup_drop, Hcrn in Ho.
    apply Ho. replace (1 + (k - 1))%nat with k by lia. exact Hl.
Defined.
