(* ===== verification/Processor.v ===== *)
(** * Processor

    [processor.go]: the consumer of the state machine's actions.  It hashes,
    writes the log, applies batches, takes snapshots and fetches states, then
    syncs the log, and only then sends the messages.  The log, the
    application and the network are interfaces of the consumer; the model
    records the calls made on them, in order, and takes their answers from a
    [Consumer], who may base them on all the calls so far. *)
From stdpp Require Import pretty.
From S2P Require Import Prelude Msgs Actions Stateless EpochChange NewEpochConfig Persisted MsgBuffers CommitState Checkpoints.
From S2P Require Import EpochActive Disseminator EpochTarget EpochTracker Commits StateMachine.

(** ** Interfaces *)

(** A call on [WAL], [App] or [Link]. *)
Inductive Effect :=
| WAL_Write (index : Z) (entry : Persistent)
| WAL_Truncate (index : Z)
| WAL_Sync
| App_Apply (batch : QEntry)
| App_Snap (networkConfig : NetworkState_Config) (clientsState : list NetworkState_Client)
| App_TransferTo (seqNo : Z) (snap : slice)
| Link_Send (dest : Z) (msg : Msg).

(** The answers: [callError] is the error of the calls that return only one
    ([Write], [Truncate], [Sync], [Apply]), and [hashSum] is the digest of the
    concatenation of what was written to the hash. *)
Class Consumer := mkConsumer {
  callError : list Effect -> Effect -> option string;
  snapResult : list Effect -> NetworkState_Config -> list NetworkState_Client -> fallible (slice * list Reconfiguration);
  transferResult : list Effect -> Z -> slice -> fallible NetworkState;
  hashSum : bytes -> bytes;
}.

(** ** Processing *)

(** [h := Hasher.New()], [h.Write] of every part, [h.Sum(nil)]. *)
Definition hashData `{Consumer} (data : list slice) : slice := Some (hashSum (foldl (fun h d => h ++ str d) [] data)).

(** The calls so far, and the events or the error. *)
Abbreviation processing := (list Effect * fallible EventList)%type.

(** A call that returns an error or nothing. *)
Definition callOn `{Consumer} (tr : list Effect) (e : Effect) (failure : string) (events : EventList) : processing :=
  (tr ++ [e], match callError tr e with Some error => Failed (failure +:+ ": " +:+ error) | None => Returned events end).

(** One iteration of the first loop. *)
Definition Processor_perform `{Consumer} (tr : list Effect) (events : EventList) (action : Action) : processing :=
  match action with
  | Action_Send _ _ => (tr, Returned events)
  | Action_Hash data origin => (tr, Returned (EventList_HashResult events (hashData data) origin))
  | Action_AppendWriteAhead index data => callOn tr (WAL_Write index data) ("failed to write entry to WAL at index " +:+ pretty index) events
  | Action_TruncateWriteAhead index => callOn tr (WAL_Truncate index) ("failed to truncate WAL to index " +:+ pretty index) events
  | Action_Commit batch => callOn tr (App_Apply batch) "app failed to commit" events
  | Action_Checkpoint cp =>
    (tr ++ [App_Snap (ac_NetworkConfig cp) (ac_ClientStates cp)],
     match snapResult tr (ac_NetworkConfig cp) (ac_ClientStates cp) with
     | Failed error => Failed ("app failed to generate snapshot: " +:+ error)
     | Returned (value, pendingReconf) => Returned (EventList_CheckpointResult events value pendingReconf cp)
     end)
  | Action_AllocatedRequest _ _ | Action_CorrectRequest _ | Action_ForwardRequest _ _ => (tr, Returned events)
  | Action_StateTransfer target =>
    (tr ++ [App_TransferTo (ast_SeqNo target) (ast_Value target)],
     match transferResult tr (ast_SeqNo target) (ast_Value target) with
     | Failed _ => Returned (EventList_StateTransferFailed events target)
     | Returned state => Returned (EventList_StateTransferComplete events state target)
     end)
  end.

Fixpoint performAll `{Consumer} (tr : list Effect) (events : EventList) (actions : ActionList) : processing :=
  match actions with
  | [] => (tr, Returned events)
  | action :: actions' =>
    match Processor_perform tr events action with
    | (tr, Failed error) => (tr, Failed error)
    | (tr, Returned events) => performAll tr events actions'
    end
  end.

(** One iteration of the second loop: messages to the node itself become events. *)
Definition Processor_transmit (nodeID : Z) (tr : list Effect) (events : EventList) (action : Action) : list Effect * EventList :=
  match action with
  | Action_Send targets msg =>
    foldl (fun st replica => if replica =? nodeID then (st.1, EventList_Step st.2 replica msg) else (st.1 ++ [Link_Send replica msg], st.2))
      (tr, events) targets
  | _ => (tr, events)
  end.

Definition Processor_Process `{Consumer} (nodeID : Z) (tr : list Effect) (actions : ActionList) : processing :=
  match performAll tr [] actions with
  | (tr, Failed error) => (tr, Failed error)
  | (tr, Returned events) =>
    match callOn tr WAL_Sync "failted to sync WAL" events with
    | (tr, Failed error) => (tr, Failed error)
    | (tr, Returned events) =>
      let '(tr, events) := foldl (fun st action => Processor_transmit nodeID st.1 st.2 action) (tr, events) actions in
      (tr, Returned events)
    end
  end.

(** ** Specification *)

(** The call an action of the first loop makes. *)
Definition effectOf (action : Action) : option Effect :=
  match action with
  | Action_AppendWriteAhead index data => Some (WAL_Write index data)
  | Action_TruncateWriteAhead index => Some (WAL_Truncate index)
  | Action_Commit batch => Some (App_Apply batch)
  | Action_Checkpoint cp => Some (App_Snap (ac_NetworkConfig cp) (ac_ClientStates cp))
  | Action_StateTransfer target => Some (App_TransferTo (ast_SeqNo target) (ast_Value target))
  | _ => None
  end.

(** The messages that leave the node, and the ones it sends to itself. *)
Definition sendsOf (nodeID : Z) (action : Action) : list Effect :=
  match action with
  | Action_Send targets msg => (fun r => Link_Send r msg) <$> filter (fun r => r <> nodeID) targets
  | _ => []
  end.
Definition stepsOf (nodeID : Z) (action : Action) : EventList :=
  match action with
  | Action_Send targets msg => (fun r => Event_Step r msg) <$> filter (fun r => r = nodeID) targets
  | _ => []
  end.

(** The actions that are answered by an event, and a possible answer. *)
Definition isQuestion (action : Action) : bool :=
  match action with Action_Hash _ _ | Action_Checkpoint _ | Action_StateTransfer _ => true | _ => false end.

Inductive answers `{Consumer} : Action -> Event -> Prop :=
| answer_hash data origin : answers (Action_Hash data origin) (Event_HashResult (Some (hashSum (concat (str <$> data)))) origin)
| answer_checkpoint cp value pending :
    answers (Action_Checkpoint cp)
      (Event_CheckpointResult (mkCheckpointResult (ac_SeqNo cp) value
         (mkNetworkState (ac_NetworkConfig cp) (ac_ClientStates cp) pending false) false))
| answer_transferred target state :
    answers (Action_StateTransfer target) (Event_StateTransferComplete (ast_SeqNo target) (ast_Value target) state)
| answer_failed target : answers (Action_StateTransfer target) (Event_StateTransferFailed (ast_SeqNo target) (ast_Value target)).

(** No message is sent while the log has changes that are not synced. *)
Fixpoint durableSends (dirty : bool) (tr : list Effect) : bool :=
  match tr with
  | [] => true
  | WAL_Write _ _ :: tr' | WAL_Truncate _ :: tr' => durableSends true tr'
  | WAL_Sync :: tr' => durableSends false tr'
  | Link_Send _ _ :: tr' => negb dirty && durableSends dirty tr'
  | _ :: tr' => durableSends dirty tr'
  end.

Definition isSend (e : Effect) : bool := match e with Link_Send _ _ => true | _ => false end.

(** The batches given to the application. *)
Definition appliedBatch (e : Effect) : option QEntry := match e with App_Apply q => Some q | _ => None end.

(** ** Lemmas *)

Section ProcessorLemmas.

Context `{C : Consumer}.

Lemma hashData_concat (data : list slice) : hashData data = Some (hashSum (concat (str <$> data))).
Proof.
  unfold hashData. do 2 f_equal. change (concat (str <$> data)) with ([] ++ concat (str <$> data)). generalize (@nil Z).
  induction data as [|d data IH]; intros acc; cbn; [by rewrite app_nil_r |]. rewrite IH. by rewrite <- app_assoc.
Qed.

(** One action: its call is made, and a question gets an answer. *)
Lemma perform_spec (tr tr' : list Effect) (events : EventList) (action : Action) (r : fallible EventList) :
  Processor_perform tr events action = (tr', r) ->
  tr' = tr ++ option_list (effectOf action)
  /\ (forall events', r = Returned events' -> exists more, events' = events ++ more
        /\ Forall2 answers (if isQuestion action then [action] else []) more).
Proof.
  intros H. destruct action; cbn in *; unfold callOn in H; repeat case_match; injection H as <- <-; rewrite ?app_nil_r; (split; [done |]);
    intros events' [= <-]; eauto using app_nil_r; try (exists []; by rewrite app_nil_r).
  all: eexists; split; [reflexivity |]; constructor; [| constructor]; rewrite ?hashData_concat; constructor.
Qed.

Lemma performAll_spec (actions : ActionList) (tr tr' : list Effect) (events : EventList) (r : fallible EventList) :
  performAll tr events actions = (tr', r) ->
  match r with
  | Failed _ => exists pre, prefix pre (omap effectOf actions) /\ tr' = tr ++ pre
  | Returned events' => tr' = tr ++ omap effectOf actions
      /\ exists more, events' = events ++ more /\ Forall2 answers (filter (fun a => isQuestion a = true) actions) more
  end.
Proof.
  revert tr events. induction actions as [|a actions IH]; intros tr events H; cbn [performAll] in H.
  { injection H as <- <-. split; [by rewrite app_nil_r |]. exists []. split; [by rewrite app_nil_r | constructor]. }
  destruct (Processor_perform tr events a) as [tr1 r1] eqn:Hp. apply perform_spec in Hp as [-> Hr].
  assert (Ho : omap effectOf (a :: actions) = option_list (effectOf a) ++ omap effectOf actions) by (cbn; by destruct (effectOf a)).
  rewrite Ho. destruct r1 as [events1 | error].
  - destruct (Hr events1 eq_refl) as (more & -> & Hm). apply IH in H. destruct r as [events' | error].
    + destruct H as (-> & more2 & -> & Hm2). split; [by rewrite <- app_assoc |]. exists (more ++ more2). split; [by rewrite <- app_assoc |].
      rewrite filter_cons. destruct (isQuestion a); [rewrite decide_True by done | rewrite decide_False by done].
      * rewrite <- (app_nil_l (filter _ _)), app_comm_cons. by apply Forall2_app.
      * rewrite <- (app_nil_l (filter _ _)). by apply Forall2_app.
    + destruct H as (pre & Hpre & ->). exists (option_list (effectOf a) ++ pre). split; [by apply prefix_app | by rewrite <- app_assoc].
  - injection H as <- <-. exists (option_list (effectOf a)). split; [by apply prefix_app_r | done].
Qed.

Lemma transmit_spec (nodeID : Z) (tr : list Effect) (events : EventList) (action : Action) :
  Processor_transmit nodeID tr events action = (tr ++ sendsOf nodeID action, events ++ stepsOf nodeID action).
Proof.
  destruct action; cbn [Processor_transmit sendsOf stepsOf]; try by rewrite !app_nil_r.
  revert tr events. induction targets as [|t targets IH]; intros tr events; cbn [foldl]; [by rewrite !app_nil_r |].
  rewrite !filter_cons. cbn [fst snd]. destruct (Z.eqb_spec t nodeID) as [-> | Hne].
  - rewrite IH, (decide_False (P := nodeID <> nodeID)), (decide_True (P := nodeID = nodeID)) by auto. cbn.
    unfold EventList_Step, EventList_PushBack. by rewrite <- app_assoc.
  - rewrite IH, (decide_True (P := t <> nodeID)), (decide_False (P := t = nodeID)) by done. cbn. by rewrite <- app_assoc.
Qed.

Lemma transmitAll_spec (nodeID : Z) (actions : ActionList) (tr : list Effect) (events : EventList) :
  foldl (fun st action => Processor_transmit nodeID st.1 st.2 action) (tr, events) actions
  = (tr ++ (actions ≫= sendsOf nodeID), events ++ (actions ≫= stepsOf nodeID)).
Proof.
  revert tr events. induction actions as [|a actions IH]; intros tr events; cbn [foldl]; [cbn; by rewrite !app_nil_r |].
  rewrite transmit_spec, IH. cbn. by rewrite <- !app_assoc.
Qed.

Lemma durableSends_app (dirty : bool) (a b : list Effect) :
  Forall (fun e => isSend e = false) a -> (forall d, durableSends d b = true) -> durableSends dirty (a ++ b) = true.
Proof.
  intros Ha Hb. revert dirty. induction Ha as [|e a He _ IH]; intros dirty; cbn [app]; [apply Hb |]. destruct e; cbn in *; auto. discriminate He.
Qed.

Lemma durableSends_sends (sends : list Effect) : Forall (fun e => isSend e = true) sends -> durableSends false sends = true.
Proof. induction 1 as [|e sends He _ IH]; [done |]. by destruct e. Qed.

Lemma effects_not_sends (actions : ActionList) : Forall (fun e => isSend e = false) (omap effectOf actions).
Proof.
  apply Forall_forall. intros e (a & _ & He)%list_elem_of_omap. by destruct a; inversion He.
Qed.

Lemma sends_are_sends (nodeID : Z) (actions : ActionList) : Forall (fun e => isSend e = true) (actions ≫= sendsOf nodeID).
Proof.
  apply Forall_forall. intros e (a & He & _)%list_elem_of_bind. destruct a; try by apply elem_of_nil in He.
  cbn in He. by apply list_elem_of_fmap in He as (r & -> & _).
Qed.

(** The calls of one run: the calls of the first loop, or some of them when
    one failed, and after a sync that succeeded the sends. *)
Lemma Process_calls (nodeID : Z) (tr tr' : list Effect) (actions : ActionList) (r : fallible EventList) :
  Processor_Process nodeID tr actions = (tr', r) ->
  match r with
  | Failed _ => exists pre, tr' = tr ++ pre /\ Forall (fun e => isSend e = false) pre
  | Returned _ => tr' = tr ++ omap effectOf actions ++ [WAL_Sync] ++ (actions ≫= sendsOf nodeID)
  end.
Proof.
  unfold Processor_Process. destruct (performAll tr [] actions) as [tr1 r1] eqn:Hp. apply performAll_spec in Hp.
  destruct r1 as [events | error].
  - destruct Hp as (-> & more & -> & Hm). unfold callOn. destruct (callError _ _) as [error |].
    + intros [= <- <-]. exists (omap effectOf actions ++ [WAL_Sync]). rewrite app_assoc. split; [done |].
      apply Forall_app. split; [apply effects_not_sends | by repeat constructor].
    + rewrite transmitAll_spec. intros [= <- <-]. by rewrite <- !app_assoc.
  - destruct Hp as (pre & [post Hpre] & ->). intros [= <- <-]. exists pre. split; [done |].
    pose proof (effects_not_sends actions) as H. rewrite Hpre in H. by apply Forall_app in H as [H _].
Qed.

End ProcessorLemmas.

(** ** Properties *)

Section ProcessorProperties.

Context `{C : Consumer}.

(** C6: nothing leaves the node before the log is durable.  Whatever the
    actions and however the log, the application and the network answer, no
    message is sent while a write or a truncation of the log is not yet
    synced, over any number of runs and whatever was written before; a run
    that fails sends nothing; and a run that succeeds has written every entry
    the state machine asked for before the sync that precedes its sends. *)
Theorem sends_follow_durable_log (nodeID : Z) (dirty : bool) (tr tr' : list Effect) (actions : ActionList) (r : fallible EventList) :
  Processor_Process nodeID tr actions = (tr', r) ->
  exists calls, tr' = tr ++ calls /\ durableSends dirty calls = true
    /\ match r with
       | Failed _ => forall dest msg, Link_Send dest msg ∉ calls
       | Returned _ => exists before sends, calls = before ++ WAL_Sync :: sends /\ Forall (fun e => isSend e = true) sends
           /\ forall index entry, Action_AppendWriteAhead index entry ∈ actions -> WAL_Write index entry ∈ before
       end.
Proof.
  intros H. apply Process_calls in H. destruct r as [events | error].
  - rewrite H. eexists. split; [reflexivity |]. split.
    + apply durableSends_app; [apply effects_not_sends |]. intros d. cbn. apply durableSends_sends, sends_are_sends.
    + eexists _, _. split; [reflexivity |]. split; [apply sends_are_sends |]. intros index entry Hin.
      apply list_elem_of_omap. by exists (Action_AppendWriteAhead index entry).
  - destruct H as (pre & -> & Hpre). exists pre. split; [done |]. split.
    + rewrite <- (app_nil_r pre). by apply durableSends_app.
    + intros dest msg Hin. rewrite Forall_forall in Hpre. by specialize (Hpre _ Hin).
Qed.


(** The batches among the calls of a successful run. *)
Lemma applied_batches (nodeID : Z) (tr tr' : list Effect) (actions : ActionList) (events : EventList) :
  Processor_Process nodeID tr actions = (tr', Returned events) -> omap appliedBatch tr' = omap appliedBatch tr ++ deliveries actions.
Proof.
  intros H. apply Process_calls in H. rewrite H, !omap_app. f_equal.
  assert (Hs : omap appliedBatch (actions ≫= sendsOf nodeID) = []).
  { generalize (sends_are_sends nodeID actions). generalize (actions ≫= sendsOf nodeID). induction 1 as [|e l He _ IH]; [done |]. by destruct e. }
  rewrite Hs. cbn. rewrite app_nil_r. clear. induction actions as [|a actions IH]; [done |]. by destruct a; cbn; rewrite ?IH.
Qed.

Context `{PE : ProtoEqual} `{CR : ConfigRange} `{KR : CheckpointRange} `{Range : MapRange} `{Size : ProtoSize} `{ER : EpochRange}.
Context `{Orders : CheckpointOrders}.

(** The application of a node sees the batches in order.  When the
    processor performs the actions that the state machine returned for any
    sequence of valid events, the batches the application is given, in the
    order of the calls, have exactly the consecutive sequence numbers from the
    one after the last applied batch on. *)
Theorem application_applies_in_order (fuel : nat) (pt : parts) (events : list Event) (sm' : StateMachine) (acts : ActionList)
    (nodeID : Z) (tr' : list Effect) (answersOf : EventList) :
  let sm := mkStateMachine smInitialized (Some pt) in
  csInv (csOf pt) -> validRun fuel sm events -> runEvents fuel sm events = Ok (sm', acts) ->
  Processor_Process nodeID [] acts = (tr', Returned answersOf) ->
  exists pt', sm_parts sm' = Some pt'
    /\ q_SeqNo <$> omap appliedBatch tr'
       = seqZ (cs_lastAppliedCommit (csOf pt) + 1) (cs_lastAppliedCommit (csOf pt') - cs_lastAppliedCommit (csOf pt)).
Proof.
  intros sm Hi Hv H Hp. destruct (runEvents_progress _ _ _ _ _ Hv H) as (pt' & -> & [_ Hg]). destruct (Hg Hi) as (_ & _ & Hd).
  exists pt'. split; [done |]. by rewrite (applied_batches _ _ _ _ _ Hp).
Qed.

End ProcessorProperties.

(** ** Witnesses *)

#[local] Existing Instance fieldsEqual.
#[local] Existing Instance plainConfigRange.
#[local] Existing Instance plainCheckpointRange.
#[local] Existing Instance canonicalRange.
#[local] Existing Instance unitSize.
#[local] Existing Instance plainEpochRange.
#[local] Existing Instance plainOrders.

(** A consumer whose log accepts entry [n] as the [n]-th write only, and who
    adds up the bytes for a hash. *)
Definition countingConsumer : Consumer := {|
  callError := fun tr e =>
    match e with
    | WAL_Write index _ =>
      if index =? Z.of_nat (length (filter (fun c => (if c is WAL_Write _ _ then true else false) = true) tr)) then None
      else Some "out of order"%string
    | _ => None
    end;
  snapResult := fun _ _ _ => Returned (Some [7], []);
  transferResult := fun _ _ _ => Failed "no such state"%string;
  hashSum := fun data => [foldr Z.add 0 data mod 256];
|}.
#[local] Existing Instance countingConsumer.

Definition suspectMsg : Msg := Msg_Suspect (mkSuspect 1).
Definition suspectEntry : Persistent := Persistent_Suspect (mkSuspect 1).
Definition someActions : ActionList :=
  [Action_Send [0; 2] suspectMsg; Action_AppendWriteAhead 0 suspectEntry; Action_Hash [Some [3]; Some [4]] HashOrigin_unset].

Lemma sends_follow_durable_log_witness :
  durableSends true [WAL_Write 0 suspectEntry; WAL_Sync; Link_Send 2 suspectMsg] = true
  /\ Link_Send 2 suspectMsg ∉ [WAL_Write 3 suspectEntry].
Proof.
  split.
  - destruct (sends_follow_durable_log (C := countingConsumer) 0 true [] [WAL_Write 0 suspectEntry; WAL_Sync; Link_Send 2 suspectMsg] someActions
      (Returned [Event_HashResult (Some [7]) HashOrigin_unset; Event_Step 0 suspectMsg]) ltac:(vm_compute; reflexivity)) as (calls & Hc & Hd & _).
    cbn [app] in Hc. rewrite Hc. exact Hd.
  - destruct (sends_follow_durable_log (C := countingConsumer) 0 true [] [WAL_Write 3 suspectEntry] [Action_Send [2] suspectMsg; Action_AppendWriteAhead 3 suspectEntry]
      (Failed "failed to write entry to WAL at index 3: out of order") ltac:(vm_compute; reflexivity)) as (calls & Hc & _ & Hn).
    cbn [app] in Hc. rewrite Hc. apply Hn.
Defined.


Lemma application_applies_in_order_witness :
  q_SeqNo <$> omap appliedBatch (Processor_Process 2 [] (actionsAfter ran)).1 = [1; 2].
Proof.
  assert (Hrun : runEvents 10 (mkStateMachine smInitialized (Some committedParts)) someEvents
      = Ok (mkStateMachine smInitialized (Some (partsAfter ran)), actionsAfter ran)) by (vm_compute; reflexivity).
  assert (Hv : validRun 10 (mkStateMachine smInitialized (Some committedParts)) someEvents) by (repeat split).
  assert (Hlast : cs_lastAppliedCommit (csOf committedParts) = 0 /\ cs_lastAppliedCommit (csOf (partsAfter ran)) = 2) by (vm_compute; split; reflexivity).
  assert (Hp : exists answersOf, Processor_Process 2 [] (actionsAfter ran) = ((Processor_Process 2 [] (actionsAfter ran)).1, Returned answersOf))
    by (eexists; vm_compute; reflexivity).
  pose proof committedParts_inv as Hinv. revert Hrun Hv Hinv Hlast Hp. generalize (partsAfter ran) (actionsAfter ran) committedParts.
  intros p acts c Hrun Hv Hinv [H0 H2] [answersOf Hp].
  destruct (application_applies_in_order 10 c someEvents _ _ 2 _ answersOf Hinv Hv Hrun Hp) as (pt' & Hs & Hd).
  injection Hs as <-. rewrite Hd, H0, H2. reflexivity.
Defined.
