(* ===== verification/ClientProcessor.v ===== *)
(** * Client processor

    [client_processor.go]: the consumer's side of the client requests.  It
    stores what clients propose, allocates the request numbers the state
    machine asks for and reports the stored requests back.  Every method holds
    a lock, so the calls of the application and of the processing loop
    interleave as atomic steps.  The list of a client's requests only grows;
    an element pointer is its position. *)
From stdpp Require Import pretty.
From S2P Require Import Prelude Msgs Actions ReqStore.

(** ** Data *)

Definition ErrClientNotExist : string := "client does not exist".

(** [cw_readyC] is nil or a channel that is closed or not. *)
Record ClientWork := mkClientWork {
  cw_readyC : option bool;
  cw_events : option EventList;
}.

#[global] Instance eta_ClientWork : Eta ClientWork := mkEta (fun r => mkClientWork (cw_readyC r) (cw_events r)).

Record clientRequest := mkClientRequest {
  cr_reqNo : Z;
  cr_localAllocationDigest : slice;
  cr_remoteCorrectDigests : list slice;
}.

#[global] Instance eta_clientRequest : Eta clientRequest := mkEta (fun r =>
  mkClientRequest (cr_reqNo r) (cr_localAllocationDigest r) (cr_remoteCorrectDigests r)).

Record Client := mkClient {
  pc_clientID : Z;
  pc_requests : list clientRequest;
  pc_reqNoMap : gmap Z nat;
  pc_nextReqNo : Z;
}.

#[global] Instance eta_Client : Eta Client := mkEta (fun r =>
  mkClient (pc_clientID r) (pc_requests r) (pc_reqNoMap r) (pc_nextReqNo r)).

(** A nil map of clients is the empty one. *)
Record ClientProcessor := mkClientProcessor {
  cp_clients : gmap Z Client;
  cp_ClientWork : ClientWork;
}.

#[global] Instance eta_ClientProcessor : Eta ClientProcessor := mkEta (fun r =>
  mkClientProcessor (cp_clients r) (cp_ClientWork r)).

(** [hasher.New()], [Write(data)], [Sum(nil)]: bytes, and never nil. *)
Class Hasher := mkHasher {
  digestOf : bytes -> bytes;
  digestOf_bytes : forall data, Forall isByte (digestOf data);
}.

(** ** Results *)

(** The channel, closed when there are events. *)
Definition ClientWork_Ready (cw : ClientWork) : ClientWork :=
  match cw_readyC cw with
  | Some _ => cw
  | None => cw <| cw_readyC := Some (match cw_events cw with Some _ => true | None => false end) |>
  end.

Definition ClientWork_Results (cw : ClientWork) : ClientWork * option EventList :=
  (mkClientWork None None, cw_events cw).

(** Closing a closed channel panics. *)
Definition closeChannel (closed : bool) : outcome bool :=
  if closed then Panic "close of closed channel" else Ok true.

Definition ClientWork_addPersistedReq (cw : ClientWork) (ack : RequestAck) : outcome ClientWork :=
  match cw_events cw with
  | None =>
    readyC ← match cw_readyC cw with
             | Some closed => closed ← closeChannel closed; Ok (Some closed)
             | None => Ok None
             end;
    Ok (mkClientWork readyC (Some (EventList_RequestPersisted [] ack)))
  | Some events => Ok (cw <| cw_events := Some (EventList_RequestPersisted events ack) |>)
  end.

(** ** Clients *)

Definition newClient (clientID : Z) : Client := mkClient clientID [] ∅ 0.

(** [requests.PushBack] and [reqNoMap[reqNo] = el]. *)
Definition pushRequest (c : Client) (reqNo : Z) : Client * nat :=
  let i := length (pc_requests c) in
  (c <| pc_requests := pc_requests c ++ [mkClientRequest reqNo None []] |> <| pc_reqNoMap := <[reqNo := i]> (pc_reqNoMap c) |>, i).

(** [cr.localAllocationDigest = digest] for the element at [i]. *)
Definition setDigest (c : Client) (i : nat) (digest : slice) : Client :=
  c <| pc_requests := alter (fun cr => cr <| cr_localAllocationDigest := digest |>) i (pc_requests c) |>.

Definition Client_NextReqNo (c : Client) : fallible Z :=
  match pc_requests c with [] => Failed ErrClientNotExist | _ :: _ => Returned (pc_nextReqNo c) end.

Section Clients.

Context {S : Type} {Store : RequestStore S}.

(** The entry is added before the store is read, and stays when that fails. *)
Definition Client_allocate (store : S) (c : Client) (reqNo : Z) : outcome (Client * fallible slice) :=
  match pc_reqNoMap c !! reqNo with
  | Some i =>
    cr ← deref (pc_requests c !! i) "nil element";
    Ok (c, Returned (cr_localAllocationDigest cr))
  | None =>
    let '(c, i) := pushRequest c reqNo in
    match GetAllocation store (pc_clientID c) reqNo with
    | Failed error => Ok (c, Failed ("could not get key for " +:+ pretty (pc_clientID c) +:+ "." +:+ pretty reqNo +:+ ": " +:+ error))
    | Returned digest => Ok (setDigest c i digest, Returned digest)
    end
  end.

Context {H : Hasher}.

(** The end of [Propose]: the request is stored, then its allocation. *)
Definition storeProposal (store : S) (c : Client) (cw : ClientWork) (i : nat) (previouslyAllocated : bool) (reqNo : Z) (data digest : slice)
    : outcome (S * Client * ClientWork * option string) :=
  let ack := mkAck (pc_clientID c) reqNo digest in
  match rs_PutRequest store ack data with
  | (store, Some error) => Ok (store, c, cw, Some ("could not store requests: " +:+ error))
  | (store, None) =>
    match rs_PutAllocation store (pc_clientID c) reqNo digest with
    | (store, Some error) => Ok (store, c, cw, Some error)
    | (store, None) =>
      cw ← if previouslyAllocated then ClientWork_addPersistedReq cw ack else Ok cw;
      Ok (store, setDigest c i digest, cw, None)
    end
  end.

Definition Client_Propose (store : S) (c : Client) (cw : ClientWork) (reqNo : Z) (data : slice)
    : outcome (S * Client * ClientWork * option string) :=
  let digest := Some (digestOf (str data)) in
  match pc_requests c with
  | [] => Ok (store, c, cw, Some ErrClientNotExist)
  | _ :: _ =>
    if reqNo <? pc_nextReqNo c then Ok (store, c, cw, None)
    else if pc_nextReqNo c <? reqNo then
      Ok (store, c, cw, Some ("client must submit req_no " +:+ pretty (pc_nextReqNo c) +:+ " next"))
    else
      let c := c <| pc_nextReqNo := pc_nextReqNo c +! 1 |> in
      let '(c, i, previouslyAllocated) :=
        match pc_reqNoMap c !! reqNo with
        | Some i => (c, i, true)
        | None => (pushRequest c reqNo, false)
        end in
      cr ← deref (pc_requests c !! i) "nil element";
      if notNil (cr_localAllocationDigest cr) then
        if bytesEqual (cr_localAllocationDigest cr) digest then Ok (store, c, cw, None)
        else Ok (store, c, cw, Some ("cannot store request with digest " +:+ hex (str digest)
               +:+ ", already stored request with different digest " +:+ hex (str (cr_localAllocationDigest cr))))
      else if (0 <? Z.of_nat (length (cr_remoteCorrectDigests cr)))
           && negb (existsb (fun rd => bytesEqual rd digest) (cr_remoteCorrectDigests cr)) then
        Ok (store, c, cw, Some "other known correct digest exist for reqno"%string)
      else storeProposal store c cw i previouslyAllocated reqNo data digest
  end.

(** ** The processor *)

Definition ClientProcessor_Client (cp : ClientProcessor) (clientID : Z) : ClientProcessor * Client :=
  match cp_clients cp !! clientID with
  | Some c => (cp, c)
  | None => let c := newClient clientID in (cp <| cp_clients := <[clientID := c]> (cp_clients cp) |>, c)
  end.

(** A method call on the client, a pointer in the map. *)
Definition setClient (cp : ClientProcessor) (clientID : Z) (c : Client) : ClientProcessor :=
  cp <| cp_clients := <[clientID := c]> (cp_clients cp) |>.

(** One iteration of [Process]. *)
Definition ClientProcessor_perform (store : S) (cp : ClientProcessor) (events : EventList) (action : Action)
    : outcome (ClientProcessor * fallible EventList) :=
  match action with
  | Action_AllocatedRequest clientID reqNo =>
    let '(cp, client) := ClientProcessor_Client cp clientID in
    '(client, digest) ← Client_allocate store client reqNo;
    let cp := setClient cp clientID client in
    match digest with
    | Failed error => Ok (cp, Failed error)
    | Returned None => Ok (cp, Returned events)
    | Returned (Some digest) => Ok (cp, Returned (EventList_RequestPersisted events (mkAck clientID reqNo (Some digest))))
    end
  | _ => Ok (cp, Returned events)
  end.

Fixpoint processLoop (store : S) (cp : ClientProcessor) (events : EventList) (actions : ActionList)
    : outcome (ClientProcessor * fallible EventList) :=
  match actions with
  | [] => Ok (cp, Returned events)
  | action :: actions' =>
    '(cp, r) ← ClientProcessor_perform store cp events action;
    match r with
    | Failed error => Ok (cp, Failed error)
    | Returned events => processLoop store cp events actions'
    end
  end.

Definition ClientProcessor_Process (store : S) (cp : ClientProcessor) (actions : ActionList)
    : outcome (S * ClientProcessor * fallible EventList) :=
  '(cp, r) ← processLoop store cp [] actions;
  match r with
  | Failed error => Ok (store, cp, Failed error)
  | Returned events =>
    match rs_Sync store with
    | (store, Some error) => Ok (store, cp, Failed ("could not sync request store, unsafe to continue: " +:+ error))
    | (store, None) => Ok (store, cp, Returned events)
    end
  end.

Definition ClientProcessor_Propose (store : S) (cp : ClientProcessor) (clientID reqNo : Z) (data : slice)
    : outcome (S * ClientProcessor * option string) :=
  let '(cp, client) := ClientProcessor_Client cp clientID in
  '(store, client, cw, r) ← Client_Propose store client (cp_ClientWork cp) reqNo data;
  Ok (store, (setClient cp clientID client) <| cp_ClientWork := cw |>, r).

End Clients.

(** The zero value. *)
Definition emptyClientProcessor : ClientProcessor := mkClientProcessor ∅ (mkClientWork None None).

(** ** Specification *)

(** The steps that interleave: iterations of [Process] and its final sync,
    calls of [Propose], and the consumer's use of [ClientWork]. *)
Inductive cpOp :=
| OpPerform (action : Action)
| OpSync
| OpPropose (clientID reqNo : Z) (data : slice)
| OpReady
| OpResults.

(** The store, the processor, and the events handed out so far. *)
Record cpWorld (S : Type) := mkCpWorld {
  pw_store : S;
  pw_cp : ClientProcessor;
  pw_out : EventList;
}.

Arguments mkCpWorld {S} _ _ _.
Arguments pw_store {S} _.
Arguments pw_cp {S} _.
Arguments pw_out {S} _.

Section Steps.

Context {S : Type} {Store : RequestStore S} {H : Hasher}.

Definition cpStep (w : cpWorld S) (op : cpOp) : outcome (cpWorld S) :=
  match op with
  | OpPerform action =>
    '(cp, r) ← ClientProcessor_perform (pw_store w) (pw_cp w) [] action;
    Ok (mkCpWorld (pw_store w) cp (pw_out w ++ match r with Returned events => events | Failed _ => [] end))
  | OpSync => Ok (mkCpWorld (rs_Sync (pw_store w)).1 (pw_cp w) (pw_out w))
  | OpPropose clientID reqNo data =>
    '(store, cp, _) ← ClientProcessor_Propose (pw_store w) (pw_cp w) clientID reqNo data;
    Ok (mkCpWorld store cp (pw_out w))
  | OpReady => Ok (mkCpWorld (pw_store w) ((pw_cp w) <| cp_ClientWork ::= ClientWork_Ready |>) (pw_out w))
  | OpResults =>
    let '(cw, events) := ClientWork_Results (cp_ClientWork (pw_cp w)) in
    Ok (mkCpWorld (pw_store w) ((pw_cp w) <| cp_ClientWork := cw |>) (pw_out w ++ default [] events))
  end.

Definition cpRun (w : cpWorld S) (ops : list cpOp) : outcome (cpWorld S) := forRange (fun op w => cpStep w op) ops w.

(** A processor that starts over a store. *)
Definition cpStart (store : S) : cpWorld S := mkCpWorld store emptyClientProcessor [].

End Steps.

(** What was reported as stored: handed out, or waiting to be. *)
Definition reported {S : Type} (w : cpWorld S) : EventList := pw_out w ++ default [] (cw_events (cp_ClientWork (pw_cp w))).

(** The digest a client's request number has in memory. *)
Definition digestAt (c : Client) (reqNo : Z) : slice :=
  i ← pc_reqNoMap c !! reqNo; cr ← pc_requests c !! i; cr_localAllocationDigest cr.

Definition client_wf (c : Client) : Prop :=
  forall r i, pc_reqNoMap c !! r = Some i -> exists cr, pc_requests c !! i = Some cr /\ cr_reqNo cr = r.

(** The channel is closed exactly when there are events. *)
Definition work_wf (cw : ClientWork) : Prop :=
  forall closed, cw_readyC cw = Some closed -> closed = true <-> cw_events cw <> None.

(** What no call undoes. *)
Record grows (c c' : Client) : Prop := {
  gr_id : pc_clientID c' = pc_clientID c;
  gr_wf : client_wf c';
  gr_digests : forall r d, digestAt c r = Some d -> digestAt c' r = Some d;
}.

(** ** Lemmas *)

(** *** Clients *)

Lemma grows_refl (c : Client) : client_wf c -> grows c c.
Proof. by split. Qed.

Lemma grows_trans (c1 c2 c3 : Client) : grows c1 c2 -> grows c2 c3 -> grows c1 c3.
Proof. intros [] []. split; [congruence | done | auto]. Qed.

Lemma pushRequest_wf (c : Client) (r : Z) : client_wf c -> pc_reqNoMap c !! r = None ->
  client_wf (pushRequest c r).1 /\ (forall r', digestAt (pushRequest c r).1 r' = digestAt c r')
  /\ pc_reqNoMap (pushRequest c r).1 !! r = Some (pushRequest c r).2.
Proof.
  intros Hwf Hr. unfold pushRequest, digestAt. cbn. split; [| split; [| by rewrite lookup_insert_eq]].
  - intros r' i. cbn. rewrite lookup_insert. destruct (decide (r = r')) as [-> |].
    + intros [= <-]. rewrite lookup_app_r, Nat.sub_diag by done. cbn. eauto.
    + intros Hi. destruct (Hwf r' i Hi) as (cr & Hc & He). exists cr. split; [| done]. apply lookup_app_l_Some. done.
  - intros r'. rewrite lookup_insert. destruct (decide (r = r')) as [-> |]; cbn.
    + rewrite lookup_app_r, Nat.sub_diag by done. cbn. by rewrite Hr.
    + destruct (pc_reqNoMap c !! r') as [i |] eqn:Hi; cbn; [| done]. destruct (Hwf r' i Hi) as (cr & Hc & _).
      by rewrite (lookup_app_l_Some _ _ _ _ Hc), Hc.
Qed.

Lemma setDigest_wf (c : Client) (r : Z) (i : nat) (d : slice) : client_wf c -> pc_reqNoMap c !! r = Some i ->
  client_wf (setDigest c i d) /\ digestAt (setDigest c i d) r = d
  /\ (forall r', r' <> r -> digestAt (setDigest c i d) r' = digestAt c r').
Proof.
  intros Hwf Hr. unfold setDigest, digestAt, client_wf. cbn. split; [| split].
  - intros r' j Hj. destruct (Hwf r' j Hj) as (cr & Hc & He).
    destruct (decide (i = j)) as [-> | Hne].
    + rewrite list_lookup_alter_eq, Hc. cbn. eauto.
    + rewrite list_lookup_alter_ne by done. eauto.
  - rewrite Hr. cbn. destruct (Hwf r i Hr) as (cr & Hc & _). by rewrite list_lookup_alter_eq, Hc.
  - intros r' Hne. destruct (pc_reqNoMap c !! r') as [j |] eqn:Hj; cbn; [| done]. rewrite list_lookup_alter_ne; [done |].
    intros <-. destruct (Hwf r i Hr) as (cr & Hc & He). destruct (Hwf r' i Hj) as (cr' & Hc' & He'). congruence.
Qed.

Lemma newClient_wf (id : Z) : client_wf (newClient id).
Proof. intros r i. cbn. by rewrite lookup_empty. Qed.

(** *** Results *)

Lemma work_ready (cw : ClientWork) : work_wf cw -> work_wf (ClientWork_Ready cw).
Proof.
  intros Hwf. unfold ClientWork_Ready. destruct (cw_readyC cw) eqn:Hc; [done |]. intros b. cbn. intros [= <-]. by destruct (cw_events cw).
Qed.

(** No channel is closed twice, and the event is queued. *)
Lemma addPersistedReq_spec (cw : ClientWork) (ack : RequestAck) : work_wf cw ->
  exists cw', ClientWork_addPersistedReq cw ack = Ok cw' /\ work_wf cw'
    /\ cw_events cw' = Some (default [] (cw_events cw) ++ [Event_RequestPersisted ack]).
Proof.
  intros Hwf. unfold ClientWork_addPersistedReq, work_wf in *. destruct (cw_events cw) as [evs |] eqn:He.
  - eexists. split; [reflexivity |]. cbn. split; [| done]. intros closed Hc. specialize (Hwf closed Hc). split; [done | intros _; by apply Hwf].
  - destruct (cw_readyC cw) as [closed |]; cbn.
    + specialize (Hwf closed eq_refl). destruct closed; [by destruct (proj1 Hwf eq_refl) |]. cbn. eexists. split; [reflexivity |].
      split; [| done]. by intros closed [= <-].
    + by eexists.
Qed.

(** *** Calls *)

Section Calls.

Context {S : Type} {Store : RequestStore S}.

Lemma clientAllocate_spec (store : S) (c : Client) (reqNo : Z) : client_wf c ->
  exists c' r, Client_allocate store c reqNo = Ok (c', r) /\ grows c c'
    /\ (forall d, r = Returned (Some d) -> digestAt c' reqNo = Some d)
    /\ (forall r' d, digestAt c' r' = Some d ->
          digestAt c r' = Some d \/ (r' = reqNo /\ GetAllocation store (pc_clientID c) reqNo = Returned (Some d))).
Proof.
  intros Hwf. unfold Client_allocate. destruct (pc_reqNoMap c !! reqNo) as [i |] eqn:Hi.
  - destruct (Hwf reqNo i Hi) as (cr & Hc & _). rewrite Hc. cbn. eexists _, _. split; [reflexivity |]. split; [by apply grows_refl |].
    split; [| auto]. intros d [= Hd]. unfold digestAt. by rewrite Hi; cbn; rewrite Hc.
  - destruct (pushRequest_wf c reqNo Hwf Hi) as (Hwf1 & Hd1 & Hm1). assert (Hn : digestAt c reqNo = None) by (unfold digestAt; by rewrite Hi).
    assert (Hid : pc_clientID (pushRequest c reqNo).1 = pc_clientID c) by done. destruct (pushRequest c reqNo) as [c1 i]. cbn in *. rewrite Hid.
    destruct (GetAllocation store (pc_clientID c) reqNo) as [digest | error].
    + destruct (setDigest_wf c1 reqNo i digest Hwf1 Hm1) as (Hwf2 & Hd2 & Ho). eexists _, _. split; [reflexivity |]. split; [split; [done | done |] | split].
      * intros r d Hr. rewrite Ho, Hd1; [done |]. intros ->. congruence.
      * intros d [= ->]. exact Hd2.
      * intros r' d. destruct (decide (r' = reqNo)) as [-> | Hne]; [rewrite Hd2; intros ->; auto |]. rewrite Ho, Hd1 by done. auto.
    + eexists _, _. split; [reflexivity |]. split; [split; [done | done |] | split; [done |]].
      * intros r d. by rewrite Hd1.
      * intros r' d. rewrite Hd1. auto.
Qed.

Context {H : Hasher}.

(** The writes of a proposal, and whether both succeeded. *)
Inductive proposalWrites (store : S) (id reqNo : Z) (data : slice) : S -> bool -> Prop :=
| pw_none : proposalWrites store id reqNo data store false
| pw_request_failed store' error :
    rs_PutRequest store (mkAck id reqNo (Some (digestOf (str data)))) data = (store', Some error) -> proposalWrites store id reqNo data store' false
| pw_allocation store1 store2 error :
    rs_PutRequest store (mkAck id reqNo (Some (digestOf (str data)))) data = (store1, None) ->
    rs_PutAllocation store1 id reqNo (Some (digestOf (str data))) = (store2, error) ->
    proposalWrites store id reqNo data store2 (if error then false else true).

(** What [Propose] may do: never a panic; a digest in memory stays, a new one
    is the hash of the data and is stored; what is reported is in memory. *)
Definition proposed (store : S) (c : Client) (cw : ClientWork) (reqNo : Z) (data : slice)
    (r : outcome (S * Client * ClientWork * option string)) : Prop :=
  exists store' c' cw' e more ok, r = Ok (store', c', cw', e)
    /\ grows c c' /\ work_wf cw' /\ proposalWrites store (pc_clientID c) reqNo data store' ok
    /\ default [] (cw_events cw') = default [] (cw_events cw) ++ (Event_RequestPersisted <$> more)
    /\ (forall ack, ack ∈ more -> ack = mkAck (pc_clientID c) reqNo (Some (digestOf (str data))) /\ digestAt c' reqNo = ra_Digest ack)
    /\ (forall r d, digestAt c' r = Some d -> digestAt c r = Some d \/ (r = reqNo /\ d = digestOf (str data) /\ ok = true)).

(** A call that reports nothing. *)
Lemma proposed_silent (store store' : S) (c c' : Client) (cw : ClientWork) (reqNo : Z) (data : slice) (e : option string) (ok : bool) :
  grows c c' -> work_wf cw -> (forall r, digestAt c' r = digestAt c r) -> proposalWrites store (pc_clientID c) reqNo data store' ok ->
  proposed store c cw reqNo data (Ok (store', c', cw, e)).
Proof.
  intros Hg Hw Hd Hp. exists store', c', cw, e, [], ok. split; [done |]. split; [done |]. split; [done |]. split; [done |].
  split; [by rewrite app_nil_r |]. split; [intros a ?%elem_of_nil; done |]. intros r d. rewrite Hd. auto.
Qed.

Lemma storeProposal_spec (store : S) (c : Client) (cw : ClientWork) (i : nat) (known : bool) (reqNo : Z) (data : slice) :
  client_wf c -> work_wf cw -> pc_reqNoMap c !! reqNo = Some i -> digestAt c reqNo = None ->
  proposed store c cw reqNo data (storeProposal store c cw i known reqNo data (Some (digestOf (str data)))).
Proof.
  intros Hwf Hcw Hi Hn. unfold storeProposal. set (ack := mkAck _ _ _). pose proof (grows_refl c Hwf) as Hrefl.
  destruct (rs_PutRequest store ack data) as [store1 [error |]] eqn:H1; [eapply proposed_silent; [done | done | done | by eapply pw_request_failed] |].
  destruct (rs_PutAllocation store1 (pc_clientID c) reqNo (Some (digestOf (str data)))) as [store2 [error |]] eqn:H2.
  { eapply proposed_silent; [done | done | done |]. by eapply (pw_allocation _ _ _ _ store1 store2 (Some error)). }
  destruct (setDigest_wf c reqNo i (Some (digestOf (str data))) Hwf Hi) as (Hwf2 & Hd2 & Ho).
  assert (Hg : grows c (setDigest c i (Some (digestOf (str data))))).
  { split; [done | done |]. intros r d Hr. rewrite Ho; [done |]. intros ->. congruence. }
  assert (Hd : forall r d, digestAt (setDigest c i (Some (digestOf (str data)))) r = Some d ->
    digestAt c r = Some d \/ (r = reqNo /\ d = digestOf (str data) /\ true = true)).
  { intros r d. destruct (decide (r = reqNo)) as [-> | Hne]; [rewrite Hd2; intros [= <-]; auto | rewrite Ho by done; auto]. }
  pose proof (pw_allocation store (pc_clientID c) reqNo data store1 store2 None H1 H2) as Hw. destruct known.
  - destruct (addPersistedReq_spec cw ack Hcw) as (cw' & -> & Hcw' & He). cbn. eexists _, _, _, _, [ack], true.
    split; [reflexivity |]. split; [done |]. split; [done |]. split; [done |]. split; [by rewrite He |]. split; [| done].
    intros a [-> | ?%elem_of_nil]%elem_of_cons; [| done]. by split.
  - cbn. eexists _, _, _, _, [], true. split; [reflexivity |]. split; [done |]. split; [done |]. split; [done |].
    split; [by rewrite app_nil_r |]. split; [intros a ?%elem_of_nil; done | done].
Qed.

Lemma Propose_spec (store : S) (c : Client) (cw : ClientWork) (reqNo : Z) (data : slice) : client_wf c -> work_wf cw ->
  proposed store c cw reqNo data (Client_Propose store c cw reqNo data).
Proof.
  intros Hwf Hcw. unfold Client_Propose. pose proof (grows_refl c Hwf) as Hrefl. pose proof (pw_none store (pc_clientID c) reqNo data) as Hnone.
  destruct (pc_requests c) as [|x l] eqn:Hreq; [by eapply proposed_silent |]. clear x l Hreq.
  case_match; [by eapply proposed_silent |]. case_match; [by eapply proposed_silent |].
  set (c0 := c <| pc_nextReqNo := pc_nextReqNo c +! 1 |>). assert (Hg0 : grows c c0) by by split.
  set (x := match pc_reqNoMap c0 !! reqNo with Some i => (c0, i, true) | None => (pushRequest c0 reqNo, false) end).
  assert (Hx : grows c x.1.1 /\ (forall r, digestAt x.1.1 r = digestAt c r) /\ pc_reqNoMap x.1.1 !! reqNo = Some x.1.2).
  { unfold x. destruct (pc_reqNoMap c0 !! reqNo) as [i |] eqn:Hi; [by split |]. cbn [fst snd].
    destruct (pushRequest_wf c0 reqNo (gr_wf _ _ Hg0) Hi) as (Hwf1 & Hd1 & Hm1). split; [| by split]. split; [done | done |]. intros r d. by rewrite Hd1. }
  destruct x as [[c1 i] known]. destruct Hx as (Hg1 & Hd1 & Hm1). cbn [fst snd] in *. destruct (gr_wf _ _ Hg1 reqNo i Hm1) as (cr & Hcr & _).
  rewrite Hcr. cbn [deref]. rewrite bind_ok. assert (Hdc : digestAt c1 reqNo = cr_localAllocationDigest cr).
  { unfold digestAt. rewrite Hm1. cbn. by rewrite Hcr. }
  destruct (cr_localAllocationDigest cr) as [b |] eqn:Hloc; cbn [notNil]; [case_match; by eapply proposed_silent |].
  case_match; [by eapply proposed_silent |].
  destruct (storeProposal_spec store c1 cw i known reqNo data (gr_wf _ _ Hg1) Hcw Hm1 Hdc)
    as (store' & c' & cw' & e & more & ok & He & Hg & Hw & Hp & Hev & Hm & Hd).
  rewrite (gr_id _ _ Hg1) in *. exists store', c', cw', e, more, ok. split; [done |]. split; [by eapply grows_trans |].
  split; [done |]. split; [done |]. split; [done |]. split; [done |]. intros r d Hr. rewrite <- Hd1. by apply Hd.
Qed.

End Calls.

(** *** Steps *)

(** The digest of a request number in the memory of the processor. *)
Definition memoryAt (cp : ClientProcessor) (id reqNo : Z) : slice := c ← cp_clients cp !! id; digestAt c reqNo.

Record cp_wf {S : Type} (w : cpWorld S) : Prop := {
  cw_clients : forall id c, cp_clients (pw_cp w) !! id = Some c -> pc_clientID c = id /\ client_wf c;
  cw_work : work_wf (cp_ClientWork (pw_cp w));
  cw_reported : forall e, e ∈ reported w -> exists ack d, e = Event_RequestPersisted ack /\ ra_Digest ack = Some d
    /\ memoryAt (pw_cp w) (ra_ClientId ack) (ra_ReqNo ack) = Some d;
}.

Section StepLemmas.

Context {S : Type} {Store : RequestStore S} {H : Hasher}.

(** Where the digests in memory come from. *)
Record cpSources (w w' : cpWorld S) (op : cpOp) (ok : bool) : Prop := {
  src_keeps : forall id r d, memoryAt (pw_cp w) id r = Some d -> memoryAt (pw_cp w') id r = Some d;
  src_store : match op with
    | OpPropose id r data => proposalWrites (pw_store w) id r data (pw_store w') ok
    | OpSync => pw_store w' = (rs_Sync (pw_store w)).1
    | _ => pw_store w' = pw_store w
    end;
  src_memory : forall id r d, memoryAt (pw_cp w') id r = Some d -> memoryAt (pw_cp w) id r = Some d
    \/ match op with
       | OpPerform _ => GetAllocation (pw_store w) id r = Returned (Some d)
       | OpPropose id' r' data => id = id' /\ r = r' /\ d = digestOf (str data) /\ ok = true
       | _ => False
       end;
}.

(** The client handle of a call. *)
Lemma Client_spec (cp : ClientProcessor) (id : Z) :
  (forall id c, cp_clients cp !! id = Some c -> pc_clientID c = id /\ client_wf c) ->
  exists c, (ClientProcessor_Client cp id).2 = c /\ pc_clientID c = id /\ client_wf c
    /\ cp_ClientWork (ClientProcessor_Client cp id).1 = cp_ClientWork cp
    /\ (forall r, memoryAt cp id r = digestAt c r)
    /\ (forall id', id' <> id -> cp_clients (ClientProcessor_Client cp id).1 !! id' = cp_clients cp !! id').
Proof.
  intros Hwf. unfold ClientProcessor_Client, memoryAt. destruct (cp_clients cp !! id) as [c |] eqn:Hc; cbn.
  - exists c. destruct (Hwf id c Hc). by repeat split.
  - exists (newClient id). split; [done |]. split; [done |]. split; [apply newClient_wf |]. split; [done |]. split.
    + intros r. unfold digestAt. cbn. by rewrite lookup_empty.
    + intros id' Hne. by rewrite lookup_insert_ne.
Qed.

(** A call that changed one client. *)
Lemma setClient_spec (cp : ClientProcessor) (id : Z) (c c' : Client) (cp' : ClientProcessor) :
  (forall id c, cp_clients cp !! id = Some c -> pc_clientID c = id /\ client_wf c) ->
  c = (ClientProcessor_Client cp id).2 -> grows c c' -> cp_clients cp' = cp_clients (setClient (ClientProcessor_Client cp id).1 id c') ->
  (forall id c, cp_clients cp' !! id = Some c -> pc_clientID c = id /\ client_wf c)
  /\ (forall r, memoryAt cp' id r = digestAt c' r) /\ (forall id' r, id' <> id -> memoryAt cp' id' r = memoryAt cp id' r)
  /\ (forall id' r d, memoryAt cp id' r = Some d -> memoryAt cp' id' r = Some d).
Proof.
  intros Hwf Hc Hg Hcp. destruct (Client_spec cp id Hwf) as (c0 & Hc0 & Hid & Hcwf & _ & Hm & Ho). rewrite <- Hc in Hc0. subst c0.
  assert (Hs : forall r, memoryAt cp' id r = digestAt c' r) by (intros r; unfold memoryAt; rewrite Hcp; cbn; by rewrite lookup_insert_eq).
  assert (Hn : forall id' r, id' <> id -> memoryAt cp' id' r = memoryAt cp id' r).
  { intros id' r Hne. unfold memoryAt. rewrite Hcp. cbn. by rewrite lookup_insert_ne, Ho. }
  split; [| split; [done | split; [done |]]].
  - intros id' c1. rewrite Hcp. cbn. rewrite lookup_insert. destruct (decide (id = id')) as [<- |].
    + intros [= <-]. split; [by rewrite (gr_id _ _ Hg) | apply Hg].
    + rewrite Ho by done. apply Hwf.
  - intros id' r d. destruct (decide (id' = id)) as [-> | Hne]; [rewrite Hs, Hm; apply Hg | by rewrite Hn].
Qed.

Lemma perform_step (w : cpWorld S) (action : Action) : cp_wf w ->
  exists w', cpStep w (OpPerform action) = Ok w' /\ cp_wf w' /\ cpSources w w' (OpPerform action) false.
Proof.
  intros [Hc Hw Hr]. cbn [cpStep].
  assert (Hsame : forall a, ClientProcessor_perform (pw_store w) (pw_cp w) [] a = Ok (pw_cp w, Returned []) ->
    exists w', ('(cp, r) ← ClientProcessor_perform (pw_store w) (pw_cp w) [] a;
      Ok (mkCpWorld (pw_store w) cp (pw_out w ++ match r with Returned events => events | Failed _ => [] end))) = Ok w'
      /\ cp_wf w' /\ cpSources w w' (OpPerform a) false).
  { intros a ->. rewrite bind_ok. eexists. split; [reflexivity |]. rewrite app_nil_r. split; [by split | split; auto]. }
  destruct action; try by apply Hsame. clear Hsame. cbn [ClientProcessor_perform].
  destruct (ClientProcessor_Client (pw_cp w) clientId) as [cp1 c] eqn:Hcl.
  destruct (Client_spec (pw_cp w) clientId Hc) as (c0 & <- & Hid & Hcwf & Hcw & Hm & Ho). rewrite Hcl in Hid, Hcwf, Hcw, Hm, Ho. cbn [fst snd] in *.
  destruct (clientAllocate_spec (pw_store w) c reqNo Hcwf) as (c' & r & Ha & Hg & Hnew & Hsrc). rewrite Ha, bind_ok.
  destruct (setClient_spec (pw_cp w) clientId c c' (setClient cp1 clientId c') Hc) as (Hc' & Hs & Hn & Hk); [by rewrite Hcl | done | by rewrite Hcl |].
  set (more := match r with Returned (Some d) => [Event_RequestPersisted (mkAck clientId reqNo (Some d))] | _ => [] end).
  assert (Hwf' : cp_wf (mkCpWorld (pw_store w) (setClient cp1 clientId c') (pw_out w ++ more))
      /\ cpSources w (mkCpWorld (pw_store w) (setClient cp1 clientId c') (pw_out w ++ more)) (OpPerform (Action_AllocatedRequest clientId reqNo)) false).
  { split; split; cbn [pw_store pw_cp pw_out]; [done | by cbn; rewrite Hcw | | done | done |].
    - intros e. unfold reported. cbn [pw_cp pw_out]. rewrite elem_of_app, elem_of_app. cbn. rewrite Hcw. intros [[Hin | Hin] | Hin].
      + destruct (Hr e) as (ack & d & -> & Hd & Hmem); [apply elem_of_app; by left |]. exists ack, d. auto.
      + unfold more in Hin. destruct r as [[d |] | err]; try by apply elem_of_nil in Hin. apply list_elem_of_singleton in Hin as ->.
        exists (mkAck clientId reqNo (Some d)), d. cbn. split; [done |]. split; [done |]. rewrite Hs. by apply Hnew.
      + destruct (Hr e) as (ack & d & -> & Hd & Hmem); [apply elem_of_app; by right |]. exists ack, d. auto.
    - intros id r' d. destruct (decide (id = clientId)) as [-> | Hne]; [rewrite Hs, Hm | rewrite Hn by done; auto].
      intros [Hd | [-> Hd]]%Hsrc; [by left | right]. by rewrite Hid in Hd. }
  destruct r as [[d |] | err]; cbn [more] in *; rewrite bind_ok; eexists; (split; [reflexivity | exact Hwf']).
Qed.

Lemma propose_step (w : cpWorld S) (id reqNo : Z) (data : slice) : cp_wf w ->
  exists w' ok, cpStep w (OpPropose id reqNo data) = Ok w' /\ cp_wf w' /\ cpSources w w' (OpPropose id reqNo data) ok.
Proof.
  intros [Hc Hw Hr]. cbn [cpStep]. unfold ClientProcessor_Propose. destruct (ClientProcessor_Client (pw_cp w) id) as [cp1 c] eqn:Hcl.
  destruct (Client_spec (pw_cp w) id Hc) as (c0 & <- & Hid & Hcwf & Hcw & Hm & Ho). rewrite Hcl in Hid, Hcwf, Hcw, Hm, Ho. cbn [fst snd] in *.
  rewrite <- Hcw in Hw. destruct (Propose_spec (pw_store w) c (cp_ClientWork cp1) reqNo data Hcwf Hw)
    as (store' & c' & cw' & e & more & ok & -> & Hg & Hw' & Hp & Hev & Hmore & Hsrc). rewrite !bind_ok.
  set (cp' := (setClient cp1 id c') <| cp_ClientWork := cw' |>).
  destruct (setClient_spec (pw_cp w) id c c' cp' Hc) as (Hc' & Hs & Hn & Hk); [by rewrite Hcl | done | by rewrite Hcl |].
  eexists _, ok. split; [reflexivity |]. split; split; cbn [pw_store pw_cp pw_out]; [done | done | | done | by rewrite <- Hid |].
  - intros ev. unfold reported. cbn [pw_cp pw_out]. change (cp_ClientWork cp') with cw'. rewrite Hev, !elem_of_app, Hcw. intros [Hin | [Hin | Hin]].
    + destruct (Hr ev) as (ack & d & -> & Hd & Hmem); [apply elem_of_app; by left |]. exists ack, d. auto.
    + destruct (Hr ev) as (ack & d & -> & Hd & Hmem); [apply elem_of_app; by right |]. exists ack, d. auto.
    + apply list_elem_of_fmap in Hin as (ack & -> & Hin). apply Hmore in Hin as [-> Hd]. eexists _, _. split; [done |]. split; [done |].
      cbn. rewrite Hid, Hs. exact Hd.
  - intros id' r d. destruct (decide (id' = id)) as [-> | Hne]; [rewrite Hs, Hm | rewrite Hn by done; auto].
    intros [Hd | (-> & -> & ->)]%Hsrc; [by left | by right].
Qed.

(** Every step returns. *)
Lemma cpStep_spec (w : cpWorld S) (op : cpOp) : cp_wf w -> exists w' ok, cpStep w op = Ok w' /\ cp_wf w' /\ cpSources w w' op ok.
Proof.
  intros Hwf. destruct op as [action | | id reqNo data | |].
  - destruct (perform_step w action Hwf) as (w' & Hs & Hw' & Hsrc). eauto.
  - destruct Hwf. eexists _, false. split; [reflexivity |]. split; [by split | split; auto].
  - by apply propose_step.
  - destruct Hwf as [Hc Hw Hr]. eexists _, false. split; [reflexivity |]. split; [split; cbn; [done | by apply work_ready |] | split; auto].
    intros e. unfold reported. cbn. unfold ClientWork_Ready. destruct (cw_readyC _); apply Hr.
  - destruct Hwf as [Hc Hw Hr]. eexists _, false. split; [reflexivity |]. split; [split; cbn; [done | done |] | split; auto].
    intros e. unfold reported. cbn. rewrite app_nil_r. apply Hr.
Qed.

Lemma cpStart_wf (store : S) : cp_wf (cpStart store).
Proof.
  split; cbn; [intros id c; by rewrite lookup_empty | done |]. intros e ?%elem_of_nil. done.
Qed.

Lemma cpRun_inv (P : cpWorld S -> Prop) (w : cpWorld S) (ops : list cpOp) :
  (forall w w' op ok, cpSources w w' op ok -> P w -> P w') -> cp_wf w -> P w ->
  exists w', cpRun w ops = Ok w' /\ cp_wf w' /\ P w'.
Proof.
  intros Hstep Hwf HP. apply (forRange_ok (fun w => cp_wf w /\ P w)); [| done]. intros op v _ [Hv Hpv].
  destruct (cpStep_spec v op Hv) as (v' & ok & Hs & Hv' & Hsrc). exists v'. split; [done |]. split; [done |]. by eapply Hstep.
Qed.

End StepLemmas.

(** *** Storage *)

Section Storage.

Context {S : Type} {Store : RequestStore S} {Laws : RequestStoreLaws S} {H : Hasher}.

(** The data of a request is in the store and has its digest. *)
Definition kept (store : S) (id reqNo : Z) (d : bytes) : Prop :=
  Forall isByte d /\ exists data, stored store (mkAck id reqNo (Some d)) = Some data /\ digestOf data = d.

(** An allocation is written after its request. *)
Definition backed (store : S) : Prop := forall id r d, allocated store id r = Some d -> kept store id r d.

Lemma putRequest_kept (store store' : S) (id r : Z) (data : slice) (error : option string) :
  rs_PutRequest store (mkAck id r (Some (digestOf (str data)))) data = (store', error) ->
  (forall id' r' d, kept store id' r' d -> kept store' id' r' d)
  /\ (error = None -> kept store' id r (digestOf (str data)))
  /\ (forall id' r', allocated store' id' r' = allocated store id' r').
Proof.
  intros Hp. pose proof (digestOf_bytes (str data)) as Hb. destruct (request_put _ (mkAck id r (Some (digestOf (str data)))) _ _ _ Hb Hp) as [Ha Hs].
  split; [| split; [| done]].
  - intros id' r' d (Hd & x & Hx & He). split; [done |]. rewrite Hs by exact Hd. destruct error as [e |]; [eauto |].
    destruct (decide _) as [Heq |]; [| eauto]. injection Heq as -> -> Hq. unfold str in Hq at 1 3. cbn in Hq. subst d. eauto.
  - intros ->. split; [done |]. rewrite Hs, decide_True by done. eauto.
Qed.

Lemma proposalWrites_kept (store store' : S) (id r : Z) (data : slice) (ok : bool) :
  proposalWrites store id r data store' ok ->
  (forall id' r' d, kept store id' r' d -> kept store' id' r' d)
  /\ (ok = true -> kept store' id r (digestOf (str data))) /\ (backed store -> backed store').
Proof.
  intros [| store1 error Hp | store1 store2 error Hp Hq].
  - done.
  - destruct (putRequest_kept _ _ _ _ _ _ Hp) as (Hk & _ & Ha). split; [done |]. split; [done |]. intros Hb id' r' d Hd. apply Hk, Hb. by rewrite <- Ha.
  - destruct (putRequest_kept _ _ _ _ _ _ Hp) as (Hk & Hn & Ha). specialize (Hn eq_refl). destruct (allocation_put _ _ _ _ _ _ Hq) as [Ha2 Hs2].
    assert (Hk2 : forall id' r' d, kept store1 id' r' d -> kept store2 id' r' d).
    { intros id' r' d (Hd & x & Hx & He). split; [done |]. exists x. by rewrite Hs2. }
    split; [auto |]. split; [auto |]. intros Hb id' r' d. rewrite Ha2.
    destruct error; [rewrite Ha; auto |]. destruct (decide _) as [[= -> ->] |]; [| rewrite Ha; auto]. intros [= <-]. by apply Hk2.
Qed.

(** What is allocated or in memory is stored. *)
Definition storage_wf (w : cpWorld S) : Prop :=
  backed (pw_store w) /\ forall id r d, memoryAt (pw_cp w) id r = Some d -> kept (pw_store w) id r d.

Lemma storage_step (w w' : cpWorld S) (op : cpOp) (ok : bool) : cpSources w w' op ok -> storage_wf w -> storage_wf w'.
Proof.
  intros [Hk Hst Hm] [Hb Hmem].
  assert (Hkept : (forall id r d, kept (pw_store w) id r d -> kept (pw_store w') id r d) /\ backed (pw_store w')).
  { destruct op; try (rewrite Hst; by split).
    - rewrite Hst. destruct (sync_keeps (pw_store w)) as [Ha Hs].
      assert (Hk' : forall id r d, kept (pw_store w) id r d -> kept (rs_Sync (pw_store w)).1 id r d).
      { intros id r d (Hd & x & Hx & He). split; [done |]. exists x. by rewrite Hs. }
      split; [done |]. intros id r d. rewrite Ha. auto.
    - destruct (proposalWrites_kept _ _ _ _ _ _ Hst) as (? & _ & ?). auto. }
  destruct Hkept as [Hkept Hb']. split; [done |]. intros id r d [Hd | Hd]%Hm; [auto |]. destruct op; try done.
  - apply Hkept, Hb. by apply allocation_read.
  - destruct Hd as (-> & -> & -> & ->). destruct (proposalWrites_kept _ _ _ _ _ _ Hst) as (_ & Hn & _). by apply Hn.
Qed.

End Storage.

(** ** Properties *)

Section Properties.

Context {S : Type} {Store : RequestStore S} {H : Hasher}.

(** C13: a node reports one digest per request number.  However the
    proposals of the clients, the allocations of the state machine and the
    reading of results interleave, and whatever the request store answers,
    errors included, the processor never panics and no two reports of stored
    requests, handed out or waiting, name the same client and request number
    with different digests. *)
Theorem one_digest_per_request_number (store : S) (ops : list cpOp) :
  exists w, cpRun (cpStart store) ops = Ok w
    /\ forall a b, Event_RequestPersisted a ∈ reported w -> Event_RequestPersisted b ∈ reported w ->
         ra_ClientId a = ra_ClientId b -> ra_ReqNo a = ra_ReqNo b -> a = b.
Proof.
  destruct (cpRun_inv (fun _ => True) (cpStart store) ops) as (w & Hrun & Hwf & _); [done | apply cpStart_wf | done |].
  exists w. split; [done |]. intros a b Ha Hb Hid Hr. destruct (cw_reported _ Hwf _ Ha) as (a' & d & [= <-] & Hd & Hm).
  destruct (cw_reported _ Hwf _ Hb) as (b' & d' & [= <-] & Hd' & Hm'). rewrite Hid, Hr, Hm' in Hm. destruct a, b. cbn in *. congruence.
Qed.

(** The channel of [Ready] is closed exactly when [Results] has events. *)
Theorem ready_signals_results (store : S) (ops : list cpOp) :
  exists w closed, cpRun (cpStart store) (ops ++ [OpReady]) = Ok w /\ cw_readyC (cp_ClientWork (pw_cp w)) = Some closed
    /\ (closed = true <-> cw_events (cp_ClientWork (pw_cp w)) <> None).
Proof.
  destruct (cpRun_inv (fun _ => True) (cpStart store) ops) as (w & Hrun & Hwf & _); [done | apply cpStart_wf | done |].
  unfold cpRun in *. rewrite forRange_app, Hrun, bind_ok. cbn [forRange cpStep]. rewrite bind_ok. pose proof (work_ready _ (cw_work _ Hwf)) as Hw.
  eexists _. assert (Hc : exists closed, cw_readyC (ClientWork_Ready (cp_ClientWork (pw_cp w))) = Some closed).
  { unfold ClientWork_Ready. destruct (cw_readyC (cp_ClientWork (pw_cp w))) as [b |] eqn:He; [exists b; exact He | by eexists]. }
  destruct Hc as [closed Hc]. exists closed. split; [reflexivity |]. split; [exact Hc |]. by apply Hw.
Qed.

(** A proposal that failed is lost.  [Propose] moves on to the next
    request number before it stores the request, so when it returns an error
    (the store failed, or another digest is known) and the client tries the
    same number again, with any data, it is told that all is well, although
    nothing is stored. *)
Theorem failed_proposal_cannot_be_retried (store store' : S) (c c' : Client) (cw cw' : ClientWork) (reqNo : Z) (data again : slice) (error : string) :
  pc_requests c <> [] -> reqNo = pc_nextReqNo c -> 0 <= reqNo < 2 ^ 64 - 1 ->
  Client_Propose store c cw reqNo data = Ok (store', c', cw', Some error) ->
  Client_Propose store' c' cw' reqNo again = Ok (store', c', cw', None).
Proof.
  intros Hne -> Hr Hp. assert (Hc' : pc_requests c' <> [] /\ pc_nextReqNo c' = pc_nextReqNo c + 1).
  { revert Hp. unfold Client_Propose. destruct (pc_requests c) as [|x l] eqn:Hreq; [done |]. rewrite Z.ltb_irrefl.
    rewrite (add64_small (pc_nextReqNo c) 1) by lia.
    set (c0 := c <| pc_nextReqNo := pc_nextReqNo c + 1 |>).
    set (y := match pc_reqNoMap c0 !! pc_nextReqNo c with Some i => (c0, i, true) | None => (pushRequest c0 (pc_nextReqNo c), false) end).
    assert (Hy : pc_requests y.1.1 <> [] /\ pc_nextReqNo y.1.1 = pc_nextReqNo c + 1).
    { unfold y. destruct (pc_reqNoMap c0 !! _); cbn; [by rewrite Hreq |]. by rewrite Hreq. }
    destruct y as [[c1 i] known]. cbn [fst] in Hy. intros Hp. apply bind_Ok in Hp as (cr & _ & Hp).
    case_match; [case_match; by injection Hp as _ <- _ _ |]. case_match; [by injection Hp as _ <- _ _ |].
    unfold storeProposal in Hp. destruct (rs_PutRequest _ _ _) as [store1 [e |]]; [by injection Hp as _ <- _ _ |].
    destruct (rs_PutAllocation _ _ _ _) as [store2 [e |]]; [by injection Hp as _ <- _ _ |]. by apply bind_Ok in Hp as (? & _ & ?). }
  destruct Hc' as [Hn He]. unfold Client_Propose. destruct (pc_requests c') as [|x l]; [done |].
  destruct (Z.ltb_spec (pc_nextReqNo c) (pc_nextReqNo c')); [done | lia].
Qed.

Context {Laws : RequestStoreLaws S}.

(** C14: what a node reports as stored can be retrieved.  Over any
    interleaving, from a store whose allocations are backed by requests (an
    empty one, or one that this processor left behind before a restart), with
    any writes failing, every reported request has data in the store whose
    hash is the reported digest, and the allocations stay backed. *)
Theorem reported_requests_retrievable (store : S) (ops : list cpOp) :
  backed store ->
  exists w, cpRun (cpStart store) ops = Ok w /\ backed (pw_store w)
    /\ forall ack, Event_RequestPersisted ack ∈ reported w ->
         exists data, stored (pw_store w) ack = Some data /\ ra_Digest ack = Some (digestOf data).
Proof.
  intros Hb. destruct (cpRun_inv storage_wf (cpStart store) ops) as (w & Hrun & Hwf & Hb' & Hm).
  - intros w w' op ok. apply storage_step.
  - apply cpStart_wf.
  - split; [done |]. intros id r d. unfold memoryAt. cbn. by rewrite lookup_empty.
  - exists w. split; [done |]. split; [done |]. intros ack Hin. destruct (cw_reported _ Hwf _ Hin) as (a & d & [= <-] & Hd & Hmem).
    destruct (Hm _ _ _ Hmem) as (_ & data & Hs & He). exists data. rewrite <- He in Hd. destruct ack as [id r dg]. cbn in *. subst dg.
    by rewrite <- He in Hs.
Qed.

End Properties.

(** ** Witnesses and counterexamples *)

Program Definition firstByteHasher : Hasher := {| digestOf := fun data => [(default 0 (head data)) mod 256] |}.
Next Obligation. intros data. constructor; [| constructor]. apply Z.mod_pos_bound. lia. Qed.
#[local] Existing Instance firstByteHasher.

Abbreviation memoryStore := (gmap string bytes).

(** The state machine allocates two numbers of client 1, which proposes both. *)
Definition firstLife : list cpOp :=
  [OpPerform (Action_AllocatedRequest 1 0); OpPerform (Action_AllocatedRequest 1 1); OpSync;
   OpPropose 1 0 (Some [10]); OpPropose 1 1 (Some [11]); OpReady; OpResults].
(** After a restart the second allocation has not been processed yet when the
    client proposes other data. *)
Definition secondLife : list cpOp :=
  [OpPerform (Action_AllocatedRequest 1 0); OpPropose 1 0 (Some [10]); OpPropose 1 1 (Some [12]);
   OpPerform (Action_AllocatedRequest 1 1); OpSync].
Definition storeAfter (r : outcome (cpWorld memoryStore)) : memoryStore := match r with Ok w => pw_store w | _ => ∅ end.
Definition reportedAfter (r : outcome (cpWorld memoryStore)) : EventList := match r with Ok w => reported w | _ => [] end.


Lemma reported_requests_retrievable_witness :
  exists w data, cpRun (cpStart (∅ : memoryStore)) firstLife = Ok w
    /\ stored (pw_store w) (mkAck 1 1 (Some [11])) = Some data /\ Some [11] = Some (digestOf data).
Proof.
  assert (Hb : backed (∅ : memoryStore)) by (intros id r d; cbn [allocated Store_laws kv_at memoryKV_laws]; by rewrite lookup_empty).
  destruct (reported_requests_retrievable (∅ : memoryStore) firstLife Hb) as (w & Hrun & _ & Hs).
  assert (Hin : Event_RequestPersisted (mkAck 1 1 (Some [11])) ∈ reportedAfter (cpRun (cpStart (∅ : memoryStore)) firstLife)) by (vm_compute; right; left).
  rewrite Hrun in Hin. destruct (Hs _ Hin) as (data & Hd & He). exists w, data. split; [exact Hrun |]. split; [exact Hd | exact He].
Defined.

(** A store that cannot write. *)
Definition brokenStore : RequestStore unit := {|
  GetAllocation := fun _ _ _ => Returned None;
  rs_PutAllocation := fun s _ _ _ => (s, Some "disk full"%string);
  GetRequest := fun _ _ => Returned None;
  rs_PutRequest := fun s _ _ => (s, Some "disk full"%string);
  rs_Sync := fun s => (s, None);
|}.

Definition allocatedClient : Client := (pushRequest (newClient 1) 0).1.

Lemma failed_proposal_cannot_be_retried_witness :
  Client_Propose (Store := brokenStore) tt (allocatedClient <| pc_nextReqNo := 1 |>) (mkClientWork None None) 0 (Some [5])
  = Ok (tt, allocatedClient <| pc_nextReqNo := 1 |>, mkClientWork None None, None).
Proof.
  refine (failed_proposal_cannot_be_retried (Store := brokenStore) tt tt allocatedClient _ (mkClientWork None None) _ 0 (Some [5]) (Some [5])
    "could not store requests: disk full" _ _ _ _); [discriminate | reflexivity | lia | vm_compute; reflexivity].
Defined.
