(* ===== verification/EventLog.v ===== *)
(** * Event log

    [pkg/eventlog/interceptor.go]: the recorder, which queues the events that
    reach the state machine and writes them to a stream, and the reader of
    such a stream.  A record is the length of the encoded event as a varint,
    followed by the encoding.  The protobuf encoding is a parameter, the
    compression in between is the identity on the bytes, and the encoder and
    decoder of varints are those of [encoding/binary]. *)
From S2P Require Import Prelude Msgs.

(** ** Varints (encoding/binary) *)

(** [PutUvarint]: seven bits a byte, low bits first; ten bytes hold 64 bits. *)
Fixpoint putUvarintLoop (fuel : nat) (x : Z) : bytes :=
  match fuel with
  | O => []
  | S fuel' => if x <? 128 then [Z.land x 255] else Z.lor (Z.land x 255) 128 :: putUvarintLoop fuel' (Z.shiftr x 7)
  end.
Definition PutUvarint (x : Z) : bytes := putUvarintLoop 10 x.

(** [PutVarint]: the sign goes to the lowest bit. *)
Definition PutVarint (x : Z) : bytes :=
  let ux := u64 (Z.shiftl (u64 x) 1) in
  PutUvarint (if x <? 0 then u64 (Z.lnot ux) else ux).

Inductive readError := EOF | ErrUnexpectedEOF | ErrOverflow.

(** [ReadUvarint] from the [i]-th byte on.  The end of the stream inside the
    number is [truncated], which depends on the version of the library. *)
Fixpoint readUvarintLoop (truncated : readError) (fuel : nat) (i x s : Z) (source : bytes) : (Z + readError) * bytes :=
  match fuel with
  | O => (inr ErrOverflow, source)
  | S fuel' =>
    match source with
    | [] => (inr (if i =? 0 then EOF else truncated), [])
    | b :: source' =>
      if b <? 128 then
        if (i =? 9) && (1 <? b) then (inr ErrOverflow, source')
        else (inl (Z.lor x (u64 (Z.shiftl b s))), source')
      else readUvarintLoop truncated fuel' (i + 1) (Z.lor x (u64 (Z.shiftl (Z.land b 127) s))) (s + 7) source'
    end
  end.

(** [ReadVarint]. *)
Definition ReadVarint (truncated : readError) (source : bytes) : (Z + readError) * bytes :=
  match readUvarintLoop truncated 10 0 0 0 source with
  | (inr e, source) => (inr e, source)
  | (inl ux, source) =>
    let x := s64 (Z.shiftr ux 1) in
    (inl (if Z.land ux 1 =? 0 then x else s64 (Z.lnot x)), source)
  end.

(** ** Records *)

Record recordedEvent := mkRecordedEvent {
  re_NodeId : Z;
  re_Time : Z;            (* int64 *)
  re_StateEvent : Event;
}.

(** The protobuf encoding: what it decodes is what it encoded. *)
Class EventCodec := mkEventCodec {
  marshal : recordedEvent -> fallible bytes;
  unmarshal : bytes -> fallible recordedEvent;
}.
Class EventCodecLaws `{EventCodec} := {
  unmarshal_marshal : forall e b, marshal e = Returned b -> unmarshal b = Returned e;
}.

(** The writes of a record: [dest] answers each of them with an error or not. *)
Definition writeSizePrefixedProto `{EventCodec} (dest : bytes -> bytes -> option string) (out : bytes) (msg : recordedEvent)
    : bytes * option string :=
  match marshal msg with
  | Failed error => (out, Some ("could not marshal: " +:+ error))
  | Returned msgBytes =>
    let lenBuf := PutVarint (s64 (Z.of_nat (length msgBytes))) in
    match dest out lenBuf with
    | Some error => (out, Some ("could not write length prefix: " +:+ error))
    | None =>
      let out := out ++ lenBuf in
      match dest out msgBytes with
      | Some error => (out, Some ("could not write message: " +:+ error))
      | None => (out ++ msgBytes, None)
      end
    end
  end.

Definition WriteRecordedEvent `{EventCodec} (dest : bytes -> bytes -> option string) (out : bytes) (event : recordedEvent) : bytes * option string :=
  writeSizePrefixedProto dest out event.

(** ** Reading *)

(** What is left of the stream, and the buffer that is reused. *)
Record Reader := mkReader {
  rd_source : bytes;
  rd_buffer : bytes;
}.

#[global] Instance eta_Reader : Eta Reader := mkEta (fun r => mkReader (rd_source r) (rd_buffer r)).

Definition NewReader (source : bytes) : Reader := mkReader source [].

(** The error of a read: the end of the stream, or a text. *)
Inductive readFailure := AtEOF | ReadFailure (error : string).

Definition readErrorText (e : readError) : string :=
  match e with
  | EOF => "EOF"
  | ErrUnexpectedEOF => "unexpected EOF"
  | ErrOverflow => "binary: varint overflows a 64-bit integer"
  end.

(** [buffer.Grow] panics on a negative count.  [io.CopyN] copies what there is. *)
Definition readSizePrefixedProto `{EventCodec} (truncated : readError) (r : Reader) : outcome (Reader * (recordedEvent + readFailure)) :=
  match ReadVarint truncated (rd_source r) with
  | (inr EOF, source) => Ok (r <| rd_source := source |>, inr AtEOF)
  | (inr e, source) => Ok (r <| rd_source := source |>, inr (ReadFailure ("could not read size prefix: " +:+ readErrorText e)))
  | (inl l, source) =>
    _ ← assertTrue (0 <=? l) "bytes.Buffer.Grow: negative count";
    let r := mkReader (drop (Z.to_nat l) source) (rd_buffer r ++ take (Z.to_nat l) source) in
    if Z.of_nat (length source) <? l then Ok (r, inr (ReadFailure "could not read message: EOF"))
    else match unmarshal (rd_buffer r) with
         | Failed error => Ok (r, inr (ReadFailure ("could not unmarshal message: " +:+ error)))
         | Returned msg => Ok (r, inl msg)
         end
  end.

Definition Reader_ReadEvent `{EventCodec} (truncated : readError) (r : Reader) : outcome (Reader * (recordedEvent + readFailure)) :=
  '(r, res) ← readSizePrefixedProto truncated r;
  match res with
  | inr AtEOF => Ok (r, inr AtEOF)
  | inr (ReadFailure error) => Ok (r, inr (ReadFailure ("error reading event: " +:+ error)))
  | inl event => Ok (r <| rd_buffer := [] |>, inl event)
  end.

(** The caller's loop: events until the end of the stream. *)
Fixpoint readAll `{EventCodec} (truncated : readError) (fuel : nat) (r : Reader) : outcome (list recordedEvent * readFailure) :=
  match fuel with
  | O => OutOfFuel
  | S fuel' =>
    '(r, res) ← Reader_ReadEvent truncated r;
    match res with
    | inr e => Ok ([], e)
    | inl event => '(events, e) ← readAll truncated fuel' r; Ok (event :: events, e)
    end
  end.

(** ** Lemmas *)

Lemma lor_shift (x b s : Z) : 0 <= s -> 0 <= x < 2 ^ s -> 0 <= b -> Z.lor x (b * 2 ^ s) = x + b * 2 ^ s.
Proof.
  intros Hs Hx Hb. assert (Hl : Z.land x (b * 2 ^ s) = 0).
  { apply Z.bits_inj'. intros n Hn. rewrite Z.land_spec, Z.bits_0. destruct (Z.ltb_spec n s).
    - rewrite (Z.mul_pow2_bits_low b s n) by lia. apply andb_false_r.
    - destruct (decide (x = 0)) as [-> | Hx0]; [by rewrite Z.testbit_0_l |]. rewrite (Z.bits_above_log2 x n); [done | lia |].
      apply Z.log2_lt_pow2; [lia |]. apply Z.lt_le_trans with (2 ^ s); [lia |]. apply Z.pow_le_mono_r; lia. }
  pose proof (Z.add_lor_land x (b * 2 ^ s)). lia.
Qed.

Lemma continuation_byte (x : Z) : 0 <= x -> Z.lor (Z.land x 255) 128 = x mod 128 + 128.
Proof.
  intros Hx. change 255 with (Z.ones 8). rewrite Z.land_ones by lia.
  assert (Hm : 0 <= x mod 2 ^ 8 < 2 ^ 8) by (apply Z.mod_pos_bound; lia).
  assert (Hr : x mod 128 = (x mod 2 ^ 8) mod 128) by (apply (Znumtheory.Zmod_div_mod 128 (2 ^ 8) x); [lia | lia | by exists 2]).
  rewrite Hr. generalize dependent (x mod 2 ^ 8). intros y Hy _.
  assert (Hall : forallb (fun y => Z.lor y 128 =? y mod 128 + 128) (seqZ 0 256) = true) by (vm_compute; reflexivity).
  rewrite forallb_forall in Hall. apply Z.eqb_eq, Hall, list_elem_of_In, elem_of_seqZ. lia.
Qed.

(** Reading back a number of at most 64 bits, from the [i]-th byte on. *)
Lemma readUvarint_put (truncated : readError) (fuel : nat) (i x y : Z) (rest : bytes) :
  i + Z.of_nat fuel = 10 -> 0 <= i -> 0 <= x < 2 ^ (7 * i) -> 0 <= y -> y * 2 ^ (7 * i) < 2 ^ 64 -> (i = 0 \/ 0 < y) ->
  (fuel <> 0)%nat ->
  readUvarintLoop truncated fuel i x (7 * i) (putUvarintLoop fuel y ++ rest) = (inl (x + y * 2 ^ (7 * i)), rest).
Proof.
  revert i x y. induction fuel as [|fuel IH]; intros i x y Hf Hi Hx Hy Hov Hpos Hne; [done |]. cbn [putUvarintLoop].
  assert (Hp : 0 < 2 ^ (7 * i)) by (apply Z.pow_pos_nonneg; lia).
  destruct (Z.ltb_spec y 128) as [Hlt | Hge].
  - assert (Hb : Z.land y 255 = y) by (change 255 with (Z.ones 8); rewrite Z.land_ones by lia; apply Z.mod_small; lia).
    rewrite Hb. cbn [app readUvarintLoop]. destruct (Z.ltb_spec y 128); [| lia].
    assert (Ho : (i =? 9) && (1 <? y) = false).
    { destruct (Z.eqb_spec i 9) as [-> |]; [| done]. destruct (Z.ltb_spec 1 y); [| done]. change (2 ^ (7 * 9)) with (2 ^ 63) in Hov. lia. }
    rewrite Ho. rewrite Z.shiftl_mul_pow2, u64_small by nia. rewrite lor_shift by lia. done.
  - rewrite continuation_byte by lia. cbn [app readUvarintLoop].
    assert (Hm : 0 <= y mod 128 < 128) by (apply Z.mod_pos_bound; lia).
    destruct (Z.ltb_spec (y mod 128 + 128) 128); [lia |].
    assert (Hl : Z.land (y mod 128 + 128) 127 = y mod 128).
    { change 127 with (Z.ones 7). rewrite Z.land_ones by lia. change (2 ^ 7) with 128. rewrite Z.add_mod, Z.mod_same, Z.add_0_r, !Z.mod_mod by lia. done. }
    rewrite Hl, Z.shiftl_mul_pow2, Z.shiftr_div_pow2 by lia. change (2 ^ 7) with 128. pose proof (Z.div_mod y 128 ltac:(lia)) as Hdm.
    rewrite u64_small by nia. rewrite lor_shift by lia.
    assert (Hpw : 2 ^ (7 * (i + 1)) = 128 * 2 ^ (7 * i)) by (replace (7 * (i + 1)) with (7 + 7 * i) by lia; rewrite Z.pow_add_r by lia; lia).
    replace (7 * i + 7) with (7 * (i + 1)) by lia.
    assert (Hd : 0 < y / 128) by (apply Z.div_str_pos; lia).
    assert (Hfz : (fuel <> 0)%nat).
    { intros ->. assert (i = 9) by lia. subst i. change (2 ^ (7 * 9)) with (2 ^ 63) in Hov. lia. }
    rewrite IH; [| lia | lia | rewrite Hpw; nia | lia | rewrite Hpw; nia | lia | done]. f_equal. f_equal. rewrite Hpw. nia.
Qed.

Lemma ReadVarint_Put (truncated : readError) (x : Z) (rest : bytes) : 0 <= x < 2 ^ 63 -> ReadVarint truncated (PutVarint x ++ rest) = (inl x, rest).
Proof.
  intros Hx. unfold ReadVarint, PutVarint, PutUvarint. destruct (Z.ltb_spec x 0); [lia |].
  rewrite Z.shiftl_mul_pow2, (u64_small x) by lia. rewrite u64_small by lia.
  change 0 with (7 * 0) at 3. rewrite readUvarint_put by lia. cbn [Z.mul Z.pow Z.add]. rewrite Z.mul_1_r, Z.add_0_l.
  assert (Hs : Z.shiftr (x * 2 ^ 1) 1 = x) by (rewrite Z.shiftr_div_pow2 by lia; by rewrite Z.div_mul by lia).
  assert (Hl : Z.land (x * 2 ^ 1) 1 = 0) by (change 1 with (Z.ones 1) at 2; rewrite Z.land_ones by lia; apply Z.mod_mul; lia).
  change (Z.pow_pos 2 1) with (2 ^ 1) in *. rewrite Hs, Hl. cbn [Z.eqb]. unfold s64. rewrite u64_small by lia. destruct (Z.ltb_spec x (2 ^ 63)); [done | lia].
Qed.

(** ** The recorder *)

(** The time source maps the clock, in milliseconds, to a time stamp. *)
Inductive RecorderOpt :=
| timeSourceOpt (source : Z -> Z)
| retainRequestDataOpt
| compressionLevelOpt (level : Z)
| bufferSizeOpt (size : Z).

Definition DefaultCompressionLevel : Z := 1.
Definition DefaultBufferSize : Z := 5000.

Record eventTime := mkEventTime { et_event : Event; et_time : Z }.

(** [rc_eventC] is the content of the channel and [rc_exitErr] is set when
    [exitC] is closed.  [rc_out] is the stream; [rc_accepted] and [rc_written]
    record the events for which [Intercept] returned nil and those that are on
    the stream. *)
Record Recorder := mkRecorder {
  rc_nodeID : Z;
  rc_timeSource : Z -> Z;
  rc_compressionLevel : Z;
  rc_retainRequestData : bool;
  rc_capacity : Z;
  rc_eventC : list eventTime;
  rc_doneC : bool;
  rc_exitErr : option string;
  rc_out : bytes;
  rc_accepted : list eventTime;
  rc_written : list eventTime;
}.

#[global] Instance eta_Recorder : Eta Recorder := mkEta (fun r =>
  mkRecorder (rc_nodeID r) (rc_timeSource r) (rc_compressionLevel r) (rc_retainRequestData r) (rc_capacity r)
    (rc_eventC r) (rc_doneC r) (rc_exitErr r) (rc_out r) (rc_accepted r) (rc_written r)).

Definition errStopped : string := "interceptor stopped at caller request".

Definition applyOpt (opt : RecorderOpt) (i : Recorder) : outcome Recorder :=
  match opt with
  | timeSourceOpt source => Ok (i <| rc_timeSource := source |>)
  | retainRequestDataOpt => Ok (i <| rc_retainRequestData := true |>)
  | compressionLevelOpt level => Ok (i <| rc_compressionLevel := level |>)
  | bufferSizeOpt size => _ ← assertTrue (0 <=? size) "makechan: size out of range"; Ok (i <| rc_capacity := size |>)
  end.

Definition NewRecorder (nodeID startTime : Z) (opts : list RecorderOpt) : outcome Recorder :=
  forRange applyOpt opts
    (mkRecorder nodeID (fun now => now - startTime) DefaultCompressionLevel false DefaultBufferSize [] false None [] [] []).

(** The steps of the recorder's goroutine and of its callers.  A send on the
    channel goes into the buffer, or, when the buffer is empty, to the waiting
    goroutine. *)
Inductive recorderStep :=
| Intercept (event : Event) (now : Z)      (* returns nil *)
| InterceptDirect (event : Event) (now : Z)
| StartRun                                 (* [gzip.NewWriterLevel] *)
| RunWrite                                 (* takes an event and writes it *)
| RunExit                                  (* sees [doneC] and an empty channel *)
| Stop.

(** [write] of [run]. *)
Definition Recorder_write `{EventCodec} (dest : bytes -> bytes -> option string) (i : Recorder) (e : eventTime) : Recorder :=
  match WriteRecordedEvent dest (rc_out i) (mkRecordedEvent (rc_nodeID i) (et_time e) (et_event e)) with
  | (out, None) => i <| rc_out := out |> <| rc_written := rc_written i ++ [e] |>
  | (out, Some error) => i <| rc_out := out |> <| rc_exitErr := Some ("error serializing to stream: " +:+ error) |>
  end.

(** The accepted levels of compress/gzip. *)
Definition levelOk (level : Z) : bool := (-2 <=? level) && (level <=? 9).

(** The state after a step, where it is possible. *)
Definition Recorder_step `{EventCodec} (dest : bytes -> bytes -> option string) (i : Recorder) (s : recorderStep) : option Recorder :=
  match s with
  | Intercept event now =>
    if Z.of_nat (length (rc_eventC i)) <? rc_capacity i then
      let e := mkEventTime event (rc_timeSource i now) in
      Some (i <| rc_eventC := rc_eventC i ++ [e] |> <| rc_accepted := rc_accepted i ++ [e] |>)
    else None
  | InterceptDirect event now =>
    match rc_eventC i, rc_exitErr i with
    | [], None =>
      let e := mkEventTime event (rc_timeSource i now) in
      Some (Recorder_write dest (i <| rc_accepted := rc_accepted i ++ [e] |>) e)
    | _, _ => None
    end
  | StartRun =>
    if levelOk (rc_compressionLevel i) then None
    else Some (i <| rc_exitErr := Some "gzip: invalid compression level"%string |>)
  | RunWrite =>
    match rc_eventC i, rc_exitErr i with
    | e :: eventC, None => Some (Recorder_write dest (i <| rc_eventC := eventC |>) e)
    | _, _ => None
    end
  | RunExit =>
    match rc_eventC i, rc_exitErr i, rc_doneC i with
    | [], None, true => Some (i <| rc_exitErr := Some errStopped |>)
    | _, _, _ => None
    end
  | Stop => if rc_doneC i then None else Some (i <| rc_doneC := true |>)
  end.

Fixpoint Recorder_run `{EventCodec} (dest : bytes -> bytes -> option string) (i : Recorder) (steps : list recorderStep) : option Recorder :=
  match steps with
  | [] => Some i
  | s :: steps' => i ← Recorder_step dest i s; Recorder_run dest i steps'
  end.

(** ** Specification *)

Definition recordOf (nodeID : Z) (e : eventTime) : recordedEvent := mkRecordedEvent nodeID (et_time e) (et_event e).

(** A stream that holds the records of [events]. *)
Inductive streamOf `{EventCodec} : list recordedEvent -> bytes -> Prop :=
| stream_nil : streamOf [] []
| stream_snoc events out e b :
    streamOf events out -> marshal e = Returned b ->
    streamOf (events ++ [e]) (out ++ PutVarint (s64 (Z.of_nat (length b))) ++ b).

(** ** Lemmas *)

Section RecorderLemmas.

Context `{EC : EventCodec} {Laws : EventCodecLaws}.

Lemma write_stream (dest : bytes -> bytes -> option string) (events : list recordedEvent) (out out' : bytes) (e : recordedEvent) :
  streamOf events out -> WriteRecordedEvent dest out e = (out', None) -> streamOf (events ++ [e]) out'.
Proof.
  intros Hs. unfold WriteRecordedEvent, writeSizePrefixedProto. destruct (marshal e) as [b | error] eqn:Hm; [| done].
  destruct (dest out _); [done |]. destruct (dest _ b); [done |]. intros [= <-]. rewrite <- app_assoc. by constructor.
Qed.

(** One record at the front of the stream. *)
Lemma read_record (truncated : readError) (e : recordedEvent) (b rest : bytes) :
  marshal e = Returned b -> Z.of_nat (length b) < 2 ^ 63 ->
  Reader_ReadEvent truncated (mkReader ((PutVarint (s64 (Z.of_nat (length b))) ++ b) ++ rest) []) = Ok (mkReader rest [], inl e).
Proof.
  intros Hm Hl. assert (Hs : s64 (Z.of_nat (length b)) = Z.of_nat (length b)).
  { unfold s64. rewrite u64_small by lia. by destruct (Z.ltb_spec (Z.of_nat (length b)) (2 ^ 63)); [| lia]. }
  rewrite Hs, <- app_assoc. unfold Reader_ReadEvent, readSizePrefixedProto. cbn [rd_source rd_buffer]. rewrite ReadVarint_Put by lia.
  assert (H0 : (0 <=? Z.of_nat (length b)) = true) by lia. rewrite H0. cbn [assertTrue]. rewrite bind_ok.
  rewrite Nat2Z.id, drop_app_length, take_app_length. cbn [rd_source rd_buffer app].
  assert (H1 : (Z.of_nat (length (b ++ rest)) <? Z.of_nat (length b)) = false) by (apply Z.ltb_ge; rewrite length_app, Nat2Z.inj_add; lia). rewrite H1.
  rewrite (unmarshal_marshal _ _ Hm). done.
Qed.

Lemma stream_cons (events : list recordedEvent) (out : bytes) : streamOf events out ->
  match events with
  | [] => out = []
  | e :: events' => exists b out', marshal e = Returned b /\ out = (PutVarint (s64 (Z.of_nat (length b))) ++ b) ++ out' /\ streamOf events' out'
  end.
Proof.
  induction 1 as [|events out e b Hs IH Hm]; [done |]. destruct events as [|e1 events]; cbn.
  - subst out. exists b, []. rewrite app_nil_r. split; [done |]. split; [done | constructor].
  - destruct IH as (b1 & out1 & Hm1 & -> & Hs1). exists b1, (out1 ++ PutVarint (s64 (Z.of_nat (length b))) ++ b).
    split; [done |]. split; [by rewrite <- !app_assoc | by constructor].
Qed.

Lemma stream_read (truncated : readError) (events : list recordedEvent) (out : bytes) :
  streamOf events out -> Z.of_nat (length out) < 2 ^ 63 ->
  readAll truncated (S (length events)) (NewReader out) = Ok (events, AtEOF).
Proof.
  revert out. induction events as [|e events IH]; intros out Hs Hl; apply stream_cons in Hs.
  - by subst out.
  - destruct Hs as (b & out' & Hm & -> & Hs). rewrite !length_app in Hl. cbn [length]. specialize (IH out' Hs ltac:(lia)).
    revert IH. generalize (S (length events)). intros n IH. cbn [readAll]. unfold NewReader.
    rewrite (read_record _ e b out' Hm) by lia. rewrite bind_ok. fold (NewReader out'). by rewrite IH.
Qed.

(** What is accepted is on the stream or in the channel, until a write fails. *)
Record recorder_wf (i : Recorder) : Prop := {
  rw_queue : (rc_exitErr i = None \/ rc_exitErr i = Some errStopped) -> rc_accepted i = rc_written i ++ rc_eventC i;
  rw_stream : (rc_exitErr i = None \/ rc_exitErr i = Some errStopped) -> streamOf (recordOf (rc_nodeID i) <$> rc_written i) (rc_out i);
}.

Lemma recorder_write_wf (dest : bytes -> bytes -> option string) (i : Recorder) (e : eventTime) :
  rc_exitErr i = None -> rc_accepted i = rc_written i ++ e :: rc_eventC i ->
  streamOf (recordOf (rc_nodeID i) <$> rc_written i) (rc_out i) -> recorder_wf (Recorder_write dest i e).
Proof.
  intros Hx Ha Hs. unfold Recorder_write. destruct (WriteRecordedEvent _ _ _) as [out [error |]] eqn:Hw.
  - split; cbn; intros [? | [=]]; done.
  - split; cbn; intros _; [by rewrite <- app_assoc |]. rewrite fmap_app. by eapply write_stream.
Qed.

Lemma recorder_step_wf (dest : bytes -> bytes -> option string) (i i' : Recorder) (s : recorderStep) :
  recorder_wf i -> Recorder_step dest i s = Some i' -> recorder_wf i'.
Proof.
  intros Hwf Hs. pose proof Hwf as [Hq Hst]. destruct s; cbn in Hs.
  - destruct (_ <? _); [| done]. injection Hs as <-. split; cbn; intros Hx; [| auto]. rewrite (Hq Hx). by rewrite <- app_assoc.
  - destruct (rc_eventC i) as [|x l] eqn:He; [| done]. destruct (rc_exitErr i) eqn:Hx; [done |]. injection Hs as <-.
    apply recorder_write_wf; cbn; [done | | by apply Hst; left]. rewrite He, Hq by (by left). by rewrite app_nil_r.
  - destruct (levelOk _); [done |]. injection Hs as <-. split; cbn; intros [? | [=]]; done.
  - destruct (rc_eventC i) as [|x l] eqn:He; [done |]. destruct (rc_exitErr i) eqn:Hx; [done |]. injection Hs as <-.
    apply recorder_write_wf; cbn; [done | by apply Hq; left | by apply Hst; left].
  - destruct (rc_eventC i) as [|x l] eqn:He; [| done]. destruct (rc_exitErr i) eqn:Hx; [done |]. destruct (rc_doneC i); [| done]. injection Hs as <-.
    split; cbn; intros _; [rewrite He |]; auto.
  - destruct (rc_doneC i); [done |]. injection Hs as <-. by split.
Qed.

Lemma recorder_run_wf (dest : bytes -> bytes -> option string) (steps : list recorderStep) (i i' : Recorder) :
  recorder_wf i -> Recorder_run dest i steps = Some i' -> recorder_wf i'.
Proof.
  revert i. induction steps as [|s steps IH]; intros i Hwf H; cbn in H; [by injection H as <- |].
  destruct (Recorder_step dest i s) as [i1 |] eqn:Hs; [| done]. cbn in H. eapply IH; [| exact H]. by eapply recorder_step_wf.
Qed.

Lemma NewRecorder_fresh (nodeID startTime : Z) (opts : list RecorderOpt) (i : Recorder) :
  NewRecorder nodeID startTime opts = Ok i ->
  rc_eventC i = [] /\ rc_accepted i = [] /\ rc_written i = [] /\ rc_out i = [] /\ rc_exitErr i = None /\ rc_nodeID i = nodeID.
Proof.
  unfold NewRecorder. apply (forRange_inv (fun i => rc_eventC i = [] /\ rc_accepted i = [] /\ rc_written i = [] /\ rc_out i = []
    /\ rc_exitErr i = None /\ rc_nodeID i = nodeID)); [| done]. intros opt s s' _ Hs H. destruct opt; cbn in H; runs; cbn; done.
Qed.

End RecorderLemmas.

(** ** Properties *)

Section RecorderProperties.

Context `{EC : EventCodec} {Laws : EventCodecLaws}.


(** Writing events and reading them back is the identity, and the
    reader sees the end of the stream after the last of them. *)
Theorem recorded_events_read_back (dest : bytes -> bytes -> option string) (truncated : readError) (events : list recordedEvent) (out : bytes) :
  foldl (fun st e => match st with (out, None) => WriteRecordedEvent dest out e | _ => st end) ([], None) events = (out, None) ->
  Z.of_nat (length out) < 2 ^ 63 ->
  readAll truncated (S (length events)) (NewReader out) = Ok (events, AtEOF).
Proof.
  intros Hw Hl. apply stream_read; [| done]. clear Hl. revert out Hw. induction events as [|e events IH] using rev_ind; intros out Hw.
  - injection Hw as <-. constructor.
  - rewrite foldl_snoc in Hw. destruct (foldl _ _ events) as [out1 [error |]]; [done |]. eapply write_stream; [by apply IH | exact Hw].
Qed.

(** A corrupt length crashes the reader.  Where the varint at the front
    of the stream encodes a negative number, [ReadEvent] panics instead of
    returning an error. *)
Theorem negative_length_panics (truncated : readError) (r : Reader) (l : Z) (source : bytes) :
  ReadVarint truncated (rd_source r) = (inl l, source) -> l < 0 ->
  Reader_ReadEvent truncated r = Panic "bytes.Buffer.Grow: negative count".
Proof.
  intros Hv Hl. unfold Reader_ReadEvent, readSizePrefixedProto. rewrite Hv. assert (H0 : (0 <=? l) = false) by lia. by rewrite H0.
Qed.

End RecorderProperties.

(** ** Witnesses *)

(** A codec of the events that only differ in their time, a byte. *)
Definition tickCodec : EventCodec := {|
  marshal := fun e => match re_StateEvent e with
    | Event_TickElapsed => Returned [re_NodeId e; re_Time e]
    | _ => Failed "unknown"%string
    end;
  unmarshal := fun b => match b with
    | [n; t] => Returned (mkRecordedEvent n t Event_TickElapsed)
    | _ => Failed "malformed"%string
    end;
|}.
#[local] Existing Instance tickCodec.

Lemma tickCodec_laws : EventCodecLaws.
Proof.
  split. intros [n t e] b. cbn. destruct e; intros [= <-]; done.
Defined.

Definition noError : bytes -> bytes -> option string := fun _ _ => None.
Definition startRecorder : Recorder :=
  match NewRecorder 3 100 [bufferSizeOpt 1] with Ok i => i | _ => mkRecorder 0 id 0 false 0 [] false None [] [] [] end.
Definition recorderSteps : list recorderStep :=
  [InterceptDirect Event_TickElapsed 105; Intercept Event_TickElapsed 107; Stop; RunWrite].
Definition recorderAfter (steps : list recorderStep) : Recorder := default startRecorder (Recorder_run noError startRecorder steps).


Lemma recorded_events_read_back_witness :
  readAll EOF 2 (NewReader [4; 1; 9]) = Ok ([mkRecordedEvent 1 9 Event_TickElapsed], AtEOF).
Proof.
  refine (recorded_events_read_back (Laws := tickCodec_laws) noError EOF [mkRecordedEvent 1 9 Event_TickElapsed] [4; 1; 9] _ _);
    vm_compute; reflexivity.
Defined.

Lemma negative_length_panics_witness : Reader_ReadEvent EOF (NewReader [1]) = Panic "bytes.Buffer.Grow: negative count".
Proof. apply (negative_length_panics EOF (NewReader [1]) (-1) []); [vm_compute; reflexivity | lia]. Defined.

(** After the goroutine has exited, [Intercept] may still accept an event,
    which is never written: the send to the channel is possible as well. *)
Example intercept_after_exit :
  exists i, Recorder_run noError startRecorder [Stop; RunExit; Intercept Event_TickElapsed 100] = Some i
    /\ rc_exitErr i = Some errStopped /\ length (rc_accepted i) = 1%nat /\ rc_written i = [].
Proof. eexists. split; [reflexivity |]. by split. Qed.
