(* ===== verification/SimpleWAL.v ===== *)
(** * Write-ahead log

    [pkg/simplewal/simplewal.go]: the write-ahead log over a log library
    (tidwall/wal) and the protobuf encoding, neither of them part of the
    repository.  The library is a [WalLog] whose documented behaviour (entries
    have consecutive indices, a failed call changes nothing) is [WalLogLaws]. *)
From stdpp Require Import pretty.
From S2P Require Import Prelude Msgs Actions Persisted.

(** ** The log library *)

Class WalLog (L : Type) := mkWalLog {
  log_FirstIndex : L -> fallible Z;
  log_LastIndex : L -> fallible Z;
  log_Read : L -> Z -> fallible bytes;
  log_Write : L -> Z -> bytes -> L * option string;
  log_TruncateFront : L -> Z -> L * option string;
  log_Sync : L -> L * option string;
}.

(** The entries with their indices.  An empty log has the first index 0. *)
Class WalLogLaws (L : Type) `{WalLog L} := mkWalLogLaws {
  log_entries : L -> list (Z * bytes);
  log_consecutive : forall l, exists base, 0 < base /\ base + Z.of_nat (length (log_entries l)) < 2 ^ 64
    /\ (log_entries l).*1 = seqZ base (Z.of_nat (length (log_entries l)));
  log_first : forall l f, log_FirstIndex l = Returned f -> f = default 0 (fst <$> head (log_entries l));
  log_last : forall l f, log_LastIndex l = Returned f -> f = default 0 (fst <$> last (log_entries l));
  log_read : forall l i b, log_Read l i = Returned b -> (i, b) ∈ log_entries l;
  log_write : forall l i b l' error, log_Write l i b = (l', error) ->
    log_entries l' = if error then log_entries l else log_entries l ++ [(i, b)];
  log_truncate : forall l i l' error, log_TruncateFront l i = (l', error) ->
    log_entries l' = if error then log_entries l else filter (fun e => i <= e.1) (log_entries l);
  log_sync : forall l, log_entries (log_Sync l).1 = log_entries l;
}.

(** The protobuf encoding of entries. *)
Class EntryCodec := mkEntryCodec {
  marshalEntry : Persistent -> fallible bytes;
  unmarshalEntry : bytes -> fallible Persistent;
}.
Class EntryCodecLaws `{EntryCodec} := {
  unmarshal_marshal_entry : forall p b, marshalEntry p = Returned b -> unmarshalEntry b = Returned p;
}.

(** ** Operations *)

Section WAL.

Context {L : Type} {Log : WalLog L} {Codec : EntryCodec}.

Definition WAL_IsEmpty (w : L) : fallible bool :=
  match log_FirstIndex w with
  | Failed error => Failed ("could not read first index: " +:+ error)
  | Returned firstIndex => Returned (firstIndex =? 0)
  end.

(** The loop of [LoadAll] from index [i] on; [acc] are the calls of [forEach]. *)
Fixpoint loadLoop (fuel : nat) (w : L) (i lastIndex : Z) (acc : list (Z * Persistent)) : outcome (list (Z * Persistent) * option string) :=
  match fuel with
  | O => OutOfFuel
  | S fuel' =>
    if i <=? lastIndex then
      match log_Read w i with
      | Failed error => Ok (acc, Some ("could not read index " +:+ pretty i +:+ ": " +:+ error))
      | Returned data =>
        match unmarshalEntry data with
        | Failed error => Ok (acc, Some ("error decoding to proto, is the WAL corrupt?: " +:+ error))
        | Returned result => loadLoop fuel' w (i +! 1) lastIndex (acc ++ [(i, result)])
        end
      end
    else Ok (acc, None)
  end.

Definition WAL_LoadAll (w : L) : outcome (list (Z * Persistent) * option string) :=
  match log_FirstIndex w with
  | Failed error => Ok ([], Some ("could not read first index: " +:+ error))
  | Returned firstIndex =>
    if firstIndex =? 0 then Ok ([], None)
    else match log_LastIndex w with
         | Failed error => Ok ([], Some ("could not read first index: " +:+ error))
         | Returned lastIndex => loadLoop (S (Z.to_nat (lastIndex - firstIndex + 1))) w firstIndex lastIndex []
         end
  end.

Definition WAL_Write (w : L) (index : Z) (p : Persistent) : L * option string :=
  match marshalEntry p with
  | Failed error => (w, Some ("could not marshal: " +:+ error))
  | Returned data => log_Write w index data
  end.

Definition WAL_Truncate (w : L) (index : Z) : L * option string := log_TruncateFront w index.
Definition WAL_Sync (w : L) : L * option string := log_Sync w.

(** What the processor does to the log, as long as it succeeds. *)
Definition walPerform (w : L) (a : Action) : L * option string :=
  match a with
  | Action_AppendWriteAhead index data => WAL_Write w index data
  | Action_TruncateWriteAhead index => WAL_Truncate w index
  | _ => (w, None)
  end.
Fixpoint walPerformAll (w : L) (acts : ActionList) : L * option string :=
  match acts with
  | [] => WAL_Sync w
  | a :: acts' =>
    match walPerform w a with
    | (w, Some error) => (w, Some error)
    | (w, None) => walPerformAll w acts'
    end
  end.

End WAL.

(** ** Lemmas *)

Section WALLemmas.

Context {L : Type} {Log : WalLog L} {Laws : WalLogLaws L} {Codec : EntryCodec} {CLaws : EntryCodecLaws}.

(** The log holds the encodings of these entries. *)
Definition holds (w : L) (wal : list (Z * Persistent)) : Prop :=
  Forall2 (fun e b => e.1 = b.1 /\ marshalEntry e.2 = Returned b.2) wal (log_entries w).

Lemma holds_indices (w : L) (wal : list (Z * Persistent)) : holds w wal -> wal.*1 = (log_entries w).*1.
Proof. induction 1 as [|e b wal bs [He _] _ IH]; [done |]. cbn. by f_equal. Qed.

Lemma walPerform_holds (w w' : L) (a : Action) (wal : list (Z * Persistent)) :
  holds w wal -> walPerform w a = (w', None) -> holds w' (walApply wal a).
Proof.
  intros Hh H. destruct a; cbn in *; try (by injection H as <-).
  - unfold WAL_Write in H. destruct (marshalEntry data) as [b | e] eqn:Hm; [| done]. apply log_write in H. cbn in H. unfold holds.
    rewrite H. by apply Forall2_app; [| constructor].
  - unfold WAL_Truncate in H. apply log_truncate in H. cbn in H. unfold holds. rewrite H. clear H.
    induction Hh as [|e b wal bs [He Hm] _ IH]; [done |]. rewrite !filter_cons, He. case_decide; [by constructor | done].
Qed.

Lemma walPerformAll_holds (w w' : L) (acts : ActionList) (wal : list (Z * Persistent)) :
  holds w wal -> walPerformAll w acts = (w', None) -> holds w' (walAfter acts wal).
Proof.
  revert w wal. induction acts as [|a acts IH]; intros w wal Hh H; cbn in H.
  - unfold holds. assert (He : log_entries w' = log_entries w) by (rewrite <- (log_sync w); unfold WAL_Sync in H; by rewrite H). by rewrite He.
  - destruct (walPerform w a) as [w1 [e |]] eqn:Hp; [done |]. eapply IH; [| exact H]. by eapply walPerform_holds.
Qed.

(** An index of the log has one entry. *)
Lemma read_holds (w : L) (wal : list (Z * Persistent)) (base : Z) (i : nat) (b : bytes) :
  holds w wal -> (log_entries w).*1 = seqZ base (Z.of_nat (length (log_entries w))) ->
  log_Read w (base + Z.of_nat i) = Returned b ->
  exists p, wal !! i = Some (base + Z.of_nat i, p) /\ unmarshalEntry b = Returned p.
Proof.
  intros Hh Hidx Hr. apply log_read, list_elem_of_lookup in Hr as [j Hj].
  assert (Hi : j = i).
  { assert (Hk : (log_entries w).*1 !! j = Some (base + Z.of_nat i)) by (rewrite list_lookup_fmap, Hj; done).
    rewrite Hidx in Hk. apply lookup_seqZ in Hk. lia. }
  subst j. apply Forall2_lookup_r with (i := i) (y := (base + Z.of_nat i, b)) in Hh as ([k p] & Hp & [Hk Hm]); [| done].
  cbn in Hk, Hm. subst k. exists p. split; [done |]. by apply unmarshal_marshal_entry.
Qed.

Lemma loadLoop_spec (w : L) (wal : list (Z * Persistent)) (base : Z) (fuel i : nat) :
  holds w wal -> (log_entries w).*1 = seqZ base (Z.of_nat (length (log_entries w))) -> 0 <= base -> base + Z.of_nat (length wal) < 2 ^ 64 ->
  (i <= length wal)%nat -> (length wal < fuel + i)%nat ->
  exists res error, loadLoop fuel w (base + Z.of_nat i) (base + Z.of_nat (length wal) - 1) (take i wal) = Ok (res, error)
    /\ prefix res wal /\ (error = None -> res = wal).
Proof.
  intros Hh Hidx Hb Hov. revert i. induction fuel as [|fuel IH]; intros i Hi Hf; [lia |]. cbn [loadLoop].
  assert (Htake : prefix (take i wal) wal) by (exists (drop i wal); by rewrite take_drop).
  destruct (Z.leb_spec (base + Z.of_nat i) (base + Z.of_nat (length wal) - 1)) as [Hle | Hgt].
  - destruct (log_Read w (base + Z.of_nat i)) as [b | e] eqn:Hr; [| by eexists _, _].
    destruct (read_holds w wal base i b Hh Hidx Hr) as (p & Hp & Hu). rewrite Hu. rewrite (add64_small (base + Z.of_nat i) 1) by lia.
    replace (base + Z.of_nat i + 1) with (base + Z.of_nat (S i)) by lia. rewrite <- (take_S_r wal i _ Hp). apply IH; lia.
  - eexists _, _. split; [reflexivity |]. split; [done |]. intros _. apply take_ge. lia.
Qed.

(** [LoadAll] returns the entries, or an error and some of the first of them. *)
Lemma LoadAll_holds (w : L) (wal : list (Z * Persistent)) : holds w wal ->
  exists res error, WAL_LoadAll w = Ok (res, error) /\ prefix res wal /\ (error = None -> res = wal).
Proof.
  intros Hh. destruct (log_consecutive w) as (base & Hb & Hov & Hidx). pose proof (Forall2_length _ _ _ Hh) as Hlen.
  assert (Hnil : forall e : string, exists res error, Ok (@nil (Z * Persistent), Some e) = Ok (res, error) /\ prefix res wal /\ (error = None -> res = wal))
    by (intros e; eexists _, _; split; [reflexivity |]; split; [apply prefix_nil | done]).
  unfold WAL_LoadAll. destruct (log_FirstIndex w) as [f | e] eqn:Hf; [| apply Hnil]. apply log_first in Hf.
  destruct (log_entries w) as [|b0 bs] eqn:He.
  { cbn in Hf. subst f. cbn. eexists _, _. split; [reflexivity |]. apply nil_length_inv in Hlen as ->. done. }
  rewrite <- He in *. assert (Hfb : f = base).
  { rewrite Hf, He. cbn. rewrite He in Hidx. cbn [length] in Hidx. rewrite Nat2Z.inj_succ, seqZ_cons in Hidx by lia. by injection Hidx. }
  subst f. rewrite Hfb. destruct (Z.eqb_spec base 0); [lia |]. destruct (log_LastIndex w) as [l | e] eqn:Hl; [| apply Hnil]. apply log_last in Hl.
  assert (Hll : l = base + Z.of_nat (length wal) - 1).
  { rewrite Hl, <- fmap_last, Hidx, last_lookup, length_seqZ, Nat2Z.id, Hlen. rewrite lookup_seqZ_lt; [| rewrite He; cbn [length]; lia].
    cbn. rewrite He. cbn [length]. lia. }
  rewrite Hll. replace (base + Z.of_nat (length wal) - 1 - base + 1) with (Z.of_nat (length wal)) by lia. rewrite Nat2Z.id.
  pose proof (loadLoop_spec w wal base (S (length wal)) 0 Hh Hidx ltac:(lia) ltac:(lia) ltac:(lia) ltac:(lia)) as H.
  cbn [Z.of_nat take] in H. rewrite Z.add_0_r in H. exact H.
Qed.

End WALLemmas.

(** ** Properties *)

Section WALProperties.

Context {L : Type} {Log : WalLog L} {Laws : WalLogLaws L} {Codec : EntryCodec} {CLaws : EntryCodecLaws}.


End WALProperties.

(** ** Witnesses *)

(** A log in memory: the first index and the entries, which must follow on. *)
Record memoryLog := mkMemoryLog {
  ml_first : Z;
  ml_data : list bytes;
  ml_bound : 0 < ml_first /\ ml_first + Z.of_nat (length ml_data) < 2 ^ 64;
}.

Definition ml_entries (l : memoryLog) : list (Z * bytes) := zip (seqZ (ml_first l) (Z.of_nat (length (ml_data l)))) (ml_data l).

Lemma write_bound (l : memoryLog) (i : Z) (b : bytes) :
  i = ml_first l + Z.of_nat (length (ml_data l)) /\ i + 1 < 2 ^ 64 ->
  0 < ml_first l /\ ml_first l + Z.of_nat (length (ml_data l ++ [b])) < 2 ^ 64.
Proof. intros [-> H]. destruct (ml_bound l). rewrite length_app. cbn. lia. Qed.

Lemma truncate_bound (l : memoryLog) (i : Z) :
  ml_first l <= i < ml_first l + Z.of_nat (length (ml_data l)) ->
  0 < i /\ i + Z.of_nat (length (drop (Z.to_nat (i - ml_first l)) (ml_data l))) < 2 ^ 64.
Proof. intros [H1 H2]. destruct (ml_bound l). rewrite length_drop. lia. Qed.

Definition memoryWrite (l : memoryLog) (i : Z) (b : bytes) : memoryLog * option string :=
  match decide (i = ml_first l + Z.of_nat (length (ml_data l)) /\ i + 1 < 2 ^ 64) with
  | left H => (mkMemoryLog (ml_first l) (ml_data l ++ [b]) (write_bound l i b H), None)
  | right _ => (l, Some "out of order"%string)
  end.

Definition memoryTruncate (l : memoryLog) (i : Z) : memoryLog * option string :=
  match decide (ml_first l <= i < ml_first l + Z.of_nat (length (ml_data l))) with
  | left H => (mkMemoryLog i (drop (Z.to_nat (i - ml_first l)) (ml_data l)) (truncate_bound l i H), None)
  | right _ => (l, Some "out of range"%string)
  end.

Definition memoryWal : WalLog memoryLog := {|
  log_FirstIndex := fun l => Returned (default 0 (fst <$> head (ml_entries l)));
  log_LastIndex := fun l => Returned (default 0 (fst <$> last (ml_entries l)));
  log_Read := fun l i => match ml_entries l !! Z.to_nat (i - ml_first l) with
    | Some e => if e.1 =? i then Returned e.2 else Failed "not found"%string
    | None => Failed "not found"%string
    end;
  log_Write := memoryWrite;
  log_TruncateFront := memoryTruncate;
  log_Sync := fun l => (l, None);
|}.
#[local] Existing Instance memoryWal.

Lemma ml_indices (l : memoryLog) : (ml_entries l).*1 = seqZ (ml_first l) (Z.of_nat (length (ml_entries l))).
Proof.
  unfold ml_entries. rewrite fst_zip by (rewrite length_seqZ; lia). f_equal. rewrite length_zip, length_seqZ. lia.
Qed.

Program Definition memoryWal_laws : WalLogLaws memoryLog := {| log_entries := ml_entries |}.
Next Obligation.
  intros l. exists (ml_first l). destruct (ml_bound l) as [H1 H2]. split; [done |]. split; [| apply ml_indices].
  unfold ml_entries. rewrite length_zip, length_seqZ. lia.
Qed.
Next Obligation. intros l f [= <-]. done. Qed.
Next Obligation. intros l f [= <-]. done. Qed.
Next Obligation.
  intros l i b. cbn. destruct (ml_entries l !! _) as [[k d] |] eqn:He; [| done]. cbn. destruct (Z.eqb_spec k i) as [-> |]; [| done].
  intros [= <-]. by eapply list_elem_of_lookup_2.
Qed.
Next Obligation.
  intros l i b l' error. cbn. unfold memoryWrite. destruct (decide _) as [[-> Hi] |]; intros [= <- <-]; [| done].
  unfold ml_entries. cbn. rewrite length_app, Nat2Z.inj_add, seqZ_app by lia. rewrite zip_with_app by (rewrite length_seqZ; lia). done.
Qed.
Next Obligation.
  intros l i l' error. cbn. unfold memoryTruncate. destruct (decide _) as [[H1 H2] |]; intros [= <- <-]; [| done].
  unfold ml_entries. cbn. set (n := Z.to_nat (i - ml_first l)). rewrite <- (take_drop n (ml_data l)) at 3 4. rewrite length_app, Nat2Z.inj_add.
  rewrite seqZ_app, zip_with_app by (rewrite ?length_seqZ; lia). rewrite length_take_le, filter_app by lia.
  rewrite filter_none, filter_all; cbn.
  - unfold n. by rewrite Z2Nat.id, Zplus_minus by lia.
  - intros [k d] Hin%elem_of_zip_l. apply elem_of_seqZ in Hin. cbn. lia.
  - intros [k d] Hin%elem_of_zip_l. apply elem_of_seqZ in Hin. cbn. lia.
Qed.
Next Obligation. done. Qed.

(** A codec of the entries without content. *)
Definition suspectCodec : EntryCodec := {|
  marshalEntry := fun p => match p with Persistent_Suspect s => Returned [sus_Epoch s] | _ => Failed "unknown"%string end;
  unmarshalEntry := fun b => match b with [n] => Returned (Persistent_Suspect (mkSuspect n)) | _ => Failed "malformed"%string end;
|}.
#[local] Existing Instance suspectCodec.

Lemma suspectCodec_laws : EntryCodecLaws.
Proof. split. intros p b. destruct p as [| | | | | | | [n] |]; intros [= <-]; done. Defined.

Program Definition smallLog : memoryLog := mkMemoryLog 4 [[1]] _.
Next Obligation. cbn. lia. Qed.
Definition smallPersisted : persisted := mkPersisted 5 [(4, Persistent_Suspect (mkSuspect 1))].

