(* ===== verification/Serializer.v ===== *)
(** * Node and serializer

    [mirbft.go], [config.go] and [serializer.go]: the goroutine that owns the
    state machine.  It replays the write-ahead log, then applies the events
    that are injected and hands out the accumulated actions.  A panic of the
    state machine is recovered and becomes the error the goroutine exits with.
    The log and the event interceptor belong to the consumer; the interceptor
    may base its answer on all the events it has seen. *)
From stdpp Require Import pretty.
From S2P Require Import Prelude Msgs Actions Stateless EpochChange NewEpochConfig Persisted MsgBuffers CommitState Checkpoints.
From S2P Require Import EpochActive Disseminator EpochTarget EpochTracker Commits StateMachine Status.

(** ** Configuration (config.go) *)

Record NodeConfig := mkNodeConfig {
  cf_ID : Z;
  cf_BatchSize : Z;              (* uint32 *)
  cf_HeartbeatTicks : Z;         (* uint32 *)
  cf_SuspectTicks : Z;           (* uint32 *)
  cf_NewEpochTimeoutTicks : Z;   (* uint32 *)
  cf_BufferSize : Z;             (* uint32 *)
  cf_EventInterceptor : option (list Event -> Event -> option string);
}.

(** ** A new network (mirbft.go) *)

(** Both counts are [int]; [/] rounds towards zero. *)
Definition StandardInitialNetworkState (nodeCount clientCount : Z) : outcome NetworkState :=
  let nodes := seqZ 0 nodeCount in
  let numberOfBuckets := s32 nodeCount in
  let checkpointInterval := s32 (numberOfBuckets * 5) in
  let maxEpochLength := s32 (checkpointInterval * 10) in
  _ ← makeSlice clientCount tt;
  let clients := (fun i => mkClientState i 100 0 0 []) <$> seqZ 0 clientCount in
  Ok (mkNetworkState (mkConfig nodes checkpointInterval (u64 maxEpochLength) numberOfBuckets (s32 (Z.quot (nodeCount - 1) 3))) clients [] false).

(** What [LoadAll] calls [forEach] with, and the error it returns. *)
Inductive WALStorage :=
| dummyWAL (initialNetworkState : NetworkState) (initialCheckpointValue : slice)
| loadedWAL (entries : list (Z * Persistent)) (error : option string).

Definition WALStorage_LoadAll (w : WALStorage) : list (Z * Persistent) * option string :=
  match w with
  | dummyWAL initialNetworkState initialCheckpointValue =>
    ([ (1, Persistent_CEntry (mkCEntry 0 initialCheckpointValue initialNetworkState));
       (2, Persistent_FEntry (mkFEntry (mkEpochConfig 0 (nc_Nodes (ns_Config initialNetworkState)) 0))) ], None)
  | loadedWAL entries error => (entries, error)
  end.

(** ** The serializer (serializer.go) *)

(** [sz_actionsC] tells whether the local [actionsC] is the channel or nil, and
    [sz_exitErr] is set when [errC] is closed.  The last three fields record
    what the interceptor saw, what the state machine was given and what was
    received from the channel of actions. *)
Record serializer := mkSerializer {
  sz_sm : StateMachine;
  sz_actions : ActionList;
  sz_actionsC : bool;
  sz_exitErr : option string;
  sz_exitStatus : option StateMachineStatus;
  sz_intercepted : list Event;
  sz_applied : list Event;
  sz_received : list ActionList;
}.

#[global] Instance eta_serializer : Eta serializer := mkEta (fun r =>
  mkSerializer (sz_sm r) (sz_actions r) (sz_actionsC r) (sz_exitErr r) (sz_exitStatus r) (sz_intercepted r) (sz_applied r) (sz_received r)).

Definition newSerializer : serializer := mkSerializer emptyStateMachine [] false None None [] [] [].

Definition ErrStopped : string := "stopped at caller request".

Definition initialParameters (cfg : NodeConfig) : EventInitialParameters :=
  mkInitialParameters (cf_ID cfg) (cf_BatchSize cfg) (cf_HeartbeatTicks cfg) (cf_SuspectTicks cfg) (cf_NewEpochTimeoutTicks cfg) (cf_BufferSize cfg).

(** The deferred function: the error or the panic becomes [exitErr], and the
    status of the machine [exitStatus]; a panic in the latter is not recovered
    and ends the program.  After a panic the machine may be half changed, and
    its last status is not modelled.  Go words the text of a runtime error
    differently from that of other panics. *)
Definition exitOn `{ProtoSize} (s : serializer) (r : outcome (serializer * option string)) : outcome serializer :=
  match r with
  | Ok (s', None) => Ok s'
  | Ok (s', Some error) =>
    status ← StateMachine_Status (sz_sm s');
    Ok (s' <| sz_exitErr := Some error |> <| sz_exitStatus := Some status |>)
  | Panic why => Ok (s <| sz_exitErr := Some ("panic in statemachine: " +:+ why) |>)
  | OutOfFuel => OutOfFuel
  end.

Section Serializer.

Context `{PE : ProtoEqual} `{CR : ConfigRange} `{KR : CheckpointRange} `{Range : MapRange} `{Size : ProtoSize} `{ER : EpochRange}.
Context `{Orders : CheckpointOrders}.
Variable fuel : nat.
Variable cfg : NodeConfig.

(** The closure [applyEvent] of [run]. *)
Definition serializer_applyEvent (s : serializer) (stateEvent : Event) : outcome (serializer * option string) :=
  let intercepted := s <| sz_intercepted := sz_intercepted s ++ [stateEvent] |> in
  match cf_EventInterceptor cfg ≫= (fun intercept => intercept (sz_intercepted s) stateEvent) with
  | Some error => Ok (intercepted, Some ("event interceptor error: " +:+ error))
  | None =>
    '(sm, actions) ← StateMachine_applyEvent fuel (sz_sm s) stateEvent;
    Ok (intercepted <| sz_sm := sm |> <| sz_actions := ActionList_PushBackList (sz_actions s) actions |> <| sz_applied := sz_applied s ++ [stateEvent] |>, None)
  end.

(** The function passed to [LoadAll]: the error of [applyEvent] is dropped. *)
Definition serializer_loadEntry (dummy : bool) (e : Z * Persistent) (s : serializer) : outcome serializer :=
  let s := if dummy then s <| sz_actions := ActionList_Persist (sz_actions s) e.1 e.2 |> else s in
  '(s, _) ← serializer_applyEvent s (Event_LoadPersistedEntry e.1 e.2);
  Ok s.

Definition isDummy (w : WALStorage) : bool := match w with dummyWAL _ _ => true | loadedWAL _ _ => false end.

(** [run] up to its loop. *)
Definition serializer_load (w : WALStorage) : outcome (serializer * option string) :=
  '(s, error) ← serializer_applyEvent newSerializer (Event_Initialize (initialParameters cfg));
  match error with
  | Some error => Ok (s, Some error)
  | None =>
    let '(entries, error) := WALStorage_LoadAll w in
    s ← forRange (serializer_loadEntry (isDummy w)) entries s;
    match error with
    | Some error => Ok (s, Some ("failed to load persisted from WALStorage: " +:+ error))
    | None => serializer_applyEvent s Event_CompleteInitialization
    end
  end.

Definition serializer_start (w : WALStorage) : outcome serializer := exitOn newSerializer (serializer_load w).

(** The loop over injected events, until an error. *)
Fixpoint applyEvents (s : serializer) (events : EventList) : outcome (serializer * option string) :=
  match events with
  | [] => Ok (s, None)
  | event :: events' =>
    '(s, error) ← serializer_applyEvent s event;
    match error with
    | Some error => Ok (s, Some error)
    | None => applyEvents s events'
    end
  end.

(** The cases of the [select]. *)
Inductive serializerStep :=
| ReceiveActions                     (* actionsC <- actions *)
| InjectEvents (events : EventList)  (* <-eventsC *)
| RequestStatus                      (* <-statusC *)
| StopNode.                          (* <-doneC *)

Definition selectCase (s : serializer) (c : serializerStep) : outcome (serializer * option string) :=
  match c with
  | ReceiveActions =>
    serializer_applyEvent (s <| sz_received := sz_received s ++ [sz_actions s] |> <| sz_actions := [] |> <| sz_actionsC := false |>) Event_ActionsReceived
  | InjectEvents events => applyEvents s events
  | RequestStatus => _ ← StateMachine_Status (sz_sm s); Ok (s, None)
  | StopNode => Ok (s, Some ErrStopped)
  end.

(** The cases that do not block. *)
Definition ready (s : serializer) (c : serializerStep) : bool :=
  match sz_exitErr s with
  | Some _ => false
  | None => match c with ReceiveActions => sz_actionsC s | _ => true end
  end.

(** One iteration of the loop; a case that blocks is not taken. *)
Definition serializer_iterate (c : serializerStep) (s : serializer) : outcome serializer :=
  if ready s c then
    exitOn s ('(s, error) ← selectCase s c;
      match error with
      | Some error => Ok (s, Some error)
      | None => Ok (if negb (ActionList_isEmpty (sz_actions s)) then s <| sz_actionsC := true |> else s, None)
      end)
  else Ok s.

Definition serializer_run (w : WALStorage) (cases : list serializerStep) : outcome serializer :=
  s ← serializer_start w; forRange serializer_iterate cases s.

(** [StartNewNode] and [RestartNode] start the goroutine; [InjectEvents] fails
    once it has exited. *)
Definition Node_InjectEvents (s : serializer) (events : EventList) : outcome (serializer * option string) :=
  match sz_exitErr s with
  | Some error => Ok (s, Some error)
  | None => s ← serializer_iterate (InjectEvents events) s; Ok (s, None)
  end.

(** [Status], unless the caller gives up: the report, or the last one and the
    error once the goroutine has exited. *)
Definition Node_Status (s : serializer) : outcome (serializer * option StateMachineStatus * option string) :=
  match sz_exitErr s with
  | Some error => Ok (s, sz_exitStatus s, Some error)
  | None =>
    s' ← serializer_iterate RequestStatus s;
    match sz_exitErr s' with
    | Some error => Ok (s', sz_exitStatus s', Some error)
    | None => status ← StateMachine_Status (sz_sm s); Ok (s', Some status, None)
    end
  end.

(** ** Specification *)

(** The actions that persist the entries of a new network. *)
Definition bootstrap (w : WALStorage) : ActionList :=
  if isDummy w then (fun e => Action_AppendWriteAhead e.1 e.2) <$> (WALStorage_LoadAll w).1 else [].

(** From a machine [sm] that had applied [before] and returned [pre]: the
    machine is the one that applied the further events, and no action it
    returned is lost, repeated or reordered. *)
Definition refines (sm : StateMachine) (before : list Event) (pre : ActionList) (s : serializer) : Prop :=
  exists events acts, sz_applied s = before ++ events /\ runEvents fuel sm events = Ok (sz_sm s, acts)
    /\ concat (sz_received s) ++ sz_actions s = pre ++ acts.

(** What is pending is offered. *)
Definition offered (s : serializer) : Prop := sz_exitErr s = None -> sz_actionsC s = negb (ActionList_isEmpty (sz_actions s)).

(** ** Lemmas *)

Lemma runEvents_snoc (sm sm' sm'' : StateMachine) (events : list Event) (e : Event) (acts acts' : ActionList) :
  runEvents fuel sm events = Ok (sm', acts) -> StateMachine_applyEvent fuel sm' e = Ok (sm'', acts') ->
  runEvents fuel sm (events ++ [e]) = Ok (sm'', acts ++ acts').
Proof.
  revert sm acts. induction events as [|x events IH]; intros sm acts H He; cbn [runEvents app] in *.
  - injection H as -> <-. rewrite He, bind_ok. cbn. unfold ActionList_concat. by rewrite app_nil_r.
  - apply bind_Ok in H as ([sm1 a1] & Hr1 & H). apply bind_Ok in H as ([sm2 a2] & Hr2 & [= -> <-]).
    rewrite Hr1, bind_ok, (IH _ _ Hr2 He), bind_ok. unfold ActionList_concat. by rewrite app_assoc.
Qed.

Lemma applyEvent_refines (sm0 : StateMachine) (before : list Event) (pre : ActionList) (s s' : serializer) (e : Event) (error : option string) :
  refines sm0 before pre s -> serializer_applyEvent s e = Ok (s', error) -> refines sm0 before pre s'.
Proof.
  intros (events & acts & Hev & Hrun & Hc) H. unfold serializer_applyEvent in H.
  destruct (_ ≫= _); [injection H as <- _; by exists events, acts |].
  apply bind_Ok in H as ([sm a] & Ha & [= <- _]). exists (events ++ [e]), (acts ++ a). split; [cbn; by rewrite Hev, app_assoc |].
  split; [by eapply runEvents_snoc |]. cbn. unfold ActionList_PushBackList, ActionList_concat. by rewrite !app_assoc, Hc.
Qed.

Lemma applyEvents_refines (sm0 : StateMachine) (before : list Event) (pre : ActionList) (events : EventList) (s s' : serializer) (error : option string) :
  refines sm0 before pre s -> applyEvents s events = Ok (s', error) -> refines sm0 before pre s'.
Proof.
  revert s. induction events as [|e events IH]; intros s Hs H; cbn [applyEvents] in H; [by injection H as <- _ |].
  apply bind_Ok in H as ([s1 e1] & H1 & H). apply (applyEvent_refines sm0 before pre) in H1; [| done]. destruct e1; [by injection H as <- _ | by eapply IH].
Qed.

Lemma exitOn_inv (P : serializer -> Prop) (s s' : serializer) (r : outcome (serializer * option string)) :
  (forall s error status, P s -> P (s <| sz_exitErr := error |> <| sz_exitStatus := status |>)) -> P s -> (forall s1 error, r = Ok (s1, error) -> P s1) -> exitOn s r = Ok s' -> P s'.
Proof.
  intros Hx Hs Hr H. destruct r as [[s1 [e |]] | why |]; cbn in H; [| | | done].
  - apply bind_Ok in H as (status & _ & [= <-]). eauto.
  - injection H as <-. eauto.
  - injection H as <-. exact (Hx s _ (sz_exitStatus s) Hs).
Qed.

(** A goroutine that still runs has not returned. *)
Lemma exitOn_running (s s' : serializer) (r : outcome (serializer * option string)) : exitOn s r = Ok s' -> sz_exitErr s' = None -> r = Ok (s', None).
Proof.
  intros H Hx. destruct r as [[s1 [e |]] | why |]; cbn in H; [| by injection H as <- | | done].
  - apply bind_Ok in H as (status & _ & [= <-]). discriminate Hx.
  - injection H as <-. discriminate Hx.
Qed.

Lemma selectCase_refines (sm0 : StateMachine) (before : list Event) (pre : ActionList) (s s' : serializer) (c : serializerStep) (error : option string) :
  refines sm0 before pre s -> selectCase s c = Ok (s', error) -> refines sm0 before pre s'.
Proof.
  intros Hs H. destruct c; cbn [selectCase] in H;
    [| by eapply applyEvents_refines | by apply bind_Ok in H as (status & _ & [= <- _]) | by injection H as <- _].
  eapply applyEvent_refines; [| exact H]. destruct Hs as (events & acts & Hev & Hrun & Hc).
  exists events, acts. split; [done |]. split; [done |]. cbn. by rewrite concat_app, app_nil_r; cbn; rewrite app_nil_r.
Qed.

Lemma iterate_refines (sm0 : StateMachine) (before : list Event) (pre : ActionList) (c : serializerStep) (s s' : serializer) :
  refines sm0 before pre s -> serializer_iterate c s = Ok s' -> refines sm0 before pre s'.
Proof.
  intros Hs H. unfold serializer_iterate in H. destruct (ready s c); [| by injection H as <-].
  eapply (exitOn_inv (refines sm0 before pre)); [done | exact Hs | | exact H]. intros s1 error H1. apply bind_Ok in H1 as ([s2 e2] & H2 & H1).
  apply (selectCase_refines sm0 before pre) in H2; [| done]. destruct e2; [by injection H1 as <- _ |]. injection H1 as <- _. by case_match.
Qed.

(** Loading: the state machine returns no actions, a new network's entries are persisted. *)
Lemma loadEntry_refines (pre : ActionList) (dummy : bool) (e : Z * Persistent) (s s' : serializer) :
  sz_received s = [] /\ sz_actions s = pre /\ refines emptyStateMachine [] pre s -> serializer_loadEntry dummy e s = Ok s' ->
  let pre' := pre ++ (if dummy then [Action_AppendWriteAhead e.1 e.2] else []) in
  sz_received s' = [] /\ sz_actions s' = pre' /\ refines emptyStateMachine [] pre' s'.
Proof.
  intros (Hr & Ha & events & acts & Hev & Hrun & Hc) H pre'. cbn in Hev. rewrite <- Hev in Hrun. clear Hev events. unfold serializer_loadEntry in H. apply bind_Ok in H as ([s1 error] & H1 & [= <-]).
  rewrite Hr in Hc. cbn in Hc. rewrite Ha in Hc. rewrite <- (app_nil_r pre) in Hc at 1. apply app_inv_head in Hc. subst acts.
  set (s0 := if dummy then s <| sz_actions := ActionList_Persist (sz_actions s) e.1 e.2 |> else s) in H1.
  assert (H0 : sz_received s0 = [] /\ sz_actions s0 = pre' /\ sz_applied s0 = sz_applied s /\ sz_sm s0 = sz_sm s).
  { unfold s0, pre'. destruct dummy; cbn; [by rewrite Ha | by rewrite app_nil_r]. }
  destruct H0 as (Hr0 & Ha0 & Hp0 & Hs0). unfold serializer_applyEvent in H1.
  destruct (_ ≫= _); [injection H1 as <- _; cbn; split; [done |]; split; [done |]; eexists _, [] |].
  - cbn. split; [reflexivity |]. by rewrite Hp0, Hs0, Hr0, Ha0, app_nil_r.
  - apply bind_Ok in H1 as ([sm a] & Ha1 & [= <- _]). assert (a = []) as ->.
    { cbn in Ha1. by apply bind_Ok in Ha1 as (sm1 & _ & [= _ <-]). }
    cbn. unfold ActionList_PushBackList, ActionList_concat. rewrite app_nil_r. split; [done |]. split; [done |]. eexists _, []. cbn. split; [reflexivity |].
    rewrite Hr0, Ha0, Hp0. split; [| by rewrite app_nil_r]. rewrite Hs0 in Ha1. by eapply (runEvents_snoc _ _ _ _ _ [] []).
Qed.

Lemma loadEntries_refines (dummy : bool) (entries : list (Z * Persistent)) (pre : ActionList) (s s' : serializer) :
  sz_received s = [] /\ sz_actions s = pre /\ refines emptyStateMachine [] pre s -> forRange (serializer_loadEntry dummy) entries s = Ok s' ->
  refines emptyStateMachine [] (pre ++ (if dummy then (fun e => Action_AppendWriteAhead e.1 e.2) <$> entries else [])) s'.
Proof.
  revert pre s. induction entries as [|e entries IH]; intros pre s Hs H; cbn [forRange] in H.
  - injection H as <-. cbn. destruct dummy; rewrite app_nil_r; apply Hs.
  - apply bind_Ok in H as (s1 & H1 & H). apply (loadEntry_refines pre) in H1; [| done]. apply (IH _ _ H1) in H.
    destruct dummy; cbn in *; [by rewrite <- app_assoc in H | by rewrite app_nil_r in H].
Qed.

Lemma start_refines (w : WALStorage) (s : serializer) :
  serializer_start w = Ok s -> sz_exitErr s = None -> refines emptyStateMachine [] (bootstrap w) s /\ sz_received s = [] /\ sz_actionsC s = false.
Proof.
  intros H Hx. pose proof (exitOn_running _ _ _ H Hx) as Hl. clear H. rename s into s1. unfold serializer_load in Hl. apply bind_Ok in Hl as ([s2 e2] & H2 & Hl). destruct e2; [done |].
  assert (Hs2 : sz_received s2 = [] /\ sz_actions s2 = [] /\ refines emptyStateMachine [] [] s2).
  { assert (Hr : refines emptyStateMachine [] [] newSerializer) by (by exists [], []). apply (applyEvent_refines _ _ _ _ _ _ _ Hr) in H2 as Hr2.
    unfold serializer_applyEvent in H2. destruct (_ ≫= _); [done |]. apply bind_Ok in H2 as ([sm a] & Ha & [= <-]).
    apply bind_Ok in Ha as (sm1 & _ & [= <- <-]). done. }
  assert (Hflag : forall s s' e error, serializer_applyEvent s e = Ok (s', error) -> sz_received s' = sz_received s /\ sz_actionsC s' = sz_actionsC s).
  { intros s s' e error H. unfold serializer_applyEvent in H. destruct (_ ≫= _); [by injection H as <- _ |]. by apply bind_Ok in H as ([sm a] & _ & [= <- _]). }
  destruct (WALStorage_LoadAll w) as [entries error] eqn:He. apply bind_Ok in Hl as (s3 & H3 & Hl). destruct error; [done |].
  assert (Hf3 : sz_received s3 = [] /\ sz_actionsC s3 = false).
  { apply Hflag in H2 as [_ Hc2]. eapply (forRange_inv (fun s => sz_received s = [] /\ sz_actionsC s = false)); [| | exact H3]; [| by rewrite Hc2; split; [apply Hs2 |]].
    intros x a b _ [Ha Hb] Hb2. unfold serializer_loadEntry in Hb2. apply bind_Ok in Hb2 as ([c1 e1] & Hc & [= <-]). apply Hflag in Hc as [-> ->].
    by destruct (isDummy w). }
  apply (loadEntries_refines _ _ [] _ _ Hs2) in H3. apply (applyEvent_refines _ _ _ _ _ _ _ H3) in Hl as Hr.
  apply Hflag in Hl as [-> ->]. split; [| exact Hf3]. unfold bootstrap. by rewrite He.
Qed.

(** *** Offers *)

(** An empty list is never offered. *)
Definition neverEmpty (s : serializer) : Prop := sz_actionsC s = true -> sz_actions s <> [].

Lemma applyEvent_grows (s s' : serializer) (e : Event) (error : option string) :
  serializer_applyEvent s e = Ok (s', error) -> sz_actionsC s' = sz_actionsC s /\ sz_exitErr s' = sz_exitErr s /\ prefix (sz_actions s) (sz_actions s').
Proof.
  intros H. unfold serializer_applyEvent in H. destruct (_ ≫= _); [by injection H as <- _ |].
  apply bind_Ok in H as ([sm a] & _ & [= <- _]). split; [done |]. split; [done |]. by exists a.
Qed.

Lemma applyEvents_grows (events : EventList) (s s' : serializer) (error : option string) :
  applyEvents s events = Ok (s', error) -> sz_actionsC s' = sz_actionsC s /\ sz_exitErr s' = sz_exitErr s /\ prefix (sz_actions s) (sz_actions s').
Proof.
  revert s. induction events as [|e events IH]; intros s H; cbn [applyEvents] in H; [by injection H as <- _ |].
  apply bind_Ok in H as ([s1 e1] & H1 & H). apply applyEvent_grows in H1 as (Hc & Hx & Hp). destruct e1; [by injection H as <- _ |].
  apply IH in H as (Hc2 & Hx2 & Hp2). split; [congruence |]. split; [congruence | by etrans].
Qed.

Lemma neverEmpty_prefix (s s' : serializer) :
  neverEmpty s -> sz_actionsC s' = sz_actionsC s -> prefix (sz_actions s) (sz_actions s') -> neverEmpty s'.
Proof.
  intros Hn Hc [k Hk] Ht He. rewrite Hc in Ht. apply (Hn Ht). rewrite He in Hk. by destruct (sz_actions s).
Qed.

Lemma selectCase_offers (s s' : serializer) (c : serializerStep) (error : option string) :
  neverEmpty s -> sz_exitErr s = None -> selectCase s c = Ok (s', error) -> neverEmpty s' /\ sz_exitErr s' = None.
Proof.
  intros Hn Hx H. destruct c; cbn [selectCase] in H.
  - apply applyEvent_grows in H as (Hc & Hx' & _). cbn in *. split; [| congruence]. intros Ht. congruence.
  - apply applyEvents_grows in H as (Hc & Hx' & Hp). split; [by eapply neverEmpty_prefix | congruence].
  - by apply bind_Ok in H as (status & _ & [= <- _]).
  - by injection H as <- _.
Qed.

Lemma iterate_offers (c : serializerStep) (s s' : serializer) :
  neverEmpty s -> serializer_iterate c s = Ok s' -> neverEmpty s' /\ (ready s c = true -> offered s').
Proof.
  intros Hn H. unfold serializer_iterate in H. destruct (ready s c) eqn:Hr; [| injection H as <-; by split].
  assert (Hx : sz_exitErr s = None) by (unfold ready in Hr; by destruct (sz_exitErr s)).
  destruct (selectCase s c) as [[s1 [error |]] | why |] eqn:Hs; cbn in H; [| | | done].
  - apply (selectCase_offers _ _ _ _ Hn Hx) in Hs as [Hn1 _]. apply bind_Ok in H as (status & _ & [= <-]). split; [exact Hn1 | by intros _ ?].
  - apply (selectCase_offers _ _ _ _ Hn Hx) in Hs as [Hn1 Hx1]. injection H as <-. unfold offered, neverEmpty, ActionList_isEmpty, ActionList_Len in *.
    destruct (sz_actions s1) as [|a l] eqn:Ha; cbn.
    + destruct (sz_actionsC s1) eqn:Hc; [by destruct (Hn1 eq_refl) |]. change (negb (Z.of_nat 0 =? 0)) with false. cbn [negb].
      rewrite Hc, Ha. by split.
    + change (negb (Z.of_nat (S (length l)) =? 0)) with true. cbn. rewrite Ha. by split.
  - injection H as <-. split; [exact Hn | by intros _ ?].
Qed.

Lemma run_neverEmpty (cases : list serializerStep) (s s' : serializer) :
  neverEmpty s -> forRange serializer_iterate cases s = Ok s' -> neverEmpty s'.
Proof. intros Hn. apply (forRange_inv neverEmpty); [| done]. intros c a b _ Ha Hb. by apply (iterate_offers c a). Qed.

(** The status the deferred function asks for is not covered by its recovery:
    where it panics, to stop the node ends the program. *)
Lemma exit_status_not_recovered (s : serializer) (why : string) :
  sz_exitErr s = None -> StateMachine_Status (sz_sm s) = Panic why -> serializer_iterate StopNode s = Panic why.
Proof. intros Hx Hp. unfold serializer_iterate, ready. rewrite Hx. cbn. by rewrite Hp. Qed.

(** A run of the serializer is a run of the machine. *)
Lemma run_refines (w : WALStorage) (cases : list serializerStep) (s0 s : serializer) :
  serializer_start w = Ok s0 -> sz_exitErr s0 = None -> forRange serializer_iterate cases s0 = Ok s ->
  exists acts, runEvents fuel emptyStateMachine (sz_applied s) = Ok (sz_sm s, acts)
    /\ concat (sz_received s) ++ sz_actions s = bootstrap w ++ acts.
Proof.
  intros H0 Hx H. destruct (start_refines w s0 H0 Hx) as (Hr & _ & _).
  assert (Hs : refines emptyStateMachine [] (bootstrap w) s).
  { revert H. apply (forRange_inv (refines emptyStateMachine [] (bootstrap w))); [| done]. intros c a b _. apply iterate_refines. }
  destruct Hs as (events & acts & Hev & Hrun & Hc). cbn in Hev. exists acts. by rewrite Hev.
Qed.

Lemma applyEvent_extends (s s' : serializer) (e : Event) (error : option string) (pre : list Event) :
  serializer_applyEvent s e = Ok (s', error) -> pre `prefix_of` sz_applied s -> pre `prefix_of` sz_applied s'.
Proof.
  intros H Hp. unfold serializer_applyEvent in H. destruct (_ ≫= _); [by injection H as <- _ |].
  apply bind_Ok in H as ([sm a] & _ & [= <- _]). cbn. by apply prefix_app_r.
Qed.

(** The first event of a node is its initialization. *)
Lemma run_initializes (w : WALStorage) (cases : list serializerStep) (s0 s : serializer) :
  serializer_start w = Ok s0 -> sz_exitErr s0 = None -> forRange serializer_iterate cases s0 = Ok s ->
  [Event_Initialize (initialParameters cfg)] `prefix_of` sz_applied s.
Proof.
  intros H0 Hx H. pose proof (exitOn_running _ _ _ H0 Hx) as Hl. rename s0 into s1. set (pre := [Event_Initialize (initialParameters cfg)]).
  assert (H1 : pre `prefix_of` sz_applied s1).
  { unfold serializer_load in Hl. apply bind_Ok in Hl as ([s2 e2] & H2 & Hl). destruct e2; [done |].
    assert (Hp2 : pre `prefix_of` sz_applied s2).
    { unfold serializer_applyEvent in H2. destruct (_ ≫= _); [done |]. apply bind_Ok in H2 as ([sm a] & _ & [= <-]). done. }
    destruct (WALStorage_LoadAll w) as [entries [error |]]; apply bind_Ok in Hl as (s3 & H3 & Hl); [done |].
    eapply applyEvent_extends; [exact Hl |]. eapply (forRange_inv (fun s => pre `prefix_of` sz_applied s)); [| exact Hp2 | exact H3].
    intros x a b _ Ha Hb. unfold serializer_loadEntry in Hb. apply bind_Ok in Hb as ([b1 eb] & Hb & [= <-]).
    eapply applyEvent_extends; [exact Hb |]. by destruct (isDummy w). }
  assert (Hr : refines (sz_sm s1) (sz_applied s1) (sz_actions s1) s).
  { revert H. apply (forRange_inv (refines (sz_sm s1) (sz_applied s1) (sz_actions s1))); [intros c a b _; apply iterate_refines |].
    exists [], []. rewrite !app_nil_r. split_and!; try done. destruct (start_refines w s1 H0 Hx) as (_ & Hrec & _).
    by rewrite Hrec. }
  destruct Hr as (events & acts & -> & _). by apply prefix_app_r.
Qed.

(** ** Properties *)


(** C15: a node delivers batches in order.  From a started node whose commit
    state is sound, over any interleaving in which the injected events are
    valid, the batches in what the consumer receives from the channel of
    actions, and in what is still pending, have, after those of the start, the
    consecutive sequence numbers from the one after the last applied batch
    on. *)
Theorem node_delivers_in_order (w : WALStorage) (cases : list serializerStep) (s0 s : serializer) (pt : parts) :
  serializer_start w = Ok s0 -> sz_exitErr s0 = None -> sz_sm s0 = mkStateMachine smInitialized (Some pt) -> csInv (csOf pt) ->
  forRange serializer_iterate cases s0 = Ok s ->
  exists events, sz_applied s = sz_applied s0 ++ events
    /\ (validRun fuel (sz_sm s0) events -> exists pt', sm_parts (sz_sm s) = Some pt' /\ csInv (csOf pt')
        /\ q_SeqNo <$> deliveries (concat (sz_received s) ++ sz_actions s)
           = (q_SeqNo <$> deliveries (sz_actions s0))
             ++ seqZ (cs_lastAppliedCommit (csOf pt) + 1) (cs_lastAppliedCommit (csOf pt') - cs_lastAppliedCommit (csOf pt))).
Proof.
  intros H0 Hx Hsm Hi H. destruct (start_refines w s0 H0 Hx) as (_ & Hrec & _).
  assert (Hs : refines (sz_sm s0) (sz_applied s0) (sz_actions s0) s).
  { revert H. apply (forRange_inv (refines (sz_sm s0) (sz_applied s0) (sz_actions s0))); [intros c a b _; apply iterate_refines |].
    exists [], []. rewrite Hrec, !app_nil_r. done. }
  destruct Hs as (events & acts & Hev & Hrun & Hc). exists events. split; [done |]. intros Hv. rewrite Hsm in Hv, Hrun.
  destruct (runEvents_progress fuel pt events (sz_sm s) acts Hv Hrun) as (pt' & Hpt & [_ Hp]). destruct (Hp Hi) as (Hi' & _ & Hd).
  exists pt'. rewrite Hpt, Hc, deliveries_app, fmap_app, Hd. done.
Qed.

(** C34: pending actions are offered.  After every case the loop has taken,
    while the node runs, the channel of actions is ready exactly when there
    are actions. *)
Theorem pending_actions_offered (w : WALStorage) (cases : list serializerStep) (s0 s s' : serializer) (c : serializerStep) :
  serializer_start w = Ok s0 -> sz_exitErr s0 = None -> forRange serializer_iterate cases s0 = Ok s ->
  ready s c = true -> serializer_iterate c s = Ok s' -> sz_exitErr s' = None ->
  ready s' ReceiveActions = true <-> sz_actions s' <> [].
Proof.
  intros H0 Hx H Hr Hc Hx'. destruct (start_refines w s0 H0 Hx) as (_ & _ & Hf).
  assert (Hn : neverEmpty s) by (eapply run_neverEmpty; [| exact H]; intros Ht; congruence).
  destruct (iterate_offers c s s' Hn Hc) as [_ Ho]. specialize (Ho Hr Hx'). unfold ready. rewrite Hx', Ho.
  unfold ActionList_isEmpty, ActionList_Len. by destruct (sz_actions s').
Qed.

(** The first actions wait for an event.  A new node that started has
    actions pending, the entries of the new network to persist among them, but
    does not offer them before it has taken some other case of its loop. *)
Theorem first_actions_not_offered (ns : NetworkState) (value : slice) (s0 : serializer) :
  serializer_start (dummyWAL ns value) = Ok s0 -> sz_exitErr s0 = None ->
  prefix (bootstrap (dummyWAL ns value)) (sz_actions s0) /\ sz_actions s0 <> [] /\ ready s0 ReceiveActions = false.
Proof.
  intros H0 Hx. destruct (start_refines _ s0 H0 Hx) as ((events & acts & _ & _ & Hc) & Hrec & Hf). rewrite Hrec in Hc. cbn [concat app] in Hc.
  split; [by exists acts |]. split; [rewrite Hc; cbn; discriminate |]. unfold ready. by rewrite Hx, Hf.
Qed.

(** An interceptor's error while the log is loaded is ignored.  The entry
    does not reach the state machine, and the node neither exits nor records
    the error. *)
Theorem load_ignores_interceptor_error (intercept : list Event -> Event -> option string) (dummy : bool) (e : Z * Persistent)
    (s : serializer) (error : string) :
  cf_EventInterceptor cfg = Some intercept -> intercept (sz_intercepted s) (Event_LoadPersistedEntry e.1 e.2) = Some error ->
  exists s', serializer_loadEntry dummy e s = Ok s' /\ sz_sm s' = sz_sm s /\ sz_exitErr s' = sz_exitErr s.
Proof.
  intros Hc Hi. unfold serializer_loadEntry, serializer_applyEvent. rewrite Hc. cbn [mbind option_bind].
  destruct dummy; cbn; rewrite Hi; by eexists.
Qed.

End Serializer.

(** C38: the standard network is sound.  For up to 42949672 nodes and any
    number of clients, nothing overflows: at least 3f+1 nodes, a quorum of the
    nodes that are correct, a positive checkpoint interval that every bucket
    divides, and an epoch of ten checkpoints. *)
Theorem standard_network_sound (nodeCount clientCount : Z) :
  1 <= nodeCount <= 42949672 -> 0 <= clientCount ->
  exists ns, StandardInitialNetworkState nodeCount clientCount = Ok ns
    /\ let nc := ns_Config ns in
       nc_Nodes nc = seqZ 0 nodeCount /\ 0 <= nc_F nc /\ 3 * nc_F nc + 1 <= nodeCount <= 3 * nc_F nc + 3
       /\ intersectionQuorum nc <= nodeCount - nc_F nc
       /\ nc_NumberOfBuckets nc = nodeCount /\ nc_CheckpointInterval nc = 5 * nc_NumberOfBuckets nc
       /\ nc_MaxEpochLength nc = 10 * nc_CheckpointInterval nc
       /\ length (ns_Clients ns) = Z.to_nat clientCount /\ NoDup (cl_Id <$> ns_Clients ns).
Proof.
  intros Hn Hc. unfold StandardInitialNetworkState, makeSlice. destruct (Z.ltb_spec clientCount 0); [lia |]. rewrite bind_ok.
  assert (Hs : forall x, 0 <= x < 2 ^ 31 -> s32 x = x).
  { intros x Hx. unfold s32, u32. rewrite Z.mod_small by lia. destruct (Z.ltb_spec x (2 ^ 31)); [done | lia]. }
  assert (Hq : Z.quot (nodeCount - 1) 3 = (nodeCount - 1) / 3) by (apply Z.quot_div_nonneg; lia).
  pose proof (Z.div_mod (nodeCount - 1) 3 ltac:(lia)). pose proof (Z.mod_pos_bound (nodeCount - 1) 3 ltac:(lia)).
  rewrite (Hs nodeCount) by lia. rewrite (Hs (nodeCount * 5)) by lia. rewrite (Hs (nodeCount * 5 * 10)) by lia.
  rewrite Hq, (Hs ((nodeCount - 1) / 3)), u64_small by lia. eexists. split; [reflexivity |]. cbn. rewrite length_fmap, length_seqZ.
  split; [done |]. split; [lia |]. split; [lia |]. split.
  { unfold intersectionQuorum. cbn. rewrite length_seqZ, Z2Nat.id, Z.quot_div_nonneg by lia. apply Z.lt_succ_r, Z.div_lt_upper_bound; lia. }
  split; [done |]. split; [lia |]. split; [lia |]. split; [done |].
  rewrite <- list_fmap_compose. rewrite (list_fmap_ext _ id); [rewrite list_fmap_id; apply NoDup_seqZ |]. done.
Qed.

(** ** Witnesses *)

#[local] Existing Instance fieldsEqual.
#[local] Existing Instance plainConfigRange.
#[local] Existing Instance plainCheckpointRange.
#[local] Existing Instance canonicalRange.
#[local] Existing Instance unitSize.
#[local] Existing Instance plainEpochRange.
#[local] Existing Instance plainOrders.

Definition refuseAll : list Event -> Event -> option string := fun _ _ => Some "disk full"%string.
Definition nodeConfig : NodeConfig := mkNodeConfig 2 1 2 4 8 5242880 None.
Definition newNetwork : NetworkState :=
  match StandardInitialNetworkState 4 0 with Ok ns => ns | _ => mkNetworkState (mkConfig [] 0 0 0 0) [] [] false end.
Definition newNode : WALStorage := dummyWAL newNetwork (Some [1]).
Definition nodeAfter (r : outcome serializer) : serializer := match r with Ok s => s | _ => newSerializer end.
Definition startedNode : serializer := nodeAfter (serializer_start 10 nodeConfig newNode).
Definition someCases : list serializerStep :=
  [InjectEvents [Event_TickElapsed]; ReceiveActions; InjectEvents [Event_Step 1 (Msg_Suspect (mkSuspect 1)); Event_TickElapsed]; RequestStatus].
Definition ranNode : serializer := nodeAfter (forRange (serializer_iterate 10 nodeConfig) someCases startedNode).

Lemma startedNode_eq : serializer_start 10 nodeConfig newNode = Ok startedNode /\ sz_exitErr startedNode = None.
Proof. vm_compute. by split. Qed.
Lemma ranNode_eq : forRange (serializer_iterate 10 nodeConfig) someCases startedNode = Ok ranNode.
Proof. vm_compute. reflexivity. Qed.


(** The components of the started node, an empty window. *)
Definition startedParts : parts := default noParts (sm_parts (sz_sm startedNode)).

Lemma startedParts_inv : csInv (csOf startedParts).
Proof.
  assert (Hcs : csOf startedParts = mkCommitState ∅ 0 0 0 40 newNetwork (replicate 20 None) (replicate 20 None) false false) by (vm_compute; reflexivity).
  rewrite Hcs. apply (emptyWindow_inv newNetwork 0); vm_compute; (reflexivity || discriminate).
Qed.

Definition someInjected : list Event :=
  [Event_TickElapsed; Event_ActionsReceived; Event_Step 1 (Msg_Suspect (mkSuspect 1)); Event_TickElapsed].

Lemma node_delivers_in_order_witness :
  exists pt', sm_parts (sz_sm ranNode) = Some pt' /\ csInv (csOf pt')
    /\ q_SeqNo <$> deliveries (concat (sz_received ranNode) ++ sz_actions ranNode)
       = (q_SeqNo <$> deliveries (sz_actions startedNode))
         ++ seqZ (cs_lastAppliedCommit (csOf startedParts) + 1) (cs_lastAppliedCommit (csOf pt') - cs_lastAppliedCommit (csOf startedParts)).
Proof.
  assert (Hsm : sz_sm startedNode = mkStateMachine smInitialized (Some startedParts)) by (vm_compute; reflexivity).
  assert (Hl : sz_applied ranNode = sz_applied startedNode ++ someInjected) by (vm_compute; reflexivity).
  destruct (node_delivers_in_order 10 nodeConfig newNode someCases _ _ startedParts (proj1 startedNode_eq) (proj2 startedNode_eq) Hsm startedParts_inv ranNode_eq)
    as (events & He & Hd). rewrite Hl in He. apply app_inv_head in He. subst events. apply Hd. repeat split.
Defined.

Lemma pending_actions_offered_witness :
  ready ranNode ReceiveActions = true <-> sz_actions ranNode <> [].
Proof.
  assert (Hi : serializer_iterate 10 nodeConfig RequestStatus ranNode = Ok ranNode) by (vm_compute; reflexivity).
  assert (Hr : ready ranNode RequestStatus = true) by (vm_compute; reflexivity).
  assert (Hx : sz_exitErr ranNode = None) by (vm_compute; reflexivity).
  exact (pending_actions_offered 10 nodeConfig newNode someCases _ _ _ RequestStatus (proj1 startedNode_eq) (proj2 startedNode_eq) ranNode_eq Hr Hi Hx).
Defined.

Lemma first_actions_not_offered_witness : sz_actions startedNode <> [] /\ ready startedNode ReceiveActions = false.
Proof. exact (proj2 (first_actions_not_offered 10 nodeConfig newNetwork (Some [1]) _ (proj1 startedNode_eq) (proj2 startedNode_eq))). Defined.

Lemma load_ignores_interceptor_error_witness :
  exists s', serializer_loadEntry 10 (mkNodeConfig 2 1 2 4 8 5242880 (Some refuseAll)) false (1, Persistent_unset) newSerializer = Ok s'
    /\ sz_sm s' = sz_sm newSerializer /\ sz_exitErr s' = sz_exitErr newSerializer.
Proof. exact (load_ignores_interceptor_error 10 (mkNodeConfig 2 1 2 4 8 5242880 (Some refuseAll)) refuseAll false (1, Persistent_unset) newSerializer "disk full" eq_refl eq_refl). Defined.

Lemma standard_network_sound_witness : exists ns, StandardInitialNetworkState 4 1 = Ok ns /\ nc_F (ns_Config ns) = 1.
Proof.
  destruct (standard_network_sound 4 1) as (ns & Hns & _); [lia | lia |]. exists ns. split; [exact Hns |]. by injection Hns as <-.
Defined.
