(* ===== verification/MsgFilter.v ===== *)
(** * Message filter

    [msgfilter.go]: the check that a message received from the network has
    the pointers that its handlers follow.  The messages here keep the
    pointers the generated types have between messages, so that any of them
    may be nil; [decode] is the message of [Msgs] when none is. *)
From S2P Require Import Prelude Msgs.

(** ** Messages with pointers *)

Record rawNewEpochConfig := mkRawNewEpochConfig {
  rnc_Config : option EpochConfig;
  rnc_StartingCheckpoint : option Checkpoint;
  rnc_FinalPreprepares : list slice;
}.

Record rawNewEpoch := mkRawNewEpoch {
  rne_NewConfig : option rawNewEpochConfig;
  rne_EpochChanges : list NewEpoch_RemoteEpochChange;
}.

Record rawForwardRequest := mkRawForwardRequest {
  rfr_RequestAck : option RequestAck;
  rfr_RequestData : slice;
}.

Record rawEpochChangeAck := mkRawEpochChangeAck {
  reca_Originator : Z;
  reca_EpochChange : option EpochChange;
}.

Inductive rawMsg :=
| raw_Preprepare (m : option Preprepare)
| raw_Prepare (m : option Prepare)
| raw_Commit (m : option Commit)
| raw_Checkpoint (m : option Checkpoint)
| raw_Suspect (m : option Suspect)
| raw_EpochChange (m : option EpochChange)
| raw_EpochChangeAck (m : option rawEpochChangeAck)
| raw_NewEpoch (m : option rawNewEpoch)
| raw_NewEpochEcho (m : option rawNewEpochConfig)
| raw_NewEpochReady (m : option rawNewEpochConfig)
| raw_FetchBatch (m : option FetchBatch)
| raw_ForwardBatch (m : option ForwardBatch)
| raw_FetchRequest (m : option RequestAck)
| raw_ForwardRequest (m : option rawForwardRequest)
| raw_RequestAck (m : option RequestAck)
| raw_unset.

(** ** The check *)

(** [if p == nil { return errors.Errorf(text) }]. *)
Definition require {A : Type} (p : option A) (text : string) : option string :=
  match p with None => Some text | Some _ => None end.

Definition preProcess (outerMsg : rawMsg) : option string :=
  match outerMsg with
  | raw_Preprepare m => require m "message of type Preprepare, but preprepare field is nil"
  | raw_Prepare m => require m "message of type Prepare, but prepare field is nil"
  | raw_Commit m => require m "message of type Commit, but commit field is nil"
  | raw_Suspect m => require m "message of type Suspect, but suspect field is nil"
  | raw_Checkpoint m => require m "message of type Checkpoint, but checkpoint field is nil"
  | raw_RequestAck m => require m "message of type RequestAck, but request_ack field is nil"
  | raw_FetchRequest m => require m "message of type FetchRequest, but fetch_request field is nil"
  | raw_ForwardRequest m =>
    match m with
    | None => Some "message of type ForwardRequest, but forward_request field is nil"%string
    | Some m => require (rfr_RequestAck m) "message of type ForwardRequest, but forward_request's request_ack field is nil"
    end
  | raw_FetchBatch m => require m "message of type FetchBatch, but fetch_batch field is nil"
  | raw_ForwardBatch m => require m "message of type ForwardBatch, but forward_batch field is nil"
  | raw_EpochChange m => require m "message of type EpochChange, but epoch_change field is nil"
  | raw_EpochChangeAck m => require m "message of type EpochChangeAck, but epoch_change_ack field is nil"
  | raw_NewEpoch m =>
    match m with
    | None => Some "message of type NewEpoch, but new_epoch field is nil"%string
    | Some m =>
      match rne_NewConfig m with
      | None => Some "NewEpoch has nil NewConfig"%string
      | Some c =>
        match rnc_Config c with
        | None => Some "NewEpoch has nil NewConfig.Config"%string
        | Some _ => require (rnc_StartingCheckpoint c) "NewEpoch Config has nil StartingCheckpoint"
        end
      end
    end
  | raw_NewEpochEcho m =>
    match m with
    | None => Some "message of type NewEpochEcho, but new_epoch_echo field is nil"%string
    | Some c =>
      match rnc_Config c with
      | None => Some "NewEpochEcho has nil Config"%string
      | Some _ => require (rnc_StartingCheckpoint c) "NewEpochEcho has nil StartingCheckpoint"
      end
    end
  | raw_NewEpochReady m =>
    match m with
    | None => Some "message of type NewEpochReady, but new_epoch_ready field is nil"%string
    | Some c =>
      match rnc_Config c with
      | None => Some "NewEpochReady has nil Config"%string
      | Some _ => require (rnc_StartingCheckpoint c) "NewEpochReady has nil StartingCheckpoint"
      end
    end
  | raw_unset => Some "unknown type '<nil>' for message"%string
  end.

(** ** Specification *)

Definition decodeConfig (c : rawNewEpochConfig) : option NewEpochConfig :=
  config ← rnc_Config c; start ← rnc_StartingCheckpoint c; Some (mkNewEpochConfig config start (rnc_FinalPreprepares c)).

(** The message the state machine works with, if no pointer in it is nil. *)
Definition decode (m : rawMsg) : option Msg :=
  match m with
  | raw_Preprepare m => Msg_Preprepare <$> m
  | raw_Prepare m => Msg_Prepare <$> m
  | raw_Commit m => Msg_Commit <$> m
  | raw_Checkpoint m => Msg_Checkpoint <$> m
  | raw_Suspect m => Msg_Suspect <$> m
  | raw_EpochChange m => Msg_EpochChange <$> m
  | raw_EpochChangeAck m => m ← m; ec ← reca_EpochChange m; Some (Msg_EpochChangeAck (mkEpochChangeAck (reca_Originator m) ec))
  | raw_NewEpoch m => m ← m; c ← rne_NewConfig m; c ← decodeConfig c; Some (Msg_NewEpoch (mkNewEpoch c (rne_EpochChanges m)))
  | raw_NewEpochEcho m => c ← m; Msg_NewEpochEcho <$> decodeConfig c
  | raw_NewEpochReady m => c ← m; Msg_NewEpochReady <$> decodeConfig c
  | raw_FetchBatch m => Msg_FetchBatch <$> m
  | raw_ForwardBatch m => Msg_ForwardBatch <$> m
  | raw_FetchRequest m => Msg_FetchRequest <$> m
  | raw_ForwardRequest m => m ← m; ack ← rfr_RequestAck m; Some (Msg_ForwardRequest (mkForwardRequest ack (rfr_RequestData m)))
  | raw_RequestAck m => Msg_RequestAck <$> m
  | raw_unset => None
  end.

(** An acknowledgement that does not say what it acknowledges. *)
Definition emptyAck (m : rawMsg) : Prop := exists originator, m = raw_EpochChangeAck (Some (mkRawEpochChangeAck originator None)).

(** ** Properties *)

