(* ===== verification/Manglers.v ===== *)
(** * Manglers

    [pkg/testengine/manglers.go]: the faults a simulation injects.  A matcher
    selects events of the log and a mangler drops, delays, duplicates or
    follows them by a restart.  The closures of [Until] and [After] remember
    whether their condition was met; here a matcher and a mangler carry that
    flag and return themselves after a call.  An event is a pointer: a result
    is the event itself, possibly with another time, or a new one.

    [initializeMatching] gives the matchings their methods by reflection: a
    method returns a matching with one more filter. *)
From S2P Require Import Prelude Msgs EventLog.

(** ** Filters *)

(** The function fields, of which one is set. *)
Record mangleFilter := mkMangleFilter {
  mf_msgContents : option (Msg -> outcome bool);
  mf_msgSeqNo : option (Z -> bool);
  mf_msgEpoch : option (Z -> bool);
  mf_msgSource : option (Z -> Z -> bool);
  mf_stateEvent : option (Event -> bool);
  mf_target : option (Z -> bool);
  mf_blind : option (Z -> bool);
}.

#[global] Instance eta_mangleFilter : Eta mangleFilter := mkEta (fun r =>
  mkMangleFilter (mf_msgContents r) (mf_msgSeqNo r) (mf_msgEpoch r) (mf_msgSource r) (mf_stateEvent r) (mf_target r) (mf_blind r)).

Definition noFilter : mangleFilter := mkMangleFilter None None None None None None None.

(** The assertion that the event is an [Event_Step]. *)
Definition stepOf (event : recordedEvent) : outcome (Z * Msg) :=
  match re_StateEvent event with
  | Event_Step source msg => Ok (source, msg)
  | _ => Panic "interface conversion: not an Event_Step"
  end.

Definition epochOf (msg : Msg) : option Z :=
  match msg with
  | Msg_Preprepare m => Some (pp_Epoch m)
  | Msg_Prepare m => Some (prep_Epoch m)
  | Msg_Commit m => Some (com_Epoch m)
  | Msg_Suspect m => Some (sus_Epoch m)
  | Msg_EpochChange m => Some (ech_NewEpoch m)
  | Msg_EpochChangeAck m => Some (ech_NewEpoch (eca_EpochChange m))
  | Msg_NewEpoch m => Some (ec_Number (nec_Config (ne_NewConfig m)))
  | Msg_NewEpochEcho m => Some (ec_Number (nec_Config m))
  | Msg_NewEpochReady m => Some (ec_Number (nec_Config m))
  | _ => None
  end.

Definition seqNoOf (msg : Msg) : option Z :=
  match msg with
  | Msg_Preprepare m => Some (pp_SeqNo m)
  | Msg_Prepare m => Some (prep_SeqNo m)
  | Msg_Commit m => Some (com_SeqNo m)
  | Msg_Checkpoint m => Some (ckp_SeqNo m)
  | Msg_FetchBatch m => Some (fb_SeqNo m)
  | Msg_ForwardBatch m => Some (fwb_SeqNo m)
  | _ => None
  end.

Definition mangleFilter_apply (mf : mangleFilter) (random : Z) (event : recordedEvent) : outcome bool :=
  match mf_msgContents mf with
  | Some f => '(_, msg) ← stepOf event; f msg
  | None =>
    match mf_msgEpoch mf with
    | Some f => '(_, msg) ← stepOf event; Ok (match epochOf msg with Some epoch => f epoch | None => false end)
    | None =>
      match mf_msgSeqNo mf with
      | Some f => '(_, msg) ← stepOf event; Ok (match seqNoOf msg with Some seqNo => f seqNo | None => false end)
      | None =>
        match mf_msgSource mf with
        | Some f => '(source, _) ← stepOf event; Ok (f (re_NodeId event) source)
        | None =>
          match mf_stateEvent mf with
          | Some f => Ok (f (re_StateEvent event))
          | None =>
            match mf_target mf with
            | Some f => Ok (f (re_NodeId event))
            | None =>
              match mf_blind mf with
              | Some f => Ok (f random)
              | None => Panic "no function set in manglefilter"
              end
            end
          end
        end
      end
    end
  end.

(** ** The filters of [baseMangling] *)

Definition FromSelf : mangleFilter :=
  noFilter <| mf_msgSource := Some (fun target actualSource => target =? actualSource) |>.
Definition FromNode (source : Z) : mangleFilter :=
  noFilter <| mf_msgSource := Some (fun target actualSource => (actualSource =? source) && negb (target =? actualSource)) |>.
Definition FromNodes (sources : list Z) : mangleFilter :=
  noFilter <| mf_msgSource := Some (fun target actualSource =>
    if target =? actualSource then false else existsb (fun source => source =? actualSource) sources) |>.
Definition ToNode (target : Z) : mangleFilter :=
  noFilter <| mf_target := Some (fun actualNode => target =? actualNode) |>.
Definition ToNodes (targets : list Z) : mangleFilter :=
  noFilter <| mf_target := Some (fun actualNode => existsb (fun target => target =? actualNode) targets) |>.
Definition ForNode (target : Z) : mangleFilter := ToNode target.
Definition ForNodes (targets : list Z) : mangleFilter := ToNodes targets.
(** [random % 100 <= percent]. *)
Definition AtPercent (percent : Z) : mangleFilter :=
  noFilter <| mf_blind := Some (fun random => Z.rem random 100 <=? percent) |>.
Definition WithSequence (seqNo : Z) : mangleFilter :=
  noFilter <| mf_msgSeqNo := Some (fun actualSeqNo => seqNo =? actualSeqNo) |>.
Definition WithEpoch (epochNo : Z) : mangleFilter :=
  noFilter <| mf_msgEpoch := Some (fun actualEpoch => epochNo =? actualEpoch) |>.

(** The dynamic type of a message; the unset one has none, and asking it
    whether it is assignable dereferences nil. *)
Inductive msgType :=
| tPreprepare | tPrepare | tCommit | tCheckpoint | tSuspect | tEpochChange | tEpochChangeAck | tNewEpoch | tNewEpochEcho
| tNewEpochReady | tFetchBatch | tForwardBatch | tFetchRequest | tForwardRequest | tRequestAck.

#[global] Instance msgType_eq_dec : EqDecision msgType.
Proof. solve_decision. Defined.

Definition typeOf (msg : Msg) : option msgType :=
  match msg with
  | Msg_Preprepare _ => Some tPreprepare
  | Msg_Prepare _ => Some tPrepare
  | Msg_Commit _ => Some tCommit
  | Msg_Checkpoint _ => Some tCheckpoint
  | Msg_Suspect _ => Some tSuspect
  | Msg_EpochChange _ => Some tEpochChange
  | Msg_EpochChangeAck _ => Some tEpochChangeAck
  | Msg_NewEpoch _ => Some tNewEpoch
  | Msg_NewEpochEcho _ => Some tNewEpochEcho
  | Msg_NewEpochReady _ => Some tNewEpochReady
  | Msg_FetchBatch _ => Some tFetchBatch
  | Msg_ForwardBatch _ => Some tForwardBatch
  | Msg_FetchRequest _ => Some tFetchRequest
  | Msg_ForwardRequest _ => Some tForwardRequest
  | Msg_RequestAck _ => Some tRequestAck
  | Msg_unset => None
  end.

Definition ofType (t : msgType) : mangleFilter :=
  noFilter <| mf_msgContents := Some (fun msg => actual ← deref (typeOf msg) "nil pointer dereference: type"; Ok (bool_decide (actual = t))) |>.

(** ** Matchers *)

Abbreviation matching := (list mangleFilter).

Fixpoint matching_Matches (filters : matching) (random : Z) (event : recordedEvent) : outcome bool :=
  match filters with
  | [] => Ok true
  | filter :: filters' =>
    b ← mangleFilter_apply filter random event;
    if (b : bool) then matching_Matches filters' random event else Ok false
  end.

(** A method of a matching. *)
Definition matching_add (m : matching) (f : mangleFilter) : matching := m ++ [f].

Definition isStep (event : Event) : bool := match event with Event_Step _ _ => true | _ => false end.
Definition MatchMsgs : matching := [noFilter <| mf_stateEvent := Some isStep |>].
Definition MatchNodeStartup : matching :=
  [noFilter <| mf_stateEvent := Some (fun event => match event with Event_Initialize _ => true | _ => false end) |>].
Definition MatchClientProposal : matching :=
  [noFilter <| mf_stateEvent := Some (fun event => match event with Event_RequestPersisted _ => true | _ => false end) |>].

(** The filter of a [Mangling]: [For], [Until] and [After], with what the
    closure remembers, or a function of the caller. *)
Inductive Matcher :=
| For (m : matching)
| Until (matched : bool) (m : Matcher)
| After (matched : bool) (m : Matcher)
| InlineMatcher (f : Z -> recordedEvent -> bool).

Fixpoint Matcher_Matches (m : Matcher) (random : Z) (event : recordedEvent) : outcome (bool * Matcher) :=
  match m with
  | For filters => b ← matching_Matches filters random event; Ok (b, m)
  | Until true m' => Ok (false, m)
  | Until false m' =>
    '(b, m') ← Matcher_Matches m' random event;
    Ok (if (b : bool) then (false, Until true m') else (true, Until false m'))
  | After true m' => Ok (true, m)
  | After false m' =>
    '(b, m') ← Matcher_Matches m' random event;
    Ok (if (b : bool) then (true, After true m') else (false, After false m'))
  | InlineMatcher f => Ok (f random event, m)
  end.

(** ** Manglers *)

(** The event itself, or a new one. *)
Record MangleResult := mkMangleResult {
  mr_same : bool;
  mr_Event : recordedEvent;
  mr_Remangle : bool;
}.

Inductive Mangler :=
| DropMangler
| DuplicateMangler (maxDelay : Z)
| JitterMangler (maxDelay : Z)
| DelayMangler (delay : Z)
| CrashAndRestartAfterMangler (initParms : EventInitialParameters) (delay : Z)
| MangleDo (filter : Matcher) (mangler : Mangler).

(** [random % maxDelay], and [event.Time += delay]. *)
Definition randomDelay (random maxDelay : Z) : outcome Z :=
  if maxDelay =? 0 then Panic "integer divide by zero" else Ok (Z.rem random maxDelay).
Definition delayed (event : recordedEvent) (delay : Z) : recordedEvent :=
  mkRecordedEvent (re_NodeId event) (s64 (re_Time event + delay)) (re_StateEvent event).

Fixpoint Mangler_Mangle (m : Mangler) (random : Z) (event : recordedEvent) : outcome (list MangleResult * Mangler) :=
  match m with
  | DropMangler => Ok ([], m)
  | DuplicateMangler maxDelay =>
    delay ← randomDelay random maxDelay;
    Ok ([mkMangleResult true event false; mkMangleResult false (delayed event delay) false], m)
  | JitterMangler maxDelay =>
    delay ← randomDelay random maxDelay;
    Ok ([mkMangleResult true (delayed event delay) false], m)
  | DelayMangler delay => Ok ([mkMangleResult true (delayed event delay) true], m)
  | CrashAndRestartAfterMangler initParms delay =>
    Ok ([mkMangleResult true event false;
         mkMangleResult false (mkRecordedEvent (ip_Id initParms) (s64 (re_Time event + delay)) (Event_Initialize initParms)) false], m)
  | MangleDo filter mangler =>
    '(b, filter) ← Matcher_Matches filter random event;
    if (b : bool) then
      '(results, mangler) ← Mangler_Mangle mangler random event;
      Ok (results, MangleDo filter mangler)
    else Ok ([mkMangleResult true event false], MangleDo filter mangler)
  end.

(** The methods of [Mangling]. *)
Definition Mangling_Drop (m : Matcher) : Mangler := MangleDo m DropMangler.
Definition Mangling_Jitter (m : Matcher) (maxDelay : Z) : Mangler := MangleDo m (JitterMangler maxDelay).
Definition Mangling_Duplicate (m : Matcher) (maxDelay : Z) : Mangler := MangleDo m (DuplicateMangler maxDelay).
Definition Mangling_Delay (m : Matcher) (delay : Z) : Mangler := MangleDo m (DelayMangler delay).
Definition Mangling_CrashAndRestartAfter (m : Matcher) (delay : Z) (initParms : EventInitialParameters) : Mangler :=
  MangleDo m (CrashAndRestartAfterMangler initParms delay).

(** ** Specification *)

(** A mangler that does not move an event into the past, and keeps times in range. *)
Fixpoint forwards (m : Mangler) (time : Z) : Prop :=
  match m with
  | DropMangler => True
  | DuplicateMangler d | JitterMangler d => 0 < d /\ time + d <= 2 ^ 63
  | DelayMangler d | CrashAndRestartAfterMangler _ d => 0 <= d /\ time + d < 2 ^ 63
  | MangleDo _ m' => forwards m' time
  end.

(** Whether a filter matches. *)
Definition accepts (mf : mangleFilter) (random : Z) (event : recordedEvent) : bool :=
  match mangleFilter_apply mf random event with Ok b => b | _ => false end.

(** ** Lemmas *)

Lemma delayed_time (event : recordedEvent) (d : Z) :
  0 <= re_Time event -> 0 <= d -> re_Time event + d < 2 ^ 63 -> re_Time (delayed event d) = re_Time event + d.
Proof.
  intros H0 Hd Hov. cbn. unfold s64. rewrite u64_small by lia. destruct (Z.ltb_spec (re_Time event + d) (2 ^ 63)); [done | lia].
Qed.

Lemma randomDelay_range (random d : Z) : 0 <= random -> 0 < d -> exists r, randomDelay random d = Ok r /\ 0 <= r < d.
Proof.
  intros Hr Hd. unfold randomDelay. destruct (Z.eqb_spec d 0); [lia |]. eexists. split; [reflexivity |]. apply Z.rem_bound_pos; lia.
Qed.

(** The results of a mangler come at the time of the event or later. *)
Lemma Mangle_forwards (m m' : Mangler) (random : Z) (event : recordedEvent) (results : list MangleResult) :
  0 <= random -> 0 <= re_Time event -> forwards m (re_Time event) -> Mangler_Mangle m random event = Ok (results, m') ->
  Forall (fun r => re_Time event <= re_Time (mr_Event r)) results.
Proof.
  intros Hr Ht. revert m' results. induction m as [| d | d | d | p d | f m IH]; intros m' results Hf H; cbn [Mangler_Mangle] in H.
  - injection H as <- _. constructor.
  - destruct Hf as [Hd Hov]. destruct (randomDelay_range random d Hr Hd) as (r & He & Hrd). rewrite He, bind_ok in H. injection H as <- _.
    repeat constructor; cbn [mr_Event]; [lia |]. rewrite delayed_time; lia.
  - destruct Hf as [Hd Hov]. destruct (randomDelay_range random d Hr Hd) as (r & He & Hrd). rewrite He, bind_ok in H. injection H as <- _.
    repeat constructor; cbn [mr_Event]. rewrite delayed_time; lia.
  - destruct Hf as [Hd Hov]. injection H as <- _. repeat constructor; cbn [mr_Event]. rewrite delayed_time; lia.
  - destruct Hf as [Hd Hov]. injection H as <- _. repeat constructor; cbn [mr_Event]; [lia |].
    pose proof (delayed_time event d Ht Hd Hov) as He. cbn in *. lia.
  - apply bind_Ok in H as ([b f'] & _ & H). destruct b.
    + apply bind_Ok in H as ([res m1] & H1 & [= <- _]). by apply (IH m1 res).
    + injection H as <- _. by repeat constructor.
Qed.

(** ** Properties *)

(** A mangling at a percentage applies too often.  Of any hundred
    consecutive random numbers, [AtPercent p] matches p+1, one percent more
    than asked for: it applies to one percent of the events even at 0. *)
Theorem at_percent_matches_one_more (percent start : Z) (event : recordedEvent) :
  0 <= percent < 100 -> 0 <= start ->
  length (filter (fun random => accepts (AtPercent percent) (100 * start + random) event = true) (seqZ 0 100)) = Z.to_nat (percent + 1).
Proof.
  intros Hp Hs.
  assert (Hf : forall random, random ∈ seqZ 0 100 ->
    accepts (AtPercent percent) (100 * start + random) event = true <-> random < percent + 1).
  { intros r Hr%elem_of_seqZ. cbn. assert (He : Z.rem (100 * start + r) 100 = r).
    { rewrite Z.rem_mod_nonneg by lia. rewrite Z.add_comm, Z.mul_comm, Z_mod_plus_full. apply Z.mod_small. lia. }
    rewrite He. destruct (Z.leb_spec r percent); split; try done; lia. }
  replace (seqZ 0 100) with (seqZ 0 (percent + 1) ++ seqZ (0 + (percent + 1)) (99 - percent)) by (rewrite <- seqZ_app by lia; f_equal; lia).
  rewrite filter_app, length_app.
  rewrite filter_all, filter_none; cbn [length].
  - rewrite length_seqZ. lia.
  - intros r Hr%elem_of_seqZ. rewrite Hf; [lia |]. apply elem_of_seqZ. lia.
  - intros r Hr%elem_of_seqZ. apply Hf; [| lia]. apply elem_of_seqZ. lia.
Qed.

Lemma at_percent_matches_one_more_witness :
  length (filter (fun random => accepts (AtPercent 10) (100 * 7 + random) (mkRecordedEvent 0 0 Event_TickElapsed) = true) (seqZ 0 100)) = 11%nat.
Proof. apply (at_percent_matches_one_more 10 7); lia. Defined.
