(* ===== verification/TestEventLog.v ===== *)
(** * Event log of the simulation

    [pkg/testengine/eventlog.go]: the queue of a discrete event simulation,
    ordered by time, from which each event is read, after the mangler has had
    its say.  Events are pointers: an entry is the identity of an event and its
    content, and [tl_Mangled] holds identities.  The random numbers are a
    parameter, a sequence of which [tl_Rand] counts the used ones. *)
From Stdlib Require Import Sorting.Sorted.
From S2P Require Import Prelude Msgs EventLog Manglers.

(** ** Data *)

(** [tl_Output] is nil or what was written; [tl_next] is the next identity. *)
Record EventLog := mkEventLog {
  tl_List : list (Z * recordedEvent);
  tl_FakeTime : Z;
  tl_Rand : nat;
  tl_Mangler : option Mangler;
  tl_Mangled : gset Z;
  tl_Output : option bytes;
  tl_next : Z;
}.

#[global] Instance eta_EventLog : Eta EventLog := mkEta (fun r =>
  mkEventLog (tl_List r) (tl_FakeTime r) (tl_Rand r) (tl_Mangler r) (tl_Mangled r) (tl_Output r) (tl_next r)).

Definition newEventLog (mangler : option Mangler) (output : option bytes) : EventLog := mkEventLog [] 0 0 mangler ∅ output 0.

(** ** Operations *)

(** Before the first event that is later. *)
Fixpoint insertBefore (x : Z * recordedEvent) (l : list (Z * recordedEvent)) : list (Z * recordedEvent) :=
  match l with
  | [] => [x]
  | y :: l' => if re_Time x.2 <? re_Time y.2 then x :: l else y :: insertBefore x l'
  end.

Definition EventLog_insertPtr (l : EventLog) (x : Z * recordedEvent) : outcome EventLog :=
  if re_Time x.2 <? tl_FakeTime l then Panic "attempted to modify the past"
  else Ok (l <| tl_List := insertBefore x (tl_List l) |>).

(** A new event. *)
Definition EventLog_Insert (l : EventLog) (event : recordedEvent) : outcome EventLog :=
  EventLog_insertPtr (l <| tl_next := tl_next l + 1 |>) (tl_next l, event).

Definition EventLog_InsertStateEvent (l : EventLog) (target : Z) (stateEvent : Event) (fromNow : Z) : outcome EventLog :=
  EventLog_Insert l (mkRecordedEvent target (s64 (tl_FakeTime l + fromNow)) stateEvent).
Definition EventLog_InsertTickEvent (l : EventLog) (target fromNow : Z) : outcome EventLog :=
  EventLog_InsertStateEvent l target Event_TickElapsed fromNow.
Definition EventLog_InsertStepEvent (l : EventLog) (target source : Z) (msg : Msg) (fromNow : Z) : outcome EventLog :=
  EventLog_InsertStateEvent l target (Event_Step source msg) fromNow.
Definition EventLog_InsertProcess (l : EventLog) (target fromNow : Z) : outcome EventLog :=
  EventLog_InsertStateEvent l target Event_ActionsReceived fromNow.

(** The results of the mangler: marked unless they are to be mangled again. *)
Definition insertResult (ptr : Z) (r : MangleResult) (l : EventLog) : outcome EventLog :=
  let '(p, l) := if mr_same r then (ptr, l) else (tl_next l, l <| tl_next := tl_next l + 1 |>) in
  let l := if mr_Remangle r then l else l <| tl_Mangled := {[ p ]} ∪ tl_Mangled l |> in
  EventLog_insertPtr l (p, mr_Event r).

Section Reading.

Context `{EC : EventCodec}.
Variable dest : bytes -> bytes -> option string.
Variable rand : nat -> Z.

(** The event is given to the caller; nothing is left of its marks. *)
Definition consume (l : EventLog) (x : Z * recordedEvent) : EventLog * fallible recordedEvent :=
  let l := l <| tl_Mangled := tl_Mangled l ∖ {[ x.1 ]} |> <| tl_FakeTime := re_Time x.2 |> in
  match tl_Output l with
  | None => (l, Returned x.2)
  | Some out =>
    match WriteRecordedEvent dest out x.2 with
    | (out, None) => (l <| tl_Output := Some out |>, Returned x.2)
    | (out, Some error) => (l <| tl_Output := Some out |>, Failed ("could not write event before processing: " +:+ error))
    end
  end.

(** The loop of [ReadEvent]. *)
Fixpoint readLoop (fuel : nat) (l : EventLog) : outcome (EventLog * fallible recordedEvent) :=
  match fuel with
  | O => OutOfFuel
  | S fuel' =>
    match tl_List l with
    | [] => Ok (l, Failed "EOF"%string)
    | x :: rest =>
      let l := l <| tl_List := rest |> in
      match tl_Mangler l with
      | None => Ok (consume l x)
      | Some mangler =>
        if decide (x.1 ∈ tl_Mangled l) then Ok (consume l x)
        else
          '(results, mangler) ← Mangler_Mangle mangler (rand (tl_Rand l)) x.2;
          l ← forRange (insertResult x.1) results (l <| tl_Rand := S (tl_Rand l) |> <| tl_Mangler := Some mangler |>);
          readLoop fuel' l
      end
    end
  end.

Definition EventLog_ReadEvent (fuel : nat) (l : EventLog) : outcome (EventLog * fallible recordedEvent) := readLoop fuel l.

End Reading.

(** The events of a recorded log. *)
Definition ReadEventLog `{EC : EventCodec} (truncated : readError) (fuel : nat) (source : bytes) : outcome (fallible EventLog) :=
  '(events, e) ← readAll truncated fuel (NewReader source);
  match e with
  | ReadFailure error => Ok (Failed error)
  | AtEOF => Ok (Returned (foldl (fun l event => l <| tl_List := tl_List l ++ [(tl_next l, event)] |> <| tl_next := tl_next l + 1 |>)
                             (newEventLog None None) events))
  end.

(** ** Specification *)

(** In order of time, and nothing in the past. *)
Definition log_sorted (l : EventLog) : Prop :=
  Sorted (fun x y => re_Time x.2 <= re_Time y.2) (tl_List l) /\ Forall (fun x => tl_FakeTime l <= re_Time x.2) (tl_List l).

(** ** Lemmas *)

Lemma insertBefore_spec (x : Z * recordedEvent) (l : list (Z * recordedEvent)) :
  exists before after, l = before ++ after /\ insertBefore x l = before ++ x :: after
    /\ Forall (fun y => re_Time y.2 <= re_Time x.2) before
    /\ match after with [] => True | y :: _ => re_Time x.2 < re_Time y.2 end.
Proof.
  induction l as [|y l IH]; cbn; [exists [], []; auto |]. destruct (Z.ltb_spec (re_Time x.2) (re_Time y.2)) as [Hlt | Hge].
  - exists [], (y :: l). auto.
  - destruct IH as (before & after & -> & -> & Hb & Ha). exists (y :: before), after. auto.
Qed.

Lemma insertBefore_sorted (x : Z * recordedEvent) (l : list (Z * recordedEvent)) :
  Sorted (fun x y => re_Time x.2 <= re_Time y.2) l -> Sorted (fun x y => re_Time x.2 <= re_Time y.2) (insertBefore x l).
Proof.
  induction 1 as [|y l Hs IH Hh]; cbn; [by repeat constructor |]. destruct (Z.ltb_spec (re_Time x.2) (re_Time y.2)) as [Hlt | Hge].
  - constructor; [by constructor | constructor; lia].
  - constructor; [done |]. destruct l as [|z l]; cbn; [by repeat constructor |]. destruct (_ <? _); constructor; [lia |]. by inversion Hh.
Qed.

Lemma insertPtr_sorted (l l' : EventLog) (x : Z * recordedEvent) :
  log_sorted l -> EventLog_insertPtr l x = Ok l' -> log_sorted l' /\ tl_FakeTime l' = tl_FakeTime l.
Proof.
  intros [Hs Hp] H. unfold EventLog_insertPtr in H. destruct (Z.ltb_spec (re_Time x.2) (tl_FakeTime l)); [done |]. injection H as <-.
  split; [| done]. split; cbn; [by apply insertBefore_sorted |]. destruct (insertBefore_spec x (tl_List l)) as (b & a & He & -> & _).
  rewrite He in Hp. apply Forall_app in Hp as [Hb Ha]. apply Forall_app. split; [done |]. by constructor.
Qed.

Lemma insertResult_sorted (ptr : Z) (r : MangleResult) (l l' : EventLog) :
  log_sorted l -> insertResult ptr r l = Ok l' -> log_sorted l' /\ tl_FakeTime l' = tl_FakeTime l.
Proof. intros Hs H. unfold insertResult in H. destruct (mr_same r), (mr_Remangle r); by apply insertPtr_sorted in H. Qed.

Lemma consume_sorted `{EC : EventCodec} (dest : bytes -> bytes -> option string) (l l' : EventLog) (x : Z * recordedEvent)
    (rest : list (Z * recordedEvent)) (r : fallible recordedEvent) :
  log_sorted l -> tl_List l = x :: rest -> consume dest (l <| tl_List := rest |>) x = (l', r) ->
  log_sorted l' /\ tl_FakeTime l <= re_Time x.2 /\ tl_FakeTime l' = re_Time x.2 /\ (forall e, r = Returned e -> e = x.2).
Proof.
  intros [Hs Hp] Hl H. rewrite Hl in Hs, Hp. apply Forall_cons in Hp as [Hx Hp].
  assert (Hs' : Sorted (fun x y => re_Time x.2 <= re_Time y.2) rest) by by inversion Hs.
  assert (Hall : Forall (fun y => re_Time x.2 <= re_Time y.2) rest).
  { apply Sorted_StronglySorted in Hs; [by inversion Hs |]. intros a b c Hab Hbc. lia. }
  unfold consume in H. cbn in H. destruct (tl_Output l) as [out |]; [destruct (WriteRecordedEvent _ _ _) as [out' [error |]] |]; injection H as <- <-;
    (split; [by split |]); split; try done; split; try done; by intros e [=].
Qed.

(** Reading moves forward in time. *)
Lemma readLoop_sorted `{EC : EventCodec} (dest : bytes -> bytes -> option string) (rand : nat -> Z) (fuel : nat) (l l' : EventLog) (r : fallible recordedEvent) :
  log_sorted l -> readLoop dest rand fuel l = Ok (l', r) ->
  log_sorted l' /\ tl_FakeTime l <= tl_FakeTime l' /\ forall e, r = Returned e -> re_Time e = tl_FakeTime l'.
Proof.
  revert l. induction fuel as [|fuel IH]; intros l Hs H; cbn [readLoop] in H; [done |]. destruct (tl_List l) as [|x rest] eqn:Hl.
  { injection H as <- <-. split; [done |]. split; [lia | done]. }
  assert (Hc : forall r, Ok (consume dest (l <| tl_List := rest |>) x) = Ok (l', r) ->
    log_sorted l' /\ tl_FakeTime l <= tl_FakeTime l' /\ forall e, r = Returned e -> re_Time e = tl_FakeTime l').
  { intros r0 [= Hc]. destruct (consume_sorted dest l l' x rest r0 Hs Hl Hc) as (Hs' & Hx & Ht & He). split; [done |]. split; [lia |].
    intros e Hr. rewrite (He e Hr). by rewrite Ht. }
  change (tl_Mangler (l <| tl_List := rest |>)) with (tl_Mangler l) in H. destruct (tl_Mangler l) as [mangler |]; [| by apply Hc].
  case_decide; [by apply Hc |]. apply bind_Ok in H as ([results m'] & _ & H). apply bind_Ok in H as (l1 & H1 & H).
  assert (Hrest : log_sorted (l <| tl_List := rest |>)).
  { destruct Hs as [Hs Hp]. rewrite Hl in Hs, Hp. split; [by inversion Hs | by inversion Hp]. }
  eapply (forRange_inv (fun k => log_sorted k /\ tl_FakeTime k = tl_FakeTime l)) in H1 as [Hs1 Ht1]; [| | done].
  - rewrite <- Ht1. by apply IH.
  - intros res a b _ [Ha Hta] Hb. apply insertResult_sorted in Hb as [Hb Htb]; [| done]. split; [done | by rewrite Htb].
Qed.

(** ** Properties *)

(** An event is queued behind everything that is due no later.  Where it
    does not lie in the past, inserting an event keeps every other entry in
    its place, the new one coming after all the entries at or before its time
    and before the first that is later; an event in the past panics. *)
Theorem insert_is_stable (l : EventLog) (event : recordedEvent) :
  match EventLog_Insert l event with
  | Ok l' => exists before after, tl_List l = before ++ after /\ tl_List l' = before ++ (tl_next l, event) :: after
      /\ Forall (fun y => re_Time y.2 <= re_Time event) before
      /\ match after with [] => True | y :: _ => re_Time event < re_Time y.2 end /\ tl_FakeTime l <= re_Time event
  | Panic _ => re_Time event < tl_FakeTime l
  | OutOfFuel => False
  end.
Proof.
  unfold EventLog_Insert, EventLog_insertPtr. cbn. destruct (Z.ltb_spec (re_Time event) (tl_FakeTime l)); [done |].
  destruct (insertBefore_spec (tl_next l, event) (tl_List l)) as (b & a & He & Hi & Hb & Ha). exists b, a. cbn. by rewrite Hi.
Qed.

(** A simulation reads its events in order of time.  Whatever the
    mangler does, and whenever it returns, [ReadEvent] returns an event that
    is not before the current time, makes its time the current one, and keeps
    the queue in order and free of past events. *)
Theorem events_read_in_time_order `{EC : EventCodec} (dest : bytes -> bytes -> option string) (rand : nat -> Z) (fuel : nat) (l l' : EventLog) (e : recordedEvent) :
  log_sorted l -> EventLog_ReadEvent dest rand fuel l = Ok (l', Returned e) ->
  log_sorted l' /\ tl_FakeTime l <= re_Time e /\ tl_FakeTime l' = re_Time e.
Proof.
  intros Hs H. destruct (readLoop_sorted dest rand fuel l l' _ Hs H) as (Hs' & Ht & He). rewrite (He e eq_refl). split; [done |]. split; [lia | done].
Qed.

(** ** Witnesses *)

#[local] Existing Instance tickCodec.

(** Two ticks, the earlier one inserted last, under a mangler that delays by at most three. *)
Definition twoTicks : EventLog :=
  mkEventLog [(1, mkRecordedEvent 0 4 Event_TickElapsed); (0, mkRecordedEvent 0 9 Event_TickElapsed)] 2 0
    (Some (Mangling_Jitter (InlineMatcher (fun _ _ => true)) 3)) ∅ None 2.
Definition oneTick : EventLog :=
  mkEventLog [(0, mkRecordedEvent 0 9 Event_TickElapsed)] 5 1 (Some (Mangling_Jitter (InlineMatcher (fun _ _ => true)) 3)) ∅ None 2.

Lemma events_read_in_time_order_witness : log_sorted oneTick /\ tl_FakeTime twoTicks <= 5 /\ tl_FakeTime oneTick = 5.
Proof.
  apply (events_read_in_time_order noError (fun _ => 7) 3 twoTicks oneTick (mkRecordedEvent 0 5 Event_TickElapsed)).
  - split; repeat constructor; discriminate.
  - vm_compute. reflexivity.
Defined.
