(* ===== verification/TestRecorder.v ===== *)
(** * Simulation

    [pkg/testengine/player.go] and [pkg/testengine/recorder.go]: a network of
    nodes, each a state machine with a log, a request store and an application,
    driven by one queue of events in simulated time.  A step reads an event,
    applies it to the state machine of its node, and performs the actions the
    node is told to process.  The hash function and the random numbers are
    parameters; the status reports and the log output are left out. *)
From Stdlib Require Import Sorting.Sorted.
From stdpp Require Import pretty.
From S2P Require Import Prelude Msgs Actions Stateless EpochChange NewEpochConfig Persisted MsgBuffers CommitState Checkpoints.
From S2P Require Import EpochActive Disseminator EpochTarget EpochTracker Commits StateMachine Serializer EventLog Manglers TestEventLog.

(** ** Player (player.go) *)

(** [pn_StateMachine] and [pn_Processing] may be nil. *)
Record PlaybackNode := mkPlaybackNode {
  pn_ID : Z;
  pn_StateMachine : option StateMachine;
  pn_Processing : option ActionList;
  pn_Actions : ActionList;
}.

#[global] Instance eta_PlaybackNode : Eta PlaybackNode := mkEta (fun r =>
  mkPlaybackNode (pn_ID r) (pn_StateMachine r) (pn_Processing r) (pn_Actions r)).

(** The event source of the player is the event log. *)
Record Player := mkPlayer {
  py_LastEvent : option recordedEvent;
  py_EventSource : EventLog;
  py_Nodes : gmap Z PlaybackNode;
}.

#[global] Instance eta_Player : Eta Player := mkEta (fun r => mkPlayer (py_LastEvent r) (py_EventSource r) (py_Nodes r)).

Definition NewPlayer (es : EventLog) : Player := mkPlayer None es ∅.

Definition Player_Node (p : Player) (id : Z) : Player * PlaybackNode :=
  match py_Nodes p !! id with
  | Some node => (p, node)
  | None => let node := mkPlaybackNode id None None [] in (p <| py_Nodes := <[id := node]> (py_Nodes p) |>, node)
  end.

(** ** Stores of a node (recorder.go) *)

Definition newAckHelper (ack : RequestAck) : Z * Z * bytes := (ra_ClientId ack, ra_ReqNo ack, str (ra_Digest ack)).

Record SimReqStore := mkSimReqStore {
  rq_storedAcks : gset (Z * Z * bytes);
  rq_correctAcks : gset (Z * Z * bytes);
}.

#[global] Instance eta_SimReqStore : Eta SimReqStore := mkEta (fun r => mkSimReqStore (rq_storedAcks r) (rq_correctAcks r)).

Definition NewReqStore : SimReqStore := mkSimReqStore ∅ ∅.
Definition ReqStore_Store (rs : SimReqStore) (ack : RequestAck) : SimReqStore := rs <| rq_storedAcks := {[ newAckHelper ack ]} ∪ rq_storedAcks rs |>.
Definition ReqStore_Has (rs : SimReqStore) (ack : RequestAck) : bool := bool_decide (newAckHelper ack ∈ rq_storedAcks rs).
Definition ReqStore_StoreCorrect (rs : SimReqStore) (ack : RequestAck) : SimReqStore := rs <| rq_correctAcks := {[ newAckHelper ack ]} ∪ rq_correctAcks rs |>.
Definition ReqStore_HasCorrect (rs : SimReqStore) (ack : RequestAck) : bool := bool_decide (newAckHelper ack ∈ rq_correctAcks rs).

Record SimWAL := mkSimWAL { sw_LowIndex : Z; sw_List : list Persistent }.

#[global] Instance eta_SimWAL : Eta SimWAL := mkEta (fun r => mkSimWAL (sw_LowIndex r) (sw_List r)).

(** The bytes of a string constant. *)
Fixpoint bytesOf (s : string) : bytes :=
  match s with "" => [] | String c s' => Z.of_N (Ascii.N_of_ascii c) :: bytesOf s' end.

Definition NewWAL (initialState : NetworkState) : SimWAL :=
  mkSimWAL 1
    [ Persistent_CEntry (mkCEntry 0 (Some (bytesOf "fake-initial-value")) initialState);
      Persistent_FEntry (mkFEntry (mkEpochConfig 0 (nc_Nodes (ns_Config initialState)) 0)) ].

Definition SimWAL_Append (wal : SimWAL) (index : Z) (p : Persistent) : outcome SimWAL :=
  let next := sw_LowIndex wal +! u64 (Z.of_nat (length (sw_List wal))) in
  if negb (index =? next) then Panic ("WAL out of order: expect next index " +:+ pretty next +:+ ", but got " +:+ pretty index)
  else Ok (wal <| sw_List := sw_List wal ++ [p] |>).

Definition SimWAL_Truncate (wal : SimWAL) (index : Z) : outcome SimWAL :=
  if index <? sw_LowIndex wal then
    Panic ("asked to truncated to index " +:+ pretty index +:+ ", but lowIndex is " +:+ pretty (sw_LowIndex wal))
  else
    let toRemove := s64 (index -! sw_LowIndex wal) in
    if Z.of_nat (length (sw_List wal)) <=? toRemove then
      Panic ("asked to truncate to index " +:+ pretty index +:+ ", but highest index is "
             +:+ pretty (sw_LowIndex wal +! u64 (Z.of_nat (length (sw_List wal)))))
    else Ok (mkSimWAL (sw_LowIndex wal +! Z.max 0 toRemove) (drop (Z.to_nat toRemove) (sw_List wal))).

(** The calls of the iterator. *)
Definition SimWAL_LoadAll (wal : SimWAL) : list (Z * Persistent) := imap (fun i p => (sw_LowIndex wal +! Z.of_nat i, p)) (sw_List wal).

(** ** Application of a node *)

Record ReconfigPoint := mkReconfigPoint { rp_ClientID : Z; rp_ReqNo : Z; rp_Reconfiguration : Reconfiguration }.

(** [nd_ActiveHash] is nil or what was written to the hash.  The request store
    is the one of the node. *)
Record NodeState := mkNodeState {
  nd_ActiveHash : option bytes;
  nd_LastSeqNo : Z;
  nd_ReconfigPoints : list ReconfigPoint;
  nd_PendingReconfigurations : list Reconfiguration;
  nd_Checkpoints : list EventCheckpointResult;
  nd_CheckpointsBySeqNo : gmap Z EventCheckpointResult;
}.

#[global] Instance eta_NodeState : Eta NodeState := mkEta (fun r =>
  mkNodeState (nd_ActiveHash r) (nd_LastSeqNo r) (nd_ReconfigPoints r) (nd_PendingReconfigurations r) (nd_Checkpoints r) (nd_CheckpointsBySeqNo r)).

Definition NodeState_Set (ns : NodeState) (seqNo : Z) (value : slice) (networkState : NetworkState) : NodeState * EventCheckpointResult :=
  let checkpoint := mkCheckpointResult seqNo value networkState false in
  let checkpoints := nd_Checkpoints ns ++ [checkpoint] in
  let bySeqNo := <[seqNo := checkpoint]> (nd_CheckpointsBySeqNo ns) in
  let ns := ns <| nd_ActiveHash := Some [] |> <| nd_LastSeqNo := seqNo |> in
  match checkpoints with
  | del :: rest =>
    if 100 <? Z.of_nat (length checkpoints) then
      (ns <| nd_Checkpoints := rest |> <| nd_CheckpointsBySeqNo := delete (ckr_SeqNo del) bySeqNo |>, checkpoint)
    else (ns <| nd_Checkpoints := checkpoints |> <| nd_CheckpointsBySeqNo := bySeqNo |>, checkpoint)
  | [] => (ns, checkpoint)
  end.

Definition NodeState_LastCheckpoint (ns : NodeState) : outcome EventCheckpointResult :=
  deref (last (nd_Checkpoints ns)) "nil pointer dereference: Back()".

(** One request of a batch. *)
Definition commitRequest (rs : SimReqStore) (request : RequestAck) (ns : NodeState) : outcome NodeState :=
  _ ← assertTrue (ReqStore_Has rs request) "reqstore should have request if we are committing it";
  written ← deref (nd_ActiveHash ns) "nil pointer dereference: ActiveHash";
  let points := filter (fun p => rp_ClientID p = ra_ClientId request /\ rp_ReqNo p = ra_ReqNo request) (nd_ReconfigPoints ns) in
  Ok (ns <| nd_ActiveHash := Some (written ++ str (ra_Digest request)) |>
         <| nd_PendingReconfigurations := nd_PendingReconfigurations ns ++ (rp_Reconfiguration <$> points) |>).

Definition NodeState_Commit (rs : SimReqStore) (ns : NodeState) (batch : QEntry) : outcome NodeState :=
  let ns := ns <| nd_LastSeqNo := nd_LastSeqNo ns +! 1 |> in
  if negb (q_SeqNo batch =? nd_LastSeqNo ns) then
    Panic ("unexpected out of order commit sequence number, expected " +:+ pretty (nd_LastSeqNo ns) +:+ ", got " +:+ pretty (q_SeqNo batch))
  else forRange (commitRequest rs) (q_Requests batch) ns.

(** ** Nodes and clients *)

Record RuntimeParameters := mkRuntimeParameters {
  rt_TickInterval : Z;
  rt_LinkLatency : Z;
  rt_ReadyLatency : Z;
  rt_ProcessLatency : Z;
  rt_ClientProcessLatency : Z;
  rt_PersistLatency : Z;
  rt_WALReadDelay : Z;
  rt_ReqReadDelay : Z;
  rt_StateTransferLatency : Z;
}.

Record RecorderNodeConfig := mkRecorderNodeConfig {
  rnc_InitParms : EventInitialParameters;
  rnc_RuntimeParms : RuntimeParameters;
}.

(** The playback node is the one of the player under the node's number. *)
Record RecorderNode := mkRecorderNode {
  rn_State : NodeState;
  rn_WAL : SimWAL;
  rn_ReqStore : SimReqStore;
  rn_Config : RecorderNodeConfig;
  rn_AwaitingProcessEvent : bool;
}.

#[global] Instance eta_RecorderNode : Eta RecorderNode := mkEta (fun r =>
  mkRecorderNode (rn_State r) (rn_WAL r) (rn_ReqStore r) (rn_Config r) (rn_AwaitingProcessEvent r)).

Record ClientConfig := mkClientConfig {
  cc_ID : Z;
  cc_MaxInFlight : Z;
  cc_Total : Z;
  cc_IgnoreNodes : list Z;
}.

Definition ClientConfig_shouldSkip (cc : ClientConfig) (nodeID : Z) : bool := existsb (fun id => id =? nodeID) (cc_IgnoreNodes cc).

(** [binary.LittleEndian.PutUint64]. *)
Definition uint64ToBytes (value : Z) : bytes := (fun i => Z.land (Z.shiftr value (8 * i)) 255) <$> seqZ 0 8.

Definition RecorderClient_RequestByReqNo (hashOf : bytes -> bytes) (rc : ClientConfig) (reqNo : Z) : option RequestAck :=
  if cc_Total rc <=? reqNo then None
  else Some (mkAck (cc_ID rc) reqNo (Some (hashOf (uint64ToBytes (cc_ID rc) ++ bytesOf "-" ++ uint64ToBytes reqNo)))).

Record Recorder := mkSimRecorder {
  sr_NetworkState : NetworkState;
  sr_RecorderNodeConfigs : list RecorderNodeConfig;
  sr_ClientConfigs : list ClientConfig;
  sr_ReconfigPoints : list ReconfigPoint;
  sr_Mangler : option Mangler;
}.

#[global] Instance eta_Recorder : Eta Recorder := mkEta (fun r =>
  mkSimRecorder (sr_NetworkState r) (sr_RecorderNodeConfigs r) (sr_ClientConfigs r) (sr_ReconfigPoints r) (sr_Mangler r)).

(** The event log is the source of the player's events. *)
Record Recording := mkRecording {
  rg_Player : Player;
  rg_Nodes : list RecorderNode;
  rg_Clients : list ClientConfig;
}.

#[global] Instance eta_Recording : Eta Recording := mkEta (fun r => mkRecording (rg_Player r) (rg_Nodes r) (rg_Clients r)).

Definition onEventLog (r : Recording) (f : EventLog -> outcome EventLog) : outcome Recording :=
  l ← f (py_EventSource (rg_Player r));
  Ok (r <| rg_Player ::= fun p => p <| py_EventSource := l |> |>).

(** The nodes are set up one after the other. *)
Definition addNode (r : Recorder) (i : Z) (cfg : RecorderNodeConfig) (rec : Recording) : outcome Recording :=
  rec ← onEventLog rec (fun l => EventLog_InsertStateEvent l i (Event_Initialize (rnc_InitParms cfg)) 0);
  let nodeState := mkNodeState None 0 (sr_ReconfigPoints r) [] [] ∅ in
  Ok (rec <| rg_Nodes := rg_Nodes rec ++ [mkRecorderNode nodeState (NewWAL (sr_NetworkState r)) NewReqStore cfg false] |>
          <| rg_Player := (Player_Node (rg_Player rec) i).1 |>).

Definition Recorder_Recording (r : Recorder) (output : option bytes) : outcome Recording :=
  forRange (fun x rec => addNode r x.1 x.2 rec) (imap (fun i cfg => (Z.of_nat i, cfg)) (sr_RecorderNodeConfigs r))
    (mkRecording (NewPlayer (newEventLog (sr_Mangler r) output)) [] (sr_ClientConfigs r)).

Section Simulation.

Context `{PE : ProtoEqual} `{CR : ConfigRange} `{KR : CheckpointRange} `{Range : MapRange} `{Size : ProtoSize} `{ER : EpochRange}.
Context `{Orders : CheckpointOrders} `{EC : EventCodec}.
Variable fuel : nat.
Variable dest : bytes -> bytes -> option string.
Variable rand : nat -> Z.
Variable hashOf : bytes -> bytes.

(** ** Stepping the player *)

Definition Player_Step (p : Player) : outcome (Player * fallible recordedEvent) :=
  '(l, res) ← EventLog_ReadEvent dest rand fuel (py_EventSource p);
  let p := p <| py_EventSource := l |> in
  match res with
  | Failed error => Ok (p, Failed ("event log has no more events: " +:+ error))
  | Returned event =>
    let '(p, node) := Player_Node (p <| py_LastEvent := Some event |>) (re_NodeId event) in
    let node :=
      match re_StateEvent event with
      | Event_Initialize _ => mkPlaybackNode (pn_ID node) (Some emptyStateMachine) None []
      | Event_ActionsReceived => node <| pn_Processing := Some (pn_Actions node) |> <| pn_Actions := [] |>
      | _ => node
      end in
    sm ← deref (pn_StateMachine node) "nil pointer dereference: StateMachine";
    '(sm, actions) ← StateMachine_applyEvent fuel sm (re_StateEvent event);
    let node := node <| pn_StateMachine := Some sm |> <| pn_Actions := ActionList_PushBackList (pn_Actions node) actions |> in
    Ok (p <| py_Nodes := <[re_NodeId event := node]> (py_Nodes p) |>, Returned event)
  end.

(** ** Performing actions *)

Definition nodeAt (r : Recording) (id : Z) : outcome RecorderNode := sliceGet (rg_Nodes r) id.
Definition setNode (r : Recording) (id : Z) (n : RecorderNode) : Recording := r <| rg_Nodes := <[Z.to_nat id := n]> (rg_Nodes r) |>.

(** A message to one target, unless that node does not run yet. *)
Definition sendTo (nodeID : Z) (rt : RuntimeParameters) (msg : Msg) (i : Z) (r : Recording) : outcome Recording :=
  let linkLatency := if i =? nodeID then 0 else rt_LinkLatency rt in
  let '(p, n) := Player_Node (rg_Player r) i in
  let r := r <| rg_Player := p |> in
  match pn_StateMachine n with
  | None => Ok r
  | Some _ => onEventLog r (fun l => EventLog_InsertStepEvent l i nodeID msg (linkLatency + rt_PersistLatency rt))
  end.

Definition forwardTo (rt : RuntimeParameters) (ack : RequestAck) (dNodeID : Z) (r : Recording) : outcome Recording :=
  dNode ← nodeAt r dNodeID;
  if ReqStore_Has (rn_ReqStore dNode) ack then Ok r
  else if negb (ReqStore_HasCorrect (rn_ReqStore dNode) ack) then Ok r
  else onEventLog r (fun l => EventLog_InsertStateEvent l dNodeID (Event_RequestPersisted ack) (rt_LinkLatency rt)).

(** The state of the first node that has the checkpoint. *)
Fixpoint checkpointAt (nodes : list RecorderNode) (seqNo : Z) : option NetworkState :=
  match nodes with
  | [] => None
  | node :: nodes' =>
    match nd_CheckpointsBySeqNo (rn_State node) !! seqNo with
    | Some checkpoint => Some (ckr_NetworkState checkpoint)
    | None => checkpointAt nodes' seqNo
    end
  end.

(** One action; the second result tells whether the iteration reaches its end,
    where the playback node's [Processing] is reset. *)
Definition recordAction (nodeID : Z) (action : Action) (r : Recording) : outcome (Recording * bool) :=
  node ← nodeAt r nodeID;
  let rt := rnc_RuntimeParms (rn_Config node) in
  match action with
  | Action_Send targets msg => r ← forRange (sendTo nodeID rt msg) targets r; Ok (r, true)
  | Action_Hash data origin =>
    r ← onEventLog r (fun l => EventLog_InsertStateEvent l nodeID
           (Event_HashResult (Some (hashOf (foldl (fun h d => h ++ str d) [] data))) origin) (rt_ReadyLatency rt));
    Ok (r, true)
  | Action_TruncateWriteAhead index => wal ← SimWAL_Truncate (rn_WAL node) index; Ok (setNode r nodeID (node <| rn_WAL := wal |>), true)
  | Action_AppendWriteAhead index data => wal ← SimWAL_Append (rn_WAL node) index data; Ok (setNode r nodeID (node <| rn_WAL := wal |>), true)
  | Action_AllocatedRequest clientID reqNo =>
    client ← sliceGet (rg_Clients r) clientID;
    _ ← assertTrue (cc_ID client =? clientID) "sanity check";
    if ClientConfig_shouldSkip client nodeID then Ok (r, false)
    else match RecorderClient_RequestByReqNo hashOf client reqNo with
         | None => Ok (r, false)
         | Some req =>
           r ← onEventLog r (fun l => EventLog_InsertStateEvent l nodeID (Event_RequestPersisted req) (rt_ClientProcessLatency rt));
           Ok (r, true)
         end
  | Action_ForwardRequest targets ack =>
    _ ← assertTrue (ReqStore_Has (rn_ReqStore node) ack) "we asked ourselves to forward an ack we do not have";
    r ← forRange (forwardTo rt ack) targets r;
    Ok (r, true)
  | Action_CorrectRequest ack => Ok (setNode r nodeID (node <| rn_ReqStore ::= fun rs => ReqStore_StoreCorrect rs ack |>), true)
  | Action_Commit batch => st ← NodeState_Commit (rn_ReqStore node) (rn_State node) batch; Ok (setNode r nodeID (node <| rn_State := st |>), true)
  | Action_Checkpoint cp =>
    _ ← assertTrue (ac_SeqNo cp =? nd_LastSeqNo (rn_State node)) "asked to checkpoint for uncommitted sequence";
    written ← deref (nd_ActiveHash (rn_State node)) "nil pointer dereference: ActiveHash";
    let '(st, result) := NodeState_Set (rn_State node) (ac_SeqNo cp) (Some (hashOf written))
                           (mkNetworkState (ac_NetworkConfig cp) (ac_ClientStates cp) [] false) in
    r ← onEventLog (setNode r nodeID (node <| rn_State := st |>))
          (fun l => EventLog_InsertStateEvent l nodeID (Event_CheckpointResult result) (rt_ProcessLatency rt));
    Ok (r, true)
  | Action_StateTransfer target =>
    (* without a node that has it the state is nil, which the state machine dereferences *)
    networkState ← deref (checkpointAt (rg_Nodes r) (ast_SeqNo target)) "nil pointer dereference: NetworkState";
    r ← onEventLog r (fun l => EventLog_InsertStateEvent l nodeID
           (Event_StateTransferComplete (ast_SeqNo target) (ast_Value target) networkState) (rt_StateTransferLatency rt));
    Ok (r, true)
  end.

(** The loop over the actions being processed. *)
Fixpoint recordActions (nodeID : Z) (actions : ActionList) (reset : bool) (r : Recording) : outcome (Recording * bool) :=
  match actions with
  | [] => Ok (r, reset)
  | action :: actions' => '(r, b) ← recordAction nodeID action r; recordActions nodeID actions' (reset || b) r
  end.

Definition playbackOf (r : Recording) (id : Z) : PlaybackNode := (Player_Node (rg_Player r) id).2.

(** [Event_ActionsReceived]. *)
Definition processActions (nodeID : Z) (r : Recording) : outcome (Recording * option string) :=
  node ← nodeAt r nodeID;
  if negb (rn_AwaitingProcessEvent node) then
    Ok (r, Some ("node " +:+ pretty nodeID +:+ " was not awaiting a processing message, but got one"))
  else
    let r := setNode r nodeID (node <| rn_AwaitingProcessEvent := false |>) in
    '(r, reset) ← recordActions nodeID (default [] (pn_Processing (playbackOf r nodeID))) false r;
    let r := if reset : bool
             then r <| rg_Player ::= fun p => p <| py_Nodes := <[nodeID := (playbackOf r nodeID) <| pn_Processing := None |>]> (py_Nodes p) |> |>
             else r in
    Ok (r, None).

(** An entry of the log that is loaded after a start. *)
Definition loadSimEntry (nodeID : Z) (rt : RuntimeParameters) (e : Z * Persistent) (st : Recording * Z * option CEntry)
    : outcome (Recording * Z * option CEntry) :=
  let '(r, delay, maxCEntry) := st in
  let delay := delay + rt_WALReadDelay rt in
  r ← onEventLog r (fun l => EventLog_InsertStateEvent l nodeID (Event_LoadPersistedEntry e.1 e.2) delay);
  Ok (r, delay, match e.2 with Persistent_CEntry c => Some c | _ => maxCEntry end).

(** [Event_Initialize]: what is queued for the node is removed, the log is loaded. *)
Definition restartNode (nodeID : Z) (r : Recording) : outcome Recording :=
  node ← nodeAt r nodeID;
  let rt := rnc_RuntimeParms (rn_Config node) in
  let r := setNode r nodeID (node <| rn_AwaitingProcessEvent := false |>) in
  r ← onEventLog r (fun l => Ok (l <| tl_List := filter (fun x => re_NodeId x.2 <> nodeID) (tl_List l) |>));
  '(r, delay, maxCEntry) ← forRange (loadSimEntry nodeID rt) (SimWAL_LoadAll (rn_WAL node)) (r, 0, None);
  c ← deref maxCEntry "nil pointer dereference: maxCEntry";
  node ← nodeAt r nodeID;
  let '(st, _) := NodeState_Set (rn_State node) (c_SeqNo c) (c_CheckpointValue c) (c_NetworkState c) in
  onEventLog (setNode r nodeID (node <| rn_State := st |>)) (fun l => EventLog_InsertStateEvent l nodeID Event_CompleteInitialization delay).

(** What a node does besides applying the event. *)
Definition handleEvent (event : recordedEvent) (r : Recording) : outcome (Recording * option string) :=
  let nodeID := re_NodeId event in
  node ← nodeAt r nodeID;
  let rt := rnc_RuntimeParms (rn_Config node) in
  match re_StateEvent event with
  | Event_TickElapsed | Event_CompleteInitialization =>
    r ← onEventLog r (fun l => EventLog_InsertTickEvent l nodeID (rt_TickInterval rt)); Ok (r, None)
  | Event_HashResult _ _ | Event_CheckpointResult _ | Event_Step _ _ | Event_LoadPersistedEntry _ _ | Event_StateTransferFailed _ _ => Ok (r, None)
  | Event_RequestPersisted ack => Ok (setNode r nodeID (node <| rn_ReqStore ::= fun rs => ReqStore_Store rs ack |>), None)
  | Event_ActionsReceived => processActions nodeID r
  | Event_Initialize _ => r ← restartNode nodeID r; Ok (r, None)
  | Event_StateTransferComplete seqNo value networkState =>
    Ok (setNode r nodeID (node <| rn_State := (NodeState_Set (rn_State node) seqNo value networkState).1 |>), None)
  | Event_unset => Panic "unhandled state event type"
  end.

Definition Recording_Step (r : Recording) : outcome (Recording * option string) :=
  match tl_List (py_EventSource (rg_Player r)) with
  | [] => Ok (r, Some "event log is empty, nothing to do"%string)
  | _ :: _ =>
    '(p, res) ← Player_Step (rg_Player r);
    let r := r <| rg_Player := p |> in
    match res with
    | Failed error => Ok (r, Some ("could not step recorder's underlying player: " +:+ error))
    | Returned event =>
      '(r, error) ← handleEvent event r;
      match error with
      | Some error => Ok (r, Some error)
      | None =>
        let nodeID := re_NodeId event in
        node ← nodeAt r nodeID;
        let playback := playbackOf r nodeID in
        if negb (if pn_Processing playback is Some _ then true else false) && negb (ActionList_isEmpty (pn_Actions playback))
           && negb (rn_AwaitingProcessEvent node)
        then
          r ← onEventLog r (fun l => EventLog_InsertProcess l nodeID (rt_ProcessLatency (rnc_RuntimeParms (rn_Config node))));
          node ← nodeAt r nodeID;
          Ok (setNode r nodeID (node <| rn_AwaitingProcessEvent := true |>), None)
        else Ok (r, None)
      end
    end
  end.

(** ** Running to completion *)

(** The loop over the clients of one node's last checkpoint, and over the nodes. *)
Fixpoint allDone (targetReqs : gmap Z Z) (nodes : list RecorderNode) : outcome bool :=
  match nodes with
  | [] => Ok true
  | node :: nodes' =>
    checkpoint ← NodeState_LastCheckpoint (rn_State node);
    if forallb (fun client => default 0 (targetReqs !! cl_Id client) =? cl_LowWatermark client) (ns_Clients (ckr_NetworkState checkpoint))
    then allDone targetReqs nodes' else Ok false
  end.

(** [DrainClients]; the text about the unfinished clients is left out. *)
Fixpoint drainSteps (steps : nat) (targetReqs : gmap Z Z) (timeout count : Z) (r : Recording) : outcome (Recording * fallible Z) :=
  match steps with
  | O => OutOfFuel
  | S steps' =>
    let count := count + 1 in
    '(r, error) ← Recording_Step r;
    match error with
    | Some error => Ok (r, Failed error)
    | None =>
      done ← allDone targetReqs (rg_Nodes r);
      if done : bool then Ok (r, Returned count)
      else if timeout <? count then Ok (r, Failed ("timed out after " +:+ pretty count +:+ " entries"))
      else drainSteps steps' targetReqs timeout count r
    end
  end.

Definition Recording_DrainClients (r : Recording) (timeout : Z) : outcome (Recording * fallible Z) :=
  let targetReqs := foldl (fun m client => <[cc_ID client := cc_Total client]> m) ∅ (rg_Clients r) in
  drainSteps (S (Z.to_nat (timeout + 1))) targetReqs timeout 0 r.

End Simulation.

(** ** The standard simulation *)

Definition BasicRecorder (nodeCount clientCount reqsPerClient : Z) : outcome Recorder :=
  let configs := (fun i => mkRecorderNodeConfig (mkInitialParameters i 1 2 4 8 (5 * 1024 * 1024)) (mkRuntimeParameters 500 100 50 10 10 10 0 0 800))
                 <$> seqZ 0 nodeCount in
  networkState ← StandardInitialNetworkState nodeCount clientCount;
  let clientConfigs := (fun cl => mkClientConfig (cl_Id cl) (Z.quot (nc_CheckpointInterval (ns_Config networkState)) 2) reqsPerClient [])
                       <$> ns_Clients networkState in
  Ok (mkSimRecorder networkState configs clientConfigs [] None).

(** ** Lemmas *)

Definition sourceOf (r : Recording) : EventLog := py_EventSource (rg_Player r).

(** The queue stays in order and the time does not change. *)
Definition keepsTime (r r' : Recording) : Prop :=
  log_sorted (sourceOf r) -> log_sorted (sourceOf r') /\ tl_FakeTime (sourceOf r') = tl_FakeTime (sourceOf r).

Lemma keepsTime_refl (r : Recording) : keepsTime r r.
Proof. by intros H. Qed.

Lemma keepsTime_trans (r1 r2 r3 : Recording) : keepsTime r1 r2 -> keepsTime r2 r3 -> keepsTime r1 r3.
Proof. intros H1 H2 Hs. destruct (H1 Hs) as [Hs2 Ht]. destruct (H2 Hs2) as [Hs3 Ht3]. split; [done | congruence]. Qed.

Lemma keepsTime_source (r r' : Recording) : sourceOf r' = sourceOf r -> keepsTime r r'.
Proof. unfold keepsTime. by intros ->. Qed.

Lemma setNode_keepsTime (r r' : Recording) (id : Z) (n : RecorderNode) : keepsTime r r' -> keepsTime r (setNode r' id n).
Proof. done. Qed.

Lemma insertState_sorted (l l' : EventLog) (target : Z) (e : Event) (fromNow : Z) :
  log_sorted l -> EventLog_InsertStateEvent l target e fromNow = Ok l' -> log_sorted l' /\ tl_FakeTime l' = tl_FakeTime l.
Proof. intros Hs H. unfold EventLog_InsertStateEvent, EventLog_Insert in H. by apply insertPtr_sorted in H. Qed.

Lemma insertState_keepsTime (r r' : Recording) (target : Z) (e : Event) (fromNow : Z) :
  onEventLog r (fun l => EventLog_InsertStateEvent l target e fromNow) = Ok r' -> keepsTime r r'.
Proof. intros H Hs. unfold onEventLog in H. apply bind_Ok in H as (l & Hl & [= <-]). by apply insertState_sorted in Hl. Qed.

Lemma PlayerNode_source (r : Recording) (i : Z) : py_EventSource (Player_Node (rg_Player r) i).1 = sourceOf r.
Proof. unfold Player_Node. by destruct (py_Nodes _ !! i). Qed.

Lemma forRange_keepsTime {A : Type} (body : A -> Recording -> outcome Recording) (l : list A) (r r' : Recording) :
  (forall x r r', body x r = Ok r' -> keepsTime r r') -> forRange body l r = Ok r' -> keepsTime r r'.
Proof.
  intros Hb H. eapply (forRange_inv (keepsTime r)); [| apply keepsTime_refl | exact H].
  intros x a b _ Ha Hx. eapply keepsTime_trans; [exact Ha | by eapply Hb].
Qed.

Section SimulationLemmas.

Context `{PE : ProtoEqual} `{CR : ConfigRange} `{KR : CheckpointRange} `{Range : MapRange} `{Size : ProtoSize} `{ER : EpochRange}.
Context `{Orders : CheckpointOrders} `{EC : EventCodec}.

Lemma sendTo_keepsTime (nodeID : Z) (rt : RuntimeParameters) (msg : Msg) (i : Z) (r r' : Recording) :
  sendTo nodeID rt msg i r = Ok r' -> keepsTime r r'.
Proof.
  unfold sendTo. pose proof (PlayerNode_source r i) as Hsrc. destruct (Player_Node (rg_Player r) i) as [p n]. cbn in Hsrc.
  assert (H0 : keepsTime r (r <| rg_Player := p |>)) by (by apply keepsTime_source).
  destruct (pn_StateMachine n); [| by intros [= <-]]. intros H. apply insertState_keepsTime in H. by eapply keepsTime_trans.
Qed.

Lemma forwardTo_keepsTime (rt : RuntimeParameters) (ack : RequestAck) (i : Z) (r r' : Recording) :
  forwardTo rt ack i r = Ok r' -> keepsTime r r'.
Proof.
  unfold forwardTo. intros H. apply bind_Ok in H as (n & _ & H). repeat case_match; try (injection H as <-; apply keepsTime_refl).
  by eapply insertState_keepsTime.
Qed.

Lemma recordAction_keepsTime (hashOf : bytes -> bytes) (nodeID : Z) (action : Action) (r r' : Recording) (b : bool) :
  recordAction hashOf nodeID action r = Ok (r', b) -> keepsTime r r'.
Proof.
  unfold recordAction. intros H. apply bind_Ok in H as (node & _ & H). destruct action.
  - apply bind_Ok in H as (r1 & H1 & [= <- _]). by apply (forRange_keepsTime _ _ _ _ (sendTo_keepsTime _ _ _)) in H1.
  - apply bind_Ok in H as (r1 & H1 & [= <- _]). by eapply insertState_keepsTime.
  - apply bind_Ok in H as (w & _ & [= <- _]). apply setNode_keepsTime, keepsTime_refl.
  - apply bind_Ok in H as (w & _ & [= <- _]). apply setNode_keepsTime, keepsTime_refl.
  - apply bind_Ok in H as (st & _ & [= <- _]). apply setNode_keepsTime, keepsTime_refl.
  - apply bind_Ok in H as (u & _ & H). apply bind_Ok in H as (h & _ & H). destruct (NodeState_Set _ _ _ _) as [st res].
    apply bind_Ok in H as (r1 & H1 & [= <- _]). apply insertState_keepsTime in H1. eapply keepsTime_trans; [| exact H1].
    apply setNode_keepsTime, keepsTime_refl.
  - apply bind_Ok in H as (c & _ & H). apply bind_Ok in H as (u & _ & H). case_match; [injection H as <- _; apply keepsTime_refl |].
    case_match; [| injection H as <- _; apply keepsTime_refl]. apply bind_Ok in H as (r1 & Hr1 & [= <- _]). by eapply insertState_keepsTime.
  - injection H as <- _. apply setNode_keepsTime, keepsTime_refl.
  - apply bind_Ok in H as (u & _ & H). apply bind_Ok in H as (r1 & H1 & [= <- _]).
    by apply (forRange_keepsTime _ _ _ _ (forwardTo_keepsTime _ _)) in H1.
  - apply bind_Ok in H as (ns & _ & H). apply bind_Ok in H as (r1 & H1 & [= <- _]). by eapply insertState_keepsTime.
Qed.

Lemma recordActions_keepsTime (hashOf : bytes -> bytes) (nodeID : Z) (actions : ActionList) (reset b : bool) (r r' : Recording) :
  recordActions hashOf nodeID actions reset r = Ok (r', b) -> keepsTime r r'.
Proof.
  revert reset r. induction actions as [|a actions IH]; intros reset r H; cbn [recordActions] in H; [injection H as <- _; apply keepsTime_refl |].
  apply bind_Ok in H as ([r1 b1] & H1 & H). apply recordAction_keepsTime in H1. eapply keepsTime_trans; [exact H1 | by eapply IH].
Qed.

(** Removing entries keeps the queue in order. *)
Lemma filter_sorted (P : Z * recordedEvent -> Prop) `{!forall x, Decision (P x)} (l : EventLog) :
  log_sorted l -> log_sorted (l <| tl_List := filter P (tl_List l) |>).
Proof.
  intros [Hs Hp]. split; cbn; [| apply Forall_forall; intros x [_ Hx]%list_elem_of_filter; rewrite Forall_forall in Hp; by apply Hp].
  apply StronglySorted_Sorted. apply Sorted_StronglySorted in Hs; [| intros a b c Hab Hbc; lia].
  induction Hs as [|x k Hk IH Hx]; [constructor |]. inversion Hp as [|? ? _ Hp']; subst. rewrite filter_cons. case_decide; [| by apply IH].
  constructor; [by apply IH |]. apply Forall_forall. intros y [_ Hy]%list_elem_of_filter. rewrite Forall_forall in Hx. by apply Hx.
Qed.

Lemma restartNode_keepsTime (nodeID : Z) (r r' : Recording) : restartNode nodeID r = Ok r' -> keepsTime r r'.
Proof.
  unfold restartNode. intros H. apply bind_Ok in H as (node & _ & H). apply bind_Ok in H as (r1 & H1 & H).
  assert (K1 : keepsTime r r1).
  { intros Hs. unfold onEventLog in H1. cbn in H1. injection H1 as <-. split; [| done]. by apply filter_sorted. }
  apply bind_Ok in H as ([[r2 delay] c] & H2 & H).
  assert (K2 : keepsTime r1 r2).
  { apply (forRange_inv (fun st => keepsTime r1 st.1.1)) in H2; [done | | apply keepsTime_refl].
    intros e [[a d] m] [[b d'] m'] _ Ka Hb. unfold loadSimEntry in Hb. apply bind_Ok in Hb as (r3 & H3 & [= <- _ _]).
    eapply keepsTime_trans; [exact Ka | by eapply insertState_keepsTime]. }
  apply bind_Ok in H as (ce & _ & H). apply bind_Ok in H as (n2 & _ & H). destruct (NodeState_Set _ _ _ _) as [st res].
  apply insertState_keepsTime in H. eapply keepsTime_trans; [exact K1 |]. eapply keepsTime_trans; [exact K2 |].
  eapply keepsTime_trans; [| exact H]. apply setNode_keepsTime, keepsTime_refl.
Qed.

Lemma handleEvent_keepsTime (hashOf : bytes -> bytes) (event : recordedEvent) (r r' : Recording) (error : option string) :
  handleEvent hashOf event r = Ok (r', error) -> keepsTime r r'.
Proof.
  unfold handleEvent. intros H. apply bind_Ok in H as (node & _ & H).
  destruct (re_StateEvent event); try (injection H as <- _; (apply keepsTime_refl || apply setNode_keepsTime, keepsTime_refl)); try discriminate H.
  - apply bind_Ok in H as (r1 & H1 & [= <- _]). by eapply restartNode_keepsTime.
  - apply bind_Ok in H as (r1 & H1 & [= <- _]). by eapply insertState_keepsTime.
  - apply bind_Ok in H as (r1 & H1 & [= <- _]). by eapply insertState_keepsTime.
  - unfold processActions in H. apply bind_Ok in H as (n & _ & H). case_match; [injection H as <- _; apply keepsTime_refl |].
    apply bind_Ok in H as ([r1 b] & H1 & H). apply recordActions_keepsTime in H1. injection H as <- _. destruct b; exact H1.
Qed.

(** ** Properties *)

(** A simulation moves forward in time.  Every step that returns, for
    every mangler, hash and sequence of random numbers and whatever the nodes
    do, keeps the queue of events in order of time and free of events in the
    past, and never sets the clock back. *)
Theorem simulation_moves_forward (fuel : nat) (dest : bytes -> bytes -> option string) (rand : nat -> Z) (hashOf : bytes -> bytes)
    (r r' : Recording) (error : option string) :
  log_sorted (sourceOf r) -> Recording_Step fuel dest rand hashOf r = Ok (r', error) ->
  log_sorted (sourceOf r') /\ tl_FakeTime (sourceOf r) <= tl_FakeTime (sourceOf r').
Proof.
  intros Hs H. unfold Recording_Step in H. destruct (tl_List _) as [|x l]; [injection H as <- _; by split; [| lia] |].
  apply bind_Ok in H as ([p res] & Hp & H).
  assert (Hps : log_sorted (py_EventSource p) /\ tl_FakeTime (sourceOf r) <= tl_FakeTime (py_EventSource p)).
  { unfold Player_Step in Hp. apply bind_Ok in Hp as ([l1 r1] & Hr & Hp). apply (readLoop_sorted dest rand fuel _ _ _ Hs) in Hr as (Hs1 & Ht1 & _).
    destruct r1 as [e | err]; [| injection Hp as <- _; by split]. unfold Player_Node in Hp. destruct (py_Nodes _ !! _) in Hp;
    apply bind_Ok in Hp as (sm & _ & Hp); apply bind_Ok in Hp as ([sm1 a1] & _ & [= <- _]); by split. }
  destruct Hps as [Hps Hpt]. destruct res as [e | err]; [| injection H as <- _; by split].
  apply bind_Ok in H as ([r1 e1] & H1 & H). apply handleEvent_keepsTime in H1. destruct (H1 Hps) as [Hs1 Ht1].
  change (sourceOf (r <| rg_Player := p |>)) with (py_EventSource p) in Ht1. destruct e1; [injection H as <- _; split; [done | lia] |].
  apply bind_Ok in H as (node & _ & H). case_match; [| injection H as <- _; split; [done | lia]].
  apply bind_Ok in H as (r2 & H2 & H). apply insertState_keepsTime in H2. destruct (H2 Hs1) as [Hs2 Ht2].
  apply bind_Ok in H as (n2 & _ & [= <- _]). split; [exact Hs2 |]. change (sourceOf (setNode r2 _ _)) with (sourceOf r2). lia.
Qed.

End SimulationLemmas.

(** ** Runs *)

#[local] Existing Instance fieldsEqual.
#[local] Existing Instance plainConfigRange.
#[local] Existing Instance plainCheckpointRange.
#[local] Existing Instance canonicalRange.
#[local] Existing Instance unitSize.
#[local] Existing Instance plainEpochRange.
#[local] Existing Instance plainOrders.
#[local] Existing Instance tickCodec.

(** A run of the standard simulation with the identity as the hash: the number
    of steps, and what the checkpoints of the nodes say at the end. *)
Definition simulate (adjust : Recorder -> Recorder) (nodes clients reqs timeout : Z) : outcome (fallible Z * list (option (Z * slice * list Z))) :=
  recorder ← BasicRecorder nodes clients reqs;
  recording ← Recorder_Recording (adjust recorder) None;
  '(recording, count) ← Recording_DrainClients 100 noError (fun _ => 0) id recording timeout;
  Ok (count, (fun n => (fun cp => (ckr_SeqNo cp, ckr_Value cp, cl_LowWatermark <$> ns_Clients (ckr_NetworkState cp)))
                       <$> last (nd_Checkpoints (rn_State n))) <$> rg_Nodes recording).

(** A node that crashes when it has sent its checkpoint and starts again. *)
Definition crashAtCheckpoint (r : Recorder) : Recorder :=
  r <| sr_Mangler := Some (Mangling_CrashAndRestartAfter
         (For (matching_add (matching_add (matching_add MatchMsgs FromSelf) (ofType tCheckpoint)) (WithSequence 5)))
         10 (mkInitialParameters 0 1 2 4 8 (5 * 1024 * 1024))) |>.
(** A node whose messages are all lost. *)
Definition silence (node : Z) (r : Recorder) : Recorder :=
  r <| sr_Mangler := Some (Mangling_Drop (For (matching_add MatchMsgs (FromNodes [node])))) |>.



(** ** Witnesses *)

Definition startedSimulation : Recording :=
  match (r ← BasicRecorder 1 1 3; Recorder_Recording r None) with Ok r => r | _ => mkRecording (NewPlayer (newEventLog None None)) [] [] end.

Lemma startedSimulation_sorted : log_sorted (sourceOf startedSimulation).
Proof. split; vm_compute; repeat constructor; discriminate. Qed.

Definition steppedSimulation : Recording :=
  match Recording_Step 10 noError (fun _ => 0) id startedSimulation with Ok (r, _) => r | _ => startedSimulation end.

Lemma simulation_moves_forward_witness :
  log_sorted (sourceOf steppedSimulation) /\ tl_FakeTime (sourceOf startedSimulation) <= tl_FakeTime (sourceOf steppedSimulation).
Proof.
  assert (Hs : Recording_Step 10 noError (fun _ => 0) id startedSimulation = Ok (steppedSimulation, None)) by (vm_compute; reflexivity).
  exact (simulation_moves_forward 10 noError (fun _ => 0) id _ _ None startedSimulation_sorted Hs).
Defined.
