(* ===== verification/TextMarshal.v ===== *)
(** * Text format of protobuf messages

    [cmd/mircat/textmarshal.go]: the text mircat prints for an event or an
    action.  The encoder walks a message by reflection; what the reflection
    library returns for a message (its fields in the order of the descriptor,
    their values, and which field of a oneof is set) is the tree
    [protoMessage] below. *)
From stdpp Require Import pretty.
From S2P Require Import Prelude ReqStore.

(** ** Data (protoreflect) *)

(** A value of a field that is not a list, by the groups of kinds the encoder
    distinguishes.  An enum comes with the name of its number, if it has one;
    floating point numbers are the kinds without a case. *)
Inductive protoValue :=
| VBool (b : bool)
| VString (s : string)
| VInt (x : Z)
| VUint (x : Z)
| VBytes (b : bytes)
| VEnum (num : Z) (name : option string)
| VMessage (fields : list protoField) (whichOneof : list (option nat))
| VFloat
(** A field: its name, the oneof that contains it, its value.  The field of a
    oneof that is set is given by its position. *)
with protoField := mkProtoField (name : string) (containingOneof : option nat) (value : protoFieldValue)
with protoFieldValue :=
| FSingular (v : protoValue)
| FList (vs : list protoValue)
| FMap.

Definition fieldOneof (f : protoField) : option nat := match f with mkProtoField _ od _ => od end.

(** ** Operations *)

(** The text so far, and the error that ends the encoding. *)
Abbreviation encoding := (outcome (string * option string)).

Definition openBracket : Ascii.ascii := Ascii.ascii_of_nat 91.
Definition lastChar (s : string) : option Ascii.ascii := String.get (String.length s - 1) s.

Definition textEncoder_writeName (name : string) (result : string) : string :=
  let result := if (0 <? String.length result)%nat && negb (bool_decide (lastChar result = Some openBracket)) then result +:+ " " else result in
  result +:+ name +:+ "=".

(** The loop of [marshalMessage]: [writers] are the fields with what
    marshals them.  [WhichOneof] returns nil if no field is set. *)
Fixpoint messageLoop (fuel : nat) (writers : list (option nat * (string -> encoding))) (whichOneof : list (option nat)) (i : nat) (result : string) : encoding :=
  match fuel with
  | O => OutOfFuel
  | S fuel' =>
    match writers !! i with
    | None => Ok (result +:+ "]", None)
    | Some (od, writer) =>
      '(writer, i) ← match od with
        | Some od =>
          j ← deref (mjoin (whichOneof !! od)) "nil pointer dereference: WhichOneof";
          w ← deref (writers !! j) "nil pointer dereference: WhichOneof";
          Ok (w.2, (i + length (filter (fun w => w.1 = Some od) writers))%nat)
        | None => Ok (writer, S i)
        end;
      '(result, err) ← writer result;
      match err with
      | Some err => Ok (result, Some err)
      | None => messageLoop fuel' writers whichOneof i result
      end
    end
  end.

(** Fields; [enc] is [marshalSingular]. *)
Section Fields.

Variable enc : protoValue -> string -> encoding.

Fixpoint marshalList (name : string) (vs : list protoValue) (result : string) : encoding :=
  match vs with
  | [] => Ok (result, None)
  | v :: vs' =>
    '(result, err) ← enc v (textEncoder_writeName name result);
    match err with
    | Some err => Ok (result, Some err)
    | None => marshalList name vs' result
    end
  end.

Definition marshalField (f : protoField) (result : string) : encoding :=
  match f with
  | mkProtoField name _ (FList vs) => marshalList name vs result
  | mkProtoField _ _ FMap => Ok (result, Some "maps in protos unsupported by this encoder"%string)
  | mkProtoField name _ (FSingular v) => enc v (textEncoder_writeName name result)
  end.

End Fields.

Section Encoder.

Variable shortBytes : bool.

(** [marshalSingular], with [marshalMessage] as the case of a message. *)
Fixpoint marshalSingular (val : protoValue) (result : string) : encoding :=
  match val with
  | VBool b => Ok (result +:+ (if b then "true" else "false"), None)
  | VString s => Ok (result +:+ s, None)
  | VInt x | VUint x => Ok (result +:+ pretty x, None)
  | VBytes origVal =>
    let val := if shortBytes && (4 <? length origVal)%nat then take 4 origVal else origVal in
    Ok (result +:+ hex val, None)
  | VEnum num name => Ok (result +:+ default (pretty num) name, None)
  | VMessage fields whichOneof =>
    let writers := List.map (fun f => (fieldOneof f, marshalField marshalSingular f)) fields in
    messageLoop (S (length fields)) writers whichOneof 0 (result +:+ "[")
  | VFloat => Panic "unsupported field kind"
  end.

Definition textFormat (fields : list protoField) (whichOneof : list (option nat)) : outcome (fallible string) :=
  '(result, err) ← marshalSingular (VMessage fields whichOneof) EmptyString;
  match err with
  | Some err => Ok (Failed err)
  | None => Ok (Returned result)
  end.

End Encoder.

(** ** Specification *)

(** What is printed: every field outside of a oneof and the field of a oneof
    that is set, in the order of the descriptor. *)
Fixpoint selected {A : Type} (whichOneof : list (option nat)) (i : nat) (l : list (option nat * A)) : list A :=
  match l with
  | [] => []
  | (od, x) :: l' =>
    (if match od with None => true | Some od => bool_decide (mjoin (whichOneof !! od) = Some i) end then [x] else [])
    ++ selected whichOneof (S i) l'
  end.

Definition fieldItems (text : protoValue -> string) (f : protoField) : list string :=
  match f with
  | mkProtoField name _ (FSingular v) => [name +:+ "=" +:+ text v]
  | mkProtoField name _ (FList vs) => List.map (fun v => name +:+ "=" +:+ text v) vs
  | mkProtoField _ _ FMap => []
  end.

(** The text of a value, without reference to what is printed before it. *)
Fixpoint textOf (shortBytes : bool) (val : protoValue) : string :=
  match val with
  | VBool b => if b then "true" else "false"
  | VString s => s
  | VInt x | VUint x => pretty x
  | VBytes b => hex (if shortBytes then take 4 b else b)
  | VEnum num name => default (pretty num) name
  | VMessage fields whichOneof =>
    let items := List.map (fun f => (fieldOneof f, fieldItems (textOf shortBytes) f)) fields in
    "[" +:+ String.concat " " (List.concat (selected whichOneof 0 items)) +:+ "]"
  | VFloat => ""
  end.

(** The fields of a oneof are adjacent and one of them is set, from the [i]-th
    field on. *)
Inductive grouped (ods : list (option nat)) (whichOneof : list (option nat)) : nat -> Prop :=
| grouped_end i : ods !! i = None -> grouped ods whichOneof i
| grouped_plain i : ods !! i = Some None -> grouped ods whichOneof (S i) -> grouped ods whichOneof i
| grouped_oneof i od m j :
    length (filter (fun o => o = Some od) ods) = m -> (0 < m)%nat ->
    (forall k, (k < m)%nat -> ods !! (i + k)%nat = Some (Some od)) ->
    whichOneof !! od = Some (Some j) -> (i <= j < i + m)%nat ->
    grouped ods whichOneof (i + m) -> grouped ods whichOneof i.

Definition endsOpen (s : string) : Prop := lastChar s = Some openBracket.

(** The values the encoder is made for: no maps and no floating point numbers,
    every oneof set, and no text that ends in an opening bracket. *)
Inductive printable : protoValue -> Prop :=
| pr_bool b : printable (VBool b)
| pr_string s : ~ endsOpen s -> printable (VString s)
| pr_int x : printable (VInt x)
| pr_uint x : printable (VUint x)
| pr_bytes b : printable (VBytes b)
| pr_enum num name : (forall s, name = Some s -> ~ endsOpen s) -> printable (VEnum num name)
| pr_message fields whichOneof :
    grouped (List.map fieldOneof fields) whichOneof 0 -> (forall f, In f fields -> printableField f) -> printable (VMessage fields whichOneof)
with printableField : protoField -> Prop :=
| pr_singular name od v : printable v -> printableField (mkProtoField name od (FSingular v))
| pr_list name od vs : (forall v, In v vs -> printable v) -> printableField (mkProtoField name od (FList vs)).

Scheme printable_ind2 := Induction for printable Sort Prop with printableField_ind2 := Induction for printableField Sort Prop.

(** ** Lemmas: the last character *)

Lemma append_assoc (a b c : string) : (a +:+ b) +:+ c = a +:+ b +:+ c.
Proof. induction a as [|x a IH]; [done |]. exact (f_equal (String x) IH). Qed.

Lemma append_nil (a : string) : a +:+ "" = a.
Proof. induction a as [|x a IH]; [done |]. exact (f_equal (String x) IH). Qed.

Lemma length_append (a b : string) : String.length (a +:+ b) = (String.length a + String.length b)%nat.
Proof. induction a as [|x a IH]; [done |]. exact (f_equal S IH). Qed.

Lemma lastChar_app (a b : string) : b <> "" -> lastChar (a +:+ b) = lastChar b.
Proof.
  intros Hb. unfold lastChar. rewrite length_append.
  replace (String.length a + String.length b - 1)%nat with (String.length b - 1 + String.length a)%nat by (destruct b; [done | cbn; lia]).
  symmetry. apply String.append_correct2.
Qed.

Lemma allChars_last (ok : Ascii.ascii -> bool) (s : string) (c : Ascii.ascii) : allChars ok s = true -> lastChar s = Some c -> ok c = true.
Proof.
  intros Hs. unfold lastChar. generalize (String.length s - 1)%nat. induction s as [|x s IH]; [by intros [] |]. cbn [allChars] in Hs.
  apply andb_true_iff in Hs as [Hx Hs]. intros [|n]; cbn; [by intros [= <-] | by apply IH].
Qed.

Definition notOpen (c : Ascii.ascii) : bool := negb (bool_decide (c = openBracket)).

Lemma allChars_closed (s : string) : allChars notOpen s = true -> ~ endsOpen s.
Proof. intros Hs He. by apply (allChars_last notOpen s openBracket Hs) in He. Qed.

Lemma textOf_closed (shortBytes : bool) (v : protoValue) : printable v -> ~ endsOpen (textOf shortBytes v).
Proof.
  intros [b | s Hs | x | x | b | num name Hn | fields whichOneof _ _]; cbn [textOf].
  - by destruct b.
  - done.
  - by apply allChars_closed, pretty_allChars.
  - by apply allChars_closed, pretty_allChars.
  - by apply allChars_closed, hex_allChars.
  - destruct name as [s |]; [by apply Hn | by apply allChars_closed, pretty_allChars].
  - unfold endsOpen. rewrite <- append_assoc. rewrite lastChar_app by done. done.
Qed.

(** ** Lemmas: items *)

(** One item after the text so far. *)
Definition addItem (result item : string) : string := (if bool_decide (endsOpen result) then result else result +:+ " ") +:+ item.

(** An item is a name, an equals sign and a text that is closed. *)
Definition goodItem (item : string) : Prop := item <> "" /\ ~ endsOpen item.

Lemma writeName_item (name text result : string) : result <> "" ->
  textEncoder_writeName name result +:+ text = addItem result (name +:+ "=" +:+ text).
Proof.
  intros Hr. unfold textEncoder_writeName, addItem, endsOpen. destruct (Nat.ltb_spec 0 (String.length result)) as [_ | H]; [| destruct result; [done | cbn in H; lia]].
  case_bool_decide; cbn [andb negb]; by rewrite !append_assoc.
Qed.

Lemma item_good (name text : string) : ~ endsOpen text -> goodItem (name +:+ "=" +:+ text).
Proof.
  intros Ht. split; [by destruct name |]. unfold endsOpen. rewrite lastChar_app by done. destruct text as [|c text]; [done |].
  by rewrite (lastChar_app "=" (String c text)).
Qed.

Lemma addItem_nonempty (result item : string) : goodItem item -> addItem result item <> "".
Proof. intros [Hi _] H. apply (f_equal String.length) in H. unfold addItem in H. rewrite length_append in H. destruct item; [done | cbn in H; lia]. Qed.

Lemma foldl_addItem_nonempty (items : list string) (result : string) : Forall goodItem items -> result <> "" -> foldl addItem result items <> "".
Proof. intros Hi. revert result. induction Hi as [|i items Hi _ IH]; intros result Hr; [done |]. cbn. apply IH. by apply addItem_nonempty. Qed.

(** After a closed text the items are separated by spaces. *)
Lemma foldl_addItem_closed (items : list string) (result : string) : Forall goodItem items -> ~ endsOpen result ->
  foldl addItem result items = result +:+ (match items with [] => "" | _ => " " +:+ String.concat " " items end).
Proof.
  intros Hi. revert result. induction Hi as [|i items [Hne Hi] _ IH]; intros result Hr; [by rewrite append_nil |]. cbn [foldl].
  assert (Ha : addItem result i = result +:+ " " +:+ i) by (unfold addItem; by rewrite bool_decide_false, append_assoc by done).
  rewrite Ha, IH.
  - destruct items as [|i2 items]; [by rewrite append_nil |]. cbn [String.concat]. by rewrite !append_assoc.
  - unfold endsOpen. rewrite lastChar_app by done. rewrite (lastChar_app " " i) by done. done.
Qed.

(** After an opening bracket the first one follows directly. *)
Lemma foldl_addItem_open (items : list string) (result : string) : Forall goodItem items ->
  foldl addItem (result +:+ "[") items = result +:+ "[" +:+ String.concat " " items.
Proof.
  intros [|i items0 [Hne Hi] Hrest]; [done |]. cbn [foldl].
  assert (Ho : endsOpen (result +:+ "[")) by (unfold endsOpen; by rewrite lastChar_app).
  assert (Ha : addItem (result +:+ "[") i = result +:+ "[" +:+ i) by (unfold addItem; by rewrite bool_decide_true, append_assoc by done).
  rewrite Ha, foldl_addItem_closed; [| done | unfold endsOpen; rewrite !lastChar_app by done; done].
  destruct items0; [by rewrite append_nil |]. cbn [String.concat]. by rewrite !append_assoc.
Qed.

(** ** Lemmas: the selected fields *)

Lemma selected_app {A : Type} (whichOneof : list (option nat)) (i : nat) (l1 l2 : list (option nat * A)) :
  selected whichOneof i (l1 ++ l2) = selected whichOneof i l1 ++ selected whichOneof (i + length l1) l2.
Proof.
  revert i. induction l1 as [|[od x] l1 IH]; intros i; cbn [app selected length]; [by rewrite Nat.add_0_r |].
  by rewrite IH, <- app_assoc, Nat.add_succ_r.
Qed.

Lemma selected_none {A : Type} (whichOneof : list (option nat)) (i j od : nat) (l : list (option nat * A)) :
  Forall (fun o => o.1 = Some od) l -> whichOneof !! od = Some (Some j) -> (j < i)%nat -> selected whichOneof i l = [].
Proof.
  intros Hl Hw. revert i. induction Hl as [|[o x] l Ho _ IH]; intros i Hj; [done |]. cbn in Ho. subst o. cbn [selected]. rewrite Hw. cbn.
  rewrite bool_decide_false by (intros [= ->]; lia). apply IH. lia.
Qed.

Lemma selected_one {A : Type} (whichOneof : list (option nat)) (i j od : nat) (l : list (option nat * A)) (x : A) :
  Forall (fun o => o.1 = Some od) l -> whichOneof !! od = Some (Some j) -> l !! (j - i)%nat = Some (Some od, x) -> (i <= j)%nat ->
  selected whichOneof i l = [x].
Proof.
  intros Hl Hw. revert i. induction Hl as [|[o y] l Ho Hl IH]; intros i Hx Hij; [done |]. cbn in Ho. subst o. cbn [selected]. rewrite Hw. cbn.
  destruct (decide (j = i)) as [-> | Hne].
  - rewrite bool_decide_true by done. rewrite Nat.sub_diag in Hx. injection Hx as <-. cbn.
    by rewrite (selected_none whichOneof (S i) i od l Hl Hw ltac:(lia)).
  - rewrite bool_decide_false by congruence. cbn. apply IH; [| lia]. replace (j - i)%nat with (S (j - S i)) in Hx by lia. exact Hx.
Qed.

Lemma filter_fst {A : Type} (o : option nat) (l : list (option nat * A)) :
  length (filter (fun w => w.1 = o) l) = length (filter (fun x => x = o) l.*1).
Proof. induction l as [|[x a] l IH]; [done |]. cbn [fmap list_fmap]. rewrite !filter_cons. cbn. case_decide; cbn; by rewrite IH. Qed.

(** A writer adds the items of its field. *)
Definition writes (w : option nat * (string -> encoding)) (it : option nat * list string) : Prop :=
  w.1 = it.1 /\ Forall goodItem it.2 /\ forall result, result <> "" -> w.2 result = Ok (foldl addItem result it.2, None).

Section Loop.

Context (writers : list (option nat * (string -> encoding))) (items : list (option nat * list string)) (whichOneof : list (option nat)).
Hypothesis Hwrites : Forall2 writes writers items.

Lemma writers_lookup (i : nat) (it : option nat * list string) : items !! i = Some it -> exists w, writers !! i = Some w /\ writes w it.
Proof using Hwrites. intros Hi. destruct (Forall2_lookup_r _ _ _ _ _ Hwrites Hi) as (w & ? & ?). eauto. Qed.

Lemma writers_fst : writers.*1 = items.*1.
Proof using Hwrites. apply list_eq_Forall2, Forall2_fmap_2. eapply Forall2_impl; [exact Hwrites |]. by intros w it [H _]. Qed.

(** The fields of a oneof are those from [i] on. *)
Lemma oneof_run (i od m j : nat) :
  (forall k, (k < m)%nat -> items.*1 !! (i + k)%nat = Some (Some od)) -> whichOneof !! od = Some (Some j) -> (i <= j < i + m)%nat ->
  exists x, items !! j = Some (Some od, x) /\ selected whichOneof i (drop i items) = x :: selected whichOneof (i + m) (drop (i + m) items).
Proof.
  intros Hrun Hw Hj. assert (Hjx : exists x, items !! j = Some (Some od, x)).
  { pose proof (Hrun (j - i)%nat ltac:(lia)) as H. replace (i + (j - i))%nat with j in H by lia. rewrite list_lookup_fmap in H.
    destruct (items !! j) as [[o x] |]; [| done]. injection H as ->. eauto. }
  destruct Hjx as [x Hx]. exists x. split; [done |]. rewrite <- (take_drop m (drop i items)), selected_app, drop_drop.
  assert (Hlen : length (take m (drop i items)) = m).
  { rewrite length_take, length_drop. enough (i + m <= length items)%nat by lia.
    destruct m as [|m]; [lia |]. pose proof (Hrun m ltac:(lia)) as H. apply lookup_lt_Some in H. rewrite length_fmap in H. lia. }
  rewrite Hlen, (selected_one whichOneof i j od _ x); [done | | done | | lia].
  - apply Forall_lookup. intros k it Hk. apply lookup_take_Some in Hk as [Hk Hkm]. rewrite lookup_drop in Hk.
    pose proof (Hrun k Hkm) as H. rewrite list_lookup_fmap, Hk in H. by injection H.
  - rewrite lookup_take_lt by lia. rewrite lookup_drop. by replace (i + (j - i))%nat with j by lia.
Qed.

Lemma messageLoop_spec (i fuel : nat) (result : string) :
  grouped items.*1 whichOneof i -> (i <= length items < fuel + i)%nat -> result <> "" ->
  messageLoop fuel writers whichOneof i result = Ok (foldl addItem result (List.concat (selected whichOneof i (drop i items))) +:+ "]", None).
Proof using Hwrites.
  intros Hg. revert fuel result. induction Hg as [i Hend | i Hi Hg IH | i od m j Hm Hpos Hrun Hw Hj Hg IH]; intros fuel result Hf Hr.
  - rewrite list_lookup_fmap in Hend. destruct (items !! i) eqn:Hi; [done |]. apply lookup_ge_None in Hi. rewrite drop_ge by done.
    pose proof (Forall2_length _ _ _ Hwrites). destruct fuel as [|fuel]; [lia |]. cbn [messageLoop]. by rewrite (lookup_ge_None_2 writers i) by lia.
  - rewrite list_lookup_fmap in Hi. destruct (items !! i) as [[o its] |] eqn:Hit; [| done]. injection Hi as ->.
    destruct (writers_lookup i _ Hit) as ([o w] & Hwr & Ho & Hgood & Hwi). cbn in Ho, Hgood, Hwi. subst o.
    pose proof (lookup_lt_Some _ _ _ Hit). destruct fuel as [|fuel]; [lia |]. cbn [messageLoop]. rewrite Hwr, bind_ok, Hwi, bind_ok by done.
    rewrite IH by (lia || by apply foldl_addItem_nonempty). rewrite (drop_S _ _ _ Hit). cbn [selected app]. cbn [List.concat]. by rewrite foldl_app.
  - destruct (oneof_run i od m j Hrun Hw Hj) as (its & Hit & ->).
    destruct (writers_lookup j _ Hit) as ([o w] & Hwr & Ho & Hgood & Hwi). cbn in Ho, Hgood, Hwi. subst o.
    pose proof (Hrun 0%nat Hpos) as Hi. rewrite Nat.add_0_r, <- writers_fst, list_lookup_fmap in Hi.
    destruct (writers !! i) as [[o w0] |] eqn:Hwi0; [| done]. injection Hi as ->.
    assert (Hend : (i + m <= length items)%nat).
    { pose proof (Hrun (m - 1)%nat ltac:(lia)) as H. apply lookup_lt_Some in H. rewrite length_fmap in H. lia. }
    assert (Hcount : length (filter (fun w => w.1 = Some od) writers) = m) by (by rewrite filter_fst, writers_fst).
    pose proof (Forall2_length _ _ _ Hwrites). pose proof (lookup_lt_Some _ _ _ Hwi0). destruct fuel as [|fuel]; [lia |].
    cbn [messageLoop]. rewrite Hwi0, Hw. cbn [mjoin option_join deref]. rewrite bind_ok, Hwr. cbn [deref]. rewrite !bind_ok, Hcount. cbn [snd].
    rewrite Hwi, bind_ok by done. rewrite IH by (lia || by apply foldl_addItem_nonempty). cbn [List.concat]. by rewrite foldl_app.
Qed.

End Loop.

(** ** Lemmas: values *)

Lemma marshalList_spec (enc : protoValue -> string -> encoding) (text : protoValue -> string) (name : string) (vs : list protoValue) :
  (forall v, In v vs -> ~ endsOpen (text v) /\ forall result, enc v result = Ok (result +:+ text v, None)) ->
  Forall goodItem (fieldItems text (mkProtoField name None (FList vs)))
  /\ forall result, result <> "" -> marshalList enc name vs result = Ok (foldl addItem result (fieldItems text (mkProtoField name None (FList vs))), None).
Proof.
  cbn [fieldItems]. induction vs as [|v vs IH]; intros Hv; [done |]. destruct (Hv v ltac:(by left)) as [Hc He].
  destruct IH as [Hg IH]; [intros v' Hin; apply Hv; by right |]. pose proof (item_good name (text v) Hc) as Hi. split; [by constructor |].
  intros result Hr. cbn [marshalList List.map foldl]. rewrite He, bind_ok, writeName_item by done. apply IH. by apply addItem_nonempty.
Qed.

Lemma fields_write (enc : protoValue -> string -> encoding) (text : protoValue -> string) (fields : list protoField) :
  (forall f, In f fields -> Forall goodItem (fieldItems text f)
     /\ forall result, result <> "" -> marshalField enc f result = Ok (foldl addItem result (fieldItems text f), None)) ->
  Forall2 writes (List.map (fun f => (fieldOneof f, marshalField enc f)) fields) (List.map (fun f => (fieldOneof f, fieldItems text f)) fields).
Proof.
  induction fields as [|f fields IH]; intros Hf; [constructor |]. constructor; [| apply IH; intros f' Hin; apply Hf; by right].
  destruct (Hf f ltac:(by left)) as [Hgood Hwr]. by split.
Qed.

Lemma marshal_spec (shortBytes : bool) (v : protoValue) : printable v ->
  forall result, marshalSingular shortBytes v result = Ok (result +:+ textOf shortBytes v, None).
Proof.
  apply (printable_ind2 (fun v _ => forall result, marshalSingular shortBytes v result = Ok (result +:+ textOf shortBytes v, None))
    (fun f _ => Forall goodItem (fieldItems (textOf shortBytes) f)
       /\ forall result, result <> "" -> marshalField (marshalSingular shortBytes) f result = Ok (foldl addItem result (fieldItems (textOf shortBytes) f), None)));
    clear v; try done.
  - intros b result. cbn [marshalSingular textOf]. destruct shortBytes; cbn [andb]; [| done]. destruct (Nat.ltb_spec 4 (length b)); [done |].
    by rewrite (take_ge b 4) by lia.
  - intros fields whichOneof Hg Hf IH result. cbn [marshalSingular textOf].
    set (items := List.map (fun f => (fieldOneof f, fieldItems (textOf shortBytes) f)) fields).
    set (writers := List.map (fun f => (fieldOneof f, marshalField (marshalSingular shortBytes) f)) fields).
    pose proof (fields_write (marshalSingular shortBytes) (textOf shortBytes) fields IH : Forall2 writes writers items) as Hw.
    assert (Hod : items.*1 = List.map fieldOneof fields) by (unfold items; clear; induction fields as [|f fields IH]; [done | exact (f_equal (cons _) IH)]).
    rewrite (messageLoop_spec writers items whichOneof Hw 0); [| by rewrite Hod | unfold items; rewrite List.length_map; lia | by destruct result].
    rewrite drop_0, foldl_addItem_open, !append_assoc; [done |].
    clear Hg Hod. generalize 0%nat. revert Hw. clearbody writers items. induction 1 as [|w [od its] ws itss (_ & Hgood & _) _ IHw]; intros i; [constructor |].
    cbn [selected]. rewrite concat_app. apply Forall_app. split; [| apply IHw]. case_match; cbn; [by rewrite app_nil_r | constructor].
  - intros name od v Hv IH. pose proof (textOf_closed shortBytes v Hv) as Hc. split; [constructor; [by apply item_good | constructor] |].
    intros result Hr. cbn [marshalField fieldItems foldl]. by rewrite IH, writeName_item.
  - intros name od vs Hv IH. apply (marshalList_spec (marshalSingular shortBytes) (textOf shortBytes) name vs).
    intros v Hin. split; [by apply textOf_closed, Hv | by apply (IH v Hin)].
Qed.

Lemma textFormat_printable (shortBytes : bool) (fields : list protoField) (whichOneof : list (option nat)) :
  printable (VMessage fields whichOneof) ->
  textFormat shortBytes fields whichOneof = Ok (Returned (textOf shortBytes (VMessage fields whichOneof))).
Proof. intros Hp. unfold textFormat. by rewrite (marshal_spec shortBytes _ Hp EmptyString), bind_ok. Qed.

(** ** Properties *)


(** A message with a oneof that is not set cannot be printed. *)
Example unset_oneof_crashes (shortBytes : bool) (name : string) (value : protoFieldValue) :
  textFormat shortBytes [mkProtoField name (Some 0%nat) value] [None] = Panic "nil pointer dereference: WhichOneof".
Proof. done. Qed.

(** ** Witnesses *)

(** The event of the source's own test. *)
Definition message (fields : list protoField) : protoFieldValue := FSingular (VMessage fields []).
Definition uintField (name : string) (x : Z) : protoField := mkProtoField name None (FSingular (VUint x)).
Definition oneofField (name : string) (value : protoFieldValue) : protoFieldValue :=
  FSingular (VMessage [mkProtoField name (Some 0%nat) value] [Some 0%nat]).
Definition sampleStepEvent : list protoField :=
  [uintField "node_id" 7; mkProtoField "time" None (FSingular (VInt 9));
   mkProtoField "state_event" None (oneofField "step" (message [uintField "source" 4;
     mkProtoField "msg" None (oneofField "prepare" (message [uintField "seq_no" 11; uintField "epoch" 0;
       mkProtoField "digest" None (FSingular (VBytes [222; 173; 190; 239; 222; 173; 190; 239]))]))]))].

Lemma sampleStepEvent_printable : printable (VMessage sampleStepEvent []).
Proof.
  assert (Hplain : forall fields, List.map fieldOneof fields = replicate (length fields) None -> grouped (List.map fieldOneof fields) [] 0).
  { intros fields ->. assert (H : forall n i, (i <= n)%nat -> grouped (replicate n None) [] (n - i)).
    { intros n i Hi. induction i as [|i IH]; [apply grouped_end; apply lookup_ge_None; rewrite length_replicate; lia |].
      apply grouped_plain; [apply lookup_replicate; split; [done | lia] |]. replace (S (n - S i)) with (n - i)%nat by lia. apply IH. lia. }
    specialize (H (length fields) (length fields) ltac:(lia)). by rewrite Nat.sub_diag in H. }
  assert (Hone : forall name value, printableField (mkProtoField name (Some 0%nat) value) -> printable (VMessage [mkProtoField name (Some 0%nat) value] [Some 0%nat])).
  { intros name value Hv. constructor; [| intros f [<- | []]; done].
    apply (grouped_oneof _ _ 0 0 1 0); [done | lia | intros [|k] Hk; [done | lia] | done | lia | by apply grouped_end]. }
  repeat (first [constructor; [by apply Hplain |]; intros f Hf; cbn in Hf; repeat (destruct Hf as [<- | Hf]); [.. | done]
    | apply pr_singular | apply Hone | constructor]).
Qed.

