(* ===== verification/Mircat.v ===== *)
(** * mircat

    [cmd/mircat/main.go]: the command line tool that prints a recorded event
    log, filtered by node and by type, and, in interactive mode, applies it to
    state machines of its own, which reproduces the recorded nodes.

    The parsing of flags (kingpin), the reflection of messages and the wall
    clock are parameters.  The output is the list of the texts printed; the
    log lines of the state machine and the stack trace of a panic are left
    out. *)
From stdpp Require Import pretty sorting.
From S2P Require Import Prelude Msgs Actions MsgBuffers Checkpoints Disseminator EpochTarget EpochTracker StateMachine ReqStore Serializer Status EventLog TextMarshal.

(** ** Filters *)

Definition allEventTypes : list string :=
  ["Initialize"; "LoadEntry"; "CompleteInitialization"; "Tick"; "Step"; "AddResults"; "ActionsReceived"; "ClientActionsReceived"]%string.

Definition allMsgTypes : list string :=
  ["Preprepare"; "Prepare"; "Commit"; "Checkpoint"; "EpochChange"; "EpochChangeAck"; "Suspect"; "NewEpoch"; "NewEpochEcho"; "NewEpochReady";
   "FetchBatch"; "ForwardBatch"; "FetchRequest"; "RequestAck"; "ForwardRequest"]%string.

(** The slices of flags are nil if the flag is not given. *)
Definition excludeByType (value : string) (include exclude : option (list string)) : bool :=
  match include with
  | Some include => negb (existsb (fun includeName => String.eqb includeName value) include)
  | None => existsb (fun excludeName => String.eqb excludeName value) (default [] exclude)
  end.

Definition excludedByNodeID (re : recordedEvent) (nodeIDs : option (list Z)) : bool :=
  match nodeIDs with
  | None => false
  | Some nodeIDs => negb (existsb (fun nodeID => nodeID =? re_NodeId re) nodeIDs)
  end.

Record arguments := mkArguments {
  ar_interactive : bool;
  ar_logLevel : string;
  ar_nodeIDs : option (list Z);
  ar_eventTypes : option (list string);
  ar_notEventTypes : option (list string);
  ar_stepTypes : option (list string);
  ar_notStepTypes : option (list string);
  ar_statusIndices : option (list Z);
  ar_verboseText : bool;
}.

Definition eventTypeText (event : Event) : outcome string :=
  match event with
  | Event_Initialize _ => Ok "Initialize"%string
  | Event_LoadPersistedEntry _ _ => Ok "LoadPersistedEntry"%string
  | Event_CompleteInitialization => Ok "CompleteInitialization"%string
  | Event_TickElapsed => Ok "TickElapsed"%string
  | Event_HashResult _ _ => Ok "HashResult"%string
  | Event_CheckpointResult _ => Ok "CheckpointResult"%string
  | Event_RequestPersisted _ => Ok "RequestPersisted"%string
  | Event_ActionsReceived => Ok "ActionsReceived"%string
  | Event_Step _ _ => Ok "Step"%string
  | Event_StateTransferComplete _ _ _ => Ok "StateTransferComplete"%string
  | Event_StateTransferFailed _ _ => Ok "StateTransferFailed"%string
  | Event_unset => Panic "Unknown event type '<nil>'"
  end.

Definition stepTypeText (msg : Msg) : outcome string :=
  match msg with
  | Msg_Preprepare _ => Ok "Preprepare"%string
  | Msg_Prepare _ => Ok "Prepare"%string
  | Msg_Commit _ => Ok "Commit"%string
  | Msg_Checkpoint _ => Ok "Checkpoint"%string
  | Msg_Suspect _ => Ok "Suspect"%string
  | Msg_EpochChange _ => Ok "EpochChange"%string
  | Msg_EpochChangeAck _ => Ok "EpochChangeAck"%string
  | Msg_NewEpoch _ => Ok "NewEpoch"%string
  | Msg_NewEpochEcho _ => Ok "NewEpochEcho"%string
  | Msg_NewEpochReady _ => Ok "NewEpochReady"%string
  | Msg_FetchBatch _ => Ok "FetchBatch"%string
  | Msg_ForwardBatch _ => Ok "ForwardBatch"%string
  | Msg_FetchRequest _ => Ok "FetchRequest"%string
  | Msg_ForwardRequest _ => Ok "ForwardRequest"%string
  | Msg_RequestAck _ => Ok "RequestAck"%string
  | Msg_unset => Panic "unknown message type"
  end.

Definition arguments_shouldPrint (a : arguments) (event : recordedEvent) : outcome bool :=
  text ← eventTypeText (re_StateEvent event);
  if excludeByType text (ar_eventTypes a) (ar_notEventTypes a) then Ok false
  else match re_StateEvent event with
       | Event_Step _ msg =>
         stepText ← stepTypeText msg;
         Ok (negb (excludeByType stepText (ar_stepTypes a) (ar_notStepTypes a)))
       | _ => Ok true
       end.

(** ** Arguments *)

(** What the flag library returns for the command line. *)
Record flags := mkFlags {
  fl_interactive : bool;
  fl_nodeIDs : option (list Z);
  fl_eventTypes : option (list string);
  fl_notEventTypes : option (list string);
  fl_stepTypes : option (list string);
  fl_notStepTypes : option (list string);
  fl_verboseText : bool;
  fl_statusIndices : option (list Z);
  fl_logLevel : string;
}.

Definition given {A : Type} (o : option A) : bool := match o with Some _ => true | None => false end.

Definition parseArgs (parsed : fallible flags) : fallible arguments :=
  match parsed with
  | Failed err => Failed err
  | Returned f =>
    if given (fl_eventTypes f) && given (fl_notEventTypes f) then Failed "cannot set both --eventType and --notEventType"
    else if given (fl_stepTypes f) && given (fl_notStepTypes f) then Failed "cannot set both --stepType and --notStepType"
    else if given (fl_statusIndices f) && negb (fl_interactive f) then Failed "cannot set status indices for non-interactive playback"
    else if negb (String.eqb (fl_logLevel f) "") && negb (fl_interactive f) then Failed "cannot set logLevel for non-interactive playback"
    else Returned (mkArguments (fl_interactive f) (if String.eqb (fl_logLevel f) "" then "info" else fl_logLevel f)%string (fl_nodeIDs f)
           (fl_eventTypes f) (fl_notEventTypes f) (fl_stepTypes f) (fl_notStepTypes f) (fl_statusIndices f) (fl_verboseText f))
  end.

(** ** Replay *)

Record replayedNode := mkReplayedNode {
  rn_machine : StateMachine;
  rn_pendingActions : ActionList;
}.

Definition newReplayedNode : replayedNode := mkReplayedNode emptyStateMachine [].

Section Replay.

Context `{PE : ProtoEqual} `{CR : ConfigRange} `{KR : CheckpointRange} `{Range : MapRange} `{Size : ProtoSize} `{ER : EpochRange}.
Context `{Orders : CheckpointOrders}.
Variable fuel : nat.

(** [nodes[event.NodeId]] after the first statements of [apply]. *)
Definition nodeFor (nodes : gmap Z replayedNode) (event : recordedEvent) : option replayedNode :=
  match re_StateEvent event with
  | Event_Initialize _ => Some newReplayedNode
  | _ => nodes !! re_NodeId event
  end.

(** [apply].  A panic of the state machine becomes an error, and its text that
    of the error. *)
Definition stateMachines_apply (nodes : gmap Z replayedNode) (event : recordedEvent)
    : outcome (gmap Z replayedNode * fallible (option ActionList)) :=
  let id := re_NodeId event in
  match nodeFor nodes event with
  | None =>
    text ← eventTypeText (re_StateEvent event);
    Ok (nodes, Failed ("malformed log: node " +:+ pretty id +:+ " attempted to apply event of type *state.Event_" +:+ text
          +:+ " without initializing first."))
  | Some node =>
    match StateMachine_applyEvent fuel (rn_machine node) (re_StateEvent event) with
    | OutOfFuel => OutOfFuel
    | Panic r =>
      Ok (<[id := node]> nodes, Failed ("node " +:+ pretty id +:+ " panic-ed while applying state event to state machine:" +:+ newline +:+ newline +:+ r))
    | Ok (machine, actions) =>
      let pending := ActionList_PushBackList (rn_pendingActions node) actions in
      match re_StateEvent event with
      | Event_ActionsReceived => Ok (<[id := mkReplayedNode machine []]> nodes, Returned (Some pending))
      | _ => Ok (<[id := mkReplayedNode machine pending]> nodes, Returned None)
      end
    end
  end.

Definition stateMachines_status (nodes : gmap Z replayedNode) (event : recordedEvent) : outcome StateMachineStatus :=
  node ← deref (nodes !! re_NodeId event) "nil pointer dereference: node";
  StateMachine_Status (rn_machine node).

(** ** Execution *)

Context `{EC : EventCodec}.
Variable truncated : readError.
(** The reflection of events and actions, and the time a node took. *)
Variable reflectEvent : recordedEvent -> list protoField * list (option nat).
Variable reflectAction : Action -> list protoField * list (option nat).
Variable executionTime : Z -> string.

Definition eventText (a : arguments) (event : recordedEvent) : outcome (fallible string) :=
  textFormat (negb (ar_verboseText a)) (reflectEvent event).1 (reflectEvent event).2.

Fixpoint actionTexts (a : arguments) (actions : ActionList) : outcome (list string * option string) :=
  match actions with
  | [] => Ok ([], None)
  | action :: actions' =>
    text ← textFormat (negb (ar_verboseText a)) (reflectAction action).1 (reflectAction action).2;
    match text with
    | Failed err => Ok ([], Some ("could not marshal actions: " +:+ err))
    | Returned text =>
      '(texts, err) ← actionTexts a actions';
      Ok (("       actions: " +:+ text +:+ newline) :: texts, err)
    end
  end.

Definition isStatusIndex (a : arguments) (index : Z) : bool := existsb (fun i => i =? index) (default [] (ar_statusIndices a)).

(** The line of an event. *)
Definition printEvent (a : arguments) (index : Z) (event : recordedEvent) : outcome (list string * option string) :=
  print ← (if isStatusIndex a index then Ok true else arguments_shouldPrint a event);
  if print : bool then
    text ← eventText a event;
    match text with
    | Failed err => Ok ([], Some ("could not marshal event: " +:+ err))
    | Returned text => Ok ([padLeft 6 (" " +:+ pretty index) +:+ " " +:+ text +:+ newline], None)
    end
  else Ok ([], None).

(** The interactive part of an iteration. *)
Definition applyEvent (a : arguments) (index : Z) (nodes : gmap Z replayedNode) (event : recordedEvent)
    : outcome (gmap Z replayedNode * list string * option string) :=
  '(nodes, res) ← stateMachines_apply nodes event;
  match res with
  | Failed err => Ok (nodes, [], Some err)
  | Returned actions =>
    '(texts, err) ← actionTexts a (default [] actions);
    match err with
    | Some err => Ok (nodes, texts, Some err)
    | None =>
      if isStatusIndex a index then
        status ← stateMachines_status nodes event;
        text ← StateMachineStatus_Pretty status;
        Ok (nodes, texts ++ [text; newline], None)
      else Ok (nodes, texts, None)
    end
  end.

(** One event of the loop. *)
Definition executeEvent (a : arguments) (index : Z) (nodes : gmap Z replayedNode) (event : recordedEvent)
    : outcome (gmap Z replayedNode * list string * option string) :=
  if excludedByNodeID event (ar_nodeIDs a) then Ok (nodes, [], None)
  else
    '(line, err) ← printEvent a index event;
    match err with
    | Some err => Ok (nodes, line, Some err)
    | None =>
      if ar_interactive a then
        '(nodes, texts, err) ← applyEvent a index nodes event;
        Ok (nodes, line ++ texts, err)
      else Ok (nodes, line, None)
    end.

(** The loop over the log; every iteration reads a record. *)
Fixpoint executeLoop (steps : nat) (a : arguments) (reader : Reader) (index : Z) (nodes : gmap Z replayedNode) (output : list string)
    : outcome (gmap Z replayedNode * list string * option string) :=
  match steps with
  | O => OutOfFuel
  | S steps' =>
    '(reader, res) ← Reader_ReadEvent truncated reader;
    match res with
    | inr AtEOF => Ok (nodes, output, None)
    | inr (ReadFailure err) => Ok (nodes, output, Some ("failed reading input: " +:+ err))
    | inl event =>
      let index := index +! 1 in
      '(nodes, texts, err) ← executeEvent a index nodes event;
      match err with
      | Some err => Ok (nodes, output ++ texts, Some err)
      | None => executeLoop steps' a reader index nodes (output ++ texts)
      end
    end
  end.

(** The nodes the report at the end names: the requested ones, or all in order. *)
Definition reportedNodes (a : arguments) (nodes : gmap Z replayedNode) : list Z :=
  match ar_nodeIDs a with
  | Some nodeIDs => nodeIDs
  | None => sortByKey id (map_to_list nodes).*1
  end.

(** A record takes at least one byte. *)
Definition arguments_execute (a : arguments) (input : bytes) : outcome (list string * option string) :=
  '(nodes, output, err) ← executeLoop (S (length input)) a (NewReader input) 0 ∅ [];
  match err with
  | Some err => Ok (output, Some err)
  | None =>
    if ar_interactive a then
      output ← forRange (fun nodeID output =>
          _ ← deref (nodes !! nodeID) "nil pointer dereference: node";
          Ok (output ++ ["Node " +:+ pretty nodeID +:+ " successfully completed execution in " +:+ executionTime nodeID +:+ newline]))
        (reportedNodes a nodes) output;
      Ok (output, None)
    else Ok (output, None)
  end.

(** ** Specification *)

(** The events of one node, in the order of the log. *)
Definition eventsOf (id : Z) (events : list recordedEvent) : list Event :=
  re_StateEvent <$> filter (fun e => re_NodeId e = id) events.

(** The message of a step and the event have a type. *)
Definition typed (e : recordedEvent) : Prop :=
  match re_StateEvent e with
  | Event_unset => False
  | Event_Step _ Msg_unset => False
  | _ => True
  end.

(** A replayed node is the machine that applied [events]; what is pending is
    what the machine has returned since the consumer last received actions. *)
Definition replays (events : list Event) (n : replayedNode) : Prop :=
  exists acts printed, runEvents fuel emptyStateMachine events = Ok (rn_machine n, acts) /\ acts = printed ++ rn_pendingActions n.

(** The replay of a prefix of the log. *)
Definition replayed (events : list recordedEvent) (nodes : gmap Z replayedNode) : Prop :=
  forall id, match eventsOf id events with
             | [] => nodes !! id = None
             | _ => exists n, nodes !! id = Some n /\ replays (eventsOf id events) n
             end.

(** ** Lemmas: one event *)

Lemma eventsOf_snoc (id : Z) (events : list recordedEvent) (e : recordedEvent) :
  eventsOf id (events ++ [e]) = eventsOf id events ++ (if decide (re_NodeId e = id) then [re_StateEvent e] else []).
Proof. unfold eventsOf. rewrite filter_app, fmap_app, filter_cons, filter_nil. f_equal. by case_decide. Qed.

Lemma runEvents_app_inv (sm sm' : StateMachine) (l1 l2 : list Event) (acts : ActionList) :
  runEvents fuel sm (l1 ++ l2) = Ok (sm', acts) ->
  exists sm1 a1 a2, runEvents fuel sm l1 = Ok (sm1, a1) /\ runEvents fuel sm1 l2 = Ok (sm', a2) /\ acts = a1 ++ a2.
Proof.
  revert sm acts. induction l1 as [|e l1 IH]; intros sm acts H; [by exists sm, [], acts |]. cbn [app runEvents] in H |- *.
  apply bind_Ok in H as ([sm1 b1] & H1 & H). apply bind_Ok in H as ([sm2 b2] & H2 & [= <- <-]). apply IH in H2 as (sm3 & a1 & a2 & Hr1 & Hr2 & ->).
  exists sm3, (b1 ++ a1), a2. rewrite H1, bind_ok, Hr1. split_and!; [done | done |]. unfold ActionList_concat. by rewrite app_assoc.
Qed.

(** A machine that has been initialized is never initialized again. *)
Definition started (sm : StateMachine) : Prop := sm_wf sm /\ sm_state sm <> smUninitialized.

Lemma applyEvent_started (sm sm' : StateMachine) (e : Event) (acts : ActionList) :
  started sm -> StateMachine_applyEvent fuel sm e = Ok (sm', acts) -> started sm' /\ forall p, e <> Event_Initialize p.
Proof.
  intros [Hwf Hs] H. pose proof (applyEvent_order fuel sm e Hwf) as Ho. destruct (lifecycle (sm_state sm) e) as [s |] eqn:Hl.
  - destruct (Ho sm' acts H) as [Hst Hwf']. split; [split; [done |] |].
    + rewrite Hst. intros ->. by destruct e, (sm_state sm).
    + intros p ->. by destruct (sm_state sm).
  - destruct Ho as [why Ho]. by rewrite Ho in H.
Qed.

Lemma runEvents_started (sm sm' : StateMachine) (l : list Event) (acts : ActionList) :
  started sm -> runEvents fuel sm l = Ok (sm', acts) -> started sm'.
Proof.
  revert sm acts. induction l as [|e l IH]; intros sm acts Hs H; cbn [runEvents] in H; [by injection H as <- |].
  apply bind_Ok in H as ([sm1 a1] & H1 & H). apply bind_Ok in H as ([sm2 a2] & H2 & [= <- <-]). eapply IH; [| exact H2]. by apply (applyEvent_started sm sm1 e a1).
Qed.

Lemma initialized_started (p : EventInitialParameters) (l : list Event) (sm : StateMachine) (acts : ActionList) :
  runEvents fuel emptyStateMachine (Event_Initialize p :: l) = Ok (sm, acts) -> started sm.
Proof.
  intros H. cbn [runEvents] in H. apply bind_Ok in H as ([sm1 a1] & H1 & H). apply bind_Ok in H as ([sm2 a2] & H2 & [= <- <-]).
  eapply runEvents_started; [| exact H2]. apply bind_Ok in H1 as (sm0 & H1 & [= <- _]). unfold StateMachine_initialize in H1. cbn in H1.
  injection H1 as <-. by split; [eexists |].
Qed.

(** A log in which the events of each node are a run that starts with its
    initialization. *)
Definition wellRecorded (events : list recordedEvent) : Prop :=
  forall id, eventsOf id events <> [] ->
    exists p l sm acts, eventsOf id events = Event_Initialize p :: l /\ runEvents fuel emptyStateMachine (eventsOf id events) = Ok (sm, acts).

Lemma wellRecorded_prefix (events : list recordedEvent) (e : recordedEvent) : wellRecorded (events ++ [e]) -> wellRecorded events.
Proof.
  intros Hw id Hne. destruct (Hw id) as (p & l & sm & acts & He & Hr).
  { rewrite eventsOf_snoc. by destruct (eventsOf id events). }
  rewrite eventsOf_snoc in He, Hr. apply runEvents_app_inv in Hr as (sm1 & a1 & a2 & Hr & _). destruct (eventsOf id events) as [|ev l1] eqn:Hev; [done |].
  injection He as -> _. by exists p, l1, sm1, a1.
Qed.

Lemma apply_replays (events : list recordedEvent) (nodes : gmap Z replayedNode) (e : recordedEvent) :
  replayed events nodes -> wellRecorded (events ++ [e]) ->
  exists nodes' res, stateMachines_apply nodes e = Ok (nodes', Returned res) /\ replayed (events ++ [e]) nodes'.
Proof.
  intros Hn Hw. set (id := re_NodeId e). set (ev := re_StateEvent e).
  assert (Hid : eventsOf id (events ++ [e]) = eventsOf id events ++ [ev]) by (rewrite eventsOf_snoc; by rewrite decide_True).
  destruct (Hw id) as (p & l & sm & acts & He & Hr); [rewrite Hid; by destruct (eventsOf id events) |].
  rewrite Hid in He, Hr. apply runEvents_app_inv in Hr as (sm1 & a1 & a2 & Hr1 & Hr2 & ->).
  cbn [runEvents] in Hr2. apply bind_Ok in Hr2 as ([sm2 b2] & Hap & [= <- <-]).
  assert (Hnode : exists n, nodeFor nodes e = Some n /\ rn_machine n = sm1 /\ exists printed, a1 = printed ++ rn_pendingActions n).
  { unfold nodeFor. fold ev id. pose proof (Hn id) as Hid'. destruct (eventsOf id events) as [|ev0 l0] eqn:Hev.
    - injection He as -> _. cbn in Hr1. injection Hr1 as <- <-. exists newReplayedNode. split_and!; [done | done | by exists []].
    - destruct Hid' as (n & Hl & acts0 & printed & Hrun & Hpend). rewrite Hr1 in Hrun. injection Hrun as -> ->. injection He as -> _.
      apply initialized_started in Hr1 as Hst. destruct (applyEvent_started _ _ _ _ Hst Hap) as [_ Hni].
      exists n. split; [| split; [done | by exists printed]]. destruct ev; try done. by destruct (Hni params). }
  destruct Hnode as (n & Hnode & Hm & printed & ->). unfold stateMachines_apply. rewrite Hnode, Hm. fold ev. rewrite Hap.
  assert (Hins : forall n', replays (eventsOf id events ++ [ev]) n' -> replayed (events ++ [e]) (<[id := n']> nodes)).
  { intros n' Hn' i. destruct (decide (i = id)) as [-> | Hne].
    - rewrite Hid. destruct (eventsOf id events ++ [ev]) eqn:Hx; [by destruct (eventsOf id events) |]. exists n'. split; [apply lookup_insert_eq | exact Hn'].
    - rewrite eventsOf_snoc, decide_False, app_nil_r by (by intros <-). rewrite lookup_insert_ne by done. apply Hn. }
  assert (Hrun : runEvents fuel emptyStateMachine (eventsOf id events ++ [ev]) = Ok (sm2, (printed ++ rn_pendingActions n) ++ b2)) by (by eapply runEvents_snoc).
  destruct (decide (ev = Event_ActionsReceived)) as [Heq | Hne].
  - rewrite Heq. eexists _, _. split; [reflexivity |]. apply Hins. eexists _, _. split; [exact Hrun |]. cbn. by rewrite app_nil_r.
  - exists (<[id := mkReplayedNode sm2 (ActionList_PushBackList (rn_pendingActions n) b2)]> nodes), None. split; [by destruct ev |].
    apply Hins. exists ((printed ++ rn_pendingActions n) ++ b2), printed. split; [exact Hrun |]. cbn. unfold ActionList_PushBackList. by rewrite app_assoc.
Qed.

Lemma wellRecorded_app (events rest : list recordedEvent) : wellRecorded (events ++ rest) -> wellRecorded events.
Proof.
  induction rest as [|e rest IH] using rev_ind; [by rewrite app_nil_r |]. rewrite app_assoc. intros H. by apply IH, (wellRecorded_prefix _ e).
Qed.

(** ** Lemmas: the loop over the log *)

Section Run.

Variable a : arguments.
Hypothesis Hinteractive : ar_interactive a = true.
Hypothesis Hall : ar_nodeIDs a = None.
Hypothesis Hstatus : ar_statusIndices a = None.
Hypothesis Hevents : forall e, printable (VMessage (reflectEvent e).1 (reflectEvent e).2).
Hypothesis Hactions : forall action, printable (VMessage (reflectAction action).1 (reflectAction action).2).

Lemma actionTexts_ok (actions : ActionList) : exists texts, actionTexts a actions = Ok (texts, None).
Proof using Hactions.
  induction actions as [|action actions [texts IH]]; [by exists [] |]. cbn [actionTexts]. rewrite textFormat_printable, bind_ok by apply Hactions.
  rewrite IH, bind_ok. eauto.
Qed.

Lemma printEvent_ok (index : Z) (e : recordedEvent) : typed e -> exists line, printEvent a index e = Ok (line, None).
Proof using Hstatus Hevents.
  intros Ht. unfold printEvent, isStatusIndex. rewrite Hstatus. cbn [default existsb].
  assert (Hp : exists b, arguments_shouldPrint a e = Ok b).
  { unfold typed in Ht. unfold arguments_shouldPrint. destruct (re_StateEvent e) as [| | | | | | | |source msg| | |]; cbn [eventTypeText]; rewrite ?bind_ok;
      try (destruct (excludeByType _ _ _); eauto; done); [| done].
    destruct (excludeByType _ _ _); [eauto |]. destruct msg; cbn [stepTypeText]; rewrite ?bind_ok; eauto; done. }
  destruct Hp as [b ->]. rewrite bind_ok. destruct b; [| eauto]. unfold eventText. rewrite textFormat_printable, bind_ok by apply Hevents. eauto.
Qed.

Lemma executeEvent_replays (index : Z) (events : list recordedEvent) (nodes : gmap Z replayedNode) (e : recordedEvent) :
  typed e -> replayed events nodes -> wellRecorded (events ++ [e]) ->
  exists nodes' texts, executeEvent a index nodes e = Ok (nodes', texts, None) /\ replayed (events ++ [e]) nodes'.
Proof using Hinteractive Hall Hstatus Hevents Hactions.
  intros Ht Hn Hw. unfold executeEvent, excludedByNodeID. rewrite Hall. destruct (printEvent_ok index e Ht) as [line ->]. rewrite bind_ok, Hinteractive.
  destruct (apply_replays events nodes e Hn Hw) as (nodes' & res & Ha & Hn'). unfold applyEvent. rewrite Ha, bind_ok.
  destruct (actionTexts_ok (default [] res)) as [texts ->]. rewrite bind_ok. unfold isStatusIndex. rewrite Hstatus. cbn [default existsb]. rewrite bind_ok. eauto.
Qed.

Context {Laws : EventCodecLaws}.

Lemma executeLoop_replays (rest events : list recordedEvent) (out : bytes) (steps : nat) (index : Z) (nodes : gmap Z replayedNode) (output : list string) :
  streamOf rest out -> Z.of_nat (length out) < 2 ^ 63 -> (length rest < steps)%nat -> Forall typed rest -> replayed events nodes ->
  wellRecorded (events ++ rest) ->
  exists nodes' output', executeLoop steps a (mkReader out []) index nodes output = Ok (nodes', output', None) /\ replayed (events ++ rest) nodes'.
Proof using Hinteractive Hall Hstatus Hevents Hactions Laws.
  intros Hs Hl Hst Ht. revert events out steps index nodes output Hs Hl Hst.
  induction Ht as [|e rest Hte _ IH]; intros events out steps index nodes output Hs Hl Hst Hn Hw; apply stream_cons in Hs; (destruct steps as [|steps]; [cbn in Hst; lia |]).
  - subst out. cbn [executeLoop]. exists nodes, output. rewrite app_nil_r. by split.
  - destruct Hs as (b & out' & Hm & -> & Hs). rewrite !length_app in Hl. cbn [executeLoop]. rewrite (read_record _ e b out' Hm), bind_ok by lia.
    rewrite cons_middle, app_assoc in Hw |- *.
    destruct (executeEvent_replays (index +! 1) events nodes e Hte Hn (wellRecorded_app _ _ Hw)) as (nodes1 & texts & -> & Hn1). rewrite bind_ok.
    apply IH; [done | lia | cbn in Hst; lia | done | done].
Qed.

End Run.

Lemma stream_length (events : list recordedEvent) (out : bytes) : streamOf events out -> (length events <= length out)%nat.
Proof.
  induction 1 as [|events out e b _ IH _]; [done |]. rewrite !length_app. cbn [length].
  assert (Hp : forall x, (0 < length (PutVarint x))%nat).
  { intros x. unfold PutVarint, PutUvarint. cbn [putUvarintLoop]. destruct (_ <? 128); cbn; lia. }
  specialize (Hp (s64 (Z.of_nat (length b)))). lia.
Qed.

(** ** Properties *)


End Replay.

(** Four of the names of event types the flags accept are names of no
    event: LoadEntry, Tick, AddResults and ClientActionsReceived, left over from
    an older set of events.  To include only such a type prints nothing, and to
    exclude it excludes nothing. *)
Theorem stale_event_types_match_nothing (name : string) (event : recordedEvent) :
  name ∈ ["LoadEntry"; "Tick"; "AddResults"; "ClientActionsReceived"]%string -> typed event ->
  name ∈ allEventTypes
  /\ (forall a, ar_eventTypes a = Some [name] -> arguments_shouldPrint a event = Ok false)
  /\ (forall a b, ar_eventTypes a = None -> ar_notEventTypes a = Some [name] -> ar_eventTypes b = None -> ar_notEventTypes b = None ->
        ar_stepTypes a = ar_stepTypes b -> ar_notStepTypes a = ar_notStepTypes b -> arguments_shouldPrint a event = arguments_shouldPrint b event).
Proof.
  intros Hname Ht. split; [rewrite !elem_of_cons, elem_of_nil in Hname; unfold allEventTypes; rewrite !elem_of_cons; tauto |].
  assert (Htext : exists text, eventTypeText (re_StateEvent event) = Ok text /\ String.eqb name text = false).
  { unfold typed in Ht. rewrite !elem_of_cons, elem_of_nil in Hname.
    destruct (re_StateEvent event); try done; cbn [eventTypeText]; eexists; (split; [reflexivity |]); by destruct Hname as [-> | [-> | [-> | [-> | []]]]]. }
  destruct Htext as (text & Htext & Hne). unfold arguments_shouldPrint. rewrite Htext. split.
  - intros a Ha. rewrite bind_ok, Ha. cbn [excludeByType existsb]. rewrite Hne. done.
  - intros a b Ha1 Ha2 Hb1 Hb2 Hs1 Hs2. rewrite !bind_ok, Ha1, Ha2, Hb1, Hb2, Hs1, Hs2. cbn [excludeByType from_option id existsb]. by rewrite Hne.
Qed.

(** ** Witnesses *)

#[local] Existing Instance fieldsEqual.
#[local] Existing Instance plainConfigRange.
#[local] Existing Instance plainCheckpointRange.
#[local] Existing Instance canonicalRange.
#[local] Existing Instance unitSize.
#[local] Existing Instance plainEpochRange.
#[local] Existing Instance plainOrders.

Definition tickArguments : arguments := mkArguments false "info" None (Some ["Tick"%string]) None None None None false.

Lemma stale_event_types_match_nothing_witness : arguments_shouldPrint tickArguments (mkRecordedEvent 1 0 Event_TickElapsed) = Ok false.
Proof.
  apply (stale_event_types_match_nothing "Tick" (mkRecordedEvent 1 0 Event_TickElapsed)); [apply (bool_decide_unpack _) | |]; exact I || reflexivity.
Defined.

(** The log of the node of [Serializer]. *)
Definition ranLog : list recordedEvent := (fun e => mkRecordedEvent 2 0 e) <$> sz_applied ranNode.

#[local] Instance recordedEvent_eq_dec : EqDecision recordedEvent.
Proof. solve_decision. Defined.

(** An encoding of the events of a table by their position. *)
Definition tableCodec (table : list recordedEvent) : EventCodec := {|
  marshal := fun e => match list_find (fun x => x = e) table with Some (i, _) => Returned [Z.of_nat i] | None => Failed "unknown"%string end;
  unmarshal := fun b => match b with
    | [i] => match table !! Z.to_nat i with Some e => Returned e | None => Failed "malformed"%string end
    | _ => Failed "malformed"%string
    end;
|}.

Lemma tableCodec_laws (table : list recordedEvent) : @EventCodecLaws (tableCodec table).
Proof.
  split. intros e b. cbn. destruct (list_find _ table) as [[i x] |] eqn:Hf; [| done]. intros [= <-]. apply list_find_Some in Hf as (Hi & -> & _).
  by rewrite Nat2Z.id, Hi.
Qed.

Definition ranTable : list recordedEvent := Eval vm_compute in ranLog.
Definition ranCodec : EventCodec := tableCodec ranTable.
#[local] Existing Instance ranCodec.

Definition writeAll (events : list recordedEvent) : bytes := foldl (fun out e => (WriteRecordedEvent noError out e).1) [] events.

Lemma writeAll_stream (events : list recordedEvent) :
  Forall (fun e => match marshal e with Returned _ => True | Failed _ => False end) events -> streamOf events (writeAll events).
Proof.
  induction events as [|e events IH] using rev_ind; intros Hf; [constructor |]. apply Forall_app in Hf as [Hf He].
  unfold writeAll. rewrite foldl_app. cbn [foldl]. fold (writeAll events). apply (write_stream noError _ (writeAll events)); [by apply IH |].
  inversion He as [|? ? Hm _]; subst. unfold WriteRecordedEvent, writeSizePrefixedProto. by destruct (marshal e).
Qed.

Lemma ranLog_events (id : Z) : eventsOf id ranLog = if decide (id = 2) then sz_applied ranNode else [].
Proof.
  unfold eventsOf, ranLog. case_decide as Hid.
  - subst id. rewrite filter_all; [| intros e He; by apply list_elem_of_fmap in He as (x & -> & _)].
    rewrite <- list_fmap_compose. apply list_fmap_id.
  - rewrite filter_none; [done |]. intros e He. apply list_elem_of_fmap in He as (x & -> & _). cbn. congruence.
Qed.

Definition reflectNode (e : recordedEvent) : list protoField * list (option nat) := ([uintField "node_id" (re_NodeId e)], []).
Definition reflectNothing (a : Action) : list protoField * list (option nat) := ([], []).
Definition replayArguments : arguments := mkArguments true "info" None None None None None None false.

Lemma reflectNode_printable (e : recordedEvent) : printable (VMessage (reflectNode e).1 (reflectNode e).2).
Proof.
  constructor; [apply grouped_plain; [done |]; by apply grouped_end |]. intros f [<- | []]. constructor. constructor.
Qed.

Lemma reflectNothing_printable (a : Action) : printable (VMessage (reflectNothing a).1 (reflectNothing a).2).
Proof. constructor; [by apply grouped_end | by intros f []]. Qed.


(** A node that is asked for and has no event in the log crashes the report at
    the end. *)
Example requested_node_missing :
  arguments_execute 10 ErrUnexpectedEOF reflectNode reflectNothing (fun _ => ""%string)
    (mkArguments true "info" (Some [7]) None None None None None false) [] = Panic "nil pointer dereference: node".
Proof. reflexivity. Qed.
